(** * Debate arena: the orchestrator of [backend/orchestrator.py]

    A shallow embedding of the debate execution engine: the vote parser
    and tallier, the transcript renderer, the per-phase dispatcher, the
    step-mode and auto-mode drivers, finalization and cancellation,
    together with the data model of [backend/models.py] and the keyed store
    of [backend/storage.py].

    Python values are modelled as follows.
    - [str] is a list of Unicode code points ([list N]).
    - [int] is [Z]; list indexing follows Python (negative indices count
      from the end, out of range raises [IndexError]).
    - A raised exception is the [Raise] branch of [result].
    - The dictionaries keyed by run id are [gmap]s; the run object that the
      store, the drivers and [cancel] all alias is the map entry of its id.
    - The remote chat call is an input of the model: a reply is either the
      returned text or the message of the exception it raised. *)

From Stdlib Require Import ZArith NArith List String Ascii Bool Lia DecimalString.
From stdpp Require Import gmap list.

Local Open Scope N_scope.

(** ** Python strings *)

Module PyStr.

(** A string literal of the source, as code points (ASCII literals only). *)
Definition py (s : string) : list N :=
  List.map N_of_ascii (list_ascii_of_string s).

(** [str.isspace] for one code point: the Unicode white space of CPython
    ([_PyUnicode_IsWhitespace]). *)
Definition isspace (c : N) : bool :=
  ((9 <=? c) && (c <=? 13)) || ((28 <=? c) && (c <=? 32))
  || (c =? 133) || (c =? 160) || (c =? 5760)
  || ((8192 <=? c) && (c <=? 8202))
  || (c =? 8232) || (c =? 8233) || (c =? 8239) || (c =? 8287) || (c =? 12288).

(** The line boundaries of [str.splitlines] ([_PyUnicode_IsLinebreak]). *)
Definition islinebreak (c : N) : bool :=
  ((10 <=? c) && (c <=? 13)) || ((28 <=? c) && (c <=? 30))
  || (c =? 133) || (c =? 8232) || (c =? 8233).

Fixpoint dropwhile (p : N -> bool) (s : list N) : list N :=
  match s with
  | [] => []
  | c :: s' => if p c then dropwhile p s' else s
  end.

Definition lstrip_with (p : N -> bool) (s : list N) : list N := dropwhile p s.
Definition rstrip_with (p : N -> bool) (s : list N) : list N :=
  rev (dropwhile p (rev s)).

(** [s.strip()] *)
Definition strip (s : list N) : list N := lstrip_with isspace (rstrip_with isspace s).

Definition mem (c : N) (chars : list N) : bool := existsb (N.eqb c) chars.

(** [s.lstrip(chars)] *)
Definition lstrip (chars : list N) (s : list N) : list N :=
  lstrip_with (fun c => mem c chars) s.

(** [s.splitlines()]: [cur] is the current line, reversed.  A carriage
    return followed by a line feed is one boundary; no empty last line. *)
Fixpoint splitlines_from (cur : list N) (s : list N) : list (list N) :=
  match s with
  | [] => match cur with [] => [] | _ => [rev cur] end
  | c :: rest =>
      if islinebreak c then
        match rest with
        | d :: rest' =>
            if (c =? 13) && (d =? 10)
            then rev cur :: splitlines_from [] rest'
            else rev cur :: splitlines_from [] rest
        | [] => [rev cur]
        end
      else splitlines_from (c :: cur) rest
  end.

Definition splitlines (s : list N) : list (list N) := splitlines_from [] s.

Fixpoint startswith (p s : list N) : bool :=
  match p, s with
  | [], _ => true
  | a :: p', b :: s' => (a =? b) && startswith p' s'
  | _ :: _, [] => false
  end.

Fixpoint eqb (a b : list N) : bool :=
  match a, b with
  | [], [] => true
  | x :: a', y :: b' => (x =? y) && eqb a' b'
  | _, _ => false
  end.

Definition isascii (c : N) : bool := c <? 128.

Definition ascii_lower (c : N) : N :=
  if (65 <=? c) && (c <=? 90) then c + 32 else c.

Definition ascii_alnum (c : N) : bool :=
  ((48 <=? c) && (c <=? 57)) || ((65 <=? c) && (c <=? 90))
  || ((97 <=? c) && (c <=? 122)).

(** ["\n".join(lines)] *)
Fixpoint join_lines (lines : list (list N)) : list N :=
  match lines with
  | [] => []
  | [l] => l
  | l :: rest => l ++ 10 :: join_lines rest
  end.

(** [str(n)] for an [int]. *)
Definition of_Z (z : Z) : list N := py (NilZero.string_of_int (Z.to_int z)).

End PyStr.

(** ** Exceptions *)

Inductive exn : Type :=
| ValueError (msg : list N)      (* raised by the orchestrator itself *)
| IndexError                     (* list index out of range *)
| KeyError                       (* missing dictionary key *)
| ValidationError                (* a pydantic model refused a field value *)
| ChatError (msg : list N).      (* an exception of the chat client, uncaught *)

Inductive result (A : Type) : Type :=
| Ok (a : A)
| Raise (e : exn).
Arguments Ok {A} a.
Arguments Raise {A} e.

Definition bind {A B : Type} (r : result A) (k : A -> result B) : result B :=
  match r with
  | Ok a => k a
  | Raise e => Raise e
  end.

(** ** A backtracking matcher for the regular expressions of [re]

    Only the constructs that the vote pattern uses.  Alternatives are tried
    left to right, [?] and [*] are greedy, and a failure further right
    backtracks into them, as [re.match] does. *)

Module Re.

Inductive regex : Type :=
| Bol                              (* ^ *)
| Lit (s : list N)                 (* a literal string *)
| Class (p : N -> bool)            (* one character of a class *)
| StarClass (p : N -> bool)        (* a class, repeated: [\s*] *)
| Opt (r : regex)                  (* r? *)
| Alt (r1 r2 : regex)              (* r1|r2 *)
| Seq (r1 r2 : regex)
| Group (r : regex)                (* the capturing group *)
| WordB.                           (* \b *)

Section Matcher.
(** [\w] of the pattern's alphabet. *)
Variable isword : N -> bool.

Definition opt_word (o : option N) : bool :=
  match o with Some c => isword c | None => false end.

(** The continuation receives the last character consumed so far, the
    rest of the subject, and the text captured by the group. *)
Definition cont : Type :=
  option N -> list N -> option (list N) -> option (option (list N)).

Fixpoint lit (l : list N) (prev : option N) (s : list N) : option (option N * list N) :=
  match l, s with
  | [], _ => Some (prev, s)
  | a :: l', b :: s' => if a =? b then lit l' (Some b) s' else None
  | _ :: _, [] => None
  end.

Fixpoint star (p : N -> bool) (prev : option N) (s : list N)
         (k : option N -> list N -> option (option (list N)))
  : option (option (list N)) :=
  match s with
  | c :: s' =>
      if p c then
        match star p (Some c) s' k with
        | Some r => Some r
        | None => k prev s
        end
      else k prev s
  | [] => k prev s
  end.

Fixpoint run (r : regex) (prev : option N) (s : list N) (cap : option (list N))
         (k : cont) : option (option (list N)) :=
  match r with
  | Bol => match prev with None => k prev s cap | Some _ => None end
  | Lit l =>
      match lit l prev s with
      | Some (prev', s') => k prev' s' cap
      | None => None
      end
  | Class p =>
      match s with
      | c :: s' => if p c then k (Some c) s' cap else None
      | [] => None
      end
  | StarClass p => star p prev s (fun prev' s' => k prev' s' cap)
  | Opt r1 =>
      match run r1 prev s cap k with
      | Some res => Some res
      | None => k prev s cap
      end
  | Alt r1 r2 =>
      match run r1 prev s cap k with
      | Some res => Some res
      | None => run r2 prev s cap k
      end
  | Seq r1 r2 =>
      run r1 prev s cap (fun prev' s' cap' => run r2 prev' s' cap' k)
  | Group r1 =>
      run r1 prev s cap
        (fun prev' s' _ =>
           k prev' s' (Some (firstn (length s - length s') s)))
  | WordB =>
      match s with
      | c :: _ => if xorb (opt_word prev) (isword c) then k prev s cap else None
      | [] => if opt_word prev then k prev s cap else None
      end
  end.

(** [re.match(r, s)]: [None] when there is no match at the start of
    [s], otherwise the match's [group(1)]. *)
Definition match_ (r : regex) (s : list N) : option (option (list N)) :=
  run r None s None (fun _ _ cap => Some cap).

End Matcher.

End Re.

(** ** The data model of [models.py] *)

Module PhaseRole.
Inductive t : Type := reaction | argument_for | argument_against | vote | summary | custom.
Definition eqb (a b : t) : bool :=
  match a, b with
  | reaction, reaction | argument_for, argument_for
  | argument_against, argument_against | vote, vote
  | summary, summary | custom, custom => true
  | _, _ => false
  end.
End PhaseRole.

Module VisibleTo.
Inductive t : Type := all_participants | moderator_only | audience_only.
End VisibleTo.

Module VoteValue.
Inductive t : Type := yes | no | invalid.
Definition eqb (a b : t) : bool :=
  match a, b with
  | yes, yes | no, no | invalid, invalid => true
  | _, _ => false
  end.
End VoteValue.

Module RoundOutcome.
Inductive t : Type := yes | no | tie | invalid.
End RoundOutcome.

Module RunStatus.
Inductive t : Type := pending | running | completed | failed | canceled.
(** [status in {RunStatus.completed, RunStatus.failed, RunStatus.canceled}] *)
Definition terminal (s : t) : bool :=
  match s with
  | completed | failed | canceled => true
  | pending | running => false
  end.
#[global] Instance eq_dec : EqDecision t.
Proof. solve_decision. Defined.
End RunStatus.

Module RunMode.
Inductive t : Type := auto | step.
Definition eqb (a b : t) : bool :=
  match a, b with
  | auto, auto | step, step => true
  | _, _ => false
  end.
End RunMode.

(** The display fields [color] and [icon] of a participant, and the
    [voting] and [resource_policy] of a template, are read nowhere in the
    orchestrator and are left out; so is [created_at] of a run. *)
Record Participant : Type := {
  p_id : list N;
  p_display_name : list N;
  p_model_id : list N;
  p_persona_prompt : list N
}.

Record PhaseSpec : Type := {
  ph_id : list N;
  ph_role : PhaseRole.t;
  ph_prompt_template : list N;
  ph_visible_to : VisibleTo.t
}.

Record DebateTemplate : Type := {
  t_id : list N;
  t_name : list N;
  t_topic : list N;
  t_rounds : Z;
  t_phases : list PhaseSpec;
  t_participants : list Participant;
  t_moderator : option Participant
}.

(** The validators of [DebateTemplate]: [rounds >= 1] and a roster of 3, 5
    or 7 participants. *)
Definition template_valid (t : DebateTemplate) : bool :=
  (1 <=? t_rounds t)%Z
  && let count := length (t_participants t) in
     (Nat.eqb count 3 || Nat.eqb count 5 || Nat.eqb count 7).

Record VoteResult : Type := {
  vr_participant_id : list N;
  vr_raw_output : list N;
  vr_parsed_vote : VoteValue.t
}.

Record PhaseOutput : Type := {
  po_phase_id : list N;
  po_participant_id : list N;
  po_output : list N
}.

Record RoundResult : Type := {
  rr_round_index : Z;
  rr_phase_outputs : list PhaseOutput;
  rr_votes : option (list VoteResult);
  rr_outcome : option RoundOutcome.t;
  rr_moderator_summary : option (list N)
}.

(** [RoundResult(round_index=n)] *)
Definition new_round (n : Z) : RoundResult :=
  {| rr_round_index := n; rr_phase_outputs := []; rr_votes := None;
     rr_outcome := None; rr_moderator_summary := None |}.

Record DebateRun : Type := {
  run_id : list N;
  run_template_id : list N;
  run_title : list N;
  run_topic : list N;
  run_status : RunStatus.t;
  run_mode : RunMode.t;
  run_rounds : list RoundResult
}.

Record FinalRecord : Type := {
  fr_debate_id : list N;
  fr_title : list N;
  fr_final_outcome : RoundOutcome.t
}.

(** [FinalRecord(debate_id=.., title=.., final_outcome=..)]: the field is
    declared [RoundOutcome], not [Optional]; the model's validation refuses
    [None]. *)
Definition make_FinalRecord (debate_id title : list N) (final_outcome : option RoundOutcome.t)
  : result FinalRecord :=
  match final_outcome with
  | Some o => Ok {| fr_debate_id := debate_id; fr_title := title; fr_final_outcome := o |}
  | None => Raise ValidationError
  end.

Record StartDebateRequest : Type := {
  req_template_id : list N;
  req_topic : option (list N);
  req_rounds : option Z;
  req_mode : RunMode.t
}.

Record AdvanceDebateResponse : Type := {
  debate : DebateRun;
  done : bool
}.

Record RunContext : Type := {
  template : DebateTemplate;
  total_rounds : Z
}.

(** One chat message, [{"role": .., "content": ..}]. *)
Record Message : Type := { role : list N; content : list N }.

(** What a call of [client.chat] comes back with: the text, or the message
    of the exception it raised. *)
Inductive reply : Type :=
| Text (s : list N)
| Failed (msg : list N).

(** ** The orchestrator's state

    [store_*] are the three attributes of [InMemoryStore]; [_progress] and
    [_context] are the orchestrator's own dictionaries.  A run object is
    created once, by [start_debate], and every later [get_run] returns that
    same object: a local [run] of the source is the entry of its id in
    [store_runs], a mutation of it is an [alter] of that entry, and
    [store.update_run(run)], which stores the object under its own id again,
    changes nothing. *)

Record Orch : Type := {
  store_templates : gmap (list N) DebateTemplate;
  store_runs : gmap (list N) DebateRun;
  store_final_records : list FinalRecord;
  _progress : gmap (list N) (Z * Z);
  _context : gmap (list N) RunContext
}.

Definition set_runs (f : gmap (list N) DebateRun -> gmap (list N) DebateRun) (o : Orch) : Orch :=
  {| store_templates := store_templates o; store_runs := f (store_runs o);
     store_final_records := store_final_records o;
     _progress := _progress o; _context := _context o |}.

Definition set_progress (f : gmap (list N) (Z * Z) -> gmap (list N) (Z * Z)) (o : Orch) : Orch :=
  {| store_templates := store_templates o; store_runs := store_runs o;
     store_final_records := store_final_records o;
     _progress := f (_progress o); _context := _context o |}.

Definition set_context (f : gmap (list N) RunContext -> gmap (list N) RunContext) (o : Orch) : Orch :=
  {| store_templates := store_templates o; store_runs := store_runs o;
     store_final_records := store_final_records o;
     _progress := _progress o; _context := f (_context o) |}.

Definition set_templates (f : gmap (list N) DebateTemplate -> gmap (list N) DebateTemplate) (o : Orch) : Orch :=
  {| store_templates := f (store_templates o); store_runs := store_runs o;
     store_final_records := store_final_records o;
     _progress := _progress o; _context := _context o |}.

(** [store.record_final(final)] *)
Definition record_final (final : FinalRecord) (o : Orch) : Orch :=
  {| store_templates := store_templates o; store_runs := store_runs o;
     store_final_records := store_final_records o ++ [final];
     _progress := _progress o; _context := _context o |}.

(** Field updates of a run and of a round. *)
Definition with_status (s : RunStatus.t) (run : DebateRun) : DebateRun :=
  {| run_id := run_id run; run_template_id := run_template_id run;
     run_title := run_title run; run_topic := run_topic run;
     run_status := s; run_mode := run_mode run; run_rounds := run_rounds run |}.

Definition with_rounds (f : list RoundResult -> list RoundResult) (run : DebateRun) : DebateRun :=
  {| run_id := run_id run; run_template_id := run_template_id run;
     run_title := run_title run; run_topic := run_topic run;
     run_status := run_status run; run_mode := run_mode run;
     run_rounds := f (run_rounds run) |}.

Definition append_output (po : PhaseOutput) (r : RoundResult) : RoundResult :=
  {| rr_round_index := rr_round_index r;
     rr_phase_outputs := rr_phase_outputs r ++ [po];
     rr_votes := rr_votes r; rr_outcome := rr_outcome r;
     rr_moderator_summary := rr_moderator_summary r |}.

Definition with_votes (votes : list VoteResult) (outcome : RoundOutcome.t) (r : RoundResult)
  : RoundResult :=
  {| rr_round_index := rr_round_index r; rr_phase_outputs := rr_phase_outputs r;
     rr_votes := Some votes; rr_outcome := Some outcome;
     rr_moderator_summary := rr_moderator_summary r |}.

Definition with_summary (summary : list N) (r : RoundResult) : RoundResult :=
  {| rr_round_index := rr_round_index r; rr_phase_outputs := rr_phase_outputs r;
     rr_votes := rr_votes r; rr_outcome := rr_outcome r;
     rr_moderator_summary := Some summary |}.

(** The position that the Python index [i] denotes in a list of length
    [len]: negative indices count from the end. *)
Definition resolve_index (len : nat) (i : Z) : result nat :=
  let j := if (i <? 0)%Z then (i + Z.of_nat len)%Z else i in
  if (j <? 0)%Z || (Z.of_nat len <=? j)%Z then Raise IndexError else Ok (Z.to_nat j).

(** [l[i]] *)
Definition py_index {A : Type} (l : list A) (i : Z) : result A :=
  bind (resolve_index (length l) i) (fun j =>
    match l !! j with
    | Some a => Ok a
    | None => Raise IndexError
    end).

(** A mutation of the round object at position [pos] of the run [rid]. *)
Definition alter_round (rid : list N) (pos : nat) (f : RoundResult -> RoundResult) (o : Orch) : Orch :=
  set_runs (alter (with_rounds (alter f pos)) rid) o.

Definition not_found : exn := ValueError (PyStr.py "debate not found").
Definition template_not_found : exn := ValueError (PyStr.py "template not found").
Definition not_in_step_mode : exn := ValueError (PyStr.py "debate not in step mode").

(** ** The vote tallier and the transcript renderer *)

Section Engine.
Import PyStr.

(** The case mapping and the alphanumeric class of the Python runtime
    outside ASCII.  [unicode_lower before c after] is the lower case of
    [c] between the characters [before] (nearest first) and [after]. *)
Variable unicode_lower : list N -> N -> list N -> list N.
Variable unicode_alnum : N -> bool.
(** How an f-string renders a [RoundOutcome] member (it differs between
    Python versions). *)
Variable format_outcome : RoundOutcome.t -> list N.

Fixpoint lower_from (before s : list N) : list N :=
  match s with
  | [] => []
  | c :: after =>
      (if isascii c then [ascii_lower c] else unicode_lower before c after)
        ++ lower_from (c :: before) after
  end.

(** [s.lower()] *)
Definition lower (s : list N) : list N := lower_from [] s.

(** [\w] *)
Definition isword (c : N) : bool :=
  if isascii c then ascii_alnum c || (c =? 95) else unicode_alnum c.

(** The characters of [lstrip("-*•> \t")]. *)
Definition markers : list N := [45; 42; 8226; 62; 32; 9].

(** [r"^(?:vote|my vote|i vote)?\s*[:\-]?\s*(yes|no)\b"] *)
Definition vote_pattern : Re.regex :=
  Re.Seq Re.Bol
    (Re.Seq (Re.Opt (Re.Alt (Re.Lit (py "vote"))
                       (Re.Alt (Re.Lit (py "my vote")) (Re.Lit (py "i vote")))))
       (Re.Seq (Re.StarClass isspace)
          (Re.Seq (Re.Opt (Re.Class (fun c => (c =? 58) || (c =? 45))))
             (Re.Seq (Re.StarClass isspace)
                (Re.Seq (Re.Group (Re.Alt (Re.Lit (py "yes")) (Re.Lit (py "no"))))
                   Re.WordB))))).

Definition _parse_vote (raw : list N) : result VoteValue.t :=
  match raw with
  | [] => Ok VoteValue.invalid
  | _ =>
      match splitlines (strip raw) with
      | [] => Raise IndexError
      | first_line :: _ =>
          let cleaned := strip (lstrip markers first_line) in
          let cleaned_lower := lower cleaned in
          match Re.match_ isword vote_pattern cleaned_lower with
          | Some g =>
              Ok (match g with
                  | Some g1 => if PyStr.eqb g1 (py "yes") then VoteValue.yes else VoteValue.no
                  | None => VoteValue.no
                  end)
          | None =>
              if startswith (py "yes") cleaned_lower then Ok VoteValue.yes
              else if startswith (py "no") cleaned_lower then Ok VoteValue.no
              else Ok VoteValue.invalid
          end
      end
  end.

(** The loop of [_tally_votes]: the votes so far and the two counters. *)
Fixpoint tally_loop (outputs : list PhaseOutput) (votes : list VoteResult) (yes_count no_count : Z)
  : result (list VoteResult * Z * Z) :=
  match outputs with
  | [] => Ok (votes, yes_count, no_count)
  | output :: rest =>
      bind (_parse_vote (po_output output)) (fun parsed =>
        let votes' := votes ++ [ {| vr_participant_id := po_participant_id output;
                                    vr_raw_output := po_output output;
                                    vr_parsed_vote := parsed |} ] in
        match parsed with
        | VoteValue.yes => tally_loop rest votes' (yes_count + 1)%Z no_count
        | VoteValue.no => tally_loop rest votes' yes_count (no_count + 1)%Z
        | VoteValue.invalid => tally_loop rest votes' yes_count no_count
        end)
  end.

Definition _tally_votes (outputs : list PhaseOutput) : result (list VoteResult * RoundOutcome.t) :=
  bind (tally_loop outputs [] 0%Z 0%Z) (fun '(votes, yes_count, no_count) =>
    let outcome :=
      if (no_count <? yes_count)%Z then RoundOutcome.yes
      else if (yes_count <? no_count)%Z then RoundOutcome.no
      else if (yes_count =? no_count)%Z && (0 <? yes_count)%Z then RoundOutcome.tie
      else RoundOutcome.invalid in
    Ok (votes, outcome)).

(** [_prior_round_transcript] *)
Definition _prior_round_transcript (run : DebateRun) : list N :=
  match List.last (List.map Some (run_rounds run)) None with
  | None => py "(no prior round responses)"
  | Some last =>
      let header := py "Round " ++ of_Z (rr_round_index last) ++ py " transcript:" in
      let body :=
        List.map (fun po =>
               py "- " ++ po_participant_id po ++ py " (" ++ po_phase_id po
                  ++ py "): " ++ po_output po)
            (rr_phase_outputs last) in
      let tail :=
        match rr_votes last with
        | Some ((_ :: _) as votes) =>
            let yes := length (List.filter (fun v => VoteValue.eqb (vr_parsed_vote v) VoteValue.yes) votes) in
            let no := length (List.filter (fun v => VoteValue.eqb (vr_parsed_vote v) VoteValue.no) votes) in
            [ py "- Votes: YES " ++ of_Z (Z.of_nat yes) ++ py " / NO " ++ of_Z (Z.of_nat no)
                ++ py " | Outcome: "
                ++ format_outcome (match rr_outcome last with
                                   | Some oc => oc
                                   | None => RoundOutcome.invalid
                                   end) ]
        | _ => []
        end in
      join_lines (header :: body ++ tail)
  end.

(** [_build_messages] *)
Definition _build_messages (template : DebateTemplate) (persona_prompt : list N)
           (phase : PhaseSpec) (run : DebateRun) (round_index : Z) : list Message :=
  let history_summary := _prior_round_transcript run in
  let user_content :=
    py "[Round " ++ of_Z round_index ++ py " - " ++ ph_id phase ++ py "]" ++ [10]
      ++ py "Debate topic: " ++ run_topic run ++ [10]
      ++ py "History:" ++ [10] ++ history_summary ++ [10]
      ++ py "Phase prompt: " ++ ph_prompt_template phase in
  [ {| role := py "system"; content := persona_prompt |};
    {| role := py "user"; content := user_content |} ].

(** *** One phase: the dispatcher

    [run_one] of [_execute_phase]: the text a participant's call
    contributes, whether the call returned or raised. *)
Definition run_one (r : reply) : list N :=
  match r with
  | Text raw => raw
  | Failed exc => py "(error: " ++ exc ++ py ")"
  end.

(** The calls in flight for a phase: one per participant of the roster,
    each with the messages it was given. *)
Definition dispatch (template : DebateTemplate) (phase : PhaseSpec) (run : DebateRun)
           (round_index : Z) : list (Participant * list Message) :=
  List.map (fun p => (p, _build_messages template (p_persona_prompt p) phase run round_index))
      (t_participants template).

Definition phase_output (phase : PhaseSpec) (participant : Participant) (r : reply) : PhaseOutput :=
  {| po_phase_id := ph_id phase; po_participant_id := p_id participant;
     po_output := run_one r |}.

(** One turn of the loop over [asyncio.as_completed(tasks)]: the output is
    appended to the round object at position [pos] of the run. *)
Definition record_output (rid : list N) (pos : nat) (po : PhaseOutput) (o : Orch) : Orch :=
  alter_round rid pos (append_output po) o.

(** *** Finalization and cancellation *)

Definition _finalize (run_id_ : list N) (o : Orch) : result unit * Orch :=
  match store_runs o !! run_id_, _context o !! run_id_ with
  | Some run, Some ctx =>
      let final_outcome :=
        match List.last (List.map Some (run_rounds run)) None with
        | Some last => rr_outcome last
        | None => Some RoundOutcome.invalid
        end in
      let o1 := set_runs (alter (with_status RunStatus.completed) run_id_) o in
      match make_FinalRecord (run_id run) (run_title run) final_outcome with
      | Raise e => (Raise e, o1)
      | Ok final =>
          (Ok tt,
           set_context (delete run_id_) (set_progress (delete run_id_) (record_final final o1)))
      end
  | _, _ => (Ok tt, o)
  end.

Definition cancel (run_id_ : list N) (o : Orch) : result DebateRun * Orch :=
  match store_runs o !! run_id_ with
  | None => (Raise not_found, o)
  | Some run =>
      (Ok (with_status RunStatus.canceled run),
       set_context (delete run_id_)
         (set_progress (delete run_id_)
            (set_runs (alter (with_status RunStatus.canceled) run_id_) o)))
  end.

(** [start_debate], without the creation of the background task.
    [new_id] is the [uuid4] drawn for the run. *)
Definition start_debate (payload : StartDebateRequest) (new_id : list N) (o : Orch)
  : result DebateRun * Orch :=
  match store_templates o !! req_template_id payload with
  | None => (Raise template_not_found, o)
  | Some template_ =>
      let topic :=
        match req_topic payload with
        | Some ((_ :: _) as t) => t
        | _ => t_topic template_
        end in
      let total :=
        match req_rounds payload with
        | Some r => if (r =? 0)%Z then t_rounds template_ else r
        | None => t_rounds template_
        end in
      let run :=
        {| run_id := new_id; run_template_id := t_id template_;
           run_title := t_name template_; run_topic := topic;
           run_status := RunStatus.running; run_mode := req_mode payload;
           run_rounds := [] |} in
      (Ok run,
       set_progress (insert new_id (0, 0)%Z)
         (set_context (insert new_id {| template := template_; total_rounds := total |})
            (set_runs (insert new_id run) o)))
  end.

(** *** The state and error monad of the orchestrator's methods

    A method runs on the orchestrator's state and either returns or
    raises; after a raise the state is the one reached so far. *)
Definition M (A : Type) : Type := Orch -> result A * Orch.

Definition ret {A : Type} (a : A) : M A := fun o => (Ok a, o).
Definition raise {A : Type} (e : exn) : M A := fun o => (Raise e, o).
Definition lift {A : Type} (r : result A) : M A := fun o => (r, o).
Definition modify (f : Orch -> Orch) : M unit := fun o => (Ok tt, f o).
Definition mbind {A B : Type} (m : M A) (k : A -> M B) : M B :=
  fun o =>
    match m o with
    | (Ok a, o') => k a o'
    | (Raise e, o') => (Raise e, o')
    end.

Notation "'do' x <- m ; k" := (mbind m (fun x => k))
  (at level 10, x pattern, m at level 100, k at level 200).

(** *** Running a phase to its end

    The environment of one phase: what the chat call of the [i]-th
    participant of the roster comes back with, given the model and the
    messages it was sent, and the order in which the calls complete
    ([pe_order] picks, turn after turn, one of the calls still in
    flight). *)
Record PhaseEnv : Type := {
  pe_chat : nat -> list N -> list Message -> reply;
  pe_order : list nat
}.

(** [asyncio.as_completed]: the tasks in their order of completion. *)
Fixpoint as_completed {A : Type} (order : list nat) (tasks : list A) (fuel : nat) : list A :=
  match fuel with
  | O => []
  | S fuel' =>
      let k := (hd O order mod length tasks)%nat in
      match tasks !! k with
      | Some t => t :: as_completed (tl order) (delete k tasks) fuel'
      | None => []
      end
  end.

(** The object that a local variable of a method holds, in its current
    state: the entry of its id, [run] being the state it was fetched in. *)
Definition current (run_id_ : list N) (run : DebateRun) (o : Orch) : DebateRun :=
  default run (store_runs o !! run_id_).

(** [_execute_phase]: [run] is the run as it is when the calls are
    issued, [pos] the position of [round_result] among its rounds. *)
Definition _execute_phase (env : PhaseEnv) (template_ : DebateTemplate) (phase : PhaseSpec)
           (run_id_ : list N) (run : DebateRun) (round_index : Z) (pos : nat)
  : M (list PhaseOutput) :=
  fun o =>
    let tasks :=
      imap (fun i '(p, messages) => (p, pe_chat env i (p_model_id p) messages))
        (dispatch template_ phase run round_index) in
    let outputs :=
      List.map (fun '(p, r) => phase_output phase p r)
        (as_completed (pe_order env) tasks (length tasks)) in
    (Ok outputs, fold_left (fun o' po => record_output run_id_ pos po o') outputs o).

(** [_moderator_summary]: the single chat call is not guarded, its
    exception propagates. *)
Definition _moderator_summary (r : reply) : result (list N) :=
  match r with
  | Text s => Ok s
  | Failed msg => Raise (ChatError msg)
  end.

(** *** Step mode *)

(** [_execute_phase_step] up to the call of [_execute_phase]: [None] when
    it returned before (nothing to do, or finalized), otherwise the
    context, the cursor, the phase, the position of the round and the run
    as it is then. *)
Definition step_prologue (run_id_ : list N)
  : M (option (RunContext * Z * Z * PhaseSpec * nat * DebateRun)) :=
  fun o =>
    match _context o !! run_id_, store_runs o !! run_id_ with
    | Some ctx, Some run =>
        match _progress o !! run_id_ with
        | None => (Raise KeyError, o)
        | Some (round_idx, phase_idx) =>
            if (total_rounds ctx <=? round_idx)%Z then
              (do _ <- _finalize run_id_; ret None) o
            else
              let round_number := (round_idx + 1)%Z in
              let run1 :=
                if (Z.of_nat (length (run_rounds run)) <=? round_idx)%Z
                then with_rounds (fun rs => rs ++ [new_round round_number]) run
                else run in
              let o1 := set_runs (insert run_id_ run1) o in
              (do phase <- lift (py_index (t_phases (template ctx)) phase_idx);
               do pos <- lift (resolve_index (length (run_rounds run1)) round_idx);
               ret (Some (ctx, round_idx, phase_idx, phase, pos, run1))) o1
        end
    | _, _ => (Ok None, o)
    end.

(** [run.rounds[round_idx].votes = votes] and [.outcome = outcome], when
    the phase is a vote. *)
Definition step_votes (run_id_ : list N) (round_idx : Z) (phase : PhaseSpec)
           (outputs : list PhaseOutput) : M unit :=
  if PhaseRole.eqb (ph_role phase) PhaseRole.vote then
    do (votes, outcome) <- lift (_tally_votes outputs);
    fun o =>
      match store_runs o !! run_id_ with
      | Some run =>
          (do pos <- lift (resolve_index (length (run_rounds run)) round_idx);
           modify (alter_round run_id_ pos (with_votes votes outcome))) o
      | None => (Ok tt, o)
      end
  else ret tt.

(** [run.rounds[round_idx]], evaluated for the moderator's call before the
    call is made. *)
Definition step_round (run_id_ : list N) (round_idx : Z) : M unit :=
  fun o =>
    match store_runs o !! run_id_ with
    | Some run =>
        (do _ <- lift (resolve_index (length (run_rounds run)) round_idx); ret tt) o
    | None => (Ok tt, o)
    end.

(** [run.rounds[round_idx].moderator_summary = summary] *)
Definition step_summary (run_id_ : list N) (round_idx : Z) (r : reply) : M unit :=
  do summary <- lift (_moderator_summary r);
  fun o =>
    match store_runs o !! run_id_ with
    | Some run =>
        (do pos <- lift (resolve_index (length (run_rounds run)) round_idx);
         modify (alter_round run_id_ pos (with_summary summary))) o
    | None => (Ok tt, o)
    end.

(** The end of [_execute_phase_step], with the cursor already moved. *)
Definition step_finish (run_id_ : list N) (ctx : RunContext) (round_idx phase_idx : Z) : M unit :=
  do _ <- modify (set_progress (insert run_id_ (round_idx, phase_idx)));
  if (total_rounds ctx <=? round_idx)%Z then _finalize run_id_ else ret tt.

(** [phase_idx == len(template.phases) - 1] *)
Definition last_phase (ctx : RunContext) (phase_idx : Z) : bool :=
  (phase_idx =? Z.of_nat (length (t_phases (template ctx))) - 1)%Z.

Definition _execute_phase_step (env : PhaseEnv) (moderator_reply : reply) (run_id_ : list N)
  : M unit :=
  do pro <- step_prologue run_id_;
  match pro with
  | None => ret tt
  | Some (ctx, round_idx, phase_idx, phase, pos, run) =>
      do outputs <- _execute_phase env (template ctx) phase run_id_ run (round_idx + 1)%Z pos;
      do _ <- step_votes run_id_ round_idx phase outputs;
      if last_phase ctx phase_idx then
        do _ <- match t_moderator (template ctx) with
                | Some _ =>
                    do _ <- step_round run_id_ round_idx;
                    step_summary run_id_ round_idx moderator_reply
                | None => ret tt
                end;
        step_finish run_id_ ctx (round_idx + 1)%Z 0%Z
      else step_finish run_id_ ctx round_idx (phase_idx + 1)%Z
  end.

(** The response of [advance_debate]: the run object, read when the
    method returns. *)
Definition respond (run_id_ : list N) (run : DebateRun) : M AdvanceDebateResponse :=
  fun o =>
    let run' := current run_id_ run o in
    (Ok {| debate := run'; done := RunStatus.terminal (run_status run') |}, o).

Definition advance_debate (env : PhaseEnv) (moderator_reply : reply) (run_id_ : list N)
  : M AdvanceDebateResponse :=
  fun o =>
    match _context o !! run_id_, store_runs o !! run_id_ with
    | Some ctx, Some run =>
        if negb (RunMode.eqb (run_mode run) RunMode.step) then (Raise not_in_step_mode, o)
        else if RunStatus.terminal (run_status run) then
          (Ok {| debate := run; done := true |}, o)
        else
          (do _ <- _execute_phase_step env moderator_reply run_id_;
           respond run_id_ run) o
    | _, _ => (Raise not_found, o)
    end.

(** *** Auto mode *)

(** [_execute_round] up to its loop over the phases: [None] when it
    returned at once, otherwise the template, the round's index, the
    position of the round object that [_get_or_create_round] returned,
    and the run as it is then. *)
Definition round_prologue (run_id_ : list N)
  : M (option (DebateTemplate * Z * nat * DebateRun)) :=
  fun o =>
    match _context o !! run_id_, store_runs o !! run_id_ with
    | Some ctx, Some run =>
        let round_index := (Z.of_nat (length (run_rounds run)) + 1)%Z in
        let run1 :=
          if (Z.of_nat (length (run_rounds run)) <? round_index)%Z
          then with_rounds (fun rs => rs ++ [new_round round_index]) run
          else run in
        let o1 := set_runs (insert run_id_ run1) o in
        (do pos <- lift (resolve_index (length (run_rounds run1)) (round_index - 1)%Z);
         ret (Some (template ctx, round_index, pos, run1))) o1
    | _, _ => (Ok None, o)
    end.

(** [round_result.votes = votes] and [.outcome = outcome], when the phase
    is a vote. *)
Definition round_votes (run_id_ : list N) (pos : nat) (phase : PhaseSpec)
           (outputs : list PhaseOutput) : M unit :=
  if PhaseRole.eqb (ph_role phase) PhaseRole.vote then
    do (votes, outcome) <- lift (_tally_votes outputs);
    modify (alter_round run_id_ pos (with_votes votes outcome))
  else ret tt.

(** [round_result.moderator_summary = summary] *)
Definition round_summary (run_id_ : list N) (pos : nat) (r : reply) : M unit :=
  do summary <- lift (_moderator_summary r);
  modify (alter_round run_id_ pos (with_summary summary)).

(** The environment of one round: of its phases, by their rank in the
    template, and of the moderator's call. *)
Record RoundEnv : Type := {
  re_phase : nat -> PhaseEnv;
  re_moderator : reply
}.

Fixpoint phases_loop (env : RoundEnv) (template_ : DebateTemplate) (run_id_ : list N)
         (run : DebateRun) (round_index : Z) (pos : nat) (i : nat) (phases : list PhaseSpec)
  : M unit :=
  match phases with
  | [] => ret tt
  | phase :: rest =>
      fun o =>
        (do outputs <- _execute_phase (re_phase env i) template_ phase run_id_
                         (current run_id_ run o) round_index pos;
         do _ <- round_votes run_id_ pos phase outputs;
         phases_loop env template_ run_id_ run round_index pos (S i) rest) o
  end.

Definition _execute_round (env : RoundEnv) (run_id_ : list N) : M unit :=
  do pro <- round_prologue run_id_;
  match pro with
  | None => ret tt
  | Some (template_, round_index, pos, run) =>
      do _ <- phases_loop env template_ run_id_ run round_index pos O (t_phases template_);
      match t_moderator template_ with
      | Some _ => round_summary run_id_ pos (re_moderator env)
      | None => ret tt
      end
  end.

(** The loop [for _ in range(ctx.total_rounds)], [todo] turns from the
    [i]-th on. *)
Fixpoint rounds_loop (envs : nat -> RoundEnv) (run_id_ : list N) (i todo : nat) : M unit :=
  match todo with
  | O => ret tt
  | S todo' =>
      do _ <- _execute_round (envs i) run_id_;
      rounds_loop envs run_id_ (S i) todo'
  end.

Definition _run_to_completion (envs : nat -> RoundEnv) (run_id_ : list N) : M DebateRun :=
  fun o =>
    match _context o !! run_id_, store_runs o !! run_id_ with
    | Some ctx, Some run =>
        (do _ <- rounds_loop envs run_id_ O (Z.to_nat (total_rounds ctx));
         do _ <- _finalize run_id_;
         fun o' => (Ok (with_status RunStatus.completed (current run_id_ run o')), o')) o
    | _, _ => (Raise not_found, o)
    end.

(** *** The coroutines, between their points of suspension

    A coroutine of the orchestrator suspends where it awaits the chat
    client: once per participant call of a phase, and at the moderator's
    call.  Between two suspensions it runs alone.  A frame is what a
    suspended coroutine resumes with: its local variables and the calls in
    flight. *)
Inductive frame : Type :=
| AdvancePhase (run_id_ : list N) (run : DebateRun) (ctx : RunContext)
               (round_idx phase_idx : Z) (phase : PhaseSpec) (pos : nat)
               (pending : list (Participant * list Message)) (outputs : list PhaseOutput)
| AdvanceModerator (run_id_ : list N) (run : DebateRun) (ctx : RunContext) (round_idx : Z)
| AutoCreated (run_id_ : list N)
| AutoPhase (run_id_ : list N) (run : DebateRun) (todo : nat) (template_ : DebateTemplate)
            (round_index : Z) (pos : nat) (round_run : DebateRun)
            (phase : PhaseSpec) (rest : list PhaseSpec)
            (pending : list (Participant * list Message)) (outputs : list PhaseOutput)
| AutoModerator (run_id_ : list N) (run : DebateRun) (todo : nat) (pos : nat).

(** What wakes a coroutine up. *)
Inductive input : Type :=
| Scheduled                         (* the event loop starts a created task *)
| Completed (k : nat) (r : reply)   (* the [k]-th call in flight is over *)
| Replied (r : reply).              (* the moderator's call is over *)

Inductive outcome : Type :=
| Suspended (f : frame)
| AdvanceReturned (response : AdvanceDebateResponse)
| AutoReturned (final_copy : DebateRun).

(** [advance_debate] in pieces. *)
Definition advance_end (run_id_ : list N) (run : DebateRun) (ctx : RunContext)
           (round_idx phase_idx : Z) : M outcome :=
  do _ <- step_finish run_id_ ctx round_idx phase_idx;
  do response <- respond run_id_ run;
  ret (AdvanceReturned response).

Definition advance_after_phase (run_id_ : list N) (run : DebateRun) (ctx : RunContext)
           (round_idx phase_idx : Z) (phase : PhaseSpec) (outputs : list PhaseOutput)
  : M outcome :=
  do _ <- step_votes run_id_ round_idx phase outputs;
  if last_phase ctx phase_idx then
    match t_moderator (template ctx) with
    | Some _ =>
        do _ <- step_round run_id_ round_idx;
        ret (Suspended (AdvanceModerator run_id_ run ctx round_idx))
    | None => advance_end run_id_ run ctx (round_idx + 1)%Z 0%Z
    end
  else advance_end run_id_ run ctx round_idx (phase_idx + 1)%Z.

Definition advance_collect (run_id_ : list N) (run : DebateRun) (ctx : RunContext)
           (round_idx phase_idx : Z) (phase : PhaseSpec) (pos : nat)
           (pending : list (Participant * list Message)) (outputs : list PhaseOutput)
  : M outcome :=
  match pending with
  | [] => advance_after_phase run_id_ run ctx round_idx phase_idx phase outputs
  | _ :: _ =>
      ret (Suspended (AdvancePhase run_id_ run ctx round_idx phase_idx phase pos pending outputs))
  end.

Definition advance_begin (run_id_ : list N) : M outcome :=
  fun o =>
    match _context o !! run_id_, store_runs o !! run_id_ with
    | Some ctx, Some run =>
        if negb (RunMode.eqb (run_mode run) RunMode.step) then (Raise not_in_step_mode, o)
        else if RunStatus.terminal (run_status run) then
          (Ok (AdvanceReturned {| debate := run; done := true |}), o)
        else
          (do pro <- step_prologue run_id_;
           match pro with
           | None => do response <- respond run_id_ run; ret (AdvanceReturned response)
           | Some (ctx', round_idx, phase_idx, phase, pos, run1) =>
               advance_collect run_id_ run ctx' round_idx phase_idx phase pos
                 (dispatch (template ctx') phase run1 (round_idx + 1)%Z) []
           end) o
    | _, _ => (Raise not_found, o)
    end.

(** [_run_to_completion] in pieces.  [run] is the local variable of
    [_run_to_completion], [round_run] that of [_execute_round]; [todo]
    counts the turns of the loop over the rounds still to come. *)
Definition auto_end (run_id_ : list N) (run : DebateRun) : M outcome :=
  do _ <- _finalize run_id_;
  fun o => (Ok (AutoReturned (with_status RunStatus.completed (current run_id_ run o))), o).

Fixpoint auto_phases (k : M outcome) (run_id_ : list N) (run : DebateRun) (todo : nat)
         (template_ : DebateTemplate) (round_index : Z) (pos : nat) (round_run : DebateRun)
         (phases : list PhaseSpec) : M outcome :=
  match phases with
  | [] =>
      match t_moderator template_ with
      | Some _ => ret (Suspended (AutoModerator run_id_ run todo pos))
      | None => k
      end
  | phase :: rest =>
      fun o =>
        match dispatch template_ phase (current run_id_ round_run o) round_index with
        | [] =>
            (do _ <- round_votes run_id_ pos phase [];
             auto_phases k run_id_ run todo template_ round_index pos round_run rest) o
        | pending =>
            (Ok (Suspended (AutoPhase run_id_ run todo template_ round_index pos round_run
                              phase rest pending [])), o)
        end
  end.

Fixpoint auto_rounds (run_id_ : list N) (run : DebateRun) (todo : nat) : M outcome :=
  match todo with
  | O => auto_end run_id_ run
  | S todo' =>
      do pro <- round_prologue run_id_;
      match pro with
      | None => auto_rounds run_id_ run todo'
      | Some (template_, round_index, pos, round_run) =>
          auto_phases (auto_rounds run_id_ run todo') run_id_ run todo'
            template_ round_index pos round_run (t_phases template_)
      end
  end.

Definition auto_begin (run_id_ : list N) : M outcome :=
  fun o =>
    match _context o !! run_id_, store_runs o !! run_id_ with
    | Some ctx, Some run => auto_rounds run_id_ run (Z.to_nat (total_rounds ctx)) o
    | _, _ => (Raise not_found, o)
    end.

Definition auto_collect (run_id_ : list N) (run : DebateRun) (todo : nat)
           (template_ : DebateTemplate) (round_index : Z) (pos : nat) (round_run : DebateRun)
           (phase : PhaseSpec) (rest : list PhaseSpec)
           (pending : list (Participant * list Message)) (outputs : list PhaseOutput)
  : M outcome :=
  match pending with
  | [] =>
      do _ <- round_votes run_id_ pos phase outputs;
      auto_phases (auto_rounds run_id_ run todo) run_id_ run todo
        template_ round_index pos round_run rest
  | _ :: _ =>
      ret (Suspended (AutoPhase run_id_ run todo template_ round_index pos round_run
                        phase rest pending outputs))
  end.

(** A suspended coroutine runs on to its next suspension or to its end.
    [None]: the input is not one the frame waits for. *)
Definition resume (i : input) (f : frame) : option (M outcome) :=
  match f, i with
  | AutoCreated run_id_, Scheduled => Some (auto_begin run_id_)
  | AdvancePhase run_id_ run ctx round_idx phase_idx phase pos pending outputs, Completed k r =>
      match pending !! k with
      | Some (participant, _) =>
          let po := phase_output phase participant r in
          Some (do _ <- modify (record_output run_id_ pos po);
                advance_collect run_id_ run ctx round_idx phase_idx phase pos
                  (delete k pending) (outputs ++ [po]))
      | None => None
      end
  | AdvanceModerator run_id_ run ctx round_idx, Replied r =>
      Some (do _ <- step_summary run_id_ round_idx r;
            advance_end run_id_ run ctx (round_idx + 1)%Z 0%Z)
  | AutoPhase run_id_ run todo template_ round_index pos round_run phase rest pending outputs,
    Completed k r =>
      match pending !! k with
      | Some (participant, _) =>
          let po := phase_output phase participant r in
          Some (do _ <- modify (record_output run_id_ pos po);
                auto_collect run_id_ run todo template_ round_index pos round_run phase rest
                  (delete k pending) (outputs ++ [po]))
      | None => None
      end
  | AutoModerator run_id_ run todo pos, Replied r =>
      Some (do _ <- round_summary run_id_ pos r; auto_rounds run_id_ run todo)
  | _, _ => None
  end.

(** *** The engine as a transition system

    The orchestrator's state and the coroutines that are suspended: the
    background tasks of auto runs and the [advance] requests in flight. *)
Record Config : Type := {
  orch : Orch;
  suspended : list frame
}.

Inductive event : Type :=
| Start (payload : StartDebateRequest) (new_id : list N)
| Advance (run_id_ : list N)
| Cancel (run_id_ : list N)
| Resume (i : nat) (inp : input)
| AddTemplate (template_ : DebateTemplate)     (* [POST /templates] *)
| DeleteTemplate (template_id : list N).       (* [DELETE /templates/{id}] *)

(** Where a coroutine stops: suspended again, it stays among the frames;
    returned or raised, it is gone. *)
Definition settle (place : option frame -> list frame) (res : result outcome * Orch) : Config :=
  match res with
  | (Ok (Suspended f), o) => {| orch := o; suspended := place (Some f) |}
  | (_, o) => {| orch := o; suspended := place None |}
  end.

(** One event.  [None]: the event cannot happen in [c] (a run id drawn
    twice, no such frame, an input the frame does not wait for).  A
    template that does not pass its validators is not constructed, and
    the store stays as it is. *)
Definition handle (ev : event) (c : Config) : option Config :=
  match ev with
  | Start payload new_id =>
      match store_runs (orch c) !! new_id with
      | Some _ => None
      | None =>
          let '(r, o') := start_debate payload new_id (orch c) in
          Some {| orch := o';
                  suspended :=
                    match r, req_mode payload with
                    | Ok _, RunMode.auto => suspended c ++ [AutoCreated new_id]
                    | _, _ => suspended c
                    end |}
      end
  | Advance run_id_ =>
      Some (settle (fun f => suspended c ++ option_list f) (advance_begin run_id_ (orch c)))
  | Cancel run_id_ =>
      Some {| orch := (cancel run_id_ (orch c)).2; suspended := suspended c |}
  | Resume i inp =>
      match suspended c !! i with
      | Some f =>
          match resume inp f with
          | Some m =>
              Some (settle (fun f' => match f' with
                                      | Some f'' => <[i := f'']> (suspended c)
                                      | None => delete i (suspended c)
                                      end)
                      (m (orch c)))
          | None => None
          end
      | None => None
      end
  | AddTemplate template_ =>
      Some {| orch := if template_valid template_
                      then set_templates (insert (t_id template_) template_) (orch c)
                      else orch c;
              suspended := suspended c |}
  | DeleteTemplate template_id =>
      Some {| orch := set_templates (delete template_id) (orch c);
              suspended := suspended c |}
  end.

Fixpoint handle_all (evs : list event) (c : Config) : option Config :=
  match evs with
  | [] => Some c
  | ev :: evs' =>
      match handle ev c with
      | Some c' => handle_all evs' c'
      | None => None
      end
  end.

(** The engine with no run yet and [templates] in its store.  The
    application starts from the empty store. *)
Definition initial (templates : gmap (list N) DebateTemplate) : Config :=
  {| orch := {| store_templates := templates; store_runs := ∅;
                store_final_records := []; _progress := ∅; _context := ∅ |};
     suspended := [] |}.

Definition reachable (c : Config) : Prop :=
  exists templates evs, handle_all evs (initial templates) = Some c.

(** The status and the number of rounds of a run of the store. *)
Definition status_of (run_id_ : list N) (o : Orch) : option RunStatus.t :=
  run_status <$> store_runs o !! run_id_.

Definition rounds_of (run_id_ : list N) (o : Orch) : option (list RoundResult) :=
  run_rounds <$> store_runs o !! run_id_.

(** A text that is not empty and holds white space only. *)
Definition blank (raw : list N) : bool :=
  match raw with
  | [] => false
  | _ => forallb isspace raw
  end.

(** ** Reading the tally

    The vote a text counts as, the vote record of an output, and the number
    of outputs that count as a given vote. *)
Definition vote_of (raw : list N) : VoteValue.t :=
  match _parse_vote raw with
  | Ok v => v
  | Raise _ => VoteValue.invalid
  end.

Definition vote_result (output : PhaseOutput) : VoteResult :=
  {| vr_participant_id := po_participant_id output;
     vr_raw_output := po_output output;
     vr_parsed_vote := vote_of (po_output output) |}.

Definition count_votes (v : VoteValue.t) (outputs : list PhaseOutput) : Z :=
  Z.of_nat (length (List.filter (fun o => VoteValue.eqb (vote_of (po_output o)) v) outputs)).

(** ** Reading the dispatcher

    The output that the [i]-th participant of the roster contributes to a
    phase, and the environment in which every failing call returns its
    error marker instead of raising. *)
Definition contribution (env : PhaseEnv) (template_ : DebateTemplate) (phase : PhaseSpec)
           (run : DebateRun) (round_index : Z) (i : nat) (p : Participant) : PhaseOutput :=
  phase_output phase p
    (pe_chat env i (p_model_id p)
       (_build_messages template_ (p_persona_prompt p) phase run round_index)).

Definition contained (env : PhaseEnv) : PhaseEnv :=
  {| pe_chat := fun i model_id messages => Text (run_one (pe_chat env i model_id messages));
     pe_order := pe_order env |}.

Definition contained_round (env : RoundEnv) : RoundEnv :=
  {| re_phase := fun j => contained (re_phase env j);
     re_moderator := re_moderator env |}.

(** ** What a method does to the entry of a run

    [effect rid o ok o']: between [o] and [o'] the context of [rid] is kept
    or dropped, never set; without a context the status and the number of
    rounds of [rid] stay put; the status is kept or becomes completed; and
    when the method returned ([ok]) having changed the status, the context
    is gone. *)
Definition is_ok {A : Type} (r : result A) : bool :=
  match r with Ok _ => true | Raise _ => false end.

Definition round_count (run_id_ : list N) (o : Orch) : option nat :=
  (fun run => length (run_rounds run)) <$> store_runs o !! run_id_.

Record effect (rid : list N) (o : Orch) (ok : bool) (o' : Orch) : Prop := {
  context_shrinks :
    _context o' !! rid = _context o !! rid \/ _context o' !! rid = None;
  frozen_without_context :
    _context o !! rid = None ->
    status_of rid o' = status_of rid o /\ round_count rid o' = round_count rid o;
  status_kept_or_completed :
    status_of rid o' = status_of rid o
    \/ (status_of rid o' = Some RunStatus.completed /\ is_Some (status_of rid o)
        /\ is_Some (_context o !! rid));
  context_gone_when_done :
    ok = true -> status_of rid o' <> status_of rid o -> _context o' !! rid = None
}.

(** A method is sound when it has this effect on every run. *)
Definition sound {A : Type} (m : M A) : Prop :=
  forall rid o r o', m o = (r, o') -> effect rid o (is_ok r) o'.

(** ** An invariant of the engine

    A run that still has a context is running or completed: [cancel] drops
    the context with the status it sets, and nothing sets [failed] or
    [pending]. *)
Definition tracked_runs_live (o : Orch) : Prop :=
  forall rid,
    is_Some (_context o !! rid) ->
    status_of rid o = Some RunStatus.running \/ status_of rid o = Some RunStatus.completed.

(** The status that an event leaves a terminal run [rid] of status [s]
    with. *)
Definition status_after (ev : event) (rid : list N) (s : RunStatus.t) : RunStatus.t :=
  match ev with
  | Cancel run_id_ => if decide (run_id_ = rid) then RunStatus.canceled else s
  | _ => s
  end.

(** ** Reading the prompts

    The placeholder of the transcript renderer, and the user message of a
    participant in round [round_index] when the history is [history]. *)
Definition placeholder : list N := py "(no prior round responses)".

Definition prompt_with (history : list N) (phase : PhaseSpec) (run : DebateRun)
           (round_index : Z) : list N :=
  py "[Round " ++ of_Z round_index ++ py " - " ++ ph_id phase ++ py "]" ++ [10]
    ++ py "Debate topic: " ++ run_topic run ++ [10]
    ++ py "History:" ++ [10] ++ history ++ [10]
    ++ py "Phase prompt: " ++ ph_prompt_template phase.

(** ** Reading a trace

    The outputs recorded for a run, and the phases of a run whose calls are
    in flight among the suspended coroutines. *)
Definition outputs_of (run_id_ : list N) (o : Orch) : list PhaseOutput :=
  match store_runs o !! run_id_ with
  | Some run => concat (List.map rr_phase_outputs (run_rounds run))
  | None => []
  end.

Definition phase_in_flight (run_id_ : list N) (f : frame) : list (list N) :=
  match f with
  | AdvancePhase rid _ _ _ _ phase _ _ _ | AutoPhase rid _ _ _ _ _ _ phase _ _ _ =>
      if PyStr.eqb rid run_id_ then [ph_id phase] else []
  | _ => []
  end.

Definition phases_in_flight (run_id_ : list N) (c : Config) : list (list N) :=
  concat (List.map (phase_in_flight run_id_) (suspended c)).

(** C3 as the specification states it: after a cancel, only the fan-out
    in flight still lands in the transcript; no phase is begun. *)
Definition stops_at_phase_boundary : Prop :=
  forall templates evs0 rid c0 c1 evs c2,
    handle_all evs0 (initial templates) = Some c0 ->
    handle (Cancel rid) c0 = Some c1 ->
    handle_all evs c1 = Some c2 ->
    forall po,
      In po (outputs_of rid (orch c2)) ->
      In po (outputs_of rid (orch c0)) \/ In (po_phase_id po) (phases_in_flight rid c0).

(** C5 as the specification states it: no event changes a terminal
    status. *)
Definition terminal_status_is_final : Prop :=
  forall c ev c' rid s,
    reachable c ->
    handle ev c = Some c' ->
    status_of rid (orch c) = Some s ->
    RunStatus.terminal s = true ->
    status_of rid (orch c') = Some s.

(** Calls of [advance_debate] in a row, one per environment of [envs]:
    before each call the cursor of the run, and what the call came back
    with, the [done] flag or the exception. *)
Fixpoint advances (envs : list (PhaseEnv * reply)) (run_id_ : list N) (o : Orch)
  : list (option (Z * Z) * result bool) * Orch :=
  match envs with
  | [] => ([], o)
  | (env, moderator_reply) :: envs' =>
      let '(r, o1) := advance_debate env moderator_reply run_id_ o in
      let '(rest, o2) := advances envs' run_id_ o1 in
      ((_progress o !! run_id_,
        match r with Ok response => Ok (done response) | Raise e => Raise e end) :: rest, o2)
  end.

(** The configuration after the events [evs] (unchanged when they cannot
    all happen). *)
Definition after (evs : list event) (c : Config) : Config :=
  default c (handle_all evs c).

(** ** A step run at work

    What the phases of a run leave alone: its id, title, status and mode,
    and the outcomes of its rounds. *)
Definition shape (run : DebateRun)
  : list N * list N * RunStatus.t * RunMode.t * list (option RoundOutcome.t) :=
  (run_id run, run_title run, run_status run, run_mode run,
   List.map rr_outcome (run_rounds run)).

(** A running step run whose cursor stands at [(round_idx, phase_idx)]:
    the rounds before the cursor's are there, and the cursor's own once its
    first phase is done; none has an outcome. *)
Record stepping (rid : list N) (ctx : RunContext) (round_idx phase_idx : Z) (o : Orch)
  : Prop := {
  stepping_context : _context o !! rid = Some ctx;
  stepping_cursor : _progress o !! rid = Some (round_idx, phase_idx);
  stepping_run :
    exists run,
      store_runs o !! rid = Some run
      /\ run_mode run = RunMode.step
      /\ run_status run = RunStatus.running
      /\ List.map rr_outcome (run_rounds run)
         = repeat None (Z.to_nat (if (phase_idx =? 0)%Z then round_idx else round_idx + 1))
}.

(** A template with no vote phase and no moderator. *)
Definition plain_template (t : DebateTemplate) : Prop :=
  t_moderator t = None /\ Forall (fun ph => ph_role ph <> PhaseRole.vote) (t_phases t).

(** Where the cursor goes after a phase. *)
Definition next_cursor (ctx : RunContext) (round_idx phase_idx : Z) : Z * Z :=
  if last_phase ctx phase_idx then ((round_idx + 1)%Z, 0%Z)
  else (round_idx, (phase_idx + 1)%Z).

(** ** Reading the vote pattern

    What the pattern says of a cleaned, lower-cased line [s]: an optional
    marker, white space, an optional colon or dash, white space, then the
    word of the vote, ending at a word boundary. *)
Definition word_of (v : VoteValue.t) : list N :=
  match v with
  | VoteValue.yes => py "yes"
  | VoteValue.no => py "no"
  | VoteValue.invalid => []
  end.

(** [rest] starts at a word boundary, a letter of the word before it. *)
Definition word_ends (rest : list N) : bool :=
  match rest with
  | [] => true
  | c :: _ => negb (isword c)
  end.

Inductive marked (s : list N) (v : VoteValue.t) : Prop :=
| Marked (marker ws1 sep ws2 rest : list N) :
    In marker [[]; py "vote"; py "my vote"; py "i vote"] ->
    forallb isspace ws1 = true ->
    In sep [[]; [58]; [45]] ->
    forallb isspace ws2 = true ->
    v <> VoteValue.invalid ->
    word_ends rest = true ->
    s = marker ++ ws1 ++ sep ++ ws2 ++ word_of v ++ rest ->
    marked s v.

(** The fallback: a bare prefix. *)
Definition prefix_vote (s : list N) : VoteValue.t :=
  if startswith (py "yes") s then VoteValue.yes
  else if startswith (py "no") s then VoteValue.no
  else VoteValue.invalid.

(** The same reading, as a scan of the line from left to right. *)
Definition word_at (s : list N) : option VoteValue.t :=
  if startswith (py "yes") s then
    if word_ends (drop 3 s) then Some VoteValue.yes else None
  else if startswith (py "no") s then
    if word_ends (drop 2 s) then Some VoteValue.no else None
  else None.

Definition is_sep (c : N) : bool := (c =? 58) || (c =? 45).

Definition sep_word (s : list N) : option VoteValue.t :=
  match s with
  | c :: r => if is_sep c then word_at (dropwhile isspace r) else word_at (dropwhile isspace s)
  | [] => None
  end.

Definition scan_from (s : list N) : option VoteValue.t := sep_word (dropwhile isspace s).

Definition scan_after (marker s : list N) : option VoteValue.t :=
  if startswith marker s then scan_from (drop (length marker) s) else None.

Definition scan (s : list N) : option VoteValue.t :=
  match scan_after (py "vote") s with
  | Some v => Some v
  | None =>
      match scan_after (py "my vote") s with
      | Some v => Some v
      | None =>
          match scan_after (py "i vote") s with
          | Some v => Some v
          | None => scan_from s
          end
      end
  end.

Fixpoint takewhile (p : N -> bool) (s : list N) : list N :=
  match s with
  | [] => []
  | c :: s' => if p c then c :: takewhile p s' else []
  end.

(** The parts of the vote pattern. *)
Definition word_pattern : Re.regex :=
  Re.Seq (Re.Group (Re.Alt (Re.Lit (py "yes")) (Re.Lit (py "no")))) Re.WordB.

Definition sep_pattern : Re.regex :=
  Re.Seq (Re.Opt (Re.Class (fun c => (c =? 58) || (c =? 45))))
    (Re.Seq (Re.StarClass isspace) word_pattern).

Definition tail_pattern : Re.regex := Re.Seq (Re.StarClass isspace) sep_pattern.

(** What the matcher returns for a vote found on the line. *)
Definition found (v : option VoteValue.t) : option (option (list N)) :=
  match v with
  | Some v' => Some (Some (word_of v'))
  | None => None
  end.

(** The vote that the specification reads off a cleaned, lower-cased line:
    the marked vote when there is one, otherwise the bare prefix. *)
Definition reads (s : list N) (v : VoteValue.t) : Prop :=
  marked s v \/ ((forall v', ~ marked s v') /\ v = prefix_vote s).

(** ** Running a coroutine without interleaving

    A coroutine resumed in the environment of its phases until it is
    over, with no other coroutine in between: the calls in flight
    complete in the order of the environment, each with the reply of the
    environment, then the moderator's call. *)
Definition calls_in_flight (f : frame) : option (list (Participant * list Message)) :=
  match f with
  | AdvancePhase _ _ _ _ _ _ _ pending _ => Some pending
  | AutoPhase _ _ _ _ _ _ _ _ _ pending _ => Some pending
  | _ => None
  end.

Fixpoint collect (order : list nat) (replies : list reply) (fuel : nat)
         (res : result outcome * Orch) : result outcome * Orch :=
  match fuel with
  | O => res
  | S fuel' =>
      match res with
      | (Ok (Suspended f), o) =>
          match calls_in_flight f with
          | Some pending =>
              let k := (hd O order mod length pending)%nat in
              match replies !! k with
              | Some r =>
                  match resume (Completed k r) f with
                  | Some m => collect (tl order) (delete k replies) fuel' (m o)
                  | None => res
                  end
              | None => res
              end
          | None => res
          end
      | _ => res
      end
  end.

Definition replies_of (env : PhaseEnv) (pending : list (Participant * list Message))
  : list reply :=
  imap (fun i '(p, messages) => pe_chat env i (p_model_id p) messages) pending.

(** The phase in flight, run to its end in [env]. *)
Definition collect_all (env : PhaseEnv) (res : result outcome * Orch)
  : result outcome * Orch :=
  match res with
  | (Ok (Suspended f), _) =>
      match calls_in_flight f with
      | Some pending => collect (pe_order env) (replies_of env pending) (length pending) res
      | None => res
      end
  | _ => res
  end.

Definition moderate (moderator_reply : reply) (res : result outcome * Orch)
  : result outcome * Orch :=
  match res with
  | (Ok (Suspended (AdvanceModerator _ _ _ _ as f)), o) =>
      match resume (Replied moderator_reply) f with
      | Some m => m o
      | None => res
      end
  | _ => res
  end.

Definition drive_advance (env : PhaseEnv) (moderator_reply : reply) (run_id_ : list N)
           (o : Orch) : result outcome * Orch :=
  moderate moderator_reply (collect_all env (advance_begin run_id_ o)).

(** What [advance_debate] returns, as the outcome of its coroutine. *)
Definition returned (res : result AdvanceDebateResponse * Orch) : result outcome * Orch :=
  match res with
  | (Ok response, o) => (Ok (AdvanceReturned response), o)
  | (Raise e, o) => (Raise e, o)
  end.

(** The background task of an auto run, of [total] rounds.  A frame of
    the task knows how many rounds are still to come after its own, and
    how many phases after the one in flight: that gives the rank of its
    round and of its phase, hence their environment. *)
Definition round_rank (total todo : nat) : nat := total - 1 - todo.

Definition phase_rank (template_ : DebateTemplate) (rest : list PhaseSpec) : nat :=
  length (t_phases template_) - 1 - length rest.

Fixpoint drive_auto (envs : nat -> RoundEnv) (total : nat) (fuel : nat)
         (res : result outcome * Orch) : result outcome * Orch :=
  match fuel with
  | O => res
  | S fuel' =>
      match res with
      | (Ok (Suspended (AutoPhase _ _ todo template_ _ _ _ _ rest _ _)), _) =>
          drive_auto envs total fuel'
            (collect_all (re_phase (envs (round_rank total todo)) (phase_rank template_ rest))
               res)
      | (Ok (Suspended (AutoModerator _ _ todo _ as f)), o) =>
          match resume (Replied (re_moderator (envs (round_rank total todo)))) f with
          | Some m => drive_auto envs total fuel' (m o)
          | None => res
          end
      | _ => res
      end
  end.

(** What [_run_to_completion] returns, as the outcome of its coroutine. *)
Definition auto_returned (res : result DebateRun * Orch) : result outcome * Orch :=
  match res with
  | (Ok final_copy, o) => (Ok (AutoReturned final_copy), o)
  | (Raise e, o) => (Raise e, o)
  end.

(** The turns of the loop of [_run_to_completion] that the run's context
    plans. *)
Definition rounds_planned (run_id_ : list N) (o : Orch) : nat :=
  match _context o !! run_id_ with
  | Some ctx => Z.to_nat (total_rounds ctx)
  | None => O
  end.

(** A coroutine that is over: it returned or raised. *)
Definition over (res : result outcome * Orch) : Prop :=
  match res with
  | (Ok (Suspended _), _) => False
  | _ => True
  end.

(** The loop of [_run_to_completion] from its [i]-th turn on, and what
    follows it. *)
Definition finish_rounds (envs : nat -> RoundEnv) (run_id_ : list N) (run : DebateRun)
           (i todo : nat) : M DebateRun :=
  do _ <- rounds_loop envs run_id_ i todo;
  do _ <- _finalize run_id_;
  fun o' => (Ok (with_status RunStatus.completed (current run_id_ run o')), o').

(** The outputs of a phase, from the calls in flight and their replies. *)
Definition outputs_in (env : PhaseEnv) (phase : PhaseSpec)
           (pending : list (Participant * list Message)) : list PhaseOutput :=
  List.map (fun '(p, _, r) => phase_output phase p r)
    (as_completed (pe_order env) (zip pending (replies_of env pending)) (length pending)).

(** ** Reading two tallies

    Two tallies agree: the same exception, or the same vote records up to
    their order and the same outcome. *)
Definition same_tally (a b : result (list VoteResult * RoundOutcome.t)) : Prop :=
  match a, b with
  | Ok (votes, outcome), Ok (votes', outcome') => votes ≡ₚ votes' /\ outcome = outcome'
  | Raise e, Raise e' => e = e'
  | _, _ => False
  end.

(** The outcome of a tally, or the exception it raised. *)
Definition outcome_of (a : result (list VoteResult * RoundOutcome.t)) : result RoundOutcome.t :=
  match a with
  | Ok (_, outcome) => Ok outcome
  | Raise e => Raise e
  end.

(** The environment [env] with its calls completing in another order. *)
Definition reordered (order : list nat) (env : PhaseEnv) : PhaseEnv :=
  {| pe_chat := pe_chat env; pe_order := order |}.

(** ** Relations that the engine keeps

    What the methods do to a round object: an output is appended, the
    votes and the outcome are set, the summary is set. *)
Inductive round_update : (RoundResult -> RoundResult) -> Prop :=
| update_output (po : PhaseOutput) : round_update (append_output po)
| update_votes (votes : list VoteResult) (outcome : RoundOutcome.t) :
    round_update (with_votes votes outcome)
| update_summary (summary : list N) : round_update (with_summary summary).

(** A method respects [R] when [R] relates the state it starts in to the
    state it leaves, whether it returns or raises. *)
Definition respects (R : Orch -> Orch -> Prop) {A : Type} (m : M A) : Prop :=
  forall o r o', m o = (r, o') -> R o o'.

(** [R] admits the steps that the methods working on the run [run_id_]
    are made of: finalization, an update of a round, a round opened, the
    run stored again, the cursor moved. *)
Record admits (run_id_ : list N) (R : Orch -> Orch -> Prop) : Prop := {
  admits_refl : forall o, R o o;
  admits_trans : forall o1 o2 o3, R o1 o2 -> R o2 o3 -> R o1 o3;
  admits_finalize : forall o r o', _finalize run_id_ o = (r, o') -> R o o';
  admits_round :
    forall pos f o, round_update f -> R o (alter_round run_id_ pos f o);
  admits_open :
    forall run n o,
      store_runs o !! run_id_ = Some run ->
      R o (set_runs (insert run_id_ (with_rounds (fun rs => rs ++ [new_round n]) run)) o);
  admits_same :
    forall run o,
      store_runs o !! run_id_ = Some run -> R o (set_runs (insert run_id_ run) o);
  admits_cursor : forall cur o, R o (set_progress (insert run_id_ cur) o)
}.

(** The run a coroutine works on. *)
Definition frame_run (f : frame) : list N :=
  match f with
  | AdvancePhase run_id_ _ _ _ _ _ _ _ _ => run_id_
  | AdvanceModerator run_id_ _ _ _ => run_id_
  | AutoCreated run_id_ => run_id_
  | AutoPhase run_id_ _ _ _ _ _ _ _ _ _ _ => run_id_
  | AutoModerator run_id_ _ _ _ => run_id_
  end.

(** The run an event is about, if any. *)
Definition subject (ev : event) (c : Config) : option (list N) :=
  match ev with
  | Start _ new_id => Some new_id
  | Advance run_id_ => Some run_id_
  | Cancel run_id_ => Some run_id_
  | Resume i _ => frame_run <$> suspended c !! i
  | AddTemplate _ | DeleteTemplate _ => None
  end.

(** ** A run goes on

    A round keeps its number, and the outputs recorded in it stay where
    they are; a run keeps what identifies it, and its rounds stay, in
    their order, new ones coming after them. *)
Record round_goes_on (r r' : RoundResult) : Prop := {
  index_kept : rr_round_index r' = rr_round_index r;
  outputs_kept : rr_phase_outputs r `prefix_of` rr_phase_outputs r'
}.

Record run_goes_on (run run' : DebateRun) : Prop := {
  id_kept : run_id run' = run_id run;
  template_id_kept : run_template_id run' = run_template_id run;
  title_kept : run_title run' = run_title run;
  topic_kept : run_topic run' = run_topic run;
  mode_kept : run_mode run' = run_mode run;
  rounds_kept :
    exists kept added,
      run_rounds run' = kept ++ added /\ Forall2 round_goes_on (run_rounds run) kept
}.

Record evolves (o o' : Orch) : Prop := {
  runs_go_on :
    forall rid run,
      store_runs o !! rid = Some run ->
      exists run', store_runs o' !! rid = Some run' /\ run_goes_on run run';
  finals_kept : store_final_records o `prefix_of` store_final_records o'
}.

(** ** The store is consistent

    Every run is stored under its own id; a run that has a context has a
    cursor; no two final records are of the same run; and a final record
    is of a run of the store, with its title, that has no context any more
    and is completed or canceled. *)
Definition keyed (o : Orch) : Prop :=
  forall rid run, store_runs o !! rid = Some run -> run_id run = rid.

Definition cursor_present (o : Orch) : Prop :=
  forall rid, is_Some (_context o !! rid) -> is_Some (_progress o !! rid).

Definition closed (o : Orch) (f : FinalRecord) : Prop :=
  exists run,
    store_runs o !! fr_debate_id f = Some run
    /\ fr_title f = run_title run
    /\ _context o !! fr_debate_id f = None
    /\ (run_status run = RunStatus.completed \/ run_status run = RunStatus.canceled).

Record consistent (o : Orch) : Prop := {
  runs_keyed : keyed o;
  cursors_present : cursor_present o;
  finals_once : NoDup (fr_debate_id <$> store_final_records o);
  finals_closed : forall f, f ∈ store_final_records o -> closed o f
}.

Definition keeps_consistent (o o' : Orch) : Prop := consistent o -> consistent o'.

(** [GET /debates/{debate_id}] of [app.py]: the run, or the detail of the
    404 it raises. *)
Definition get_debate (debate_id : list N) (o : Orch) : DebateRun + list N :=
  match store_runs o !! debate_id with
  | Some run => inl run
  | None =>
      match List.find (fun f => PyStr.eqb (fr_debate_id f) debate_id) (store_final_records o) with
      | Some _ => inr (py "debate closed; only final record retained")
      | None => inr (py "debate not found")
      end
  end.

(** ** One run at a time

    [o'] differs from [o] in what belongs to the run [rid] at most: the
    other runs, their contexts and their cursors are the same, and so are
    the templates. *)
Record only_touches (rid : list N) (o o' : Orch) : Prop := {
  other_runs : forall rid', rid' <> rid -> store_runs o' !! rid' = store_runs o !! rid';
  other_contexts : forall rid', rid' <> rid -> _context o' !! rid' = _context o !! rid';
  other_cursors : forall rid', rid' <> rid -> _progress o' !! rid' = _progress o !! rid';
  templates_same : store_templates o' = store_templates o
}.

(** ** The exceptions of a method

    A method raises exceptions of [P] only. *)
Definition raises_only {A : Type} (P : exn -> Prop) (m : M A) : Prop :=
  forall o e o', m o = (Raise e, o') -> P e.

(** The cursor of a run that has a context is missing: the only way to a
    [KeyError]. *)
Definition cursor_missing (run_id_ : list N) (o : Orch) : Prop :=
  is_Some (_context o !! run_id_) /\ _progress o !! run_id_ = None.

(** What can go wrong in a phase, a round or a finalization: a list index
    out of range, the validation of a model, the moderator's call. *)
Definition step_failure (replies : reply -> Prop) (e : exn) : Prop :=
  e = IndexError \/ e = ValidationError
  \/ exists msg, replies (Failed msg) /\ e = ChatError msg.

(** ** The templates of the store and the runs

    A result with the templates of its state changed by [f], and the
    methods that neither read nor write the templates: run in a state
    whose templates are changed, they do the same, and leave the
    templates as changed. *)
Definition retemplated {A : Type}
           (f : gmap (list N) DebateTemplate -> gmap (list N) DebateTemplate)
           (res : result A * Orch) : result A * Orch :=
  (res.1, set_templates f res.2).

Definition blind {A : Type} (m : M A) : Prop :=
  forall f o, m (set_templates f o) = retemplated f (m o).

(** ** Edge cases

    A step run that cannot move: it is running, its cursor stands in a
    round to come, and its template has no phase. *)
Record stuck (rid : list N) (o : Orch) : Prop := {
  stuck_run :
    exists run,
      store_runs o !! rid = Some run
      /\ run_mode run = RunMode.step
      /\ RunStatus.terminal (run_status run) = false;
  stuck_context :
    exists ctx round_idx phase_idx,
      _context o !! rid = Some ctx
      /\ t_phases (template ctx) = []
      /\ _progress o !! rid = Some (round_idx, phase_idx)
      /\ (round_idx < total_rounds ctx)%Z
}.

(** ** A round at work

    Between [o] and [o'], the round at [pos] of the run [rid] got the
    outputs [outs] after the ones it had, and possibly its votes, its
    outcome or its summary; nothing else changed. *)
Record appended (rid : list N) (pos : nat) (outs : list PhaseOutput) (o o' : Orch) : Prop := {
  appended_context : _context o' = _context o;
  appended_progress : _progress o' = _progress o;
  appended_finals : store_final_records o' = store_final_records o;
  appended_run :
    forall run,
      store_runs o !! rid = Some run ->
      exists rounds',
        store_runs o' !! rid = Some (with_rounds (fun _ => rounds') run)
        /\ length rounds' = length (run_rounds run)
        /\ (forall i, i <> pos -> rounds' !! i = run_rounds run !! i)
        /\ (forall r,
               run_rounds run !! pos = Some r ->
               exists r',
                 rounds' !! pos = Some r'
                 /\ rr_round_index r' = rr_round_index r
                 /\ rr_phase_outputs r' = rr_phase_outputs r ++ outs)
}.

(** ** One output per participant

    The outputs of a phase run to its end in [env]: the contribution of
    every participant of the roster, to the messages built for it from
    [run], in the order in which the calls complete. *)
Definition outputs_of_phase (env : PhaseEnv) (template_ : DebateTemplate) (phase : PhaseSpec)
           (run : DebateRun) (round_index : Z) : list PhaseOutput :=
  as_completed (pe_order env)
    (imap (contribution env template_ phase run round_index) (t_participants template_))
    (length (t_participants template_)).

(** The phase of an output and the participant it is of. *)
Definition speaker (po : PhaseOutput) : list N * list N :=
  (po_phase_id po, po_participant_id po).

(** [outs] holds one output of every participant of the roster, for the
    phase [phase], in some order. *)
Definition one_each (template_ : DebateTemplate) (phase : PhaseSpec) (outs : list PhaseOutput)
  : Prop :=
  List.map speaker outs ≡ₚ List.map (fun p => (ph_id phase, p_id p)) (t_participants template_).

(** [outputs] holds, phase after phase of [phases], one output of every
    participant of the roster. *)
Definition filled (template_ : DebateTemplate) (phases : list PhaseSpec)
           (outputs : list PhaseOutput) : Prop :=
  exists chunks, outputs = concat chunks /\ Forall2 (one_each template_) phases chunks.

(** ** One step of a step run

    The run [rid] is stepped at the cursor [(round_idx, phase_idx)]: it
    is a step run that is not over, with its context; the cursor is
    inside the plan and [phase] is the phase it points to; and the rounds
    before [round_idx] are there. *)
Record at_cursor (rid : list N) (ctx : RunContext) (run : DebateRun)
       (round_idx phase_idx : Z) (phase : PhaseSpec) (o : Orch) : Prop := {
  cursor_context : _context o !! rid = Some ctx;
  cursor_run : store_runs o !! rid = Some run;
  cursor_mode : run_mode run = RunMode.step;
  cursor_status : RunStatus.terminal (run_status run) = false;
  cursor_cursor : _progress o !! rid = Some (round_idx, phase_idx);
  cursor_round : (0 <= round_idx < total_rounds ctx)%Z;
  cursor_rounds : (round_idx <= Z.of_nat (length (run_rounds run)))%Z;
  cursor_phase_idx : (0 <= phase_idx)%Z;
  cursor_phase : t_phases (template ctx) !! Z.to_nat phase_idx = Some phase
}.

(** The run once [_execute_phase_step] has made sure that the round of the
    cursor is there. *)
Definition with_round_at (round_idx : Z) (run : DebateRun) : DebateRun :=
  if (Z.of_nat (length (run_rounds run)) <=? round_idx)%Z
  then with_rounds (fun rs => rs ++ [new_round (round_idx + 1)]) run
  else run.

(** The round that a step at [round_idx] works on: the one that is
    there, or a new one. *)
Definition round_at (run : DebateRun) (round_idx : Z) : RoundResult :=
  default (new_round (round_idx + 1)) (run_rounds run !! Z.to_nat round_idx).

(** What a step at [round_idx] made of [run]: the round of the cursor got
    the outputs [outs] after the ones it had, the other rounds and the
    rest of the run are as they were. *)
Record stepped (run : DebateRun) (round_idx : Z) (outs : list PhaseOutput)
       (run' : DebateRun) : Prop := {
  stepped_same : run' = with_rounds (fun _ => run_rounds run') run;
  stepped_length :
    length (run_rounds run') = Nat.max (length (run_rounds run)) (Z.to_nat round_idx + 1);
  stepped_others :
    forall i, i <> Z.to_nat round_idx -> (i < length (run_rounds run))%nat ->
              run_rounds run' !! i = run_rounds run !! i;
  stepped_round :
    exists r',
      run_rounds run' !! Z.to_nat round_idx = Some r'
      /\ rr_round_index r' = rr_round_index (round_at run round_idx)
      /\ rr_phase_outputs r' = rr_phase_outputs (round_at run round_idx) ++ outs
}.

(** The transcript of a run that was stepped from its start to the
    cursor [(round_idx, phase_idx)]: the rounds before the cursor's are
    there, with one output of every participant for each phase, phase
    after phase; the cursor's own is there once its first phase is done,
    with those of the phases before the cursor; the rounds are numbered
    from 1. *)
Definition walked (ctx : RunContext) (round_idx phase_idx : Z) (run : DebateRun) : Prop :=
  length (run_rounds run)
  = (Z.to_nat round_idx + if (phase_idx =? 0)%Z then 0 else 1)%nat
  /\ forall k r,
      run_rounds run !! k = Some r ->
      rr_round_index r = (Z.of_nat k + 1)%Z
      /\ filled (template ctx)
           (if (Z.of_nat k <? round_idx)%Z then t_phases (template ctx)
            else take (Z.to_nat phase_idx) (t_phases (template ctx)))
           (rr_phase_outputs r).

(** ** Step mode against auto mode *)

Definition with_mode (m : RunMode.t) (run : DebateRun) : DebateRun :=
  {| run_id := run_id run; run_template_id := run_template_id run;
     run_title := run_title run; run_topic := run_topic run;
     run_status := run_status run; run_mode := m; run_rounds := run_rounds run |}.

(** The environments of the calls of [advance] that take a step run
    through what an auto run meets in the environments [envs]: for the
    phases of a round from the rank [first] on, the environment of the
    phase and the reply of the round's moderator; and so for [rounds]
    rounds of [phases] phases from the round [first_round] on. *)
Definition steps_of_round (env : RoundEnv) (first count : nat) : list (PhaseEnv * reply) :=
  List.map (fun k => (re_phase env k, re_moderator env)) (seq first count).

Definition steps_of (envs : nat -> RoundEnv) (first_round rounds phases : nat)
  : list (PhaseEnv * reply) :=
  flat_map (fun j => steps_of_round (envs j) 0 phases) (seq first_round rounds).

(** What is left of [_run_to_completion] before the phase of rank [pi] of
    the round at position [ri]: the phases [rest] of that round and the
    moderator's summary, then [todo] rounds and the finalization. *)
Definition auto_from (envs : nat -> RoundEnv) (rid : list N) (template_ : DebateTemplate)
           (run : DebateRun) (ri pi : nat) (rest : list PhaseSpec) (todo : nat) : M unit :=
  do _ <- phases_loop (envs ri) template_ rid run (Z.of_nat ri + 1)%Z ri pi rest;
  do _ <- match t_moderator template_ with
          | Some _ => round_summary rid ri (re_moderator (envs ri))
          | None => ret tt
          end;
  do _ <- rounds_loop envs rid (S ri) todo;
  _finalize rid.

(** The engines [s] and [a] hold the same run [rid] up to its mode, [m]
    in [a], with the same context, and the same final records. *)
Record twins (rid : list N) (m : RunMode.t) (s a : Orch) : Prop := {
  twins_context : _context a !! rid = _context s !! rid;
  twins_finals : store_final_records a = store_final_records s;
  twins_run :
    exists run, store_runs s !! rid = Some run /\ store_runs a !! rid = Some (with_mode m run)
}.

(** A step run in [s] and an auto run in [a] side by side, before the
    phase of rank [pi] of the round at position [ri]: the step run stands
    at that cursor; the auto run, which has opened the round, is its twin,
    and what is left of its loop ends in [a_fin]. *)
Record in_step (envs : nat -> RoundEnv) (rid : list N) (ctx : RunContext) (m : RunMode.t)
       (a_fin : Orch) (ri pi : nat) (phase : PhaseSpec) (rest : list PhaseSpec) (todo : nat)
       (s a : Orch) : Prop := {
  in_step_cursor :
    exists run,
      at_cursor rid ctx run (Z.of_nat ri) (Z.of_nat pi) phase s
      /\ length (run_rounds (with_round_at (Z.of_nat ri) run)) = S ri
      /\ twins rid m (set_runs (insert rid (with_round_at (Z.of_nat ri) run)) s) a;
  in_step_phases : drop pi (t_phases (template ctx)) = phase :: rest;
  in_step_rounds : (Z.of_nat ri + 1 + Z.of_nat todo = total_rounds ctx)%Z;
  in_step_auto :
    exists run0,
      auto_from envs rid (template ctx) run0 ri pi (phase :: rest) todo a = (Ok tt, a_fin)
}.

(** ** Bare prefixes

    [text] begins with the letters of [word], in either case. *)
Definition begins_with (word text : list N) : Prop :=
  exists head rest, text = head ++ rest /\ List.map ascii_lower head = word.

(** ** Overlapping advances

    The outputs recorded so far in the round at position [pos] of the
    run [rid]. *)
Definition outputs_at (rid : list N) (pos : nat) (o : Orch) : option (list PhaseOutput) :=
  match store_runs o !! rid with
  | Some run =>
      match run_rounds run !! pos with
      | Some r => Some (rr_phase_outputs r)
      | None => None
      end
  | None => None
  end.

(** The coroutine [res], resumed as calls in flight come to their end:
    [(k, r)] is the completion of the [k]-th of the calls still in
    flight, with the reply [r].  [None]: the coroutine is over, or it
    does not wait for a call. *)
Fixpoint completions (ks : list (nat * reply)) (res : result outcome * Orch)
  : option (result outcome * Orch) :=
  match ks with
  | [] => Some res
  | (k, r) :: ks' =>
      match res with
      | (Ok (Suspended f), o) =>
          match resume (Completed k r) f with
          | Some m => completions ks' (m o)
          | None => None
          end
      | _ => None
      end
  end.

(** Whom a call in flight is made to, as the output of the call will name
    it. *)
Definition callee (phase : PhaseSpec) (call : Participant * list Message) : list N * list N :=
  (ph_id phase, p_id call.1).

(** An [advance] on the run [rid] is suspended in the calls of the phase
    at the cursor: [pending] are the calls still in flight, [got] the
    outputs of those that have completed.  The run of the store stands at
    the cursor; its round there holds [before], what it held when the
    call began, and then [got]; and [got] with the calls in flight names
    every participant of the roster once. *)
Record in_phase (rid : list N) (ctx : RunContext) (run : DebateRun) (ri : nat)
       (phase_idx : Z) (phase : PhaseSpec) (before : list PhaseOutput)
       (pending : list (Participant * list Message)) (got : list PhaseOutput) (o : Orch)
  : Prop := {
  in_phase_cursor : at_cursor rid ctx run (Z.of_nat ri) phase_idx phase o;
  in_phase_calls : pending <> [];
  in_phase_round : outputs_at rid ri o = Some (before ++ got);
  in_phase_roster :
    List.map speaker got ++ List.map (callee phase) pending
    ≡ₚ List.map (fun p => (ph_id phase, p_id p)) (t_participants (template ctx))
}.

(** ** The statuses in use

    No run of the store is pending or failed. *)
Definition in_use (s : RunStatus.t) : Prop :=
  s = RunStatus.running \/ s = RunStatus.completed \/ s = RunStatus.canceled.

Definition statuses_in_use (o : Orch) : Prop :=
  forall rid run, store_runs o !! rid = Some run -> in_use (run_status run).

Definition keeps_statuses (o o' : Orch) : Prop := statuses_in_use o -> statuses_in_use o'.

(** ** The verdict of a round

    The ballots of a round: among the outputs [outputs] of the phases
    [phases], [n] for each phase, those of the last vote phase; [acc]
    when none of the phases is a vote. *)
Definition is_vote (phase : PhaseSpec) : bool := PhaseRole.eqb (ph_role phase) PhaseRole.vote.

Fixpoint ballots (n : nat) (phases : list PhaseSpec) (outputs : list PhaseOutput)
         (acc : option (list PhaseOutput)) : option (list PhaseOutput) :=
  match phases with
  | [] => acc
  | phase :: rest =>
      ballots n rest (drop n outputs) (if is_vote phase then Some (take n outputs) else acc)
  end.

(** The round [r] records the tally of the ballots [cast]: its votes and
    its outcome are those of the tally, or it has neither when no ballot
    was cast. *)
Definition records_tally (cast : option (list PhaseOutput)) (r : RoundResult) : Prop :=
  match cast with
  | Some outs =>
      exists votes outcome,
        _tally_votes outs = Ok (votes, outcome)
        /\ rr_votes r = Some votes /\ rr_outcome r = Some outcome
  | None => rr_votes r = None /\ rr_outcome r = None
  end.

(** A round of a run of the template [template_] records the tally of
    its own ballots. *)
Definition verdict_recorded (template_ : DebateTemplate) (r : RoundResult) : Prop :=
  records_tally
    (ballots (length (t_participants template_)) (t_phases template_) (rr_phase_outputs r) None)
    r.

(** The round at position [pos] of the run [rid]. *)
Definition round_in (rid : list N) (pos : nat) (o : Orch) : option RoundResult :=
  match store_runs o !! rid with
  | Some run => run_rounds run !! pos
  | None => None
  end.

(** A character that stays where it is through [strip], [splitlines],
    [lstrip] of the markers and [lower]: no white space, no line
    boundary, no marker, and ASCII. *)
Definition plain_letter (c : N) : bool :=
  negb (isspace c) && negb (islinebreak c) && negb (mem c markers) && isascii c.

(** ** Examples: a roster, phases, templates and environments *)

Definition participant (name : string) : Participant :=
  {| p_id := py name; p_display_name := py name; p_model_id := py "model";
     p_persona_prompt := py "You are a debater." |}.

Definition roster : list Participant :=
  [participant "alice"; participant "bob"; participant "carol"].

Definition phase_of (name : string) (r : PhaseRole.t) : PhaseSpec :=
  {| ph_id := py name; ph_role := r; ph_prompt_template := py "Speak.";
     ph_visible_to := VisibleTo.all_participants |}.

Definition opening : PhaseSpec := phase_of "opening" PhaseRole.reaction.
Definition rebuttal : PhaseSpec := phase_of "rebuttal" PhaseRole.argument_against.
Definition closing : PhaseSpec := phase_of "closing" PhaseRole.summary.
Definition ballot : PhaseSpec := phase_of "ballot" PhaseRole.vote.

Definition template_of (name : string) (rounds : Z) (phases : list PhaseSpec) : DebateTemplate :=
  {| t_id := py name; t_name := py name; t_topic := py "Tabs or spaces";
     t_rounds := rounds; t_phases := phases; t_participants := roster;
     t_moderator := None |}.

(** Two rounds of three phases, no vote and no moderator. *)
Definition two_by_three : DebateTemplate :=
  template_of "two_by_three" 2 [opening; rebuttal; closing].
(** One round of one vote. *)
Definition one_vote : DebateTemplate := template_of "one_vote" 1 [ballot].
(** One round of one phase that is no vote. *)
Definition no_vote : DebateTemplate := template_of "no_vote" 1 [opening].
(** One round of two phases. *)
Definition two_phases : DebateTemplate := template_of "two_phases" 1 [opening; closing].

Definition templates : gmap (list N) DebateTemplate :=
  <[py "two_by_three" := two_by_three]>
    (<[py "one_vote" := one_vote]>
       (<[py "no_vote" := no_vote]> (<[py "two_phases" := two_phases]> ∅))).

Definition request (name : string) (mode : RunMode.t) : StartDebateRequest :=
  {| req_template_id := py name; req_topic := None; req_rounds := None; req_mode := mode |}.

(** Every participant answers [text]; the calls complete in roster order. *)
Definition all_say (text : string) : PhaseEnv :=
  {| pe_chat := fun _ _ _ => Text (py text); pe_order := [] |}.

Definition output_of (who text : string) : PhaseOutput :=
  {| po_phase_id := py "ballot"; po_participant_id := py who; po_output := py text |}.

(** The tables of a Python runtime restricted to ASCII, for the examples:
    no letter and no case outside ASCII, and an outcome rendered by its
    value. *)
Definition lower_ascii_only : list N -> N -> list N -> list N := fun _ c _ => [c].
Definition alnum_ascii_only : N -> bool := fun _ => false.
Definition outcome_value (oc : RoundOutcome.t) : list N :=
  match oc with
  | RoundOutcome.yes => py "YES"
  | RoundOutcome.no => py "NO"
  | RoundOutcome.tie => py "TIE"
  | RoundOutcome.invalid => py "INVALID"
  end.

(** The engine after [start] of a run [r] on a template of the examples. *)
Definition started (name : string) (mode : RunMode.t) : Orch :=
  (start_debate (request name mode) (py "r") (orch (initial templates))).2.

(** Traces of the examples.  An auto run of [two_phases] is started and its
    task begins: the calls of [opening] are in flight. *)
Definition opening_in_flight : list event :=
  [Start (request "two_phases" RunMode.auto) (py "r"); Resume 0 Scheduled].

(** The three calls in flight complete, one after the other. *)
Definition three_replies (text : string) : list event :=
  [Resume 0 (Completed 0 (Text (py text))); Resume 0 (Completed 0 (Text (py text)));
   Resume 0 (Completed 0 (Text (py text)))].

(** A step run of [one_vote] is started and advanced, and its three
    participants answer: the run is finalized. *)
Definition voted : list event :=
  [Start (request "one_vote" RunMode.step) (py "r"); Advance (py "r")] ++ three_replies "yes".

(** Every round goes the same way: every participant answers [text] in
    every phase, and the moderator, if any, answers nothing. *)
Definition always (text : string) : nat -> RoundEnv :=
  fun _ => {| re_phase := fun _ => all_say text; re_moderator := Text [] |}.

(** A template without phases, and the engine after [start] of a step run
    [r] on it. *)
Definition no_phases : DebateTemplate := template_of "no_phases" 1 [].

Definition started_without_phases : Orch :=
  (start_debate (request "no_phases" RunMode.step) (py "r")
     (set_templates (insert (py "no_phases") no_phases) (orch (initial templates)))).2.

(** A request for a step run of [one_vote] with [rounds] rounds, on a topic
    of its own. *)
Definition request_rounds (rounds : Z) : StartDebateRequest :=
  {| req_template_id := py "one_vote"; req_topic := Some (py "Vim or Emacs");
     req_rounds := Some rounds; req_mode := RunMode.step |}.

(** Two rounds of a phase of reactions and a vote. *)
Definition react_and_vote : DebateTemplate :=
  template_of "react_and_vote" 2 [opening; ballot].

(** The engine after [start] of a run [r] on it. *)
Definition started_react_and_vote (mode : RunMode.t) : Orch :=
  (start_debate (request "react_and_vote" mode) (py "r")
     (set_templates (insert (py "react_and_vote") react_and_vote) (orch (initial templates)))).2.

Local Close Scope N_scope.

(** ** Facts: Python strings *)

Lemma dropwhile_all (p : N -> bool) (s : list N) :
  forallb p s = true -> dropwhile p s = [].
Proof.
  induction s as [|c s IH]; simpl; [reflexivity|].
  intros H. apply andb_true_iff in H as [Hc Hs]. rewrite Hc. auto.
Qed.

Lemma dropwhile_keeps (p : N -> bool) (s : list N) (c : N) :
  In c s -> p c = false -> In c (dropwhile p s).
Proof.
  induction s as [|d s IH]; simpl; [tauto|].
  intros [->|Hin] Hc.
  - rewrite Hc. left. reflexivity.
  - destruct (p d); [auto|]. right. exact Hin.
Qed.

Lemma forallb_false_witness (p : N -> bool) (s : list N) :
  forallb p s = false -> exists c, In c s /\ p c = false.
Proof.
  induction s as [|d s IH]; simpl; [discriminate|].
  destruct (p d) eqn:Hd; simpl.
  - intros H. destruct (IH H) as (c & Hin & Hc). exists c. auto.
  - intros _. exists d. auto.
Qed.

Lemma strip_blank (s : list N) : forallb isspace s = true -> strip s = [].
Proof.
  intros H. unfold strip, lstrip_with, rstrip_with.
  rewrite (dropwhile_all isspace (rev s)); [reflexivity|].
  apply forallb_forall. intros c Hc. apply in_rev in Hc.
  eapply forallb_forall in H; eauto.
Qed.

Lemma strip_not_blank (s : list N) : forallb isspace s = false -> strip s <> [].
Proof.
  intros H. destruct (forallb_false_witness _ _ H) as (c & Hin & Hc).
  assert (In c (strip s)) as Hs.
  { unfold strip, lstrip_with, rstrip_with.
    apply dropwhile_keeps; [|exact Hc].
    apply in_rev. rewrite rev_involutive.
    apply dropwhile_keeps; [|exact Hc]. apply in_rev. rewrite rev_involutive. exact Hin. }
  intros E. rewrite E in Hs. destruct Hs.
Qed.

Lemma splitlines_from_nil (cur s : list N) :
  splitlines_from cur s = [] -> cur = [] /\ s = [].
Proof.
  revert cur. induction s as [|c s IH]; intros cur; simpl.
  - destruct cur; [auto|discriminate].
  - destruct (islinebreak c).
    + destruct s as [|d s']; [discriminate|].
      destruct ((c =? 13)%N && (d =? 10)%N); discriminate.
    + intros H. apply IH in H as [H _]. discriminate.
Qed.

Lemma splitlines_not_nil (s : list N) : s <> [] -> splitlines s <> [].
Proof.
  intros Hs E. apply splitlines_from_nil in E as [_ E]. auto.
Qed.

(** ** Facts: the vote parser *)

Lemma parse_vote_blank (raw : list N) :
  blank raw = true -> _parse_vote raw = Raise IndexError.
Proof.
  destruct raw as [|c raw]; [discriminate|]. unfold blank. intros H.
  unfold _parse_vote. rewrite (strip_blank _ H). reflexivity.
Qed.

Lemma parse_vote_not_blank (raw : list N) :
  blank raw = false -> exists v, _parse_vote raw = Ok v.
Proof.
  destruct raw as [|c raw]; [intros _; exists VoteValue.invalid; reflexivity|].
  unfold blank. intros H. unfold _parse_vote.
  destruct (splitlines (strip (c :: raw))) as [|first_line rest] eqn:E.
  - exfalso. revert E. apply splitlines_not_nil, strip_not_blank, H.
  - destruct (Re.match_ _ _ _) as [g|]; [eauto|].
    destruct (startswith _ _); [eauto|]. destruct (startswith _ _); eauto.
Qed.

Lemma parse_vote_vote_of (raw : list N) :
  blank raw = false -> _parse_vote raw = Ok (vote_of raw).
Proof.
  intros H. destruct (parse_vote_not_blank raw H) as [v Hv].
  unfold vote_of. rewrite Hv. reflexivity.
Qed.

(** The error marker of a failed call is no vote: were it tallied, it
    would count as INVALID and raise nothing. *)
Lemma dropwhile_snoc_keeps (p : N -> bool) (l : list N) (c : N) :
  p c = false -> exists t, dropwhile p (l ++ [c]) = t ++ [c].
Proof.
  intros Hc. induction l as [|d l IH]; simpl.
  - rewrite Hc. exists []. reflexivity.
  - destruct (p d); [exact IH|]. exists (d :: l). reflexivity.
Qed.

Lemma rstrip_keeps_head (p : N -> bool) (c : N) (l : list N) :
  p c = false -> exists t, rstrip_with p (c :: l) = c :: t.
Proof.
  intros Hc. unfold rstrip_with. simpl rev.
  destruct (dropwhile_snoc_keeps p (rev l) c Hc) as [t Ht]. rewrite Ht.
  rewrite rev_app_distr. simpl. eauto.
Qed.

Lemma rstrip_keeps_all (p : N -> bool) (l : list N) (c : N) :
  p c = false -> rstrip_with p (l ++ [c]) = l ++ [c].
Proof.
  intros Hc. unfold rstrip_with. rewrite rev_app_distr. simpl.
  rewrite Hc. change (c :: rev l) with ([c] ++ rev l).
  rewrite rev_app_distr, rev_involutive. reflexivity.
Qed.

Lemma splitlines_from_head (s : list N) :
  forall cur, cur <> [] -> exists l rest, splitlines_from cur s = (rev cur ++ l) :: rest.
Proof.
  induction s as [|c s IH]; intros cur Hcur; simpl.
  - destruct cur; [contradiction|]. exists [], []. rewrite app_nil_r. reflexivity.
  - destruct (islinebreak c).
    + destruct s as [|d s'].
      * exists [], []. rewrite app_nil_r. reflexivity.
      * destruct ((c =? 13)%N && (d =? 10)%N); eexists [], _; rewrite app_nil_r; reflexivity.
    + destruct (IH (c :: cur)) as (l & rest & E); [discriminate|].
      exists (c :: l), rest. rewrite E. simpl. rewrite <- app_assoc. reflexivity.
Qed.

Lemma parse_vote_error_marker (msg : list N) :
  _parse_vote (run_one (Failed msg)) = Ok VoteValue.invalid.
Proof.
  unfold run_one.
  assert (exists body, py "(error: " ++ msg ++ py ")" = (40%N :: body) ++ [41%N]) as [body Eb].
  { exists (py "error: " ++ msg). reflexivity. }
  rewrite Eb. clear Eb.
  assert (strip ((40%N :: body) ++ [41%N]) = 40%N :: body ++ [41%N]) as Es.
  { unfold strip. rewrite rstrip_keeps_all by reflexivity. reflexivity. }
  change ((40%N :: body) ++ [41%N]) with (40%N :: (body ++ [41%N])) in *.
  unfold _parse_vote. rewrite Es.
  unfold splitlines. simpl splitlines_from.
  destruct (splitlines_from_head (body ++ [41%N]) [40%N]) as (l & rest & E); [discriminate|].
  rewrite E. simpl rev. simpl app.
  change (lstrip markers (40%N :: l)) with (40%N :: l).
  unfold strip. destruct (rstrip_keeps_head isspace 40%N l eq_refl) as [t Ht].
  rewrite Ht. reflexivity.
Qed.

(** ** Facts: the tally *)

Lemma count_votes_cons (v : VoteValue.t) (o : PhaseOutput) (outputs : list PhaseOutput) :
  count_votes v (o :: outputs)
  = ((if VoteValue.eqb (vote_of (po_output o)) v then 1 else 0) + count_votes v outputs)%Z.
Proof.
  unfold count_votes. simpl. destruct (VoteValue.eqb _ _); simpl length; lia.
Qed.

Lemma tally_loop_ok (outputs : list PhaseOutput) :
  forall votes yes_count no_count,
    existsb (fun o => blank (po_output o)) outputs = false ->
    tally_loop outputs votes yes_count no_count
    = Ok (votes ++ List.map vote_result outputs,
          (yes_count + count_votes VoteValue.yes outputs)%Z,
          (no_count + count_votes VoteValue.no outputs)%Z).
Proof.
  induction outputs as [|o outputs IH]; intros votes y n H; simpl.
  - unfold count_votes. simpl. rewrite app_nil_r, !Z.add_0_r. reflexivity.
  - simpl in H. apply orb_false_iff in H as [Ho Hrest].
    rewrite (parse_vote_vote_of _ Ho). simpl.
    rewrite !count_votes_cons.
    assert (forall v : VoteValue.t,
               votes ++ vote_result o :: List.map vote_result outputs
               = (votes ++ [ {| vr_participant_id := po_participant_id o;
                                vr_raw_output := po_output o;
                                vr_parsed_vote := vote_of (po_output o) |} ])
                   ++ List.map vote_result outputs) as Happ.
    { intros _. rewrite <- app_assoc. reflexivity. }
    rewrite (Happ VoteValue.yes). clear Happ.
    destruct (vote_of (po_output o)) eqn:Ev; simpl;
      rewrite (IH _ _ _ Hrest); rewrite ?Z.add_0_l, ?Z.add_assoc; reflexivity.
Qed.

Lemma tally_loop_blank (outputs : list PhaseOutput) :
  forall votes yes_count no_count,
    existsb (fun o => blank (po_output o)) outputs = true ->
    tally_loop outputs votes yes_count no_count = Raise IndexError.
Proof.
  induction outputs as [|o outputs IH]; intros votes y n H; simpl in *; [discriminate|].
  destruct (blank (po_output o)) eqn:Ho.
  - rewrite (parse_vote_blank _ Ho). reflexivity.
  - simpl in H. rewrite (parse_vote_vote_of _ Ho). simpl.
    destruct (vote_of (po_output o)); apply IH; exact H.
Qed.

(** ** Facts: the dispatcher *)

Lemma as_completed_perm {A : Type} (fuel : nat) :
  forall (order : list nat) (tasks : list A),
    length tasks <= fuel -> as_completed order tasks fuel ≡ₚ tasks.
Proof.
  induction fuel as [|fuel IH]; intros order tasks Hlen.
  - destruct tasks; [reflexivity|simpl in Hlen; lia].
  - simpl. destruct tasks as [|t tasks].
    + simpl. destruct (hd 0 order); reflexivity.
    + set (k := (hd 0 order mod length (t :: tasks))).
      assert (k < length (t :: tasks)) as Hk
          by (apply Nat.mod_upper_bound; simpl; lia).
      destruct (lookup_lt_is_Some_2 _ _ Hk) as [x Hx]. rewrite Hx.
      transitivity (x :: delete k (t :: tasks));
        [|symmetry; apply delete_Permutation; exact Hx].
      constructor. apply IH. rewrite length_delete by eauto. simpl in *. lia.
Qed.

Lemma delete_map {A B : Type} (f : A -> B) (l : list A) :
  forall k : nat, delete k (List.map f l) = List.map f (delete k l).
Proof.
  induction l as [|a l IH]; intros [|k]; simpl; try reflexivity.
  f_equal. apply IH.
Qed.

Lemma as_completed_map {A B : Type} (f : A -> B) (fuel : nat) :
  forall (order : list nat) (tasks : list A),
    as_completed order (List.map f tasks) fuel = List.map f (as_completed order tasks fuel).
Proof.
  induction fuel as [|fuel IH]; intros order tasks; simpl; [reflexivity|].
  rewrite length_map.
  change (List.map f tasks) with (f <$> tasks) at 1. rewrite list_lookup_fmap.
  destruct (tasks !! _) as [t|] eqn:E; simpl; [|reflexivity].
  f_equal. rewrite delete_map. apply IH.
Qed.

Lemma execute_phase_tasks (env : PhaseEnv) (template_ : DebateTemplate) (phase : PhaseSpec)
      (run : DebateRun) (round_index : Z) :
  List.map (fun '(p, r) => phase_output phase p r)
    (imap (fun i '(p, messages) => (p, pe_chat env i (p_model_id p) messages))
       (dispatch template_ phase run round_index))
  = imap (contribution env template_ phase run round_index) (t_participants template_).
Proof.
  unfold dispatch.
  change (List.map ?f ?l) with (f <$> l).
  rewrite imap_fmap, fmap_imap. apply imap_ext. intros i p _. reflexivity.
Qed.

Lemma execute_phase_eq (env : PhaseEnv) (template_ : DebateTemplate) (phase : PhaseSpec)
      (run_id_ : list N) (run : DebateRun) (round_index : Z) (pos : nat) (o : Orch) :
  _execute_phase env template_ phase run_id_ run round_index pos o
  = let outputs :=
      as_completed (pe_order env)
        (imap (contribution env template_ phase run round_index) (t_participants template_))
        (length (t_participants template_)) in
    (Ok outputs, fold_left (fun o' po => record_output run_id_ pos po o') outputs o).
Proof.
  unfold _execute_phase. cbv zeta.
  rewrite <- as_completed_map, execute_phase_tasks.
  rewrite length_imap. unfold dispatch. rewrite length_map. reflexivity.
Qed.

Lemma contribution_contained (env : PhaseEnv) (template_ : DebateTemplate) (phase : PhaseSpec)
      (run : DebateRun) (round_index : Z) (i : nat) (p : Participant) :
  contribution (contained env) template_ phase run round_index i p
  = contribution env template_ phase run round_index i p.
Proof. reflexivity. Qed.

Lemma execute_phase_contained (env : PhaseEnv) (template_ : DebateTemplate) (phase : PhaseSpec)
      (run_id_ : list N) (run : DebateRun) (round_index : Z) (pos : nat) (o : Orch) :
  _execute_phase (contained env) template_ phase run_id_ run round_index pos o
  = _execute_phase env template_ phase run_id_ run round_index pos o.
Proof.
  rewrite !execute_phase_eq. cbv zeta.
  rewrite (imap_ext (contribution (contained env) template_ phase run round_index)
             (contribution env template_ phase run round_index));
    [reflexivity|]. intros; apply contribution_contained.
Qed.

Lemma execute_phase_step_contained (env : PhaseEnv) (moderator_reply : reply)
      (run_id_ : list N) (o : Orch) :
  _execute_phase_step (contained env) moderator_reply run_id_ o
  = _execute_phase_step env moderator_reply run_id_ o.
Proof.
  unfold _execute_phase_step, mbind.
  destruct (step_prologue run_id_ o) as [[pro|e] o1]; [|reflexivity].
  destruct pro as [[[[[[ctx ri] pi] ph] pos] run1]|]; [|reflexivity].
  rewrite execute_phase_contained. reflexivity.
Qed.

Lemma advance_debate_contained (env : PhaseEnv) (moderator_reply : reply)
      (run_id_ : list N) (o : Orch) :
  advance_debate (contained env) moderator_reply run_id_ o
  = advance_debate env moderator_reply run_id_ o.
Proof.
  unfold advance_debate.
  destruct (_context o !! run_id_) as [ctx|]; [|reflexivity].
  destruct (store_runs o !! run_id_) as [run|]; [|reflexivity].
  destruct (negb _); [reflexivity|]. destruct (RunStatus.terminal _); [reflexivity|].
  unfold mbind. rewrite execute_phase_step_contained. reflexivity.
Qed.

Lemma phases_loop_contained (env : RoundEnv) (template_ : DebateTemplate) (run_id_ : list N)
      (run : DebateRun) (round_index : Z) (pos : nat) :
  forall phases j o,
    phases_loop (contained_round env) template_ run_id_ run round_index pos j phases o
    = phases_loop env template_ run_id_ run round_index pos j phases o.
Proof.
  induction phases as [|phase rest IH]; intros j o; cbn [phases_loop]; [reflexivity|].
  unfold mbind. cbn [contained_round re_phase]. rewrite execute_phase_contained.
  destruct (_execute_phase _ _ _ _ _ _ _ o) as [[outputs|e] o1]; [|reflexivity].
  destruct (round_votes run_id_ pos phase outputs o1) as [[[]|e] o2]; [apply IH|reflexivity].
Qed.

Lemma execute_round_contained (env : RoundEnv) (run_id_ : list N) (o : Orch) :
  _execute_round (contained_round env) run_id_ o = _execute_round env run_id_ o.
Proof.
  unfold _execute_round, mbind.
  destruct (round_prologue run_id_ o) as [[pro|e] o1]; [|reflexivity].
  destruct pro as [[[[template_ round_index] pos] run]|]; [|reflexivity].
  rewrite phases_loop_contained. reflexivity.
Qed.

Lemma rounds_loop_contained (envs : nat -> RoundEnv) (run_id_ : list N) :
  forall todo i o,
    rounds_loop (fun i => contained_round (envs i)) run_id_ i todo o
    = rounds_loop envs run_id_ i todo o.
Proof.
  induction todo as [|todo IH]; intros i o; cbn [rounds_loop]; [reflexivity|].
  unfold mbind. rewrite execute_round_contained.
  destruct (_execute_round (envs i) run_id_ o) as [[[]|e] o1]; [apply IH|reflexivity].
Qed.

Lemma run_to_completion_contained (envs : nat -> RoundEnv) (run_id_ : list N) (o : Orch) :
  _run_to_completion (fun i => contained_round (envs i)) run_id_ o
  = _run_to_completion envs run_id_ o.
Proof.
  unfold _run_to_completion.
  destruct (_context o !! run_id_) as [ctx|]; [|reflexivity].
  destruct (store_runs o !! run_id_) as [run|]; [|reflexivity].
  unfold mbind. rewrite rounds_loop_contained. reflexivity.
Qed.


(** ** Facts: the effect of the methods on a run *)

Lemma effect_refl (rid : list N) (o : Orch) (ok : bool) : effect rid o ok o.
Proof. split; auto. intros _ H. congruence. Qed.

Lemma effect_weaken (rid : list N) (o o' : Orch) (ok : bool) :
  effect rid o true o' -> effect rid o ok o'.
Proof. intros [E1 E2 E3 E4]. split; auto. Qed.

Lemma effect_trans (rid : list N) (o o1 o2 : Orch) (ok : bool) :
  effect rid o true o1 -> effect rid o1 ok o2 -> effect rid o ok o2.
Proof.
  intros [A1 A2 A3 A4] [B1 B2 B3 B4]. split.
  - destruct B1 as [B1|B1]; [rewrite B1; exact A1|auto].
  - intros Hc. destruct (A2 Hc) as [As Ar].
    assert (_context o1 !! rid = None) as Hc1 by (destruct A1 as [A1|A1]; congruence).
    destruct (B2 Hc1) as [Bs Br]. split; congruence.
  - destruct B3 as [B3|(B3 & B3' & B3'')].
    + rewrite B3. exact A3.
    + right. split; [exact B3|]. split.
      * destruct A3 as [A3|(A3 & A3' & _)]; [rewrite <- A3; exact B3'|exact A3'].
      * destruct A1 as [A1|A1]; [rewrite <- A1; exact B3''|].
        rewrite A1 in B3''. destruct B3'' as [? ?]. discriminate.
  - intros Hok Hne.
    destruct (decide (status_of rid o1 = status_of rid o)) as [E|E].
    + apply B4; [exact Hok|]. congruence.
    + specialize (A4 eq_refl E). destruct B1 as [B1|B1]; congruence.
Qed.

(** The context untouched, the status of [rid] kept, and its number of
    rounds kept unless it has a context. *)
Lemma effect_quiet (rid : list N) (o o' : Orch) (ok : bool) :
  _context o' = _context o ->
  status_of rid o' = status_of rid o ->
  (_context o !! rid = None -> round_count rid o' = round_count rid o) ->
  effect rid o ok o'.
Proof.
  intros Hc Hs Hr. split.
  - left. rewrite Hc. reflexivity.
  - auto.
  - auto.
  - intros _ H. congruence.
Qed.

Lemma sound_ret {A : Type} (a : A) : sound (ret a).
Proof. intros rid o r o' H. inversion H. apply effect_refl. Qed.

Lemma sound_raise {A : Type} (e : exn) : sound (@raise A e).
Proof. intros rid o r o' H. inversion H. apply effect_refl. Qed.

Lemma sound_lift {A : Type} (x : result A) : sound (lift x).
Proof. intros rid o r o' H. inversion H. apply effect_refl. Qed.

Lemma sound_modify (f : Orch -> Orch) :
  (forall rid o, effect rid o true (f o)) -> sound (modify f).
Proof. intros Hf rid o r o' H. inversion H. apply Hf. Qed.

Lemma sound_bind {A B : Type} (m : M A) (k : A -> M B) :
  sound m -> (forall a, sound (k a)) -> sound (mbind m k).
Proof.
  intros Hm Hk rid o r o' H. unfold mbind in H.
  destruct (m o) as [[a|e] o1] eqn:Em.
  - eapply effect_trans; [apply (Hm rid _ _ _ Em)|apply (Hk a rid _ _ _ H)].
  - inversion H; subst. apply (Hm rid _ _ _ Em).
Qed.

Lemma effect_alter_run (rid rid' : list N) (g : DebateRun -> DebateRun) (o : Orch) (ok : bool) :
  (forall run, run_status (g run) = run_status run
               /\ length (run_rounds (g run)) = length (run_rounds run)) ->
  effect rid o ok (set_runs (alter g rid') o).
Proof.
  intros Hg. apply effect_quiet; [reflexivity| |intros _].
  - unfold status_of. simpl. destruct (decide (rid' = rid)) as [->|Hne].
    + rewrite lookup_alter_eq. destruct (store_runs o !! rid) as [run|]; simpl; [|reflexivity].
      f_equal. apply Hg.
    + rewrite lookup_alter_ne by exact Hne. reflexivity.
  - unfold round_count. simpl. destruct (decide (rid' = rid)) as [->|Hne].
    + rewrite lookup_alter_eq. destruct (store_runs o !! rid) as [run|]; simpl; [|reflexivity].
      f_equal. apply Hg.
    + rewrite lookup_alter_ne by exact Hne. reflexivity.
Qed.

Lemma effect_alter_round (rid rid' : list N) (pos : nat) (f : RoundResult -> RoundResult)
      (o : Orch) (ok : bool) :
  effect rid o ok (alter_round rid' pos f o).
Proof.
  apply effect_alter_run. intros run. split; [reflexivity|]. simpl. apply length_alter.
Qed.

Lemma effect_set_progress (rid : list N) (f : gmap (list N) (Z * Z) -> gmap (list N) (Z * Z))
      (o : Orch) (ok : bool) :
  effect rid o ok (set_progress f o).
Proof. apply effect_quiet; auto. Qed.

Lemma effect_insert_run (rid rid' : list N) (run run1 : DebateRun) (o : Orch) (ok : bool) :
  store_runs o !! rid' = Some run ->
  is_Some (_context o !! rid') ->
  run_status run1 = run_status run ->
  effect rid o ok (set_runs (insert rid' run1) o).
Proof.
  intros Hrun Hctx Hst. apply effect_quiet; [reflexivity| |].
  - unfold status_of. simpl. destruct (decide (rid' = rid)) as [->|Hne].
    + rewrite lookup_insert_eq, Hrun. simpl. congruence.
    + rewrite lookup_insert_ne by exact Hne. reflexivity.
  - intros Hnone. unfold round_count. simpl. destruct (decide (rid' = rid)) as [->|Hne].
    + rewrite Hnone in Hctx. destruct Hctx as [? ?]. discriminate.
    + rewrite lookup_insert_ne by exact Hne. reflexivity.
Qed.

Lemma sound_finalize (run_id_ : list N) : sound (_finalize run_id_).
Proof.
  intros rid o r o' H. unfold _finalize in H.
  destruct (store_runs o !! run_id_) as [run|] eqn:Er;
    [|inversion H; apply effect_refl].
  destruct (_context o !! run_id_) as [ctx|] eqn:Ec;
    [|inversion H; apply effect_refl].
  assert (forall s : RunStatus.t, rid <> run_id_ ->
            status_of rid (set_runs (alter (with_status s) run_id_) o) = status_of rid o
            /\ round_count rid (set_runs (alter (with_status s) run_id_) o) = round_count rid o)
    as Hother.
  { intros s Hne. unfold status_of, round_count. simpl.
    rewrite lookup_alter_ne by congruence. auto. }
  assert (status_of run_id_ (set_runs (alter (with_status RunStatus.completed) run_id_) o)
          = Some RunStatus.completed) as Hself.
  { unfold status_of. simpl. rewrite lookup_alter_eq, Er. reflexivity. }
  destruct (make_FinalRecord _ _ _) as [final|e]; inversion H; subst; clear H.
  - destruct (decide (rid = run_id_)) as [->|Hne]; split; simpl.
    + right. apply lookup_delete_eq.
    + rewrite Ec. discriminate.
    + right. split; [exact Hself|]. unfold status_of. rewrite Er, Ec. eauto.
    + intros _ _. apply lookup_delete_eq.
    + left. apply lookup_delete_ne. congruence.
    + intros _. apply (Hother RunStatus.completed Hne).
    + left. apply (Hother RunStatus.completed Hne).
    + intros _ Hch. exfalso. apply Hch. apply (Hother RunStatus.completed Hne).
  - destruct (decide (rid = run_id_)) as [->|Hne]; split; simpl.
    + left. reflexivity.
    + rewrite Ec. discriminate.
    + right. split; [exact Hself|]. unfold status_of. rewrite Er, Ec. eauto.
    + discriminate.
    + left. reflexivity.
    + intros _. apply (Hother RunStatus.completed Hne).
    + left. apply (Hother RunStatus.completed Hne).
    + discriminate.
Qed.

Create HintDb sound.

#[local] Hint Resolve sound_finalize : sound.

Ltac sound_tac :=
  repeat first
    [ solve [eauto with sound]
    | apply sound_ret | apply sound_raise | apply sound_lift
    | apply sound_bind
    | apply sound_modify; intros; first [apply effect_alter_round | apply effect_set_progress]
    | progress intros
    | match goal with
      | |- sound (if ?b then _ else _) => destruct b
      | |- sound (match ?x with _ => _ end) => destruct x
      | |- sound (let '(_, _) := ?x in _) => destruct x
      end ].

Ltac by_sound H :=
  match type of H with
  | ?m _ = (_, _) =>
      let Hs := fresh "Hs" in
      assert (sound m) as Hs by sound_tac;
      exact (Hs _ _ _ _ H)
  end.

Lemma sound_step_prologue (run_id_ : list N) : sound (step_prologue run_id_).
Proof.
  intros rid o r o' H. unfold step_prologue in H.
  destruct (_context o !! run_id_) as [ctx|] eqn:Ec; [|inversion H; apply effect_refl].
  destruct (store_runs o !! run_id_) as [run|] eqn:Er; [|inversion H; apply effect_refl].
  destruct (_progress o !! run_id_) as [[round_idx phase_idx]|];
    [|inversion H; apply effect_refl].
  destruct (total_rounds ctx <=? round_idx)%Z; [by_sound H|].
  eapply effect_trans; [|by_sound H].
  eapply effect_insert_run; [exact Er|rewrite Ec; eauto|].
  destruct (_ <=? _)%Z; reflexivity.
Qed.

Lemma sound_round_prologue (run_id_ : list N) : sound (round_prologue run_id_).
Proof.
  intros rid o r o' H. unfold round_prologue in H.
  destruct (_context o !! run_id_) as [ctx|] eqn:Ec; [|inversion H; apply effect_refl].
  destruct (store_runs o !! run_id_) as [run|] eqn:Er; [|inversion H; apply effect_refl].
  eapply effect_trans; [|by_sound H].
  eapply effect_insert_run; [exact Er|rewrite Ec; eauto|].
  destruct (_ <? _)%Z; reflexivity.
Qed.

Lemma sound_step_votes (run_id_ : list N) (round_idx : Z) (phase : PhaseSpec)
      (outputs : list PhaseOutput) :
  sound (step_votes run_id_ round_idx phase outputs).
Proof.
  unfold step_votes. destruct (PhaseRole.eqb _ _); [|apply sound_ret].
  apply sound_bind; [apply sound_lift|]. intros [votes outcome] rid o r o' H.
  destruct (store_runs o !! run_id_) as [run|]; [by_sound H|].
  inversion H. apply effect_refl.
Qed.

Lemma sound_step_summary (run_id_ : list N) (round_idx : Z) (r : reply) :
  sound (step_summary run_id_ round_idx r).
Proof.
  unfold step_summary. apply sound_bind; [apply sound_lift|].
  intros summary rid o r' o' H.
  destruct (store_runs o !! run_id_) as [run|]; [by_sound H|].
  inversion H. apply effect_refl.
Qed.

Lemma sound_step_round (run_id_ : list N) (round_idx : Z) :
  sound (step_round run_id_ round_idx).
Proof.
  intros rid o r o' H. unfold step_round in H.
  destruct (store_runs o !! run_id_) as [run|]; [by_sound H|].
  inversion H. apply effect_refl.
Qed.

Lemma sound_step_finish (run_id_ : list N) (ctx : RunContext) (round_idx phase_idx : Z) :
  sound (step_finish run_id_ ctx round_idx phase_idx).
Proof. unfold step_finish. sound_tac. Qed.

Lemma sound_respond (run_id_ : list N) (run : DebateRun) : sound (respond run_id_ run).
Proof. intros rid o r o' H. inversion H. apply effect_refl. Qed.

Lemma sound_round_votes (run_id_ : list N) (pos : nat) (phase : PhaseSpec)
      (outputs : list PhaseOutput) :
  sound (round_votes run_id_ pos phase outputs).
Proof. unfold round_votes. sound_tac. Qed.

Lemma sound_round_summary (run_id_ : list N) (pos : nat) (r : reply) :
  sound (round_summary run_id_ pos r).
Proof. unfold round_summary. sound_tac. Qed.

#[local] Hint Resolve sound_step_prologue sound_round_prologue sound_step_votes
  sound_step_round sound_step_summary sound_step_finish sound_respond sound_round_votes
  sound_round_summary : sound.

Lemma effect_record_outputs (rid run_id_ : list N) (pos : nat) (outputs : list PhaseOutput) :
  forall (o : Orch) (ok : bool),
    effect rid o ok (fold_left (fun o' po => record_output run_id_ pos po o') outputs o).
Proof.
  induction outputs as [|po outputs IH]; intros o ok; simpl; [apply effect_refl|].
  eapply effect_trans; [apply effect_alter_round|apply IH].
Qed.

Lemma sound_execute_phase (env : PhaseEnv) (template_ : DebateTemplate) (phase : PhaseSpec)
      (run_id_ : list N) (run : DebateRun) (round_index : Z) (pos : nat) :
  sound (_execute_phase env template_ phase run_id_ run round_index pos).
Proof.
  intros rid o r o' H. unfold _execute_phase in H. inversion H; subst.
  apply effect_record_outputs.
Qed.

#[local] Hint Resolve sound_execute_phase : sound.

Lemma sound_execute_phase_step (env : PhaseEnv) (moderator_reply : reply) (run_id_ : list N) :
  sound (_execute_phase_step env moderator_reply run_id_).
Proof.
  unfold _execute_phase_step. apply sound_bind; [apply sound_step_prologue|].
  intros [[[[[[ctx round_idx] phase_idx] phase] pos] run]|]; sound_tac.
Qed.

#[local] Hint Resolve sound_execute_phase_step : sound.

Lemma sound_advance_debate (env : PhaseEnv) (moderator_reply : reply) (run_id_ : list N) :
  sound (advance_debate env moderator_reply run_id_).
Proof.
  intros rid o r o' H. unfold advance_debate in H.
  destruct (_context o !! run_id_) as [ctx|]; [|inversion H; apply effect_refl].
  destruct (store_runs o !! run_id_) as [run|]; [|inversion H; apply effect_refl].
  destruct (negb _); [inversion H; apply effect_refl|].
  destruct (RunStatus.terminal _); [inversion H; apply effect_refl|].
  by_sound H.
Qed.

Lemma sound_phases_loop (env : RoundEnv) (template_ : DebateTemplate) (run_id_ : list N)
      (run : DebateRun) (round_index : Z) (pos : nat) (phases : list PhaseSpec) :
  forall i, sound (phases_loop env template_ run_id_ run round_index pos i phases).
Proof.
  induction phases as [|phase rest IH]; intros i; simpl; [apply sound_ret|].
  intros rid o r o' H. revert H.
  generalize (current run_id_ run o). intros run' H.
  assert (sound (do outputs <- _execute_phase (re_phase env i) template_ phase run_id_ run'
                                 round_index pos;
                 do _ <- round_votes run_id_ pos phase outputs;
                 phases_loop env template_ run_id_ run round_index pos (S i) rest)) as Hs
      by sound_tac.
  exact (Hs _ _ _ _ H).
Qed.

#[local] Hint Resolve sound_phases_loop : sound.

Lemma sound_execute_round (env : RoundEnv) (run_id_ : list N) :
  sound (_execute_round env run_id_).
Proof.
  unfold _execute_round. apply sound_bind; [apply sound_round_prologue|].
  intros [[[[template_ round_index] pos] run]|]; sound_tac.
Qed.

#[local] Hint Resolve sound_execute_round : sound.

Lemma sound_rounds_loop (envs : nat -> RoundEnv) (run_id_ : list N) (todo : nat) :
  forall i, sound (rounds_loop envs run_id_ i todo).
Proof. induction todo as [|todo IH]; intros i; simpl; sound_tac. Qed.

#[local] Hint Resolve sound_rounds_loop : sound.

Lemma sound_run_to_completion (envs : nat -> RoundEnv) (run_id_ : list N) :
  sound (_run_to_completion envs run_id_).
Proof.
  intros rid o r o' H. unfold _run_to_completion in H.
  destruct (_context o !! run_id_) as [ctx|]; [|inversion H; apply effect_refl].
  destruct (store_runs o !! run_id_) as [run|]; [|inversion H; apply effect_refl].
  match type of H with
  | ?m _ = _ => assert (sound m) as Hs
  end.
  { apply sound_bind; [apply sound_rounds_loop|]. intros _.
    apply sound_bind; [apply sound_finalize|]. intros _ rid' o1 r1 o1' H1.
    inversion H1. apply effect_refl. }
  exact (Hs _ _ _ _ H).
Qed.

(** The coroutines. *)

Lemma sound_advance_end (run_id_ : list N) (run : DebateRun) (ctx : RunContext)
      (round_idx phase_idx : Z) :
  sound (advance_end run_id_ run ctx round_idx phase_idx).
Proof. unfold advance_end. sound_tac. Qed.

#[local] Hint Resolve sound_advance_end : sound.

Lemma sound_advance_after_phase (run_id_ : list N) (run : DebateRun) (ctx : RunContext)
      (round_idx phase_idx : Z) (phase : PhaseSpec) (outputs : list PhaseOutput) :
  sound (advance_after_phase run_id_ run ctx round_idx phase_idx phase outputs).
Proof. unfold advance_after_phase. sound_tac. Qed.

#[local] Hint Resolve sound_advance_after_phase : sound.

Lemma sound_advance_collect (run_id_ : list N) (run : DebateRun) (ctx : RunContext)
      (round_idx phase_idx : Z) (phase : PhaseSpec) (pos : nat)
      (pending : list (Participant * list Message)) (outputs : list PhaseOutput) :
  sound (advance_collect run_id_ run ctx round_idx phase_idx phase pos pending outputs).
Proof. unfold advance_collect. sound_tac. Qed.

#[local] Hint Resolve sound_advance_collect : sound.

Lemma sound_advance_begin (run_id_ : list N) : sound (advance_begin run_id_).
Proof.
  intros rid o r o' H. unfold advance_begin in H.
  destruct (_context o !! run_id_) as [ctx|]; [|inversion H; apply effect_refl].
  destruct (store_runs o !! run_id_) as [run|]; [|inversion H; apply effect_refl].
  destruct (negb _); [inversion H; apply effect_refl|].
  destruct (RunStatus.terminal _); [inversion H; apply effect_refl|].
  match type of H with
  | ?m _ = _ => assert (sound m) as Hs
  end.
  { apply sound_bind; [apply sound_step_prologue|].
    intros [[[[[[ctx' round_idx] phase_idx] phase] pos] run1]|]; sound_tac. }
  exact (Hs _ _ _ _ H).
Qed.

Lemma sound_auto_end (run_id_ : list N) (run : DebateRun) : sound (auto_end run_id_ run).
Proof.
  unfold auto_end. apply sound_bind; [apply sound_finalize|].
  intros _ rid o r o' H. inversion H. apply effect_refl.
Qed.

#[local] Hint Resolve sound_auto_end : sound.

Lemma sound_auto_phases (k : M outcome) (run_id_ : list N) (run : DebateRun) (todo : nat)
      (template_ : DebateTemplate) (round_index : Z) (pos : nat) (round_run : DebateRun)
      (phases : list PhaseSpec) :
  sound k ->
  sound (auto_phases k run_id_ run todo template_ round_index pos round_run phases).
Proof.
  intros Hk. induction phases as [|phase rest IH]; simpl.
  - destruct (t_moderator template_); [apply sound_ret|exact Hk].
  - intros rid o r o' H.
    destruct (dispatch template_ phase (current run_id_ round_run o) round_index).
    + revert H. apply sound_bind; [apply sound_round_votes|]. intros _. exact IH.
    + inversion H. apply effect_refl.
Qed.

Lemma sound_auto_rounds (run_id_ : list N) (run : DebateRun) (todo : nat) :
  sound (auto_rounds run_id_ run todo).
Proof.
  induction todo as [|todo IH]; simpl; [apply sound_auto_end|].
  apply sound_bind; [apply sound_round_prologue|].
  intros [[[[template_ round_index] pos] round_run]|]; [|exact IH].
  apply sound_auto_phases. exact IH.
Qed.

#[local] Hint Resolve sound_auto_rounds sound_auto_phases : sound.

Lemma sound_auto_begin (run_id_ : list N) : sound (auto_begin run_id_).
Proof.
  intros rid o r o' H. unfold auto_begin in H.
  destruct (_context o !! run_id_) as [ctx|]; [|inversion H; apply effect_refl].
  destruct (store_runs o !! run_id_) as [run|]; [|inversion H; apply effect_refl].
  exact (sound_auto_rounds _ _ _ _ _ _ _ H).
Qed.

Lemma sound_auto_collect (run_id_ : list N) (run : DebateRun) (todo : nat)
      (template_ : DebateTemplate) (round_index : Z) (pos : nat) (round_run : DebateRun)
      (phase : PhaseSpec) (rest : list PhaseSpec)
      (pending : list (Participant * list Message)) (outputs : list PhaseOutput) :
  sound (auto_collect run_id_ run todo template_ round_index pos round_run phase rest
           pending outputs).
Proof. unfold auto_collect. sound_tac. Qed.

#[local] Hint Resolve sound_auto_begin sound_auto_collect sound_advance_begin : sound.

Lemma sound_resume (i : input) (f : frame) (m : M outcome) :
  resume i f = Some m -> sound m.
Proof.
  destruct f, i; simpl; try discriminate.
  - destruct (pending !! k) as [[participant messages]|]; [|discriminate].
    intros H. inversion H. sound_tac.
  - intros H. inversion H. sound_tac.
  - intros H. inversion H. apply sound_auto_begin.
  - destruct (pending !! k) as [[participant messages]|]; [|discriminate].
    intros H. inversion H. sound_tac.
  - intros H. inversion H. sound_tac.
Qed.

(** ** Facts: the events of the engine *)

Lemma effect_forget (rid : list N) (o o' : Orch) (ok : bool) :
  effect rid o ok o' -> effect rid o false o'.
Proof. intros [E1 E2 E3 E4]. split; auto. discriminate. Qed.

Lemma orch_settle (place : option frame -> list frame) (res : result outcome * Orch) :
  orch (settle place res) = res.2.
Proof. destruct res as [[[f|response|final_copy]|e] o]; reflexivity. Qed.

(** An [advance] request and the resumption of a coroutine are sound. *)
Lemma handle_effect (ev : event) (c c' : Config) (rid : list N) :
  handle ev c = Some c' ->
  match ev with Advance _ | Resume _ _ => True | _ => False end ->
  effect rid (orch c) false (orch c').
Proof.
  destruct ev as [payload new_id|run_id_|run_id_|i inp|template_|template_id]; simpl;
    try tauto; intros H _.
  - inversion H; subst; clear H. rewrite orch_settle.
    destruct (advance_begin run_id_ (orch c)) as [r o'] eqn:E.
    eapply effect_forget, sound_advance_begin, E.
  - destruct (suspended c !! i) as [f|]; [|discriminate].
    destruct (resume inp f) as [m|] eqn:Em; [|discriminate].
    inversion H; subst; clear H. rewrite orch_settle.
    destruct (m (orch c)) as [r o'] eqn:E.
    eapply effect_forget, (sound_resume _ _ _ Em), E.
Qed.

Lemma cancel_other (rid rid' : list N) (o : Orch) :
  rid <> rid' ->
  _context (cancel rid' o).2 !! rid = _context o !! rid
  /\ status_of rid (cancel rid' o).2 = status_of rid o
  /\ round_count rid (cancel rid' o).2 = round_count rid o.
Proof.
  intros Hne. unfold cancel. destruct (store_runs o !! rid'); simpl; [|auto].
  unfold status_of, round_count. simpl.
  rewrite lookup_delete_ne, lookup_alter_ne by congruence. auto.
Qed.

Lemma cancel_self (rid : list N) (o : Orch) :
  is_Some (store_runs o !! rid) ->
  _context (cancel rid o).2 !! rid = None
  /\ status_of rid (cancel rid o).2 = Some RunStatus.canceled
  /\ round_count rid (cancel rid o).2 = round_count rid o.
Proof.
  intros [run Hrun]. unfold cancel. rewrite Hrun. simpl.
  unfold status_of, round_count. simpl.
  rewrite lookup_delete_eq, lookup_alter_eq, Hrun. auto.
Qed.

Lemma start_other (payload : StartDebateRequest) (new_id rid : list N) (o : Orch) :
  rid <> new_id ->
  _context (start_debate payload new_id o).2 !! rid = _context o !! rid
  /\ status_of rid (start_debate payload new_id o).2 = status_of rid o
  /\ round_count rid (start_debate payload new_id o).2 = round_count rid o.
Proof.
  intros Hne. unfold start_debate. destruct (store_templates o !! _); simpl; [|auto].
  unfold status_of, round_count. simpl.
  rewrite !lookup_insert_ne by congruence. auto.
Qed.

Lemma start_self (payload : StartDebateRequest) (new_id : list N) (o : Orch) :
  (start_debate payload new_id o).2 = o
  \/ status_of new_id (start_debate payload new_id o).2 = Some RunStatus.running.
Proof.
  unfold start_debate. destruct (store_templates o !! _); simpl; [|auto].
  right. unfold status_of. simpl. rewrite lookup_insert_eq. reflexivity.
Qed.

(** The requests on templates touch no run. *)
Lemma handle_templates (ev : event) (c c' : Config) (rid : list N) :
  handle ev c = Some c' ->
  match ev with AddTemplate _ | DeleteTemplate _ => True | _ => False end ->
  _context (orch c') !! rid = _context (orch c) !! rid
  /\ status_of rid (orch c') = status_of rid (orch c)
  /\ round_count rid (orch c') = round_count rid (orch c).
Proof.
  destruct ev as [payload new_id|run_id_|run_id_|i inp|template_|template_id]; simpl;
    try tauto; intros H _; inversion H; subst; clear H; simpl.
  - destruct (template_valid template_); auto.
  - auto.
Qed.

(** Once a run has lost its context, no event gives it back, changes its
    status to anything but canceled, or changes its number of rounds. *)
Lemma handle_without_context (ev : event) (c c' : Config) (rid : list N) (s : RunStatus.t) :
  handle ev c = Some c' ->
  _context (orch c) !! rid = None ->
  status_of rid (orch c) = Some s ->
  _context (orch c') !! rid = None
  /\ (status_of rid (orch c') = Some s \/ status_of rid (orch c') = Some RunStatus.canceled)
  /\ round_count rid (orch c') = round_count rid (orch c).
Proof.
  intros H Hc Hs.
  destruct ev as [payload new_id|run_id_|run_id_|i inp|template_|template_id].
  - simpl in H. destruct (store_runs (orch c) !! new_id) eqn:Enew; [discriminate|].
    destruct (start_debate payload new_id (orch c)) as [r o'] eqn:E.
    inversion H; subst; clear H. simpl.
    assert (rid <> new_id) as Hne.
    { intros ->. unfold status_of in Hs. rewrite Enew in Hs. discriminate. }
    destruct (start_other payload new_id rid (orch c) Hne) as (A & B & C).
    rewrite E in A, B, C. simpl in A, B, C. rewrite A, B, C. auto.
  - destruct (handle_effect _ _ _ rid H I) as [E1 E2 _ _].
    destruct (E2 Hc) as [A B]. rewrite A, B.
    split; [destruct E1; congruence|auto].
  - simpl in H. inversion H; subst; clear H. simpl.
    destruct (decide (rid = run_id_)) as [->|Hne].
    + destruct (cancel_self run_id_ (orch c)) as (A & B & C).
      { unfold status_of in Hs. destruct (store_runs (orch c) !! run_id_); [eauto|discriminate]. }
      rewrite A, B, C. auto.
    + destruct (cancel_other rid run_id_ (orch c) Hne) as (A & B & C).
      rewrite A, B, C. auto.
  - destruct (handle_effect _ _ _ rid H I) as [E1 E2 _ _].
    destruct (E2 Hc) as [A B]. rewrite A, B.
    split; [destruct E1; congruence|auto].
  - destruct (handle_templates _ _ _ rid H I) as (A & B & C). rewrite A, B, C. auto.
  - destruct (handle_templates _ _ _ rid H I) as (A & B & C). rewrite A, B, C. auto.
Qed.

(** C3, amended: once [cancel] has set the status of a run to canceled,
    whatever happens next (the coroutines in flight going on, new requests,
    other cancels), the status of the run stays canceled, neither
    finalization nor the loop of an auto run sets it again, and no round is
    appended to the run. *)
Theorem cancel_stops_rounds (c c1 c2 : Config) (rid : list N) (evs : list event) :
  is_Some (store_runs (orch c) !! rid) ->
  handle (Cancel rid) c = Some c1 ->
  handle_all evs c1 = Some c2 ->
  status_of rid (orch c1) = Some RunStatus.canceled
  /\ status_of rid (orch c2) = Some RunStatus.canceled
  /\ round_count rid (orch c2) = round_count rid (orch c)
  /\ _context (orch c2) !! rid = None.
Proof.
  intros Hrun Hcancel Hall.
  simpl in Hcancel. inversion Hcancel; subst; clear Hcancel.
  destruct (cancel_self rid (orch c) Hrun) as (A & B & C).
  split; [exact B|].
  rewrite <- C. clear Hrun C.
  set (c1 := {| orch := (cancel rid (orch c)).2; suspended := suspended c |}) in *.
  change ((cancel rid (orch c)).2) with (orch c1) in A, B |- *.
  clearbody c1. clear c.
  revert c1 A B Hall. induction evs as [|ev evs IH]; intros c1 A B Hall; simpl in Hall.
  - inversion Hall; subst. auto.
  - destruct (handle ev c1) as [c'|] eqn:Eh; [|discriminate].
    destruct (handle_without_context _ _ _ rid _ Eh A B) as (A' & B' & C').
    assert (status_of rid (orch c') = Some RunStatus.canceled) as B'' by (destruct B'; auto).
    destruct (IH c' A' B'' Hall) as (X & Y & Z).
    split; [exact X|]. split; [congruence|exact Z].
Qed.

Lemma handle_keeps_live (ev : event) (c c' : Config) :
  handle ev c = Some c' -> tracked_runs_live (orch c) -> tracked_runs_live (orch c').
Proof.
  intros H Hinv rid Hctx.
  destruct ev as [payload new_id|run_id_|run_id_|i inp|template_|template_id].
  - simpl in H. destruct (store_runs (orch c) !! new_id) eqn:Enew; [discriminate|].
    destruct (start_debate payload new_id (orch c)) as [r o'] eqn:E.
    inversion H; subst; clear H. simpl in *.
    destruct (decide (rid = new_id)) as [->|Hne].
    + destruct (start_self payload new_id (orch c)) as [Hsame|Hrun];
        rewrite E in *; simpl in *; [subst o'; auto|auto].
    + destruct (start_other payload new_id rid (orch c) Hne) as (A & B & _).
      rewrite E in A, B. simpl in A, B. rewrite B. apply Hinv. rewrite <- A. exact Hctx.
  - destruct (handle_effect _ _ _ rid H I) as [E1 _ E3 _].
    assert (is_Some (_context (orch c) !! rid)) as Hctx0.
    { destruct E1 as [E1|E1]; rewrite E1 in Hctx; [exact Hctx|].
      destruct Hctx as [? ?]; discriminate. }
    destruct E3 as [E3|(E3 & _)]; [rewrite E3; auto|auto].
  - simpl in H. inversion H; subst; clear H. simpl in *.
    destruct (decide (rid = run_id_)) as [->|Hne].
    + exfalso. unfold cancel in Hctx.
      destruct (store_runs (orch c) !! run_id_) as [run|] eqn:Er; simpl in Hctx.
      * rewrite lookup_delete_eq in Hctx. destruct Hctx as [? ?]; discriminate.
      * destruct (Hinv _ Hctx) as [Hs|Hs]; unfold status_of in Hs; rewrite Er in Hs;
          discriminate.
    + destruct (cancel_other rid run_id_ (orch c) Hne) as (A & B & _).
      rewrite B. apply Hinv. rewrite <- A. exact Hctx.
  - destruct (handle_effect _ _ _ rid H I) as [E1 _ E3 _].
    assert (is_Some (_context (orch c) !! rid)) as Hctx0.
    { destruct E1 as [E1|E1]; rewrite E1 in Hctx; [exact Hctx|].
      destruct Hctx as [? ?]; discriminate. }
    destruct E3 as [E3|(E3 & _)]; [rewrite E3; auto|auto].
  - destruct (handle_templates _ _ _ rid H I) as (A & B & _).
    rewrite B. apply Hinv. rewrite <- A. exact Hctx.
  - destruct (handle_templates _ _ _ rid H I) as (A & B & _).
    rewrite B. apply Hinv. rewrite <- A. exact Hctx.
Qed.

Lemma handle_all_keeps_live (evs : list event) :
  forall c c', handle_all evs c = Some c' ->
               tracked_runs_live (orch c) -> tracked_runs_live (orch c').
Proof.
  induction evs as [|ev evs IH]; intros c c' H Hinv; simpl in H.
  - inversion H; subst. exact Hinv.
  - destruct (handle ev c) as [c1|] eqn:E; [|discriminate].
    eapply IH; [exact H|]. eapply handle_keeps_live; eauto.
Qed.

Lemma reachable_live (c : Config) : reachable c -> tracked_runs_live (orch c).
Proof.
  intros (templates & evs & H). eapply handle_all_keeps_live; [exact H|].
  intros rid [x Hx]. simpl in Hx. rewrite lookup_empty in Hx. discriminate.
Qed.

(** C5, amended: in every state the engine can reach, a run whose status is
    terminal keeps that status through every event (a start, an advance,
    a request on the templates, the resumption of any coroutine: the
    background loop of an auto run or an advance in flight) except a cancel
    of that very run, which sets the status to canceled whatever it was: a
    completed run becomes canceled. *)
Theorem terminal_status_changed_by_cancel_only
        (c c' : Config) (ev : event) (rid : list N) (s : RunStatus.t) :
  reachable c ->
  handle ev c = Some c' ->
  status_of rid (orch c) = Some s ->
  RunStatus.terminal s = true ->
  status_of rid (orch c') = Some (status_after ev rid s).
Proof.
  intros Hreach H Hs Hterm.
  pose proof (reachable_live c Hreach) as Hinv.
  assert (effect rid (orch c) false (orch c') -> status_of rid (orch c') = Some s) as Heff.
  { intros [_ _ E3 _]. destruct E3 as [E3|(E3 & _ & Hctx)]; [congruence|].
    destruct (Hinv rid Hctx) as [Hr|Hr]; rewrite Hr in Hs; inversion Hs; subst;
      [discriminate|exact E3]. }
  destruct ev as [payload new_id|run_id_|run_id_|i inp|template_|template_id]; simpl status_after.
  - simpl in H. destruct (store_runs (orch c) !! new_id) eqn:Enew; [discriminate|].
    destruct (start_debate payload new_id (orch c)) as [r o'] eqn:E.
    inversion H; subst; clear H. simpl.
    assert (rid <> new_id) as Hne.
    { intros ->. unfold status_of in Hs. rewrite Enew in Hs. discriminate. }
    destruct (start_other payload new_id rid (orch c) Hne) as (_ & B & _).
    rewrite E in B. simpl in B. congruence.
  - apply Heff. exact (handle_effect _ _ _ rid H I).
  - simpl in H. inversion H; subst; clear H. simpl.
    destruct (decide (run_id_ = rid)) as [->|Hne].
    + apply cancel_self. unfold status_of in Hs.
      destruct (store_runs (orch c) !! rid); [eauto|discriminate].
    + destruct (cancel_other rid run_id_ (orch c)) as (_ & B & _); congruence.
  - apply Heff. exact (handle_effect _ _ _ rid H I).
  - destruct (handle_templates _ _ _ rid H I) as (_ & B & _). congruence.
  - destruct (handle_templates _ _ _ rid H I) as (_ & B & _). congruence.
Qed.

(** ** Facts: finalization *)

Lemma last_map_Some {A : Type} (l : list A) : List.last (List.map Some l) None = last l.
Proof.
  induction l as [|a l IH]; [reflexivity|].
  destruct l as [|b l]; [reflexivity|]. exact IH.
Qed.

(** C4: what finalization records.  A run with no round gets the outcome
    INVALID and a run whose last round recorded an outcome gets that
    outcome; but when the last round recorded none (no vote phase ran),
    building the [FinalRecord] raises: the status is already completed, no
    record is written, and the context and the cursor stay. *)
Theorem finalize_outcome (run_id_ : list N) (o : Orch) (run : DebateRun) (ctx : RunContext) :
  store_runs o !! run_id_ = Some run ->
  _context o !! run_id_ = Some ctx ->
  let res := _finalize run_id_ o in
  status_of run_id_ res.2 = Some RunStatus.completed
  /\ match last (run_rounds run) with
     | None =>
         res.1 = Ok tt
         /\ store_final_records res.2
            = store_final_records o
                ++ [ {| fr_debate_id := run_id run; fr_title := run_title run;
                        fr_final_outcome := RoundOutcome.invalid |} ]
         /\ _context res.2 !! run_id_ = None
     | Some last_round =>
         match rr_outcome last_round with
         | Some outcome =>
             res.1 = Ok tt
             /\ store_final_records res.2
                = store_final_records o
                    ++ [ {| fr_debate_id := run_id run; fr_title := run_title run;
                            fr_final_outcome := outcome |} ]
             /\ _context res.2 !! run_id_ = None
         | None =>
             res.1 = Raise ValidationError
             /\ store_final_records res.2 = store_final_records o
             /\ _context res.2 !! run_id_ = Some ctx
             /\ _progress res.2 = _progress o
         end
     end.
Proof.
  intros Hrun Hctx. cbv zeta. unfold _finalize. rewrite Hrun, Hctx, last_map_Some.
  assert (forall o', store_runs o' = alter (with_status RunStatus.completed) run_id_ (store_runs o) ->
                     status_of run_id_ o' = Some RunStatus.completed) as Hst.
  { intros o' E. unfold status_of. rewrite E, lookup_alter_eq, Hrun. reflexivity. }
  destruct (last (run_rounds run)) as [last_round|]; simpl.
  - destruct (rr_outcome last_round) as [outcome|]; simpl.
    + split; [apply Hst; reflexivity|]. repeat split. apply lookup_delete_eq.
    + split; [apply Hst; reflexivity|]. repeat split. exact Hctx.
  - split; [apply Hst; reflexivity|]. repeat split. apply lookup_delete_eq.
Qed.

(** ** Facts: advancing a finished run *)

Lemma advance_debate_not_found (env : PhaseEnv) (moderator_reply : reply)
      (run_id_ : list N) (o : Orch) :
  _context o !! run_id_ = None ->
  advance_debate env moderator_reply run_id_ o = (Raise not_found, o).
Proof. intros H. unfold advance_debate. rewrite H. reflexivity. Qed.

(** The guards of [advance_debate], for a run that has its context. *)
Lemma advance_debate_guards (env : PhaseEnv) (moderator_reply : reply)
      (run_id_ : list N) (o : Orch) (ctx : RunContext) (run : DebateRun) :
  _context o !! run_id_ = Some ctx ->
  store_runs o !! run_id_ = Some run ->
  (run_mode run <> RunMode.step ->
   advance_debate env moderator_reply run_id_ o = (Raise not_in_step_mode, o))
  /\ (run_mode run = RunMode.step -> RunStatus.terminal (run_status run) = true ->
      advance_debate env moderator_reply run_id_ o = (Ok {| debate := run; done := true |}, o)).
Proof.
  intros Hctx Hrun. unfold advance_debate. rewrite Hctx, Hrun. split.
  - intros Hm. destruct (run_mode run); [reflexivity|congruence].
  - intros -> ->. reflexivity.
Qed.

(** C1: an [advance] that did work on a run and returned [done=true] leaves
    the run without its context (finalization dropped it), so every later
    [advance] on that run raises "debate not found" instead of returning
    the terminal run with [done=true]. *)
Theorem advance_after_done_is_not_found
        (env : PhaseEnv) (moderator_reply : reply) (run_id_ : list N) (o o' : Orch)
        (response : AdvanceDebateResponse) (s : RunStatus.t) :
  advance_debate env moderator_reply run_id_ o = (Ok response, o') ->
  status_of run_id_ o = Some s ->
  RunStatus.terminal s = false ->
  done response = true ->
  forall env' moderator_reply',
    advance_debate env' moderator_reply' run_id_ o' = (Raise not_found, o').
Proof.
  intros H Hs Hterm Hdone env' m'. apply advance_debate_not_found.
  pose proof (sound_advance_debate _ _ _ run_id_ _ _ _ H) as [_ _ E3 E4].
  apply E4; [reflexivity|]. rewrite Hs.
  unfold advance_debate in H.
  destruct (_context o !! run_id_) as [ctx|]; [|discriminate].
  destruct (store_runs o !! run_id_) as [run|] eqn:Er; [|discriminate].
  assert (run_status run = s) as <-
      by (unfold status_of in Hs; rewrite Er in Hs; simpl in Hs; congruence).
  destruct (negb _); [discriminate|]. rewrite Hterm in H.
  unfold mbind in H.
  destruct (_execute_phase_step env moderator_reply run_id_ o) as [[[]|e] o1]; [|discriminate].
  unfold respond in H. inversion H; subst; clear H. simpl in Hdone.
  unfold status_of in *. unfold current in Hdone.
  destruct (store_runs o' !! run_id_) as [run'|]; simpl in *.
  - intros E. inversion E as [E']. rewrite E' in Hdone. congruence.
  - discriminate.
Qed.

(** ** Facts: the history in the prompts *)

Lemma resolve_index_in_range (len : nat) (i : Z) :
  (0 <= i < Z.of_nat len)%Z -> resolve_index len i = Ok (Z.to_nat i).
Proof.
  intros [H0 H1].
  assert ((i <? 0)%Z = false) as E0 by (apply Z.ltb_ge; lia).
  assert ((Z.of_nat len <=? i)%Z = false) as E1 by (apply Z.leb_gt; lia).
  unfold resolve_index. cbv zeta. rewrite E0. rewrite E0, E1. reflexivity.
Qed.

Lemma transcript_of_fresh_round (run : DebateRun) (n : Z) :
  _prior_round_transcript (with_rounds (fun rs => rs ++ [new_round n]) run)
  = py "Round " ++ of_Z n ++ py " transcript:".
Proof.
  unfold _prior_round_transcript. rewrite last_map_Some. simpl run_rounds.
  rewrite last_snoc. reflexivity.
Qed.

Lemma transcript_not_placeholder (run : DebateRun) :
  run_rounds run <> [] -> _prior_round_transcript run <> placeholder.
Proof.
  intros Hne. unfold _prior_round_transcript. rewrite last_map_Some.
  destruct (last (run_rounds run)) as [r|] eqn:E.
  - cbv zeta.
    match goal with
    | |- join_lines (_ :: ?rest) <> _ => generalize rest
    end.
    intros rest H. apply (f_equal (fun l => head l)) in H. revert H.
    change (py "Round ") with [82; 111; 117; 110; 100; 32]%N.
    destruct rest; simpl; discriminate.
  - apply last_None in E. contradiction.
Qed.

Lemma build_messages_eq (template_ : DebateTemplate) (persona_prompt : list N)
      (phase : PhaseSpec) (run : DebateRun) (round_index : Z) :
  _build_messages template_ persona_prompt phase run round_index
  = [ {| role := py "system"; content := persona_prompt |};
      {| role := py "user";
         content := prompt_with (_prior_round_transcript run) phase run round_index |} ].
Proof. reflexivity. Qed.

(** C2: in an auto run, [_execute_round] appends the round it is about to
    execute before any prompt is built.  The run that the prompts of the
    round are built from therefore never lacks a round: the history of the
    first phase of round [n], round 1 included, is the bare header
    [Round n transcript:] of the round in execution, never the placeholder
    and never the transcript of round [n - 1]. *)
Theorem round_history_is_current_round
        (run_id_ : list N) (o o1 : Orch) (template_ : DebateTemplate)
        (round_index : Z) (pos : nat) (run1 : DebateRun) :
  round_prologue run_id_ o = (Ok (Some (template_, round_index, pos, run1)), o1) ->
  store_runs o1 !! run_id_ = Some run1
  /\ last (run_rounds run1) = Some (new_round round_index)
  /\ run_rounds run1 !! pos = Some (new_round round_index)
  /\ _prior_round_transcript run1 = py "Round " ++ of_Z round_index ++ py " transcript:"
  /\ _prior_round_transcript run1 <> placeholder
  /\ forall phase p messages,
      In (p, messages) (dispatch template_ phase run1 round_index) ->
      messages
      = [ {| role := py "system"; content := p_persona_prompt p |};
          {| role := py "user";
             content := prompt_with (py "Round " ++ of_Z round_index ++ py " transcript:")
                          phase run1 round_index |} ].
Proof.
  unfold round_prologue.
  destruct (_context o !! run_id_) as [ctx|]; [|discriminate].
  destruct (store_runs o !! run_id_) as [run|]; [|discriminate].
  assert ((Z.of_nat (length (run_rounds run)) <? Z.of_nat (length (run_rounds run)) + 1)%Z = true)
    as -> by (apply Z.ltb_lt; lia).
  unfold mbind, lift, ret. simpl run_rounds.
  rewrite resolve_index_in_range by (rewrite length_app; simpl; lia).
  intros H. inversion H; subst; clear H.
  replace (Z.to_nat (Z.of_nat (length (run_rounds run)) + 1 - 1)) with (length (run_rounds run))
    by lia.
  pose proof (transcript_of_fresh_round run (Z.of_nat (length (run_rounds run)) + 1)) as Ht.
  split; [simpl; apply lookup_insert_eq|].
  split; [simpl; apply last_snoc|].
  split; [simpl; rewrite lookup_app_r by lia; rewrite Nat.sub_diag; reflexivity|].
  split; [exact Ht|].
  split; [apply transcript_not_placeholder; simpl; destruct (run_rounds run); discriminate|].
  intros phase p messages Hin. unfold dispatch in Hin. apply in_map_iff in Hin as (p' & E & _).
  inversion E; subst. rewrite build_messages_eq, Ht. reflexivity.
Qed.

(** The same in step mode, for a cursor that stands at a round not yet
    started: [_execute_phase_step] appends the round, then builds the
    prompts. *)
Lemma step_history_is_current_round
      (run_id_ : list N) (o o1 : Orch) (run run1 : DebateRun) (ctx : RunContext)
      (round_idx phase_idx : Z) (phase : PhaseSpec) (pos : nat) :
  store_runs o !! run_id_ = Some run ->
  step_prologue run_id_ o = (Ok (Some (ctx, round_idx, phase_idx, phase, pos, run1)), o1) ->
  round_idx = Z.of_nat (length (run_rounds run)) ->
  _prior_round_transcript run1 = py "Round " ++ of_Z (round_idx + 1) ++ py " transcript:"
  /\ _prior_round_transcript run1 <> placeholder.
Proof.
  intros Hrun H Hcur. unfold step_prologue in H. rewrite Hrun in H.
  destruct (_context o !! run_id_) as [ctx'|]; [|discriminate].
  destruct (_progress o !! run_id_) as [[ri pi]|]; [|discriminate].
  destruct (total_rounds ctx' <=? ri)%Z.
  { unfold mbind in H. destruct (_finalize run_id_ o) as [[[]|e] o2]; discriminate. }
  unfold mbind, lift, ret in H.
  destruct (py_index _ _) as [ph|e]; [|discriminate].
  destruct (resolve_index _ _) as [ps|e]; [|discriminate].
  inversion H; subst; clear H.
  rewrite (proj2 (Z.leb_le _ _)) by lia.
  split; [apply transcript_of_fresh_round|].
  apply transcript_not_placeholder. simpl. destruct (run_rounds run); discriminate.
Qed.

(** ** Facts: the examples of the specification *)

Example parse_vote_examples :
  _parse_vote (py "Vote: YES") = Ok VoteValue.yes
  /\ _parse_vote (py "- no, because X") = Ok VoteValue.no
  /\ _parse_vote (py "maybe") = Ok VoteValue.invalid
  /\ _parse_vote (py "") = Ok VoteValue.invalid
  /\ _parse_vote (py "I vote yes") = Ok VoteValue.yes.
Proof. repeat split; vm_compute; reflexivity. Qed.

Example tally_examples :
  (exists votes,
      _tally_votes [output_of "alice" "yes"; output_of "bob" "YES"; output_of "carol" "no"]
      = Ok (votes, RoundOutcome.yes))
  /\ (exists votes,
         _tally_votes [output_of "alice" "yes"; output_of "bob" "no"]
         = Ok (votes, RoundOutcome.tie))
  /\ (exists votes,
         _tally_votes [output_of "alice" "maybe"; output_of "bob" ""]
         = Ok (votes, RoundOutcome.invalid))
  /\ (exists votes,
         _tally_votes [output_of "alice" "yes"; output_of "bob" "no"; output_of "carol" "No."]
         = Ok (votes, RoundOutcome.no)).
Proof. repeat split; eexists; vm_compute; reflexivity. Qed.

(** C10: [_parse_vote] is not total.  On a text that is not empty and holds
    white space only, a single space for one, it raises [IndexError]: the
    stripped text has no line, and the first line is taken without a check.
    On every other text it returns a vote. *)
Theorem parse_vote_raises_on_blank_text :
  _parse_vote (py " ") = Raise IndexError
  /\ forall raw,
      if blank raw then _parse_vote raw = Raise IndexError
      else exists v, _parse_vote raw = Ok v.
Proof.
  split; [reflexivity|]. intros raw. destruct (blank raw) eqn:E.
  - apply parse_vote_blank, E.
  - apply parse_vote_not_blank, E.
Qed.

(** C6: the tally.  When no output is blank, it returns one vote record per
    output, in order, and the outcome that the counts of YES and NO give:
    YES or NO to the larger count, TIE to equal positive counts, INVALID
    when both are zero; a vote parsed INVALID adds to neither count.  But
    when an output is blank (white space only) the tally raises
    [IndexError] instead of counting it as INVALID, as for a ballot whose
    only output is a single space. *)
Theorem tally_votes_outcome :
  _tally_votes [output_of "alice" " "] = Raise IndexError
  /\ forall outputs,
      if existsb (fun o => blank (po_output o)) outputs
      then _tally_votes outputs = Raise IndexError
      else exists votes outcome,
          _tally_votes outputs = Ok (votes, outcome)
          /\ votes = List.map vote_result outputs
          /\ length votes = length outputs
          /\ let yes := count_votes VoteValue.yes outputs in
             let no := count_votes VoteValue.no outputs in
             ((no < yes)%Z -> outcome = RoundOutcome.yes)
             /\ ((yes < no)%Z -> outcome = RoundOutcome.no)
             /\ (yes = no -> (0 < yes)%Z -> outcome = RoundOutcome.tie)
             /\ (yes = 0%Z -> no = 0%Z -> outcome = RoundOutcome.invalid).
Proof.
  split; [reflexivity|]. intros outputs.
  destruct (existsb _ outputs) eqn:E; unfold _tally_votes.
  - rewrite (tally_loop_blank _ _ _ _ E). reflexivity.
  - rewrite (tally_loop_ok _ _ _ _ E). rewrite !Z.add_0_l. simpl.
    eexists _, _. split; [reflexivity|]. split; [reflexivity|].
    split; [apply length_map|]. cbv zeta.
    generalize (count_votes VoteValue.yes outputs) (count_votes VoteValue.no outputs).
    intros yes no.
    destruct (no <? yes)%Z eqn:E1; [apply Z.ltb_lt in E1|apply Z.ltb_ge in E1];
      (destruct (yes <? no)%Z eqn:E2; [apply Z.ltb_lt in E2|apply Z.ltb_ge in E2]);
      (destruct (yes =? no)%Z eqn:E3; [apply Z.eqb_eq in E3|apply Z.eqb_neq in E3]);
      (destruct (0 <? yes)%Z eqn:E4; [apply Z.ltb_lt in E4|apply Z.ltb_ge in E4]);
      simpl; repeat split; intros; try reflexivity; lia.
Qed.


Lemma resolve_index_lt (len : nat) (i : Z) (pos : nat) :
  resolve_index len i = Ok pos -> pos < len.
Proof.
  unfold resolve_index. cbv zeta.
  destruct (_ || _) eqn:E; [discriminate|].
  apply orb_false_iff in E as [E1 E2]. apply Z.ltb_ge in E1. apply Z.leb_gt in E2.
  intros H. inversion H. lia.
Qed.

(** In step mode no prompt ever holds the placeholder either: whatever the
    state, the run that the prompts of a phase are built from has a
    round. *)
Lemma step_prompt_is_never_the_placeholder
      (run_id_ : list N) (o o1 : Orch) (run1 : DebateRun) (ctx : RunContext)
      (round_idx phase_idx : Z) (phase : PhaseSpec) (pos : nat) :
  step_prologue run_id_ o = (Ok (Some (ctx, round_idx, phase_idx, phase, pos, run1)), o1) ->
  _prior_round_transcript run1 <> placeholder.
Proof.
  intros H. apply transcript_not_placeholder. unfold step_prologue in H.
  destruct (_context o !! run_id_) as [ctx'|]; [|discriminate].
  destruct (store_runs o !! run_id_) as [run|]; [|discriminate].
  destruct (_progress o !! run_id_) as [[ri pi]|]; [|discriminate].
  destruct (total_rounds ctx' <=? ri)%Z.
  { unfold mbind in H. destruct (_finalize run_id_ o) as [[[]|e] o2]; discriminate. }
  unfold mbind, lift, ret in H.
  destruct (py_index _ _) as [ph|e]; [|discriminate].
  destruct (resolve_index _ _) as [ps|e] eqn:Ei; [|discriminate].
  apply resolve_index_lt in Ei.
  inversion H; subst; clear H.
  intros E. rewrite E in Ei. simpl in Ei. lia.
Qed.

(** ** Facts: a step run of plain phases *)

Lemma map_outcome_alter (po : PhaseOutput) (l : list RoundResult) :
  forall pos, List.map rr_outcome (alter (append_output po) pos l) = List.map rr_outcome l.
Proof.
  induction l as [|r l IH]; intros [|pos]; simpl; try reflexivity.
  f_equal. apply IH.
Qed.

Lemma record_outputs_rest (run_id_ : list N) (pos : nat) (outputs : list PhaseOutput) :
  forall o,
    let o' := fold_left (fun o' po => record_output run_id_ pos po o') outputs o in
    _context o' = _context o /\ _progress o' = _progress o
    /\ store_final_records o' = store_final_records o
    /\ forall rid, shape <$> store_runs o' !! rid = shape <$> store_runs o !! rid.
Proof.
  induction outputs as [|po outputs IH]; intros o; cbv zeta; simpl; [auto|].
  destruct (IH (record_output run_id_ pos po o)) as (A & B & C & D).
  rewrite A, B, C. repeat split. intros rid. rewrite D. simpl.
  destruct (decide (run_id_ = rid)) as [->|Hne].
  - rewrite lookup_alter_eq. destruct (store_runs o !! rid) as [run|]; simpl; [|reflexivity].
    unfold shape. simpl. rewrite map_outcome_alter. reflexivity.
  - rewrite lookup_alter_ne by exact Hne. reflexivity.
Qed.

Lemma py_index_in_range {A : Type} (l : list A) (i : Z) :
  (0 <= i < Z.of_nat (length l))%Z -> exists a, py_index l i = Ok a /\ l !! Z.to_nat i = Some a.
Proof.
  intros H. unfold py_index. rewrite resolve_index_in_range by exact H. simpl.
  destruct (l !! Z.to_nat i) as [a|] eqn:E; [eauto|].
  apply lookup_ge_None in E. lia.
Qed.

Lemma last_outcome_none (rounds : list RoundResult) (k : nat) :
  List.map rr_outcome rounds = repeat None (S k) ->
  exists r, last rounds = Some r /\ rr_outcome r = None.
Proof.
  intros H.
  destruct (last rounds) as [r|] eqn:E.
  - exists r. split; [reflexivity|].
    assert (In (rr_outcome r) (List.map rr_outcome rounds)) as Hin.
    { apply in_map. apply last_Some in E as [l' ->]. apply in_or_app. right. left. reflexivity. }
    rewrite H in Hin. apply repeat_spec in Hin. exact Hin.
  - apply last_None in E. subst. discriminate.
Qed.

Lemma mbind_ok {A B : Type} (m : M A) (k : A -> M B) (o o' : Orch) (a : A) :
  m o = (Ok a, o') -> mbind m k o = k a o'.
Proof. intros H. unfold mbind. rewrite H. reflexivity. Qed.

Lemma mbind_raise {A B : Type} (m : M A) (k : A -> M B) (o o' : Orch) (e : exn) :
  m o = (Raise e, o') -> mbind m k o = (Raise e, o').
Proof. intros H. unfold mbind. rewrite H. reflexivity. Qed.

Lemma role_eqb_vote (r : PhaseRole.t) :
  r <> PhaseRole.vote -> PhaseRole.eqb r PhaseRole.vote = false.
Proof. destruct r; simpl; congruence. Qed.

Lemma step_votes_plain (run_id_ : list N) (round_idx : Z) (phase : PhaseSpec)
      (outputs : list PhaseOutput) (o : Orch) :
  ph_role phase <> PhaseRole.vote ->
  step_votes run_id_ round_idx phase outputs o = (Ok tt, o).
Proof. intros H. unfold step_votes. rewrite (role_eqb_vote _ H). reflexivity. Qed.

(** The prologue of a phase of such a run: the round of the cursor is
    there at the end of it, appended if need be. *)
Lemma step_prologue_plain (rid : list N) (ctx : RunContext) (round_idx phase_idx : Z) (o : Orch) :
  stepping rid ctx round_idx phase_idx o ->
  (0 <= round_idx < total_rounds ctx)%Z ->
  (0 <= phase_idx < Z.of_nat (length (t_phases (template ctx))))%Z ->
  exists phase run1,
    step_prologue rid o
    = (Ok (Some (ctx, round_idx, phase_idx, phase, Z.to_nat round_idx, run1)),
       set_runs (insert rid run1) o)
    /\ t_phases (template ctx) !! Z.to_nat phase_idx = Some phase
    /\ run_mode run1 = RunMode.step
    /\ run_status run1 = RunStatus.running
    /\ List.map rr_outcome (run_rounds run1) = repeat None (Z.to_nat (round_idx + 1)).
Proof.
  intros [Hc Hp (run & Hr & Hm & Hs & Ho)] Hri Hpi.
  destruct (py_index_in_range (t_phases (template ctx)) phase_idx Hpi) as (phase & Hph & Hl).
  assert (length (run_rounds run)
          = Z.to_nat (if (phase_idx =? 0)%Z then round_idx else (round_idx + 1)%Z)) as Hlen.
  { rewrite <- (length_map rr_outcome), Ho. apply repeat_length. }
  set (run1 := if (Z.of_nat (length (run_rounds run)) <=? round_idx)%Z
               then with_rounds (fun rs => rs ++ [new_round (round_idx + 1)]) run
               else run).
  assert (run_mode run1 = RunMode.step /\ run_status run1 = RunStatus.running
          /\ List.map rr_outcome (run_rounds run1) = repeat None (Z.to_nat (round_idx + 1)))
    as (Hm1 & Hs1 & Ho1).
  { unfold run1. destruct (phase_idx =? 0)%Z.
    - rewrite (proj2 (Z.leb_le _ _)) by lia. simpl. repeat split; try assumption.
      rewrite map_app, Ho. simpl.
      replace (Z.to_nat (round_idx + 1)) with (Z.to_nat round_idx + 1) by lia.
      rewrite repeat_app. reflexivity.
    - rewrite (proj2 (Z.leb_gt _ _)) by lia. auto. }
  exists phase, run1. split; [|auto].
  unfold step_prologue. rewrite Hc, Hr, Hp.
  rewrite (proj2 (Z.leb_gt _ _)) by lia. fold run1.
  unfold mbind, lift, ret. rewrite Hph.
  rewrite resolve_index_in_range; [reflexivity|].
  rewrite <- (length_map rr_outcome), Ho1, repeat_length. lia.
Qed.

(** Finalization of a run whose last round has no outcome. *)
Lemma finalize_plain (rid : list N) (o : Orch) (run : DebateRun) (ctx : RunContext) (k : nat) :
  store_runs o !! rid = Some run ->
  _context o !! rid = Some ctx ->
  List.map rr_outcome (run_rounds run) = repeat None (S k) ->
  _finalize rid o
  = (Raise ValidationError, set_runs (alter (with_status RunStatus.completed) rid) o).
Proof.
  intros Hr Hc Ho. unfold _finalize. rewrite Hr, Hc, last_map_Some.
  destruct (last_outcome_none _ _ Ho) as (r & -> & ->). reflexivity.
Qed.

Lemma phase_step_plain (env : PhaseEnv) (moderator_reply : reply)
      (rid : list N) (ctx : RunContext) (round_idx phase_idx : Z) (o : Orch) :
  stepping rid ctx round_idx phase_idx o ->
  plain_template (template ctx) ->
  (0 <= round_idx < total_rounds ctx)%Z ->
  (0 <= phase_idx < Z.of_nat (length (t_phases (template ctx))))%Z ->
  exists r o' run',
    _execute_phase_step env moderator_reply rid o = (r, o')
    /\ _context o' !! rid = Some ctx
    /\ _progress o' !! rid = Some (next_cursor ctx round_idx phase_idx)
    /\ store_final_records o' = store_final_records o
    /\ store_runs o' !! rid = Some run'
    /\ run_mode run' = RunMode.step
    /\ if (total_rounds ctx <=? (next_cursor ctx round_idx phase_idx).1)%Z
       then r = Raise ValidationError /\ run_status run' = RunStatus.completed
       else r = Ok tt /\ stepping rid ctx (next_cursor ctx round_idx phase_idx).1
                           (next_cursor ctx round_idx phase_idx).2 o'.
Proof.
  intros Hstep [Hmod Hnv] Hri Hpi.
  destruct (step_prologue_plain rid ctx round_idx phase_idx o Hstep Hri Hpi)
    as (phase & run1 & Hpro & Hph & Hm1 & Hs1 & Ho1).
  destruct Hstep as [Hc Hp _].
  assert (ph_role phase <> PhaseRole.vote) as Hrole.
  { eapply Forall_lookup_1 in Hnv; eauto. }
  unfold _execute_phase_step.
  rewrite (mbind_ok _ _ _ _ _ Hpro).
  set (o1 := set_runs (insert rid run1) o).
  destruct (_execute_phase env (template ctx) phase rid run1 (round_idx + 1) (Z.to_nat round_idx) o1)
    as [r2 o2] eqn:E2.
  pose proof E2 as E2'. rewrite execute_phase_eq in E2'. cbv zeta in E2'.
  injection E2' as <- Ho2.
  destruct (record_outputs_rest rid (Z.to_nat round_idx)
              (as_completed (pe_order env)
                 (imap (contribution env (template ctx) phase run1 (round_idx + 1))
                    (t_participants (template ctx)))
                 (length (t_participants (template ctx)))) o1) as (Rc & Rp & Rf & Rs).
  cbv zeta in Rc, Rp, Rf, Rs. rewrite Ho2 in Rc, Rp, Rf, Rs.
  rewrite (mbind_ok _ _ _ _ _ E2).
  rewrite (mbind_ok _ _ _ _ _ (step_votes_plain rid round_idx phase _ o2 Hrole)).
  assert (exists run2, store_runs o2 !! rid = Some run2 /\ shape run2 = shape run1)
    as (run2 & Hr2 & Hsh).
  { specialize (Rs rid). unfold o1 in Rs. simpl in Rs. rewrite lookup_insert_eq in Rs.
    destruct (store_runs o2 !! rid) as [run2|]; simpl in Rs; [|discriminate].
    exists run2. split; [reflexivity|]. congruence. }
  unfold shape in Hsh. injection Hsh as Hid Htitle Hst Hmode Hout.
  assert (forall ri' pi',
             next_cursor ctx round_idx phase_idx = (ri', pi') ->
             (ri' = round_idx + 1 /\ pi' = 0 \/ ri' = round_idx /\ 0 < pi')%Z ->
             exists r o' run',
               step_finish rid ctx ri' pi' o2 = (r, o')
               /\ _context o' !! rid = Some ctx
               /\ _progress o' !! rid = Some (ri', pi')
               /\ store_final_records o' = store_final_records o
               /\ store_runs o' !! rid = Some run'
               /\ run_mode run' = RunMode.step
               /\ if (total_rounds ctx <=? ri')%Z
                  then r = Raise ValidationError /\ run_status run' = RunStatus.completed
                  else r = Ok tt /\ stepping rid ctx ri' pi' o') as Hfin.
  { intros ri' pi' _ Hcase. unfold step_finish, mbind, modify.
    set (o3 := set_progress (insert rid (ri', pi')) o2).
    assert (_context o3 !! rid = Some ctx) as Hc3 by (simpl; rewrite Rc; exact Hc).
    assert (_progress o3 !! rid = Some (ri', pi')) as Hp3 by (simpl; apply lookup_insert_eq).
    assert (store_runs o3 !! rid = Some run2) as Hr3 by exact Hr2.
    assert (store_final_records o3 = store_final_records o) as Hf3 by (simpl; rewrite Rf; reflexivity).
    destruct (total_rounds ctx <=? ri')%Z eqn:Et.
    - rewrite (finalize_plain rid o3 run2 ctx (Z.to_nat round_idx) Hr3 Hc3).
      + exists (Raise ValidationError),
          (set_runs (alter (with_status RunStatus.completed) rid) o3),
          (with_status RunStatus.completed run2).
        split; [reflexivity|]. split; [exact Hc3|]. split; [exact Hp3|].
        split; [exact Hf3|].
        split; [simpl; rewrite lookup_alter_eq, Hr2; reflexivity|].
        split; [simpl; congruence|]. split; reflexivity.
      + rewrite Hout, Ho1. f_equal. lia.
    - eexists _, _, run2. split; [reflexivity|]. repeat split; try assumption.
      + rewrite Hmode. exact Hm1.
      + exists run2. split; [exact Hr3|]. split; [congruence|]. split; [congruence|].
        rewrite Hout, Ho1. f_equal.
        destruct Hcase as [[-> ->]|[-> Hpos]].
        * reflexivity.
        * rewrite (proj2 (Z.eqb_neq _ _)) by lia. reflexivity. }
  unfold next_cursor in *. unfold last_phase in *.
  destruct (phase_idx =? Z.of_nat (length (t_phases (template ctx))) - 1)%Z eqn:El.
  - rewrite Hmod. rewrite (mbind_ok _ _ o2 o2 tt) by reflexivity.
    apply (Hfin _ _ eq_refl). left. split; reflexivity.
  - apply (Hfin _ _ eq_refl). right. split; [reflexivity|lia].
Qed.

Lemma advance_plain (env : PhaseEnv) (moderator_reply : reply)
      (rid : list N) (ctx : RunContext) (round_idx phase_idx : Z) (o : Orch) :
  stepping rid ctx round_idx phase_idx o ->
  plain_template (template ctx) ->
  (0 <= round_idx < total_rounds ctx)%Z ->
  (0 <= phase_idx < Z.of_nat (length (t_phases (template ctx))))%Z ->
  exists r o',
    advance_debate env moderator_reply rid o = (r, o')
    /\ store_final_records o' = store_final_records o
    /\ if (total_rounds ctx <=? (next_cursor ctx round_idx phase_idx).1)%Z
       then r = Raise ValidationError
            /\ _context o' !! rid = Some ctx
            /\ _progress o' !! rid = Some (next_cursor ctx round_idx phase_idx)
            /\ exists run', store_runs o' !! rid = Some run'
                            /\ run_mode run' = RunMode.step
                            /\ run_status run' = RunStatus.completed
       else (exists response, r = Ok response /\ done response = false)
            /\ stepping rid ctx (next_cursor ctx round_idx phase_idx).1
                 (next_cursor ctx round_idx phase_idx).2 o'.
Proof.
  intros Hstep Hplain Hri Hpi.
  destruct (phase_step_plain env moderator_reply rid ctx round_idx phase_idx o
              Hstep Hplain Hri Hpi)
    as (r & o' & run' & E & Hc' & Hp' & Hf' & Hr' & Hm' & Hcase).
  destruct Hstep as [Hc Hp (run & Hr & Hm & Hs & Ho)].
  unfold advance_debate. rewrite Hc, Hr, Hm, Hs. simpl negb. simpl RunStatus.terminal.
  cbv iota.
  destruct (total_rounds ctx <=? (next_cursor ctx round_idx phase_idx).1)%Z.
  - destruct Hcase as [-> Hst]. rewrite (mbind_raise _ _ _ _ _ E).
    eexists _, _. split; [reflexivity|]. split; [exact Hf'|].
    split; [reflexivity|]. split; [exact Hc'|]. split; [exact Hp'|]. eauto.
  - destruct Hcase as [-> Hst]. rewrite (mbind_ok _ _ _ _ _ E).
    unfold respond, current.
    destruct Hst as [Hc2 Hp2 (run2 & Hr2 & Hm2 & Hs2 & Ho2)].
    rewrite Hr2. simpl.
    eexists _, _. split; [reflexivity|]. split; [exact Hf'|]. split.
    + eexists. split; [reflexivity|]. simpl. rewrite Hs2. reflexivity.
    + split; [exact Hc2|exact Hp2|eauto].
Qed.

(** [start] of a step run leaves it stepping at the cursor (0, 0). *)
Lemma start_debate_stepping (payload : StartDebateRequest) (new_id : list N) (o : Orch)
      (template_ : DebateTemplate) :
  store_templates o !! req_template_id payload = Some template_ ->
  req_mode payload = RunMode.step ->
  stepping new_id
    {| template := template_;
       total_rounds := match req_rounds payload with
                       | Some r => if (r =? 0)%Z then t_rounds template_ else r
                       | None => t_rounds template_
                       end |}
    0 0 (start_debate payload new_id o).2.
Proof.
  intros Ht Hm. unfold start_debate. rewrite Ht. simpl. split; simpl.
  - apply lookup_insert_eq.
  - apply lookup_insert_eq.
  - eexists. split; [apply lookup_insert_eq|]. simpl. auto.
Qed.

(** C8: for every step run of two rounds whose template has three phases,
    none a vote, and no moderator, whatever the roster and whatever the
    participants answer: the cursor goes through (0,0), (0,1), (0,2),
    (1,0), (1,1), (1,2), each once, and the first five calls of [advance]
    return [done=false]; but the sixth call does not return [done=true]:
    finalization raises, since the last round recorded no outcome.  The run
    is left completed with its context, and it takes a seventh call to get
    [done=true]. *)
Theorem sixth_advance_raises
        (envs : list (PhaseEnv * reply)) (rid : list N) (ctx : RunContext) (o : Orch) :
  stepping rid ctx 0 0 o ->
  plain_template (template ctx) ->
  total_rounds ctx = 2%Z ->
  length (t_phases (template ctx)) = 3 ->
  length envs = 7 ->
  (advances envs rid o).1
  = [ (Some (0, 0)%Z, Ok false); (Some (0, 1)%Z, Ok false); (Some (0, 2)%Z, Ok false);
      (Some (1, 0)%Z, Ok false); (Some (1, 1)%Z, Ok false);
      (Some (1, 2)%Z, Raise ValidationError); (Some (2, 0)%Z, Ok true) ]
  /\ status_of rid (advances envs rid o).2 = Some RunStatus.completed
  /\ store_final_records (advances envs rid o).2 = store_final_records o.
Proof.
  intros Hstep Hplain Htotal Hlen Henvs.
  destruct envs as [|[e1 m1] [|[e2 m2] [|[e3 m3] [|[e4 m4] [|[e5 m5] [|[e6 m6]
                   [|[e7 m7] [|? ?]]]]]]]]; try discriminate.
  assert (forall ri pi, next_cursor ctx ri pi
                        = if (pi =? 2)%Z then ((ri + 1)%Z, 0%Z) else (ri, (pi + 1)%Z)) as Hnext.
  { intros. unfold next_cursor, last_phase. rewrite Hlen. reflexivity. }
  assert (forall env m ri pi o1,
             stepping rid ctx ri pi o1 ->
             (0 <= ri < 2)%Z -> (0 <= pi < 3)%Z ->
             exists r o',
               advance_debate env m rid o1 = (r, o')
               /\ _progress o1 !! rid = Some (ri, pi)
               /\ store_final_records o' = store_final_records o1
               /\ if (2 <=? (next_cursor ctx ri pi).1)%Z
                  then r = Raise ValidationError
                       /\ _context o' !! rid = Some ctx
                       /\ _progress o' !! rid = Some (next_cursor ctx ri pi)
                       /\ exists run', store_runs o' !! rid = Some run'
                                       /\ run_mode run' = RunMode.step
                                       /\ run_status run' = RunStatus.completed
                  else (exists response, r = Ok response /\ done response = false)
                       /\ stepping rid ctx (next_cursor ctx ri pi).1
                            (next_cursor ctx ri pi).2 o') as Hcall.
  { intros env m ri pi o1 Hs Hri Hpi.
    destruct (advance_plain env m rid ctx ri pi o1 Hs Hplain) as (r & o' & E & Hf & Hc).
    - lia.
    - rewrite Hlen. lia.
    - rewrite Htotal in Hc. exists r, o'. split; [exact E|].
      split; [apply Hs|]. split; [exact Hf|exact Hc]. }
  destruct (Hcall e1 m1 0%Z 0%Z o Hstep) as (r1 & o1 & E1 & P1 & F1 & C1); [lia|lia|].
  rewrite Hnext in C1. simpl in C1. destruct C1 as ((a1 & -> & D1) & S1).
  destruct (Hcall e2 m2 0%Z 1%Z o1 S1) as (r2 & o2 & E2 & P2 & F2 & C2); [lia|lia|].
  rewrite Hnext in C2. simpl in C2. destruct C2 as ((a2 & -> & D2) & S2).
  destruct (Hcall e3 m3 0%Z 2%Z o2 S2) as (r3 & o3 & E3 & P3 & F3 & C3); [lia|lia|].
  rewrite Hnext in C3. simpl in C3. destruct C3 as ((a3 & -> & D3) & S3).
  destruct (Hcall e4 m4 1%Z 0%Z o3 S3) as (r4 & o4 & E4 & P4 & F4 & C4); [lia|lia|].
  rewrite Hnext in C4. simpl in C4. destruct C4 as ((a4 & -> & D4) & S4).
  destruct (Hcall e5 m5 1%Z 1%Z o4 S4) as (r5 & o5 & E5 & P5 & F5 & C5); [lia|lia|].
  rewrite Hnext in C5. simpl in C5. destruct C5 as ((a5 & -> & D5) & S5).
  destruct (Hcall e6 m6 1%Z 2%Z o5 S5) as (r6 & o6 & E6 & P6 & F6 & C6); [lia|lia|].
  rewrite Hnext in C6. simpl in C6.
  destruct C6 as (-> & Hc6 & Hp6 & run6 & Hr6 & Hm6 & Hs6).
  destruct (advance_debate_guards e7 m7 rid o6 ctx run6 Hc6 Hr6) as [_ E7].
  specialize (E7 Hm6). rewrite Hs6 in E7. specialize (E7 eq_refl).
  simpl advances. rewrite E1, E2, E3, E4, E5, E6, E7. simpl.
  rewrite P1, P2, P3, P4, P5, P6, Hp6, D1, D2, D3, D4, D5.
  split; [reflexivity|]. split.
  - unfold status_of. rewrite Hr6. simpl. rewrite Hs6. reflexivity.
  - congruence.
Qed.

(** ** Facts: the matcher on the vote pattern *)

Lemma lit_startswith (l : list N) :
  forall prev s,
    Re.lit l prev s
    = if startswith l s
      then Some (match last l with Some c => Some c | None => prev end, drop (length l) s)
      else None.
Proof.
  induction l as [|a l IH]; intros prev s; simpl; [reflexivity|].
  destruct s as [|b s]; [reflexivity|].
  destruct (N.eqb_spec a b) as [->|Hne]; simpl; [|reflexivity].
  rewrite IH. destruct (startswith l s); [|reflexivity].
  destruct l as [|a' l']; [reflexivity|].
  simpl last. destruct (last (a' :: l')) eqn:E; [reflexivity|].
  apply last_None in E. discriminate.
Qed.

Lemma startswith_app (l s : list N) :
  startswith l s = true <-> s = l ++ drop (length l) s.
Proof.
  revert s. induction l as [|a l IH]; intros s; simpl.
  - rewrite drop_0. tauto.
  - destruct s as [|b s]; [split; discriminate|].
    destruct (N.eqb_spec a b) as [->|Hne]; simpl.
    + rewrite IH. split; [intros <-; reflexivity|]. intros H. injection H. auto.
    + split; [discriminate|]. intros H. injection H. intros _ E. congruence.
Qed.

Lemma startswith_prefix (l r : list N) : startswith l (l ++ r) = true.
Proof.
  induction l as [|a l IH]; simpl; [reflexivity|]. rewrite N.eqb_refl. exact IH.
Qed.

Lemma captured_prefix (l s : list N) :
  startswith l s = true -> firstn (length s - length (drop (length l) s)) s = l.
Proof.
  intros H. apply startswith_app in H.
  rewrite length_drop.
  assert (length l <= length s) as Hle.
  { rewrite H, length_app. lia. }
  replace (length s - (length s - length l)) with (length l) by lia.
  rewrite H at 1. apply take_app_length.
Qed.

Lemma yes_is_not_no (s : list N) :
  startswith (py "yes") s = true -> startswith (py "no") s = false.
Proof.
  change (py "yes") with [121; 101; 115]%N. change (py "no") with [110; 111]%N.
  destruct s as [|c s]; [discriminate|]. cbn [startswith].
  destruct (N.eqb_spec 121 c) as [<-|]; [reflexivity|discriminate].
Qed.

Lemma run_word (prev : option N) (s : list N) (cap : option (list N)) :
  Re.run isword word_pattern prev s cap (fun _ _ c => Some c) = found (word_at s).
Proof.
  unfold word_pattern, found. cbn [Re.run]. rewrite !lit_startswith. unfold word_at.
  change (length (py "yes")) with 3. change (length (py "no")) with 2.
  change (last (py "yes")) with (Some 115%N). change (last (py "no")) with (Some 111%N).
  assert (forall c, Re.opt_word isword (Some c) = isword c) as Hw by reflexivity.
  destruct (startswith (py "yes") s) eqn:Ey.
  - rewrite (yes_is_not_no s Ey).
    pose proof (captured_prefix _ _ Ey) as Hcap.
    change (length (py "yes")) with 3 in Hcap. rewrite Hw.
    change (isword 115%N) with true.
    destruct (drop 3 s) as [|c r] eqn:Ed; simpl word_ends.
    + rewrite Hcap. reflexivity.
    + destruct (isword c); cbn [xorb negb]; [reflexivity|]. rewrite Hcap. reflexivity.
  - destruct (startswith (py "no") s) eqn:En; [|reflexivity].
    pose proof (captured_prefix _ _ En) as Hcap.
    change (length (py "no")) with 2 in Hcap. rewrite Hw.
    change (isword 111%N) with true.
    destruct (drop 2 s) as [|c r] eqn:Ed; simpl word_ends.
    + rewrite Hcap. reflexivity.
    + destruct (isword c); cbn [xorb negb]; [reflexivity|]. rewrite Hcap. reflexivity.
Qed.

Lemma star_skip (p : N -> bool) (k : option N -> list N -> option (option (list N)))
      (K : list N -> option (option (list N))) :
  (forall prev s, k prev s = K s) ->
  (forall c s, p c = true -> K (c :: s) = None \/ K (c :: s) = K (dropwhile p s)) ->
  forall s prev, Re.star p prev s k = K (dropwhile p s).
Proof.
  intros Hk Hskip. induction s as [|c s IH]; intros prev; simpl; [apply Hk|].
  destruct (p c) eqn:Hc; [|apply Hk].
  rewrite IH. destruct (K (dropwhile p s)) as [r|] eqn:E; [reflexivity|].
  rewrite Hk. destruct (Hskip c s Hc) as [H|H]; congruence.
Qed.

Lemma dropwhile_idem (p : N -> bool) (s : list N) :
  dropwhile p (dropwhile p s) = dropwhile p s.
Proof.
  induction s as [|c s IH]; simpl; [reflexivity|].
  destruct (p c) eqn:E; [exact IH|]. simpl. rewrite E. reflexivity.
Qed.

Lemma space_starts_no_word (c : N) (s : list N) :
  isspace c = true -> word_at (c :: s) = None.
Proof.
  intros H. unfold word_at.
  change (py "yes") with [121; 101; 115]%N. change (py "no") with [110; 111]%N.
  cbn [startswith].
  destruct (N.eqb_spec 121 c) as [<-|_]; [discriminate H|].
  destruct (N.eqb_spec 110 c) as [<-|_]; [discriminate H|]. reflexivity.
Qed.

Lemma sep_starts_no_word (c : N) (s : list N) :
  is_sep c = true -> word_at (c :: s) = None.
Proof.
  intros H. unfold word_at.
  change (py "yes") with [121; 101; 115]%N. change (py "no") with [110; 111]%N.
  cbn [startswith].
  destruct (N.eqb_spec 121 c) as [<-|_]; [discriminate H|].
  destruct (N.eqb_spec 110 c) as [<-|_]; [discriminate H|]. reflexivity.
Qed.

Lemma space_is_no_sep (c : N) : isspace c = true -> is_sep c = false.
Proof.
  intros H. unfold is_sep.
  destruct (N.eqb_spec c 58) as [->|_]; [discriminate H|].
  destruct (N.eqb_spec c 45) as [->|_]; [discriminate H|]. reflexivity.
Qed.

Lemma star_spaces_word (prev : option N) (s : list N) (cap : option (list N)) :
  Re.star isspace prev s
    (fun prev' s' => Re.run isword word_pattern prev' s' cap (fun _ _ c => Some c))
  = found (word_at (dropwhile isspace s)).
Proof.
  apply (star_skip isspace _ (fun t => found (word_at t))).
  - intros prev' t. apply run_word.
  - intros c t Hc. left. rewrite (space_starts_no_word c t Hc). reflexivity.
Qed.

Lemma run_sep (prev : option N) (s : list N) (cap : option (list N)) :
  Re.run isword sep_pattern prev s cap (fun _ _ c => Some c) = found (sep_word s).
Proof.
  unfold sep_pattern. cbn [Re.run]. unfold sep_word. destruct s as [|c r].
  - rewrite star_spaces_word. reflexivity.
  - change ((c =? 58)%N || (c =? 45)%N) with (is_sep c).
    destruct (is_sep c) eqn:Hsep.
    + rewrite !star_spaces_word.
      destruct (found (word_at (dropwhile isspace r))) as [res|] eqn:E; [reflexivity|].
      cbn [dropwhile].
      destruct (isspace c) eqn:Hsp; [apply space_is_no_sep in Hsp; congruence|].
      rewrite (sep_starts_no_word c r Hsep). reflexivity.
    + rewrite star_spaces_word. reflexivity.
Qed.

Lemma run_tail (prev : option N) (s : list N) (cap : option (list N)) :
  Re.run isword tail_pattern prev s cap (fun _ _ c => Some c) = found (scan_from s).
Proof.
  unfold tail_pattern, scan_from. cbn [Re.run].
  apply (star_skip isspace _ (fun t => found (sep_word t))).
  - intros prev' t. apply run_sep.
  - intros c t Hc.
    assert (sep_word (c :: t) = word_at (dropwhile isspace t)) as ->.
    { unfold sep_word. rewrite (space_is_no_sep c Hc). cbn [dropwhile]. rewrite Hc.
      reflexivity. }
    destruct (dropwhile isspace t) as [|d r] eqn:E.
    + left. reflexivity.
    + unfold sep_word. destruct (is_sep d) eqn:Hd.
      * left. rewrite (sep_starts_no_word d r Hd). reflexivity.
      * right. rewrite <- E, dropwhile_idem. reflexivity.
Qed.

(** The matcher on the vote pattern is the scan. *)
Lemma match_vote_pattern (s : list N) :
  Re.match_ isword vote_pattern s = found (scan s).
Proof.
  change vote_pattern
    with (Re.Seq Re.Bol
            (Re.Seq (Re.Opt (Re.Alt (Re.Lit (py "vote"))
                               (Re.Alt (Re.Lit (py "my vote")) (Re.Lit (py "i vote")))))
               tail_pattern)).
  unfold Re.match_. cbn [Re.run]. rewrite !lit_startswith.
  unfold scan, scan_after.
  destruct (startswith (py "vote") s); [rewrite run_tail|];
    (destruct (startswith (py "my vote") s); [rewrite run_tail|]);
    (destruct (startswith (py "i vote") s); [rewrite run_tail|]);
    rewrite ?run_tail;
    repeat match goal with
           | |- context [scan_from (drop ?n s)] =>
               destruct (scan_from (drop n s)); cbn [found]
           end;
    try reflexivity.
Qed.

(** ** Facts: the scan reads what the specification says *)

Lemma takewhile_dropwhile (p : N -> bool) (s : list N) :
  s = takewhile p s ++ dropwhile p s /\ forallb p (takewhile p s) = true.
Proof.
  induction s as [|c s [IH1 IH2]]; simpl; [auto|].
  destruct (p c) eqn:E; simpl; [|auto]. rewrite E, IH2. split; [f_equal; exact IH1|reflexivity].
Qed.

Lemma dropwhile_app_all (p : N -> bool) (l r : list N) :
  forallb p l = true -> dropwhile p (l ++ r) = dropwhile p r.
Proof.
  induction l as [|c l IH]; simpl; [reflexivity|].
  intros H. apply andb_true_iff in H as [Hc Hl]. rewrite Hc. auto.
Qed.

Lemma word_at_some (s : list N) (v : VoteValue.t) :
  word_at s = Some v ->
  v <> VoteValue.invalid
  /\ exists rest, s = word_of v ++ rest /\ word_ends rest = true.
Proof.
  unfold word_at.
  destruct (startswith (py "yes") s) eqn:Ey.
  - destruct (word_ends (drop 3 s)) eqn:Ew; [|discriminate].
    intros H. inversion H; subst. split; [discriminate|].
    exists (drop 3 s). split; [|exact Ew]. apply startswith_app in Ey. exact Ey.
  - destruct (startswith (py "no") s) eqn:En; [|discriminate].
    destruct (word_ends (drop 2 s)) eqn:Ew; [|discriminate].
    intros H. inversion H; subst. split; [discriminate|].
    exists (drop 2 s). split; [|exact Ew]. apply startswith_app in En. exact En.
Qed.

Lemma word_at_word (v : VoteValue.t) (rest : list N) :
  v <> VoteValue.invalid -> word_ends rest = true -> word_at (word_of v ++ rest) = Some v.
Proof.
  intros Hv Hw. unfold word_at. destruct v; [| |contradiction].
  - rewrite startswith_prefix. change (drop 3 (word_of VoteValue.yes ++ rest)) with rest.
    rewrite Hw. reflexivity.
  - change (startswith (py "yes") (word_of VoteValue.no ++ rest)) with false.
    rewrite startswith_prefix. change (drop 2 (word_of VoteValue.no ++ rest)) with rest.
    rewrite Hw. reflexivity.
Qed.

Lemma dropwhile_word (v : VoteValue.t) (rest : list N) :
  v <> VoteValue.invalid ->
  dropwhile isspace (word_of v ++ rest) = word_of v ++ rest.
Proof. intros Hv. destruct v; [reflexivity|reflexivity|contradiction]. Qed.

Lemma is_sep_cases (c : N) : is_sep c = true -> c = 58%N \/ c = 45%N.
Proof.
  unfold is_sep. intros H. apply orb_true_iff in H as [H|H]; apply N.eqb_eq in H; auto.
Qed.

Lemma sep_word_some (s : list N) (v : VoteValue.t) :
  sep_word s = Some v ->
  exists sep ws2 rest,
    In sep [[]; [58%N]; [45%N]] /\ forallb isspace ws2 = true
    /\ v <> VoteValue.invalid /\ word_ends rest = true
    /\ s = sep ++ ws2 ++ word_of v ++ rest.
Proof.
  unfold sep_word. destruct s as [|c r]; [discriminate|].
  destruct (is_sep c) eqn:Hsep; intros H;
    apply word_at_some in H as (Hv & rest & E & Hw).
  - destruct (takewhile_dropwhile isspace r) as [Hs Hall].
    exists [c], (takewhile isspace r), rest. repeat split; try assumption.
    + destruct (is_sep_cases c Hsep) as [->| ->]; simpl; auto.
    + simpl. rewrite <- E, <- Hs. reflexivity.
  - destruct (takewhile_dropwhile isspace (c :: r)) as [Hs Hall].
    exists [], (takewhile isspace (c :: r)), rest. repeat split; try assumption.
    + simpl; auto.
    + rewrite <- E. exact Hs.
Qed.

Lemma scan_from_parts (s : list N) (v : VoteValue.t) :
  scan_from s = Some v ->
  exists ws1 sep ws2 rest,
    forallb isspace ws1 = true /\ In sep [[]; [58%N]; [45%N]]
    /\ forallb isspace ws2 = true /\ v <> VoteValue.invalid /\ word_ends rest = true
    /\ s = ws1 ++ sep ++ ws2 ++ word_of v ++ rest.
Proof.
  unfold scan_from. intros H.
  apply sep_word_some in H as (sep & ws2 & rest & Hsep & Hws2 & Hv & Hw & E).
  destruct (takewhile_dropwhile isspace s) as [Hs Hall].
  exists (takewhile isspace s), sep, ws2, rest. repeat split; try assumption.
  rewrite <- E. exact Hs.
Qed.

Lemma scan_after_some (marker s : list N) (v : VoteValue.t) :
  In marker [[]; py "vote"; py "my vote"; py "i vote"] ->
  scan_after marker s = Some v -> marked s v.
Proof.
  intros Hin. unfold scan_after. destruct (startswith marker s) eqn:E; [|discriminate].
  intros H.
  apply scan_from_parts in H as (ws1 & sep & ws2 & rest & Hws1 & Hsep & Hws2 & Hv & Hw & Es).
  apply (Marked s v marker ws1 sep ws2 rest); try assumption.
  apply startswith_app in E. rewrite E at 1. f_equal. exact Es.
Qed.

Lemma scan_some (s : list N) (v : VoteValue.t) : scan s = Some v -> marked s v.
Proof.
  unfold scan.
  destruct (scan_after (py "vote") s) as [v1|] eqn:E1.
  { intros H. inversion H; subst. eapply scan_after_some; [|exact E1]. simpl; auto. }
  destruct (scan_after (py "my vote") s) as [v2|] eqn:E2.
  { intros H. inversion H; subst. eapply scan_after_some; [|exact E2]. simpl; auto. }
  destruct (scan_after (py "i vote") s) as [v3|] eqn:E3.
  { intros H. inversion H; subst. eapply scan_after_some; [|exact E3]. simpl; auto. }
  intros H. apply (scan_after_some [] s v); [simpl; auto|].
  unfold scan_after. simpl. rewrite drop_0. exact H.
Qed.

Lemma sep_word_parts (sep ws2 rest : list N) (v : VoteValue.t) :
  In sep [[]; [58%N]; [45%N]] -> forallb isspace ws2 = true ->
  v <> VoteValue.invalid -> word_ends rest = true ->
  sep_word (dropwhile isspace (sep ++ ws2 ++ word_of v ++ rest)) = Some v.
Proof.
  intros Hsep Hws2 Hv Hw.
  assert (word_at (dropwhile isspace (ws2 ++ word_of v ++ rest)) = Some v) as Hword.
  { rewrite dropwhile_app_all, dropwhile_word by assumption. apply word_at_word; assumption. }
  destruct Hsep as [<-|[<-|[<-|[]]]].
  - simpl app. rewrite dropwhile_app_all, dropwhile_word by assumption.
    unfold sep_word.
    destruct v; [| |contradiction]; simpl app; cbn [is_sep N.eqb Pos.eqb orb];
      rewrite <- Hword, dropwhile_app_all, dropwhile_word by assumption;
      reflexivity.
  - simpl app. cbn [dropwhile]. change (isspace 58%N) with false. cbv iota.
    unfold sep_word. change (is_sep 58%N) with true. cbv iota. exact Hword.
  - simpl app. cbn [dropwhile]. change (isspace 45%N) with false. cbv iota.
    unfold sep_word. change (is_sep 45%N) with true. cbv iota. exact Hword.
Qed.

Lemma scan_from_parts_intro (ws1 sep ws2 rest : list N) (v : VoteValue.t) :
  forallb isspace ws1 = true -> In sep [[]; [58%N]; [45%N]] ->
  forallb isspace ws2 = true -> v <> VoteValue.invalid -> word_ends rest = true ->
  scan_from (ws1 ++ sep ++ ws2 ++ word_of v ++ rest) = Some v.
Proof.
  intros Hws1 Hsep Hws2 Hv Hw. unfold scan_from.
  rewrite dropwhile_app_all by assumption. apply sep_word_parts; assumption.
Qed.

(** What follows a marker, or stands without one, starts with white space,
    a separator or the word: never with the first letter of a marker. *)
Lemma parts_start (ws1 sep ws2 rest : list N) (v : VoteValue.t) :
  forallb isspace ws1 = true -> In sep [[]; [58%N]; [45%N]] ->
  forallb isspace ws2 = true -> v <> VoteValue.invalid ->
  exists c t,
    ws1 ++ sep ++ ws2 ++ word_of v ++ rest = c :: t
    /\ c <> 118%N /\ c <> 109%N /\ c <> 105%N.
Proof.
  intros Hws1 Hsep Hws2 Hv.
  assert (forall c, isspace c = true -> c <> 118%N /\ c <> 109%N /\ c <> 105%N) as Hsp.
  { intros c Hc. repeat split; intros ->; discriminate Hc. }
  destruct ws1 as [|c ws1].
  - destruct Hsep as [<-|[<-|[<-|[]]]].
    + destruct ws2 as [|c ws2].
      * destruct v; [| |contradiction]; eexists _, _;
          (split; [reflexivity|repeat split; discriminate]).
      * simpl in Hws2. apply andb_true_iff in Hws2 as [Hc _].
        eexists _, _. split; [reflexivity|]. apply Hsp, Hc.
    + eexists _, _. split; [reflexivity|repeat split; discriminate].
    + eexists _, _. split; [reflexivity|repeat split; discriminate].
  - simpl in Hws1. apply andb_true_iff in Hws1 as [Hc _].
    eexists _, _. split; [reflexivity|]. apply Hsp, Hc.
Qed.

Lemma no_marker_at (c : N) (t : list N) :
  c <> 118%N -> c <> 109%N -> c <> 105%N ->
  scan_after (py "vote") (c :: t) = None
  /\ scan_after (py "my vote") (c :: t) = None
  /\ scan_after (py "i vote") (c :: t) = None.
Proof.
  intros H1 H2 H3. unfold scan_after.
  change (py "vote") with (118 :: py "ote")%N.
  change (py "my vote") with (109 :: py "y vote")%N.
  change (py "i vote") with (105 :: py " vote")%N.
  cbn [startswith].
  destruct (N.eqb_spec 118 c); [congruence|].
  destruct (N.eqb_spec 109 c); [congruence|].
  destruct (N.eqb_spec 105 c); [congruence|]. auto.
Qed.

Lemma marked_scan (s : list N) (v : VoteValue.t) : marked s v -> scan s = Some v.
Proof.
  intros [marker ws1 sep ws2 rest Hm Hws1 Hsep Hws2 Hv Hw ->].
  pose proof (scan_from_parts_intro ws1 sep ws2 rest v Hws1 Hsep Hws2 Hv Hw) as Hscan.
  unfold scan. destruct Hm as [<-|[<-|[<-|[<-|[]]]]].
  - destruct (parts_start ws1 sep ws2 rest v Hws1 Hsep Hws2 Hv)
      as (c & t & E & H1 & H2 & H3).
    simpl app. rewrite E in *.
    destruct (no_marker_at c t H1 H2 H3) as (-> & -> & ->). exact Hscan.
  - unfold scan_after at 1. rewrite startswith_prefix.
    change (drop (length (py "vote")) (py "vote" ++ ?x)) with x. rewrite Hscan. reflexivity.
  - change (scan_after (py "vote") (py "my vote" ++ ?x)) with (@None VoteValue.t).
    unfold scan_after at 1. rewrite startswith_prefix.
    change (drop (length (py "my vote")) (py "my vote" ++ ?x)) with x.
    rewrite Hscan. reflexivity.
  - change (scan_after (py "vote") (py "i vote" ++ ?x)) with (@None VoteValue.t).
    change (scan_after (py "my vote") (py "i vote" ++ ?x)) with (@None VoteValue.t).
    unfold scan_after at 1. rewrite startswith_prefix.
    change (drop (length (py "i vote")) (py "i vote" ++ ?x)) with x.
    rewrite Hscan. reflexivity.
Qed.

Lemma parse_vote_scan (raw first_line : list N) (rest : list (list N)) :
  raw <> [] ->
  splitlines (strip raw) = first_line :: rest ->
  _parse_vote raw
  = Ok (match scan (lower (strip (lstrip markers first_line))) with
        | Some v => v
        | None => prefix_vote (lower (strip (lstrip markers first_line)))
        end).
Proof.
  intros Hne Hsplit. unfold _parse_vote. destruct raw as [|c raw]; [contradiction|].
  rewrite Hsplit. cbv zeta. rewrite match_vote_pattern.
  destruct (scan _) as [v|] eqn:E; cbn [found].
  - apply scan_some in E. destruct E as [? ? ? ? ? _ _ _ _ Hv _ _].
    destruct v; [reflexivity|reflexivity|contradiction].
  - unfold prefix_vote. destruct (startswith (py "yes") _); [reflexivity|].
    destruct (startswith (py "no") _); reflexivity.
Qed.

(** C7: the five texts of the specification parse as it says, and on
    every text with a line to take, the vote is the one that the
    specification reads off the first line of the stripped text, markers
    and white space stripped, lower-cased: an optional marker, an optional
    colon or dash, then the whole word yes or no, or failing that a bare
    prefix, otherwise INVALID.  But a text of white space only, a lone line
    feed for one, has no such line and is not classified INVALID: the
    parser raises [IndexError] on it. *)
Theorem parse_vote_heuristic :
  (_parse_vote (py "Vote: YES") = Ok VoteValue.yes
   /\ _parse_vote (py "- no, because X") = Ok VoteValue.no
   /\ _parse_vote (py "maybe") = Ok VoteValue.invalid
   /\ _parse_vote (py "") = Ok VoteValue.invalid
   /\ _parse_vote (py "I vote yes") = Ok VoteValue.yes)
  /\ _parse_vote [10%N] = Raise IndexError
  /\ forall raw first_line rest v,
      raw <> [] ->
      splitlines (strip raw) = first_line :: rest ->
      (_parse_vote raw = Ok v <-> reads (lower (strip (lstrip markers first_line))) v).
Proof.
  split; [repeat split; vm_compute; reflexivity|]. split; [reflexivity|].
  intros raw first_line rest v Hne Hsplit.
  rewrite (parse_vote_scan raw first_line rest Hne Hsplit).
  set (s := lower (strip (lstrip markers first_line))).
  destruct (scan s) as [v0|] eqn:E.
  - split.
    + intros H. inversion H; subst. left. apply scan_some, E.
    + intros [Hm|[Hnone _]].
      * apply marked_scan in Hm. congruence.
      * exfalso. apply (Hnone v0), scan_some, E.
  - split.
    + intros H. inversion H; subst. right. split; [|reflexivity].
      intros v' Hm. apply marked_scan in Hm. congruence.
    + intros [Hm|[_ ->]]; [|reflexivity].
      apply marked_scan in Hm. congruence.
Qed.

(** ** The coroutine of [advance] and the method agree

    Resumed without any other coroutine in between, the pieces of
    [advance_debate] compute what the method computes. *)

Lemma delete_zip {A B : Type} (k : nat) (l : list A) (l' : list B) :
  delete k (zip l l') = zip (delete k l) (delete k l').
Proof.
  revert l l'.
  induction k as [|k IH]; intros [|a l] [|b l']; simpl; try reflexivity;
    first [ f_equal; apply IH | destruct l; reflexivity ].
Qed.

Lemma collect_phase run_id_ run ctx round_idx phase_idx phase pos :
  forall n order pending replies outputs o,
    length pending = n -> length replies = n ->
    collect order replies n
      (advance_collect run_id_ run ctx round_idx phase_idx phase pos pending outputs o)
    = let outs :=
        List.map (fun '(p, _, r) => phase_output phase p r)
          (as_completed order (zip pending replies) n) in
      advance_after_phase run_id_ run ctx round_idx phase_idx phase (outputs ++ outs)
        (fold_left (fun o' po => record_output run_id_ pos po o') outs o).
Proof.
  induction n as [|n IH]; intros order pending replies outputs o Hp Hr.
  - destruct pending; [|discriminate]. simpl. rewrite app_nil_r. reflexivity.
  - destruct pending as [|p0 ps] eqn:E; [discriminate|]. rewrite <- E in *.
    assert (Hk : hd O order mod length pending < length pending)
      by (apply Nat.mod_upper_bound; rewrite Hp; discriminate).
    destruct (lookup_lt_is_Some_2 pending _ Hk) as [[p msgs] Hpk].
    assert (Hk' : hd O order mod length pending < length replies) by lia.
    destruct (lookup_lt_is_Some_2 replies _ Hk') as [r Hrk].
    assert (Hz : length (zip pending replies) = length pending)
      by (rewrite length_zip; lia).
    assert (Hzk : zip pending replies !! (hd O order mod length pending) = Some (p, msgs, r))
      by (apply lookup_zip_Some; split; assumption).
    cbn [as_completed]. rewrite Hz, Hzk. cbn zeta.
    cbn [List.map fold_left].
    replace (outputs ++ phase_output phase p r :: _)
      with ((outputs ++ [phase_output phase p r]) ++
            List.map (fun '(p, _, r) => phase_output phase p r)
              (as_completed (tl order)
                 (delete (hd O order mod length pending) (zip pending replies)) n))
      by (rewrite <- app_assoc; reflexivity).
    rewrite delete_zip.
    rewrite <- (IH (tl order) (delete (hd O order mod length pending) pending)
                  (delete (hd O order mod length pending) replies)).
    + rewrite E at 1. cbn [advance_collect ret collect calls_in_flight]. rewrite <- E.
      rewrite Hrk. cbn [resume]. rewrite Hpk. reflexivity.
    + rewrite length_delete by eauto. lia.
    + rewrite length_delete by eauto. lia.
Qed.

Lemma returned_respond {A : Type} (m : M A) run_id_ run o :
  (do _ <- m; do response <- respond run_id_ run; ret (AdvanceReturned response)) o
  = returned ((do _ <- m; respond run_id_ run) o).
Proof. unfold mbind. destruct (m o) as [[a|e] o1]; reflexivity. Qed.


Lemma moderate_after_phase moderator_reply run_id_ run ctx round_idx phase_idx phase outputs o :
  moderate moderator_reply
    (advance_after_phase run_id_ run ctx round_idx phase_idx phase outputs o)
  = returned
      ((do _ <- step_votes run_id_ round_idx phase outputs;
        do _ <- (if last_phase ctx phase_idx then
                   do _ <- match t_moderator (template ctx) with
                           | Some _ =>
                               do _ <- step_round run_id_ round_idx;
                               step_summary run_id_ round_idx moderator_reply
                           | None => ret tt
                           end;
                   step_finish run_id_ ctx (round_idx + 1)%Z 0%Z
                 else step_finish run_id_ ctx round_idx (phase_idx + 1)%Z);
        respond run_id_ run) o).
Proof.
  unfold advance_after_phase, advance_end, mbind. cbv beta.
  destruct (step_votes run_id_ round_idx phase outputs o) as [[[]|e] o1]; [|reflexivity].
  cbv beta iota.
  destruct (last_phase ctx phase_idx); [destruct (t_moderator (template ctx)) as [moderator|]|].
  - destruct (step_round run_id_ round_idx o1) as [[[]|e] o2]; [|reflexivity].
    cbn [ret moderate resume]. unfold advance_end, mbind. cbv beta iota.
    destruct (step_summary run_id_ round_idx moderator_reply o2) as [[[]|e] o3];
      [|reflexivity].
    cbv beta iota.
    destruct (step_finish run_id_ ctx (round_idx + 1)%Z 0%Z o3) as [[[]|e] o4]; reflexivity.
  - cbn [ret]. cbv beta iota.
    destruct (step_finish run_id_ ctx (round_idx + 1)%Z 0%Z o1) as [[[]|e] o4]; reflexivity.
  - destruct (step_finish run_id_ ctx round_idx (phase_idx + 1)%Z o1) as [[[]|e] o4];
      reflexivity.
Qed.

Lemma after_phase_is_past_the_phase run_id_ run ctx round_idx phase_idx phase outputs o env :
  collect_all env (advance_after_phase run_id_ run ctx round_idx phase_idx phase outputs o)
  = advance_after_phase run_id_ run ctx round_idx phase_idx phase outputs o.
Proof.
  unfold advance_after_phase, advance_end, mbind. cbv beta.
  destruct (step_votes run_id_ round_idx phase outputs o) as [[[]|e] o1]; [|reflexivity].
  cbv beta iota.
  destruct (last_phase ctx phase_idx); [destruct (t_moderator (template ctx)) as [moderator|]|].
  - destruct (step_round run_id_ round_idx o1) as [[[]|e] o2]; reflexivity.
  - destruct (step_finish run_id_ ctx (round_idx + 1)%Z 0%Z o1) as [[[]|e] o4]; reflexivity.
  - destruct (step_finish run_id_ ctx round_idx (phase_idx + 1)%Z o1) as [[[]|e] o4];
      reflexivity.
Qed.

Lemma collect_all_collect env run_id_ run ctx round_idx phase_idx phase pos pending outputs o :
  collect_all env
    (advance_collect run_id_ run ctx round_idx phase_idx phase pos pending outputs o)
  = collect (pe_order env) (replies_of env pending) (length pending)
      (advance_collect run_id_ run ctx round_idx phase_idx phase pos pending outputs o).
Proof.
  destruct pending as [|p ps]; [|reflexivity].
  apply after_phase_is_past_the_phase.
Qed.

Lemma tasks_zip_replies (env : PhaseEnv) (pending : list (Participant * list Message)) :
  imap (fun i '(p, messages) => (p, pe_chat env i (p_model_id p) messages)) pending
  = List.map (fun '(p, _, r) => (p, r)) (zip pending (replies_of env pending)).
Proof.
  unfold replies_of. generalize (pe_chat env) as chat.
  induction pending as [|[p messages] pending IH]; intros chat; [reflexivity|].
  simpl. f_equal. apply (IH (fun i => chat (S i))).
Qed.

(** The coroutine of [advance_debate], resumed in the environment of the
    phase with no other coroutine in between, returns what the method
    returns and leaves the state the method leaves. *)
Theorem advance_coroutine_agrees env moderator_reply run_id_ o :
  drive_advance env moderator_reply run_id_ o
  = returned (advance_debate env moderator_reply run_id_ o).
Proof.
  unfold drive_advance, advance_begin, advance_debate.
  destruct (_context o !! run_id_) as [ctx|]; [|reflexivity].
  destruct (store_runs o !! run_id_) as [run|]; [|reflexivity].
  destruct (negb (RunMode.eqb (run_mode run) RunMode.step)); [reflexivity|].
  destruct (RunStatus.terminal (run_status run)); [reflexivity|].
  unfold _execute_phase_step, mbind at 1 3 4. cbv beta.
  destruct (step_prologue run_id_ o)
    as [[[[[[[[ctx' round_idx] phase_idx] phase] pos] run1]|]|e] o1];
    [|reflexivity|reflexivity].
  cbv beta iota.
  rewrite collect_all_collect.
  rewrite collect_phase by (unfold replies_of; rewrite ?length_imap; reflexivity).
  cbv zeta. rewrite moderate_after_phase. f_equal.
  unfold _execute_phase at 1. rewrite tasks_zip_replies, as_completed_map.
  rewrite length_map, length_zip.
  replace (length (replies_of env (dispatch (template ctx') phase run1 (round_idx + 1)%Z)))
    with (length (dispatch (template ctx') phase run1 (round_idx + 1)%Z))
    by (unfold replies_of; rewrite length_imap; reflexivity).
  rewrite Nat.min_id, map_map.
  set (outs := List.map _ (as_completed _ _ _)).
  replace (List.map _ (as_completed _ _ _)) with outs
    by (apply map_ext; intros [[p messages] r]; reflexivity).
  cbn [app]. unfold mbind. cbv beta iota.
  destruct (step_votes run_id_ round_idx phase outs _) as [[[]|e] o2]; [|reflexivity].
  destruct (last_phase ctx' phase_idx); reflexivity.
Qed.

(** ** The background task of an auto run and [_run_to_completion] agree *)

Lemma mbind_assoc {A B C : Type} (m : M A) (f : A -> M B) (g : B -> M C) (o : Orch) :
  mbind (mbind m f) g o = mbind m (fun a => mbind (f a) g) o.
Proof. unfold mbind. destruct (m o) as [[a|e] o']; reflexivity. Qed.

Lemma execute_phase_zip env template_ phase run_id_ run round_index pos o :
  _execute_phase env template_ phase run_id_ run round_index pos o
  = let outs := outputs_in env phase (dispatch template_ phase run round_index) in
    (Ok outs, fold_left (fun o' po => record_output run_id_ pos po o') outs o).
Proof.
  unfold _execute_phase, outputs_in.
  rewrite tasks_zip_replies, as_completed_map, length_map, length_zip.
  replace (length (replies_of env (dispatch template_ phase run round_index)))
    with (length (dispatch template_ phase run round_index))
    by (unfold replies_of; rewrite length_imap; reflexivity).
  rewrite Nat.min_id, map_map.
  set (outs := List.map _ (as_completed _ _ _)).
  replace (List.map _ (as_completed _ _ _)) with outs
    by (apply map_ext; intros [[p messages] r]; reflexivity).
  reflexivity.
Qed.

Lemma collect_auto_phase run_id_ run todo template_ round_index pos round_run phase rest :
  forall n order pending replies outputs o,
    length pending = n -> length replies = n ->
    collect order replies n
      (auto_collect run_id_ run todo template_ round_index pos round_run phase rest
         pending outputs o)
    = let outs :=
        List.map (fun '(p, _, r) => phase_output phase p r)
          (as_completed order (zip pending replies) n) in
      (do _ <- round_votes run_id_ pos phase (outputs ++ outs);
       auto_phases (auto_rounds run_id_ run todo) run_id_ run todo
         template_ round_index pos round_run rest)
        (fold_left (fun o' po => record_output run_id_ pos po o') outs o).
Proof.
  induction n as [|n IH]; intros order pending replies outputs o Hp Hr.
  - destruct pending; [|discriminate]. simpl. rewrite app_nil_r. reflexivity.
  - destruct pending as [|p0 ps] eqn:E; [discriminate|]. rewrite <- E in *.
    assert (Hk : hd O order mod length pending < length pending)
      by (apply Nat.mod_upper_bound; rewrite Hp; discriminate).
    destruct (lookup_lt_is_Some_2 pending _ Hk) as [[p msgs] Hpk].
    assert (Hk' : hd O order mod length pending < length replies) by lia.
    destruct (lookup_lt_is_Some_2 replies _ Hk') as [r Hrk].
    assert (Hz : length (zip pending replies) = length pending)
      by (rewrite length_zip; lia).
    assert (Hzk : zip pending replies !! (hd O order mod length pending) = Some (p, msgs, r))
      by (apply lookup_zip_Some; split; assumption).
    cbn [as_completed]. rewrite Hz, Hzk. cbn zeta.
    cbn [List.map fold_left].
    replace (outputs ++ phase_output phase p r :: _)
      with ((outputs ++ [phase_output phase p r]) ++
            List.map (fun '(p, _, r) => phase_output phase p r)
              (as_completed (tl order)
                 (delete (hd O order mod length pending) (zip pending replies)) n))
      by (rewrite <- app_assoc; reflexivity).
    rewrite delete_zip.
    rewrite <- (IH (tl order) (delete (hd O order mod length pending) pending)
                  (delete (hd O order mod length pending) replies)).
    + rewrite E at 1. cbn [auto_collect ret collect calls_in_flight]. rewrite <- E.
      rewrite Hrk. cbn [resume]. rewrite Hpk. reflexivity.
    + rewrite length_delete by eauto. lia.
    + rewrite length_delete by eauto. lia.
Qed.

Lemma auto_phases_cons run_id_ run todo template_ round_index pos round_run phase rest o :
  auto_phases (auto_rounds run_id_ run todo) run_id_ run todo template_ round_index pos
    round_run (phase :: rest) o
  = auto_collect run_id_ run todo template_ round_index pos round_run phase rest
      (dispatch template_ phase (current run_id_ round_run o) round_index) [] o.
Proof.
  cbn [auto_phases].
  destruct (dispatch template_ phase (current run_id_ round_run o) round_index);
    reflexivity.
Qed.

Lemma phases_loop_cons {A : Type} env template_ run_id_ run round_index pos j phase rest
      (k : unit -> M A) o :
  mbind (phases_loop env template_ run_id_ run round_index pos j (phase :: rest)) k o
  = let outs :=
      outputs_in (re_phase env j) phase
        (dispatch template_ phase (current run_id_ run o) round_index) in
    mbind (round_votes run_id_ pos phase outs)
      (fun _ => mbind (phases_loop env template_ run_id_ run round_index pos (S j) rest) k)
      (fold_left (fun o' po => record_output run_id_ pos po o') outs o).
Proof.
  unfold mbind at 1. cbn [phases_loop]. unfold mbind at 1.
  rewrite execute_phase_zip. cbv zeta.
  rewrite <- mbind_assoc. reflexivity.
Qed.

Section AutoAgreement.

Variable envs : nat -> RoundEnv.
Variable total : nat.
Variables (run_id_ : list N) (run : DebateRun).

(** A phase of the task, once collected, goes on as the loop does. *)
Lemma drive_collect todo template_ round_index pos round_run phase rest pending o res :
  let env := re_phase (envs (round_rank total todo)) (phase_rank template_ rest) in
  let outs := outputs_in env phase pending in
  (exists fuel,
      drive_auto envs total fuel
        ((do _ <- round_votes run_id_ pos phase outs;
          auto_phases (auto_rounds run_id_ run todo) run_id_ run todo
            template_ round_index pos round_run rest)
           (fold_left (fun o' po => record_output run_id_ pos po o') outs o)) = res) ->
  exists fuel,
    drive_auto envs total fuel
      (auto_collect run_id_ run todo template_ round_index pos round_run phase rest
         pending [] o) = res.
Proof.
  intros env outs [fuel H].
  pose proof (collect_auto_phase run_id_ run todo template_ round_index pos round_run
                phase rest (length pending) (pe_order env) pending (replies_of env pending)
                [] o eq_refl) as Hc.
  assert (Hl : length (replies_of env pending) = length pending)
    by (unfold replies_of; rewrite length_imap; reflexivity).
  specialize (Hc Hl). cbv zeta in Hc. cbn [app] in Hc.
  destruct pending as [|p ps]; [exists fuel; exact H|].
  exists (S fuel).
  cbn [auto_collect] in Hc |- *. unfold ret in Hc |- * at 1.
  cbn [drive_auto collect_all calls_in_flight].
  fold env. rewrite Hc. exact H.
Qed.

(** The phases of a round, given that the rounds to come agree. *)
Lemma drive_phases todo i template_ round_index pos round_run :
  round_rank total todo = i ->
  (forall o, exists fuel,
        drive_auto envs total fuel (auto_rounds run_id_ run todo o)
        = auto_returned (finish_rounds envs run_id_ run (S i) todo o)) ->
  forall phases j o,
    j + length phases = length (t_phases template_) ->
    exists fuel,
      drive_auto envs total fuel
        (auto_phases (auto_rounds run_id_ run todo) run_id_ run todo
           template_ round_index pos round_run phases o)
      = auto_returned
          ((do _ <- phases_loop (envs i) template_ run_id_ round_run round_index pos j phases;
            do _ <- match t_moderator template_ with
                    | Some _ => round_summary run_id_ pos (re_moderator (envs i))
                    | None => ret tt
                    end;
            finish_rounds envs run_id_ run (S i) todo) o).
Proof.
  intros Hrank Hrounds phases.
  induction phases as [|phase rest IH]; intros j o Hj.
  - cbn [auto_phases phases_loop]. unfold mbind at 1, ret at 1.
    destruct (t_moderator template_) as [moderator|].
    + unfold mbind at 1.
      destruct (round_summary run_id_ pos (re_moderator (envs i)) o) as [[[]|e] o1] eqn:E.
      * destruct (Hrounds o1) as [fuel Hf]. exists (S fuel).
        unfold ret. cbn [drive_auto resume]. rewrite Hrank.
        unfold mbind at 1. rewrite E. exact Hf.
      * exists 1. unfold ret. cbn [drive_auto resume]. rewrite Hrank.
        unfold mbind at 1. rewrite E. reflexivity.
    + destruct (Hrounds o) as [fuel Hf]. exists fuel. exact Hf.
  - rewrite auto_phases_cons, phases_loop_cons. cbv zeta.
    apply drive_collect. cbv zeta.
    replace (phase_rank template_ rest) with j
      by (unfold phase_rank; cbn [length] in Hj; lia).
    rewrite Hrank.
    set (outs := outputs_in _ _ _).
    set (o' := fold_left _ outs o).
    destruct (round_votes run_id_ pos phase outs o') as [[[]|e] o1] eqn:E.
    + rewrite !(mbind_ok _ _ _ _ _ E). apply IH. cbn [length] in Hj. lia.
    + rewrite !(mbind_raise _ _ _ _ _ E). exists 0. reflexivity.
Qed.

Lemma drive_rounds :
  forall todo i o,
    i + todo = total ->
    exists fuel,
      drive_auto envs total fuel (auto_rounds run_id_ run todo o)
      = auto_returned (finish_rounds envs run_id_ run i todo o).
Proof.
  induction todo as [|todo IH]; intros i o Hi.
  - exists 0. cbn [drive_auto auto_rounds].
    unfold finish_rounds, auto_end, mbind, ret. cbn [rounds_loop]. unfold ret.
    destruct (_finalize run_id_ o) as [[[]|e] o1]; reflexivity.
  - cbn [auto_rounds]. unfold finish_rounds. cbn [rounds_loop]. unfold _execute_round.
    rewrite !mbind_assoc.
    destruct (round_prologue run_id_ o)
      as [[[[[[template_ round_index] pos] round_run]|]|e] o1] eqn:E.
    + rewrite !(mbind_ok _ _ _ _ _ E). rewrite !mbind_assoc.
      apply (drive_phases todo i template_ round_index pos round_run);
        [unfold round_rank; lia | intros o2; apply IH; lia | reflexivity].
    + rewrite !(mbind_ok _ _ _ _ _ E). apply (IH (S i)). lia.
    + rewrite !(mbind_raise _ _ _ _ _ E). exists 0. reflexivity.
Qed.

End AutoAgreement.

(** More fuel does not change where the task ends. *)
Lemma drive_auto_over envs total fuel res :
  over res -> drive_auto envs total fuel res = res.
Proof.
  destruct fuel as [|fuel]; [reflexivity|].
  destruct res as [[[f|response|final_copy]|e] o]; cbn [over drive_auto];
    intros H; solve [reflexivity | contradiction].
Qed.

Lemma drive_auto_more envs total extra :
  forall fuel res,
    over (drive_auto envs total fuel res) ->
    drive_auto envs total (extra + fuel) res = drive_auto envs total fuel res.
Proof.
  induction fuel as [|fuel IH]; intros res H.
  - apply drive_auto_over. exact H.
  - rewrite Nat.add_succ_r. cbn [drive_auto] in H |- *.
    destruct res as [[[f|response|final_copy]|e] o]; try reflexivity.
    destruct f; try reflexivity.
    + apply IH. exact H.
    + cbn [resume] in H |- *. apply IH. exact H.
Qed.

Lemma auto_returned_over res : over (auto_returned res).
Proof. destruct res as [[final_copy|e] o]; exact I. Qed.

(** The background task of an auto run, resumed in the environments of
    its rounds with no other coroutine in between, comes to its end: it
    returns what [_run_to_completion] returns and leaves the state it
    leaves. *)
Theorem run_to_completion_coroutine_agrees envs run_id_ o :
  exists fuel,
    forall fuel', fuel <= fuel' ->
      drive_auto envs (rounds_planned run_id_ o) fuel' (auto_begin run_id_ o)
      = auto_returned (_run_to_completion envs run_id_ o).
Proof.
  assert (H : exists fuel,
             drive_auto envs (rounds_planned run_id_ o) fuel (auto_begin run_id_ o)
             = auto_returned (_run_to_completion envs run_id_ o)).
  { unfold rounds_planned, auto_begin, _run_to_completion.
    destruct (_context o !! run_id_) as [ctx|]; [|exists 0; reflexivity].
    destruct (store_runs o !! run_id_) as [run|]; [|exists 0; reflexivity].
    apply (drive_rounds envs (Z.to_nat (total_rounds ctx)) run_id_ run
             (Z.to_nat (total_rounds ctx)) 0 o).
    reflexivity. }
  destruct H as [fuel H]. exists fuel. intros fuel' Hle.
  replace fuel' with ((fuel' - fuel) + fuel) by lia.
  rewrite drive_auto_more; [exact H|].
  rewrite H. apply auto_returned_over.
Qed.

(** ** More facts: the tally and the order of completion *)

Lemma blank_outputs_perm (outputs outputs' : list PhaseOutput) :
  outputs ≡ₚ outputs' ->
  existsb (fun o => blank (po_output o)) outputs
  = existsb (fun o => blank (po_output o)) outputs'.
Proof.
  induction 1 as [|x l l' _ IH|x y l|l l' l'' _ IH1 _ IH2]; simpl.
  - reflexivity.
  - rewrite IH. reflexivity.
  - destruct (blank (po_output x)), (blank (po_output y)); reflexivity.
  - congruence.
Qed.

Lemma count_votes_perm (v : VoteValue.t) (outputs outputs' : list PhaseOutput) :
  outputs ≡ₚ outputs' -> count_votes v outputs = count_votes v outputs'.
Proof.
  induction 1 as [|x l l' _ IH|x y l|l l' l'' _ IH1 _ IH2].
  - reflexivity.
  - rewrite !count_votes_cons, IH. reflexivity.
  - rewrite !count_votes_cons. lia.
  - congruence.
Qed.

Lemma tally_votes_ok (outputs : list PhaseOutput) :
  existsb (fun o => blank (po_output o)) outputs = false ->
  _tally_votes outputs
  = Ok (List.map vote_result outputs,
        let yes := count_votes VoteValue.yes outputs in
        let no := count_votes VoteValue.no outputs in
        if (no <? yes)%Z then RoundOutcome.yes
        else if (yes <? no)%Z then RoundOutcome.no
        else if (yes =? no)%Z && (0 <? yes)%Z then RoundOutcome.tie
        else RoundOutcome.invalid).
Proof.
  intros H. unfold _tally_votes. rewrite (tally_loop_ok _ _ _ _ H).
  rewrite !Z.add_0_l. reflexivity.
Qed.

Lemma tally_votes_blank (outputs : list PhaseOutput) :
  existsb (fun o => blank (po_output o)) outputs = true ->
  _tally_votes outputs = Raise IndexError.
Proof.
  intros H. unfold _tally_votes. rewrite (tally_loop_blank _ _ _ _ H). reflexivity.
Qed.

Lemma tally_votes_perm (outputs outputs' : list PhaseOutput) :
  outputs ≡ₚ outputs' -> same_tally (_tally_votes outputs) (_tally_votes outputs').
Proof.
  intros Hp. pose proof (blank_outputs_perm _ _ Hp) as Hb.
  destruct (existsb _ outputs) eqn:E; symmetry in Hb.
  - rewrite (tally_votes_blank _ E), (tally_votes_blank _ Hb). reflexivity.
  - rewrite (tally_votes_ok _ E), (tally_votes_ok _ Hb). cbv zeta. split.
    + apply Permutation_map, Hp.
    + rewrite (count_votes_perm VoteValue.yes _ _ Hp), (count_votes_perm VoteValue.no _ _ Hp).
      reflexivity.
Qed.

(** X1: the outcome of a vote does not depend on the order in which the
    calls of the participants complete.  Run in the same state with the
    same replies and another order of completion, a phase returns the same
    outputs in another order, and their tallies agree: both raise the same
    exception, or they hold the same vote records up to order and the same
    outcome. *)
Theorem vote_outcome_ignores_completion_order
        (env : PhaseEnv) (order : list nat) (template_ : DebateTemplate) (phase : PhaseSpec)
        (run_id_ : list N) (run : DebateRun) (round_index : Z) (pos : nat) (o : Orch) :
  exists outputs outputs' o1 o1',
    _execute_phase env template_ phase run_id_ run round_index pos o = (Ok outputs, o1)
    /\ _execute_phase (reordered order env) template_ phase run_id_ run round_index pos o
       = (Ok outputs', o1')
    /\ outputs ≡ₚ outputs'
    /\ same_tally (_tally_votes outputs) (_tally_votes outputs').
Proof.
  rewrite !execute_phase_eq. cbv zeta. eexists _, _, _, _.
  split; [reflexivity|]. split; [reflexivity|].
  assert (forall order',
             as_completed order'
               (imap (contribution env template_ phase run round_index)
                  (t_participants template_))
               (length (t_participants template_))
             ≡ₚ imap (contribution env template_ phase run round_index)
                  (t_participants template_)) as Hperm
      by (intros order'; apply as_completed_perm; rewrite length_imap; lia).
  assert (as_completed (pe_order env)
            (imap (contribution env template_ phase run round_index)
               (t_participants template_))
            (length (t_participants template_))
          ≡ₚ as_completed (pe_order (reordered order env))
               (imap (contribution (reordered order env) template_ phase run round_index)
                  (t_participants template_))
               (length (t_participants template_))) as H.
  { change (contribution (reordered order env)) with (contribution env).
    rewrite !Hperm. reflexivity. }
  split; [exact H|]. apply tally_votes_perm, H.
Qed.

Lemma valid_votes_counted (outputs : list PhaseOutput) :
  Forall (fun o => _parse_vote (po_output o) = Ok VoteValue.yes
                   \/ _parse_vote (po_output o) = Ok VoteValue.no) outputs ->
  existsb (fun o => blank (po_output o)) outputs = false
  /\ (count_votes VoteValue.yes outputs + count_votes VoteValue.no outputs)%Z
     = Z.of_nat (length outputs).
Proof.
  induction 1 as [|x l Hx _ [IHb IHc]]; [split; reflexivity|].
  assert (blank (po_output x) = false) as Hb.
  { destruct (blank (po_output x)) eqn:E; [|reflexivity].
    rewrite (parse_vote_blank _ E) in Hx. destruct Hx; discriminate. }
  split; [simpl; rewrite Hb, IHb; reflexivity|].
  rewrite !count_votes_cons. unfold vote_of.
  destruct Hx as [-> | ->]; simpl; rewrite Nat2Z.inj_succ; lia.
Qed.

(** X2: an odd number of valid votes decides.  When every output of a vote
    phase parses as YES or NO and their number is odd (the rosters have 3,
    5 or 7 participants), the tally returns, and its outcome is YES or NO:
    never TIE, never INVALID. *)
Theorem odd_valid_votes_decide (outputs : list PhaseOutput) :
  Forall (fun o => _parse_vote (po_output o) = Ok VoteValue.yes
                   \/ _parse_vote (po_output o) = Ok VoteValue.no) outputs ->
  Nat.odd (length outputs) = true ->
  exists votes outcome,
    _tally_votes outputs = Ok (votes, outcome)
    /\ length votes = length outputs
    /\ (outcome = RoundOutcome.yes \/ outcome = RoundOutcome.no).
Proof.
  intros Hvalid Hodd. destruct (valid_votes_counted _ Hvalid) as [Hb Hc].
  rewrite (tally_votes_ok _ Hb). cbv zeta. eexists _, _.
  split; [reflexivity|]. split; [apply length_map|].
  apply Nat.odd_spec in Hodd. destruct Hodd as [m Hm].
  destruct (_ <? _)%Z eqn:E1; [auto|].
  destruct (count_votes VoteValue.yes outputs <? _)%Z eqn:E2; [auto|].
  apply Z.ltb_ge in E1, E2. exfalso. lia.
Qed.

Lemma error_marker_not_blank (msg : list N) : blank (run_one (Failed msg)) = false.
Proof. reflexivity. Qed.

Lemma vote_of_error_marker (msg : list N) : vote_of (run_one (Failed msg)) = VoteValue.invalid.
Proof. unfold vote_of. rewrite parse_vote_error_marker. reflexivity. Qed.

(** X3: a participant whose call failed counts toward neither side.  The
    output recorded for a failed call, the text [(error: msg)], parses as
    INVALID whatever the message is, and taking it out of the outputs of a
    vote phase, wherever it stands, leaves the tally's result the same: the
    same outcome, or the same exception. *)
Theorem failed_call_counts_for_neither_side
        (phase : PhaseSpec) (p : Participant) (msg : list N)
        (before after_ : list PhaseOutput) :
  let po := phase_output phase p (Failed msg) in
  _parse_vote (po_output po) = Ok VoteValue.invalid
  /\ outcome_of (_tally_votes (before ++ po :: after_))
     = outcome_of (_tally_votes (before ++ after_))
  /\ (forall votes outcome,
         _tally_votes (before ++ po :: after_) = Ok (votes, outcome) ->
         votes = List.map vote_result before
                   ++ {| vr_participant_id := p_id p;
                         vr_raw_output := py "(error: " ++ msg ++ py ")";
                         vr_parsed_vote := VoteValue.invalid |}
                   :: List.map vote_result after_).
Proof.
  cbv zeta. split; [apply parse_vote_error_marker|].
  set (po := phase_output phase p (Failed msg)).
  assert (existsb (fun o => blank (po_output o)) (before ++ po :: after_)
          = existsb (fun o => blank (po_output o)) (before ++ after_)) as Hb.
  { rewrite !existsb_app. simpl. reflexivity. }
  assert (forall v, v <> VoteValue.invalid ->
            count_votes v (before ++ po :: after_) = count_votes v (before ++ after_)) as Hc.
  { intros v Hv.
    rewrite (count_votes_perm v (before ++ po :: after_) (po :: before ++ after_))
      by (symmetry; apply Permutation_middle).
    rewrite count_votes_cons.
    change (po_output po) with (run_one (Failed msg)). rewrite vote_of_error_marker.
    destruct v; simpl; try congruence; lia. }
  destruct (existsb _ (before ++ after_)) eqn:E.
  - rewrite (tally_votes_blank _ E), (tally_votes_blank _ Hb). split; [reflexivity|].
    discriminate.
  - rewrite (tally_votes_ok _ E), (tally_votes_ok _ Hb). cbv zeta.
    rewrite !Hc by discriminate. split; [reflexivity|].
    intros votes outcome H. injection H as <- _.
    rewrite map_app. cbn [List.map]. f_equal. f_equal.
    unfold vote_result. change (po_output po) with (run_one (Failed msg)).
    rewrite vote_of_error_marker. reflexivity.
Qed.

(** ** More facts: what every method of the engine respects *)

Section Respects.

Variable run_id_ : list N.
Variable R : Orch -> Orch -> Prop.
Hypothesis HR : admits run_id_ R.

Lemma respects_ret {A : Type} (a : A) : respects R (ret a).
Proof. intros o r o' H. inversion H. apply (admits_refl _ _ HR). Qed.

Lemma respects_raise {A : Type} (e : exn) : respects R (@raise A e).
Proof. intros o r o' H. inversion H. apply (admits_refl _ _ HR). Qed.

Lemma respects_lift {A : Type} (x : result A) : respects R (lift x).
Proof. intros o r o' H. inversion H. apply (admits_refl _ _ HR). Qed.

Lemma respects_modify (f : Orch -> Orch) :
  (forall o, R o (f o)) -> respects R (modify f).
Proof. intros Hf o r o' H. inversion H. apply Hf. Qed.

Lemma respects_bind {A B : Type} (m : M A) (k : A -> M B) :
  respects R m -> (forall a, respects R (k a)) -> respects R (mbind m k).
Proof.
  intros Hm Hk o r o' H. unfold mbind in H.
  destruct (m o) as [[a|e] o1] eqn:Em.
  - eapply (admits_trans _ _ HR); [apply (Hm _ _ _ Em)|apply (Hk a _ _ _ H)].
  - inversion H; subst. apply (Hm _ _ _ Em).
Qed.

Lemma respects_finalize : respects R (_finalize run_id_).
Proof. intros o r o' H. exact (admits_finalize _ _ HR _ _ _ H). Qed.

Create HintDb respects.

#[local] Hint Resolve respects_finalize : respects.

Ltac resp_tac :=
  repeat first
    [ solve [eauto with respects]
    | apply respects_ret | apply respects_raise | apply respects_lift
    | apply respects_bind
    | apply respects_modify; intros;
      first [ apply (admits_round _ _ HR); constructor | apply (admits_cursor _ _ HR) ]
    | progress intros
    | match goal with
      | |- respects _ (if ?b then _ else _) => destruct b
      | |- respects _ (match ?x with _ => _ end) => destruct x
      end ].

Ltac by_resp H :=
  match type of H with
  | ?m _ = (_, _) =>
      let Hs := fresh "Hs" in
      assert (respects R m) as Hs by resp_tac;
      exact (Hs _ _ _ H)
  end.

Ltac quiet H := inversion H; apply (admits_refl _ _ HR).

Lemma respects_step_prologue : respects R (step_prologue run_id_).
Proof.
  intros o r o' H. unfold step_prologue in H.
  destruct (_context o !! run_id_) as [ctx|] eqn:Ec; [|quiet H].
  destruct (store_runs o !! run_id_) as [run|] eqn:Er; [|quiet H].
  destruct (_progress o !! run_id_) as [[round_idx phase_idx]|]; [|quiet H].
  destruct (total_rounds ctx <=? round_idx)%Z; [by_resp H|].
  eapply (admits_trans _ _ HR); [|by_resp H].
  destruct (_ <=? _)%Z;
    [apply (admits_open _ _ HR _ _ _ Er)|apply (admits_same _ _ HR _ _ Er)].
Qed.

Lemma respects_round_prologue : respects R (round_prologue run_id_).
Proof.
  intros o r o' H. unfold round_prologue in H.
  destruct (_context o !! run_id_) as [ctx|] eqn:Ec; [|quiet H].
  destruct (store_runs o !! run_id_) as [run|] eqn:Er; [|quiet H].
  eapply (admits_trans _ _ HR); [|by_resp H].
  destruct (_ <? _)%Z;
    [apply (admits_open _ _ HR _ _ _ Er)|apply (admits_same _ _ HR _ _ Er)].
Qed.

Lemma respects_step_votes (round_idx : Z) (phase : PhaseSpec) (outputs : list PhaseOutput) :
  respects R (step_votes run_id_ round_idx phase outputs).
Proof.
  unfold step_votes. destruct (PhaseRole.eqb _ _); [|apply respects_ret].
  apply respects_bind; [apply respects_lift|]. intros [votes outcome] o r o' H.
  destruct (store_runs o !! run_id_) as [run|]; [by_resp H|quiet H].
Qed.

Lemma respects_step_summary (round_idx : Z) (r : reply) :
  respects R (step_summary run_id_ round_idx r).
Proof.
  unfold step_summary. apply respects_bind; [apply respects_lift|].
  intros summary o r' o' H.
  destruct (store_runs o !! run_id_) as [run|]; [by_resp H|quiet H].
Qed.

Lemma respects_step_round (round_idx : Z) : respects R (step_round run_id_ round_idx).
Proof.
  intros o r o' H. unfold step_round in H.
  destruct (store_runs o !! run_id_) as [run|]; [by_resp H|quiet H].
Qed.

Lemma respects_step_finish (ctx : RunContext) (round_idx phase_idx : Z) :
  respects R (step_finish run_id_ ctx round_idx phase_idx).
Proof. unfold step_finish. resp_tac. Qed.

Lemma respects_respond (run : DebateRun) : respects R (respond run_id_ run).
Proof. intros o r o' H. quiet H. Qed.

Lemma respects_round_votes (pos : nat) (phase : PhaseSpec) (outputs : list PhaseOutput) :
  respects R (round_votes run_id_ pos phase outputs).
Proof. unfold round_votes. resp_tac. Qed.

Lemma respects_round_summary (pos : nat) (r : reply) :
  respects R (round_summary run_id_ pos r).
Proof. unfold round_summary. resp_tac. Qed.

#[local] Hint Resolve respects_step_prologue respects_round_prologue respects_step_votes
  respects_step_round respects_step_summary respects_step_finish respects_respond
  respects_round_votes respects_round_summary : respects.

Lemma record_outputs_related (pos : nat) (outputs : list PhaseOutput) :
  forall o, R o (fold_left (fun o' po => record_output run_id_ pos po o') outputs o).
Proof.
  induction outputs as [|po outputs IH]; intros o; simpl; [apply (admits_refl _ _ HR)|].
  eapply (admits_trans _ _ HR); [|apply IH].
  apply (admits_round _ _ HR). constructor.
Qed.

Lemma respects_execute_phase (env : PhaseEnv) (template_ : DebateTemplate) (phase : PhaseSpec)
      (run : DebateRun) (round_index : Z) (pos : nat) :
  respects R (_execute_phase env template_ phase run_id_ run round_index pos).
Proof.
  intros o r o' H. unfold _execute_phase in H. inversion H; subst.
  apply record_outputs_related.
Qed.

#[local] Hint Resolve respects_execute_phase : respects.

Lemma respects_execute_phase_step (env : PhaseEnv) (moderator_reply : reply) :
  respects R (_execute_phase_step env moderator_reply run_id_).
Proof.
  unfold _execute_phase_step. apply respects_bind; [apply respects_step_prologue|].
  intros [[[[[[ctx round_idx] phase_idx] phase] pos] run]|]; resp_tac.
Qed.

#[local] Hint Resolve respects_execute_phase_step : respects.

Lemma respects_advance_debate (env : PhaseEnv) (moderator_reply : reply) :
  respects R (advance_debate env moderator_reply run_id_).
Proof.
  intros o r o' H. unfold advance_debate in H.
  destruct (_context o !! run_id_) as [ctx|]; [|quiet H].
  destruct (store_runs o !! run_id_) as [run|]; [|quiet H].
  destruct (negb _); [quiet H|].
  destruct (RunStatus.terminal _); [quiet H|].
  by_resp H.
Qed.

Lemma respects_phases_loop (env : RoundEnv) (template_ : DebateTemplate)
      (run : DebateRun) (round_index : Z) (pos : nat) (phases : list PhaseSpec) :
  forall i, respects R (phases_loop env template_ run_id_ run round_index pos i phases).
Proof.
  induction phases as [|phase rest IH]; intros i; simpl; [apply respects_ret|].
  intros o r o' H. revert H.
  generalize (current run_id_ run o). intros run' H.
  assert (respects R
            (do outputs <- _execute_phase (re_phase env i) template_ phase run_id_ run'
                             round_index pos;
             do _ <- round_votes run_id_ pos phase outputs;
             phases_loop env template_ run_id_ run round_index pos (S i) rest)) as Hs
      by resp_tac.
  exact (Hs _ _ _ H).
Qed.

#[local] Hint Resolve respects_phases_loop : respects.

Lemma respects_execute_round (env : RoundEnv) : respects R (_execute_round env run_id_).
Proof.
  unfold _execute_round. apply respects_bind; [apply respects_round_prologue|].
  intros [[[[template_ round_index] pos] run]|]; resp_tac.
Qed.

#[local] Hint Resolve respects_execute_round : respects.

Lemma respects_rounds_loop (envs : nat -> RoundEnv) (todo : nat) :
  forall i, respects R (rounds_loop envs run_id_ i todo).
Proof. induction todo as [|todo IH]; intros i; simpl; resp_tac. Qed.

#[local] Hint Resolve respects_rounds_loop : respects.

Lemma respects_run_to_completion (envs : nat -> RoundEnv) :
  respects R (_run_to_completion envs run_id_).
Proof.
  intros o r o' H. unfold _run_to_completion in H.
  destruct (_context o !! run_id_) as [ctx|]; [|quiet H].
  destruct (store_runs o !! run_id_) as [run|]; [|quiet H].
  match type of H with
  | ?m _ = _ => assert (respects R m) as Hs
  end.
  { apply respects_bind; [apply respects_rounds_loop|]. intros _.
    apply respects_bind; [apply respects_finalize|]. intros _ o1 r1 o1' H1.
    quiet H1. }
  exact (Hs _ _ _ H).
Qed.

(** The coroutines. *)

Lemma respects_advance_end (run : DebateRun) (ctx : RunContext) (round_idx phase_idx : Z) :
  respects R (advance_end run_id_ run ctx round_idx phase_idx).
Proof. unfold advance_end. resp_tac. Qed.

#[local] Hint Resolve respects_advance_end : respects.

Lemma respects_advance_after_phase (run : DebateRun) (ctx : RunContext)
      (round_idx phase_idx : Z) (phase : PhaseSpec) (outputs : list PhaseOutput) :
  respects R (advance_after_phase run_id_ run ctx round_idx phase_idx phase outputs).
Proof. unfold advance_after_phase. resp_tac. Qed.

#[local] Hint Resolve respects_advance_after_phase : respects.

Lemma respects_advance_collect (run : DebateRun) (ctx : RunContext)
      (round_idx phase_idx : Z) (phase : PhaseSpec) (pos : nat)
      (pending : list (Participant * list Message)) (outputs : list PhaseOutput) :
  respects R (advance_collect run_id_ run ctx round_idx phase_idx phase pos pending outputs).
Proof. unfold advance_collect. resp_tac. Qed.

#[local] Hint Resolve respects_advance_collect : respects.

Lemma respects_advance_begin : respects R (advance_begin run_id_).
Proof.
  intros o r o' H. unfold advance_begin in H.
  destruct (_context o !! run_id_) as [ctx|]; [|quiet H].
  destruct (store_runs o !! run_id_) as [run|]; [|quiet H].
  destruct (negb _); [quiet H|].
  destruct (RunStatus.terminal _); [quiet H|].
  match type of H with
  | ?m _ = _ => assert (respects R m) as Hs
  end.
  { apply respects_bind; [apply respects_step_prologue|].
    intros [[[[[[ctx' round_idx] phase_idx] phase] pos] run1]|]; resp_tac. }
  exact (Hs _ _ _ H).
Qed.

Lemma respects_auto_end (run : DebateRun) : respects R (auto_end run_id_ run).
Proof.
  unfold auto_end. apply respects_bind; [apply respects_finalize|].
  intros _ o r o' H. quiet H.
Qed.

#[local] Hint Resolve respects_auto_end : respects.

Lemma respects_auto_phases (k : M outcome) (run : DebateRun) (todo : nat)
      (template_ : DebateTemplate) (round_index : Z) (pos : nat) (round_run : DebateRun)
      (phases : list PhaseSpec) :
  respects R k ->
  respects R (auto_phases k run_id_ run todo template_ round_index pos round_run phases).
Proof.
  intros Hk. induction phases as [|phase rest IH]; simpl.
  - destruct (t_moderator template_); [apply respects_ret|exact Hk].
  - intros o r o' H.
    destruct (dispatch template_ phase (current run_id_ round_run o) round_index).
    + revert H. apply respects_bind; [apply respects_round_votes|]. intros _. exact IH.
    + quiet H.
Qed.

Lemma respects_auto_rounds (run : DebateRun) (todo : nat) :
  respects R (auto_rounds run_id_ run todo).
Proof.
  induction todo as [|todo IH]; simpl; [apply respects_auto_end|].
  apply respects_bind; [apply respects_round_prologue|].
  intros [[[[template_ round_index] pos] round_run]|]; [|exact IH].
  apply respects_auto_phases. exact IH.
Qed.

#[local] Hint Resolve respects_auto_rounds respects_auto_phases : respects.

Lemma respects_auto_begin : respects R (auto_begin run_id_).
Proof.
  intros o r o' H. unfold auto_begin in H.
  destruct (_context o !! run_id_) as [ctx|]; [|quiet H].
  destruct (store_runs o !! run_id_) as [run|]; [|quiet H].
  exact (respects_auto_rounds _ _ _ _ _ H).
Qed.

Lemma respects_auto_collect (run : DebateRun) (todo : nat)
      (template_ : DebateTemplate) (round_index : Z) (pos : nat) (round_run : DebateRun)
      (phase : PhaseSpec) (rest : list PhaseSpec)
      (pending : list (Participant * list Message)) (outputs : list PhaseOutput) :
  respects R (auto_collect run_id_ run todo template_ round_index pos round_run phase rest
                pending outputs).
Proof. unfold auto_collect. resp_tac. Qed.

#[local] Hint Resolve respects_auto_begin respects_auto_collect respects_advance_begin
  : respects.

Lemma respects_resume (i : input) (f : frame) (m : M outcome) :
  frame_run f = run_id_ -> resume i f = Some m -> respects R m.
Proof.
  intros Hf H. destruct f; simpl in Hf; subst; destruct i; simpl in H; try discriminate.
  - destruct (pending !! k) as [[participant messages]|]; [|discriminate].
    inversion H; subst. resp_tac.
  - inversion H; subst. resp_tac.
  - inversion H; subst. resp_tac.
  - destruct (pending !! k) as [[participant messages]|]; [|discriminate].
    inversion H; subst. resp_tac.
  - inversion H; subst. resp_tac.
Qed.

End Respects.

(** A relation that admits the steps on every run, a start under a new
    id, a cancel and the requests on templates holds along every trace of
    the engine. *)
Section Events.

Variable R : Orch -> Orch -> Prop.
Hypothesis HR : forall rid, admits rid R.
Hypothesis R_start :
  forall payload new_id o,
    store_runs o !! new_id = None -> R o (start_debate payload new_id o).2.
Hypothesis R_cancel : forall rid o, R o (cancel rid o).2.
Hypothesis R_templates : forall f o, R o (set_templates f o).

Lemma related_handle (ev : event) (c c' : Config) :
  handle ev c = Some c' -> R (orch c) (orch c').
Proof.
  destruct ev as [payload new_id|run_id_|run_id_|i inp|template_|template_id];
    simpl; intros H.
  - destruct (store_runs (orch c) !! new_id) eqn:Enew; [discriminate|].
    pose proof (R_start payload new_id _ Enew) as Hs.
    destruct (start_debate payload new_id (orch c)) as [r o']. inversion H; subst. exact Hs.
  - inversion H; subst; clear H. rewrite orch_settle.
    destruct (advance_begin run_id_ (orch c)) as [r o'] eqn:E.
    exact (respects_advance_begin run_id_ R (HR run_id_) _ _ _ E).
  - inversion H; subst; clear H. apply R_cancel.
  - destruct (suspended c !! i) as [f|]; [|discriminate].
    destruct (resume inp f) as [m|] eqn:Em; [|discriminate].
    inversion H; subst; clear H. rewrite orch_settle.
    destruct (m (orch c)) as [r o'] eqn:E.
    exact (respects_resume (frame_run f) R (HR _) inp f m eq_refl Em _ _ _ E).
  - inversion H; subst; clear H. simpl.
    destruct (template_valid template_); [apply R_templates|apply (admits_refl _ _ (HR []))].
  - inversion H; subst; clear H. apply R_templates.
Qed.

Lemma related_handle_all (evs : list event) :
  forall c c', handle_all evs c = Some c' -> R (orch c) (orch c').
Proof.
  induction evs as [|ev evs IH]; intros c c' H; simpl in H.
  - inversion H; subst. apply (admits_refl _ _ (HR [])).
  - destruct (handle ev c) as [c1|] eqn:E; [|discriminate].
    eapply (admits_trans _ _ (HR [])); [exact (related_handle _ _ _ E)|exact (IH _ _ H)].
Qed.

End Events.

(** ** More facts: runs go on *)

Lemma round_goes_on_refl (r : RoundResult) : round_goes_on r r.
Proof. split; reflexivity. Qed.

Lemma round_goes_on_trans (r1 r2 r3 : RoundResult) :
  round_goes_on r1 r2 -> round_goes_on r2 r3 -> round_goes_on r1 r3.
Proof. intros [A1 A2] [B1 B2]. split; [congruence|etrans; eassumption]. Qed.

Lemma round_update_goes_on (f : RoundResult -> RoundResult) (r : RoundResult) :
  round_update f -> round_goes_on r (f r).
Proof.
  intros [po|votes outcome|summary]; split; simpl; try reflexivity.
  apply prefix_app_r. reflexivity.
Qed.

Lemma rounds_go_on_refl (rounds : list RoundResult) : Forall2 round_goes_on rounds rounds.
Proof. induction rounds; constructor; [apply round_goes_on_refl|assumption]. Qed.

Lemma run_goes_on_refl (run : DebateRun) : run_goes_on run run.
Proof.
  split; try reflexivity. exists (run_rounds run), [].
  split; [rewrite app_nil_r; reflexivity|apply rounds_go_on_refl].
Qed.

Lemma run_goes_on_trans (run1 run2 run3 : DebateRun) :
  run_goes_on run1 run2 -> run_goes_on run2 run3 -> run_goes_on run1 run3.
Proof.
  intros [A1 A2 A3 A4 A5 (k1 & a1 & E1 & F1)] [B1 B2 B3 B4 B5 (k2 & a2 & E2 & F2)].
  split; try congruence.
  rewrite E1 in F2. apply Forall2_app_inv_l in F2. destruct F2 as (k & a & Fk & Fa & ->).
  exists k, (a ++ a2). split; [rewrite E2, app_assoc; reflexivity|].
  eapply Forall2_trans; [|exact F1|exact Fk]. apply round_goes_on_trans.
Qed.

Lemma run_goes_on_status (s : RunStatus.t) (run : DebateRun) :
  run_goes_on run (with_status s run).
Proof.
  split; try reflexivity. simpl. exists (run_rounds run), [].
  split; [rewrite app_nil_r; reflexivity|apply rounds_go_on_refl].
Qed.

Lemma run_goes_on_round (pos : nat) (f : RoundResult -> RoundResult) (run : DebateRun) :
  round_update f -> run_goes_on run (with_rounds (alter f pos) run).
Proof.
  intros Hf. split; try reflexivity. simpl.
  exists (alter f pos (run_rounds run)), []. split; [rewrite app_nil_r; reflexivity|].
  apply Forall2_alter_r; [apply rounds_go_on_refl|].
  intros x y Hx Hy Hxy. eapply round_goes_on_trans; [exact Hxy|].
  apply round_update_goes_on, Hf.
Qed.

Lemma run_goes_on_open (n : Z) (run : DebateRun) :
  run_goes_on run (with_rounds (fun rs => rs ++ [new_round n]) run).
Proof.
  split; try reflexivity. simpl. exists (run_rounds run), [new_round n].
  split; [reflexivity|apply rounds_go_on_refl].
Qed.

Lemma evolves_refl (o : Orch) : evolves o o.
Proof.
  split; [|reflexivity]. intros rid run H. exists run. split; [exact H|apply run_goes_on_refl].
Qed.

Lemma evolves_trans (o1 o2 o3 : Orch) : evolves o1 o2 -> evolves o2 o3 -> evolves o1 o3.
Proof.
  intros [A1 A2] [B1 B2]. split; [|etrans; eassumption].
  intros rid run H. destruct (A1 _ _ H) as (run2 & H2 & G2).
  destruct (B1 _ _ H2) as (run3 & H3 & G3). exists run3.
  split; [exact H3|eapply run_goes_on_trans; eassumption].
Qed.

(** The entry of one run altered or stored again, the rest untouched. *)
Lemma evolves_alter (rid : list N) (g : DebateRun -> DebateRun) (o : Orch) :
  (forall run, run_goes_on run (g run)) -> evolves o (set_runs (alter g rid) o).
Proof.
  intros Hg. split; [|reflexivity]. intros rid' run H. simpl.
  destruct (decide (rid = rid')) as [->|Hne].
  - rewrite lookup_alter_eq, H. simpl. eauto.
  - rewrite lookup_alter_ne by exact Hne. exists run. split; [exact H|apply run_goes_on_refl].
Qed.

Lemma evolves_insert (rid : list N) (run run1 : DebateRun) (o : Orch) :
  store_runs o !! rid = Some run -> run_goes_on run run1 ->
  evolves o (set_runs (insert rid run1) o).
Proof.
  intros Hrun Hg. split; [|reflexivity]. intros rid' run' H. simpl.
  destruct (decide (rid = rid')) as [->|Hne].
  - rewrite lookup_insert_eq. rewrite Hrun in H. inversion H; subst. eauto.
  - rewrite lookup_insert_ne by exact Hne. exists run'.
    split; [exact H|apply run_goes_on_refl].
Qed.

(** States that differ in the cursors and the contexts only. *)
Lemma evolves_same (o o' : Orch) :
  store_runs o' = store_runs o ->
  store_final_records o `prefix_of` store_final_records o' ->
  evolves o o'.
Proof.
  intros Hr Hf. split; [|exact Hf]. intros rid run H. rewrite Hr.
  exists run. split; [exact H|apply run_goes_on_refl].
Qed.

Lemma evolves_finalize (rid : list N) (o : Orch) (r : result unit) (o' : Orch) :
  _finalize rid o = (r, o') -> evolves o o'.
Proof.
  unfold _finalize. intros H.
  destruct (store_runs o !! rid) as [run|]; [|inversion H; apply evolves_refl].
  destruct (_context o !! rid) as [ctx|]; [|inversion H; apply evolves_refl].
  destruct (make_FinalRecord _ _ _) as [final|e]; inversion H; subst; clear H.
  - eapply evolves_trans; [apply (evolves_alter rid), run_goes_on_status|].
    apply evolves_same; [reflexivity|]. simpl. apply prefix_app_r. reflexivity.
  - apply (evolves_alter rid), run_goes_on_status.
Qed.

Lemma evolves_admitted (rid : list N) : admits rid evolves.
Proof.
  split.
  - apply evolves_refl.
  - apply evolves_trans.
  - apply evolves_finalize.
  - intros pos f o Hf. apply evolves_alter. intros run. apply run_goes_on_round, Hf.
  - intros run n o Hrun. eapply evolves_insert; [exact Hrun|apply run_goes_on_open].
  - intros run o Hrun. eapply evolves_insert; [exact Hrun|apply run_goes_on_refl].
  - intros cur o. apply evolves_same; reflexivity.
Qed.

Lemma evolves_start (payload : StartDebateRequest) (new_id : list N) (o : Orch) :
  store_runs o !! new_id = None -> evolves o (start_debate payload new_id o).2.
Proof.
  intros Hnew. unfold start_debate.
  destruct (store_templates o !! req_template_id payload) as [template_|];
    [|apply evolves_refl].
  simpl. split; [|reflexivity]. intros rid run H. simpl.
  assert (new_id <> rid) by congruence.
  rewrite lookup_insert_ne by assumption. exists run.
  split; [exact H|apply run_goes_on_refl].
Qed.

Lemma evolves_cancel (rid : list N) (o : Orch) : evolves o (cancel rid o).2.
Proof.
  unfold cancel. destruct (store_runs o !! rid) as [run|]; [|apply evolves_refl].
  simpl. eapply evolves_trans; [apply (evolves_alter rid), run_goes_on_status|].
  apply evolves_same; reflexivity.
Qed.

Lemma evolves_templates (f : gmap (list N) DebateTemplate -> gmap (list N) DebateTemplate)
      (o : Orch) :
  evolves o (set_templates f o).
Proof. apply evolves_same; reflexivity. Qed.

Lemma evolves_handle_all (evs : list event) (c c' : Config) :
  handle_all evs c = Some c' -> evolves (orch c) (orch c').
Proof.
  apply (related_handle_all evolves evolves_admitted evolves_start evolves_cancel
           evolves_templates).
Qed.

(** X4: what identifies a run never changes, and a run is never taken out
    of the store.  Whatever happens after a run is stored (requests,
    cancels, coroutines going on, of this run or of others), the store
    still holds a run under its id, with the same id, template id, title,
    topic and mode. *)
Theorem run_identity_is_immutable
        (evs : list event) (c c' : Config) (rid : list N) (run : DebateRun) :
  handle_all evs c = Some c' ->
  store_runs (orch c) !! rid = Some run ->
  exists run',
    store_runs (orch c') !! rid = Some run'
    /\ run_id run' = run_id run
    /\ run_template_id run' = run_template_id run
    /\ run_title run' = run_title run
    /\ run_topic run' = run_topic run
    /\ run_mode run' = run_mode run.
Proof.
  intros H Hrun. destruct (evolves_handle_all _ _ _ H) as [Hruns _].
  destruct (Hruns _ _ Hrun) as (run' & Hrun' & [A1 A2 A3 A4 A5 _]).
  exists run'. auto 10.
Qed.

(** X5: the transcript of a run is append-only.  Whatever happens after a
    state, the rounds the run had are still there, at their positions and
    with their round numbers, and the outputs recorded in each of them are
    still there, in their order: later outputs come after them, later
    rounds after the rounds. *)
Theorem transcript_is_append_only
        (evs : list event) (c c' : Config) (rid : list N) (run : DebateRun) :
  handle_all evs c = Some c' ->
  store_runs (orch c) !! rid = Some run ->
  exists run',
    store_runs (orch c') !! rid = Some run'
    /\ length (run_rounds run) <= length (run_rounds run')
    /\ forall i r,
        run_rounds run !! i = Some r ->
        exists r',
          run_rounds run' !! i = Some r'
          /\ rr_round_index r' = rr_round_index r
          /\ rr_phase_outputs r `prefix_of` rr_phase_outputs r'.
Proof.
  intros H Hrun. destruct (evolves_handle_all _ _ _ H) as [Hruns _].
  destruct (Hruns _ _ Hrun) as (run' & Hrun' & [_ _ _ _ _ (kept & added & E & F)]).
  exists run'. split; [exact Hrun'|]. split.
  - rewrite E, length_app, (Forall2_length _ _ _ F). lia.
  - intros i r Hr. destruct (Forall2_lookup_l _ _ _ _ _ F Hr) as (r' & Hr' & [G1 G2]).
    exists r'. split; [|auto]. rewrite E. apply lookup_app_l_Some, Hr'.
Qed.

(** ** More facts: the store stays consistent *)

Lemma pystr_eqb_eq (a b : list N) : PyStr.eqb a b = true <-> a = b.
Proof.
  revert b. induction a as [|x a IH]; intros [|y b]; simpl; split; intros H;
    try reflexivity; try discriminate.
  - apply andb_true_iff in H. destruct H as [H1 H2].
    apply N.eqb_eq in H1. apply IH in H2. congruence.
  - inversion H; subst. rewrite N.eqb_refl. simpl. apply IH. reflexivity.
Qed.

(** The runs changed one for one, each keeping its id and its title, and
    its status unless it becomes completed or canceled; the rest the
    same. *)
Lemma consistent_runs_changed (o o' : Orch) :
  consistent o ->
  _context o' = _context o ->
  _progress o' = _progress o ->
  store_final_records o' = store_final_records o ->
  (forall rid run', store_runs o' !! rid = Some run' ->
                    exists run, store_runs o !! rid = Some run /\ run_id run' = run_id run) ->
  (forall rid run, store_runs o !! rid = Some run ->
                   exists run', store_runs o' !! rid = Some run'
                                /\ run_title run' = run_title run
                                /\ (run_status run' = run_status run
                                    \/ run_status run' = RunStatus.completed
                                    \/ run_status run' = RunStatus.canceled)) ->
  consistent o'.
Proof.
  intros [K C N1 F] Hc Hp Hf Hback Hforth. split.
  - intros rid run' H. destruct (Hback _ _ H) as (run & Hrun & Hid).
    rewrite Hid. apply (K _ _ Hrun).
  - intros rid. rewrite Hc, Hp. apply C.
  - rewrite Hf. exact N1.
  - intros f Hin. rewrite Hf in Hin. destruct (F _ Hin) as (run & Hrun & Ht & Hctx & Hs).
    destruct (Hforth _ _ Hrun) as (run' & Hrun' & Ht' & Hs').
    exists run'. split; [exact Hrun'|]. split; [congruence|]. split; [congruence|].
    destruct Hs' as [Hs'|[Hs'|Hs']]; [rewrite Hs'; exact Hs|auto|auto].
Qed.

Lemma consistent_alter (rid : list N) (g : DebateRun -> DebateRun) (o : Orch) :
  (forall run, run_id (g run) = run_id run /\ run_title (g run) = run_title run
               /\ (run_status (g run) = run_status run
                   \/ run_status (g run) = RunStatus.completed
                   \/ run_status (g run) = RunStatus.canceled)) ->
  consistent o -> consistent (set_runs (alter g rid) o).
Proof.
  intros Hg Ho. apply (consistent_runs_changed o); try reflexivity; [exact Ho| |];
    intros rid' run H; simpl in *.
  - destruct (decide (rid = rid')) as [->|Hne].
    + rewrite lookup_alter_eq in H. destruct (store_runs o !! rid') as [run0|]; [|discriminate].
      inversion H; subst. exists run0. split; [reflexivity|apply Hg].
    + rewrite lookup_alter_ne in H by exact Hne. eauto.
  - destruct (decide (rid = rid')) as [->|Hne].
    + rewrite lookup_alter_eq, H. simpl. exists (g run). split; [reflexivity|apply Hg].
    + rewrite lookup_alter_ne by exact Hne. eauto.
Qed.

Lemma consistent_insert (rid : list N) (run run1 : DebateRun) (o : Orch) :
  store_runs o !! rid = Some run ->
  run_id run1 = run_id run -> run_title run1 = run_title run ->
  run_status run1 = run_status run ->
  consistent o -> consistent (set_runs (insert rid run1) o).
Proof.
  intros Hrun Hid Ht Hs Ho. apply (consistent_runs_changed o); try reflexivity; [exact Ho| |];
    intros rid' run' H; simpl in *.
  - destruct (decide (rid = rid')) as [->|Hne].
    + rewrite lookup_insert_eq in H. inversion H; subst. eauto.
    + rewrite lookup_insert_ne in H by exact Hne. eauto.
  - destruct (decide (rid = rid')) as [->|Hne].
    + rewrite lookup_insert_eq. rewrite Hrun in H. inversion H; subst. eauto.
    + rewrite lookup_insert_ne by exact Hne. eauto.
Qed.

Lemma consistent_cursor (rid : list N) (cur : Z * Z) (o : Orch) :
  consistent o -> consistent (set_progress (insert rid cur) o).
Proof.
  intros [K C N1 F]. split; [exact K| |exact N1|exact F].
  intros rid' H. simpl in *. destruct (decide (rid = rid')) as [->|Hne].
  - rewrite lookup_insert_eq. eauto.
  - rewrite lookup_insert_ne by exact Hne. apply C, H.
Qed.

Ltac fields :=
  unfold keyed, cursor_present, closed in *;
  cbn [store_templates store_runs store_final_records _progress _context
       set_runs set_progress set_context set_templates record_final] in *.

Lemma consistent_finalize (rid : list N) (o : Orch) (r : result unit) (o' : Orch) :
  _finalize rid o = (r, o') -> consistent o -> consistent o'.
Proof.
  unfold _finalize. intros H Ho.
  destruct (store_runs o !! rid) as [run|] eqn:Er; [|inversion H; subst; exact Ho].
  destruct (_context o !! rid) as [ctx|] eqn:Ec; [|inversion H; subst; exact Ho].
  assert (consistent (set_runs (alter (with_status RunStatus.completed) rid) o)) as H1.
  { apply consistent_alter; [|exact Ho]. intros run0. simpl. auto. }
  assert (run_id run = rid) as Hid by (apply (runs_keyed _ Ho _ _ Er)).
  destruct (match List.last (List.map Some (run_rounds run)) None with
            | Some last => rr_outcome last
            | None => Some RoundOutcome.invalid
            end) as [outcome|]; cbn [make_FinalRecord] in H; inversion H; subst o' r;
    clear H; [|exact H1].
  destruct H1 as [K C N1 F]. split; fields.
  - exact K.
  - intros rid' H. destruct (decide (rid = rid')) as [->|Hne].
    + rewrite lookup_delete_eq in H. destruct H; discriminate.
    + rewrite lookup_delete_ne in H by exact Hne. rewrite lookup_delete_ne by exact Hne.
      apply C, H.
  - rewrite fmap_app. apply NoDup_app. split; [exact N1|]. split; [|apply NoDup_singleton].
    intros x Hx Hx'. apply list_elem_of_singleton in Hx'. simpl in Hx'. subst x.
    apply list_elem_of_fmap in Hx. destruct Hx as (f & Hf & Hin).
    destruct (F _ Hin) as (run0 & _ & _ & Hctx & _). fields.
    rewrite <- Hf, Hid, Ec in Hctx. discriminate.
  - intros f Hin. apply elem_of_app in Hin. destruct Hin as [Hin|Hin].
    + destruct (F _ Hin) as (run0 & Hrun0 & Ht & Hctx & Hs). fields.
      exists run0. split; [exact Hrun0|]. split; [exact Ht|]. split; [|exact Hs].
      destruct (decide (rid = fr_debate_id f)) as [->|Hne].
      * apply lookup_delete_eq.
      * rewrite lookup_delete_ne by exact Hne. exact Hctx.
    + apply list_elem_of_singleton in Hin. subst f.
      exists (with_status RunStatus.completed run). simpl. rewrite Hid.
      rewrite lookup_alter_eq, Er, lookup_delete_eq. simpl. auto.
Qed.

Lemma consistent_admitted (rid : list N) : admits rid keeps_consistent.
Proof.
  split; unfold keeps_consistent.
  - auto.
  - auto.
  - intros o r o' H. exact (consistent_finalize _ _ _ _ H).
  - intros pos f o Hf. apply consistent_alter. intros run. simpl. auto.
  - intros run n o Hrun. apply (consistent_insert _ run); auto.
  - intros run o Hrun. apply (consistent_insert _ run); auto.
  - intros cur o. apply consistent_cursor.
Qed.

Lemma consistent_start (payload : StartDebateRequest) (new_id : list N) (o : Orch) :
  store_runs o !! new_id = None ->
  keeps_consistent o (start_debate payload new_id o).2.
Proof.
  intros Hnew Ho. unfold start_debate.
  destruct (store_templates o !! req_template_id payload) as [template_|]; [|exact Ho].
  destruct Ho as [K C N1 F]. simpl. split; fields.
  - intros rid run H. destruct (decide (new_id = rid)) as [->|Hne].
    + rewrite lookup_insert_eq in H. inversion H; subst. reflexivity.
    + rewrite lookup_insert_ne in H by exact Hne. apply (K _ _ H).
  - intros rid H. destruct (decide (new_id = rid)) as [->|Hne].
    + rewrite lookup_insert_eq. eauto.
    + rewrite lookup_insert_ne in H by exact Hne. rewrite lookup_insert_ne by exact Hne.
      apply C, H.
  - exact N1.
  - intros f Hin. destruct (F _ Hin) as (run & Hrun & Ht & Hctx & Hs).
    assert (new_id <> fr_debate_id f) as Hne by congruence.
    exists run. rewrite !lookup_insert_ne by exact Hne. auto.
Qed.

Lemma consistent_cancel (rid : list N) (o : Orch) : keeps_consistent o (cancel rid o).2.
Proof.
  intros Ho. unfold cancel. destruct (store_runs o !! rid) as [run|]; [|exact Ho].
  simpl.
  assert (consistent (set_runs (alter (with_status RunStatus.canceled) rid) o)) as H1.
  { apply consistent_alter; [|exact Ho]. intros run0. simpl. auto. }
  destruct H1 as [K C N1 F]. split; fields; [exact K| |exact N1|].
  - intros rid' H. destruct (decide (rid = rid')) as [->|Hne].
    + rewrite lookup_delete_eq in H. destruct H; discriminate.
    + rewrite lookup_delete_ne in H by exact Hne. rewrite lookup_delete_ne by exact Hne.
      apply C, H.
  - intros f Hin. destruct (F _ Hin) as (run0 & Hrun0 & Ht & Hctx & Hs). fields.
    exists run0. split; [exact Hrun0|]. split; [exact Ht|]. split; [|exact Hs].
    destruct (decide (rid = fr_debate_id f)) as [->|Hne].
    + apply lookup_delete_eq.
    + rewrite lookup_delete_ne by exact Hne. exact Hctx.
Qed.

Lemma consistent_templates (f : gmap (list N) DebateTemplate -> gmap (list N) DebateTemplate)
      (o : Orch) :
  keeps_consistent o (set_templates f o).
Proof. intros [K C N1 F]. split; assumption. Qed.

Lemma consistent_initial (templates : gmap (list N) DebateTemplate) :
  consistent (orch (initial templates)).
Proof.
  split.
  - intros rid run H. simpl in H. rewrite lookup_empty in H. discriminate.
  - intros rid [x H]. simpl in H. rewrite lookup_empty in H. discriminate.
  - apply NoDup_nil_2.
  - intros f H. simpl in H. apply elem_of_nil in H. contradiction.
Qed.

Lemma reachable_consistent (c : Config) : reachable c -> consistent (orch c).
Proof.
  intros (templates & evs & H).
  apply (related_handle_all keeps_consistent consistent_admitted consistent_start
           consistent_cancel consistent_templates _ _ _ H).
  apply consistent_initial.
Qed.

(** X6: the final records.  In every state the engine can reach, no two
    final records are of the same run, and every final record is of a run
    that is still in the store under the record's id, bears the title of
    that run, and is completed or canceled: the engine has dropped its
    context. *)
Theorem final_records_are_of_finished_runs (c : Config) :
  reachable c ->
  NoDup (fr_debate_id <$> store_final_records (orch c))
  /\ forall f,
      f ∈ store_final_records (orch c) ->
      exists run,
        store_runs (orch c) !! fr_debate_id f = Some run
        /\ run_id run = fr_debate_id f
        /\ fr_title f = run_title run
        /\ _context (orch c) !! fr_debate_id f = None
        /\ (run_status run = RunStatus.completed \/ run_status run = RunStatus.canceled).
Proof.
  intros Hreach. destruct (reachable_consistent _ Hreach) as [K _ N1 F].
  split; [exact N1|]. intros f Hin. destruct (F _ Hin) as (run & Hrun & Ht & Hctx & Hs).
  exists run. split; [exact Hrun|]. split; [apply (K _ _ Hrun)|auto].
Qed.

(** X7: [GET /debates/{id}] never answers that the debate is closed.  In
    every state the engine can reach, the request returns the run when the
    store has one under the id and answers [debate not found] otherwise:
    a final record without its run does not exist, so the third answer of
    the handler, [debate closed; only final record retained], is never
    given. *)
Theorem get_debate_never_answers_closed (c : Config) (debate_id : list N) :
  reachable c ->
  get_debate debate_id (orch c)
  = match store_runs (orch c) !! debate_id with
    | Some run => inl run
    | None => inr (py "debate not found")
    end.
Proof.
  intros Hreach. destruct (reachable_consistent _ Hreach) as [_ _ _ F].
  unfold get_debate. destruct (store_runs (orch c) !! debate_id) as [run|] eqn:E;
    [reflexivity|].
  destruct (List.find _ _) as [f|] eqn:Ef; [|reflexivity].
  exfalso. apply find_some in Ef. destruct Ef as [Hin Heq].
  apply pystr_eqb_eq in Heq. apply list_elem_of_In in Hin.
  destruct (F _ Hin) as (run & Hrun & _). rewrite Heq, E in Hrun. discriminate.
Qed.

(** ** More facts: the methods work on one run *)

Lemma only_touches_refl (rid : list N) (o : Orch) : only_touches rid o o.
Proof. split; reflexivity. Qed.

Lemma only_touches_trans (rid : list N) (o1 o2 o3 : Orch) :
  only_touches rid o1 o2 -> only_touches rid o2 o3 -> only_touches rid o1 o3.
Proof.
  intros [A1 A2 A3 A4] [B1 B2 B3 B4].
  split; [intros rid' H; rewrite B1, A1 by exact H|intros rid' H; rewrite B2, A2 by exact H
         |intros rid' H; rewrite B3, A3 by exact H|congruence]; reflexivity.
Qed.

Lemma only_touches_runs (rid : list N)
      (g : gmap (list N) DebateRun -> gmap (list N) DebateRun) (o : Orch) :
  (forall rid', rid' <> rid -> g (store_runs o) !! rid' = store_runs o !! rid') ->
  only_touches rid o (set_runs g o).
Proof. intros H. split; try reflexivity. exact H. Qed.

Lemma only_touches_alter (rid : list N) (g : DebateRun -> DebateRun) (o : Orch) :
  only_touches rid o (set_runs (alter g rid) o).
Proof.
  apply only_touches_runs. intros rid' H. apply lookup_alter_ne. congruence.
Qed.

Lemma only_touches_insert (rid : list N) (run : DebateRun) (o : Orch) :
  only_touches rid o (set_runs (insert rid run) o).
Proof.
  apply only_touches_runs. intros rid' H. apply lookup_insert_ne. congruence.
Qed.

Lemma only_touches_dropped (rid : list N) (o : Orch) :
  only_touches rid o (set_context (delete rid) (set_progress (delete rid) o)).
Proof.
  split; try reflexivity; intros rid' H; simpl; apply lookup_delete_ne; congruence.
Qed.

Lemma only_touches_finalize (rid : list N) (o : Orch) (r : result unit) (o' : Orch) :
  _finalize rid o = (r, o') -> only_touches rid o o'.
Proof.
  unfold _finalize. intros H.
  destruct (store_runs o !! rid) as [run|]; [|inversion H; apply only_touches_refl].
  destruct (_context o !! rid) as [ctx|]; [|inversion H; apply only_touches_refl].
  destruct (make_FinalRecord _ _ _) as [final|e]; inversion H; subst; clear H.
  - eapply only_touches_trans; [apply only_touches_alter|].
    eapply only_touches_trans; [|apply only_touches_dropped].
    split; reflexivity.
  - apply only_touches_alter.
Qed.

Lemma only_touches_admitted (rid : list N) : admits rid (only_touches rid).
Proof.
  split.
  - apply only_touches_refl.
  - apply only_touches_trans.
  - apply only_touches_finalize.
  - intros pos f o _. apply only_touches_alter.
  - intros run n o _. apply only_touches_insert.
  - intros run o _. apply only_touches_insert.
  - intros cur o. split; try reflexivity.
    intros rid' H. simpl. apply lookup_insert_ne. congruence.
Qed.

Lemma only_touches_start (payload : StartDebateRequest) (new_id : list N) (o : Orch) :
  only_touches new_id o (start_debate payload new_id o).2.
Proof.
  unfold start_debate.
  destruct (store_templates o !! req_template_id payload) as [template_|];
    [|apply only_touches_refl].
  split; try reflexivity; intros rid' H; simpl; apply lookup_insert_ne; congruence.
Qed.

Lemma only_touches_cancel (rid : list N) (o : Orch) : only_touches rid o (cancel rid o).2.
Proof.
  unfold cancel. destruct (store_runs o !! rid) as [run|]; [|apply only_touches_refl].
  simpl. eapply only_touches_trans; [apply only_touches_alter|apply only_touches_dropped].
Qed.

Lemma only_touches_other (rid0 rid : list N) (o o' : Orch) :
  rid <> rid0 -> only_touches rid0 o o' ->
  store_runs o' !! rid = store_runs o !! rid
  /\ _context o' !! rid = _context o !! rid
  /\ _progress o' !! rid = _progress o !! rid.
Proof. intros Hne [A1 A2 A3 _]. auto. Qed.

(** X8: an event touches its own run only.  A start, an advance, a cancel
    or the resumption of a coroutine leaves every run other than its own
    exactly as it was, with its context and its cursor; a request on the
    templates leaves every run as it was. *)
Theorem events_touch_their_run_only (ev : event) (c c' : Config) (rid : list N) :
  handle ev c = Some c' ->
  subject ev c <> Some rid ->
  store_runs (orch c') !! rid = store_runs (orch c) !! rid
  /\ _context (orch c') !! rid = _context (orch c) !! rid
  /\ _progress (orch c') !! rid = _progress (orch c) !! rid.
Proof.
  intros H Hsub.
  destruct ev as [payload new_id|run_id_|run_id_|i inp|template_|template_id];
    simpl in H, Hsub.
  - destruct (store_runs (orch c) !! new_id); [discriminate|].
    pose proof (only_touches_start payload new_id (orch c)) as Hs.
    destruct (start_debate payload new_id (orch c)) as [r o']. inversion H; subst.
    apply (only_touches_other new_id); [congruence|exact Hs].
  - inversion H; subst; clear H.
    apply (only_touches_other run_id_); [congruence|]. rewrite orch_settle.
    destruct (advance_begin run_id_ (orch c)) as [r o'] eqn:E.
    exact (respects_advance_begin _ _ (only_touches_admitted run_id_) _ _ _ E).
  - inversion H; subst; clear H.
    apply (only_touches_other run_id_); [congruence|apply only_touches_cancel].
  - destruct (suspended c !! i) as [f|]; [|discriminate].
    destruct (resume inp f) as [m|] eqn:Em; [|discriminate].
    inversion H; subst; clear H.
    apply (only_touches_other (frame_run f)); [simpl in Hsub; congruence|].
    rewrite orch_settle. destruct (m (orch c)) as [r o'] eqn:E.
    exact (respects_resume _ _ (only_touches_admitted _) inp f m eq_refl Em _ _ _ E).
  - inversion H; subst; clear H. simpl. destruct (template_valid template_); auto.
  - inversion H; subst; clear H. auto.
Qed.

(** ** More facts: what the methods raise *)

Lemma resolve_index_raises (len : nat) (i : Z) (e : exn) :
  resolve_index len i = Raise e -> e = IndexError.
Proof.
  unfold resolve_index. cbv zeta. destruct (_ || _); [|discriminate]. congruence.
Qed.

Lemma py_index_raises {A : Type} (l : list A) (i : Z) (e : exn) :
  py_index l i = Raise e -> e = IndexError.
Proof.
  unfold py_index, bind. destruct (resolve_index (length l) i) as [j|e'] eqn:E.
  - destruct (l !! j); [discriminate|congruence].
  - intros H. inversion H; subst. exact (resolve_index_raises _ _ _ E).
Qed.

Lemma tally_votes_raises (outputs : list PhaseOutput) (e : exn) :
  _tally_votes outputs = Raise e -> e = IndexError.
Proof.
  destruct (existsb (fun o => blank (po_output o)) outputs) eqn:E.
  - rewrite (tally_votes_blank _ E). congruence.
  - rewrite (tally_votes_ok _ E). discriminate.
Qed.

Lemma moderator_summary_raises (r : reply) (e : exn) :
  _moderator_summary r = Raise e -> exists msg, r = Failed msg /\ e = ChatError msg.
Proof. destruct r as [s|msg]; simpl; [discriminate|]. intros H. inversion H. eauto. Qed.

Lemma finalize_raises (run_id_ : list N) (o : Orch) (e : exn) (o' : Orch) :
  _finalize run_id_ o = (Raise e, o') -> e = ValidationError.
Proof.
  unfold _finalize.
  destruct (store_runs o !! run_id_) as [run|]; [|discriminate].
  destruct (_context o !! run_id_) as [ctx|]; [|discriminate].
  destruct (match List.last (List.map Some (run_rounds run)) None with
            | Some last => rr_outcome last
            | None => Some RoundOutcome.invalid
            end) as [outcome|]; simpl; [discriminate|congruence].
Qed.

Section Raises.

Variable P : exn -> Prop.
Variable replies : reply -> Prop.
Hypothesis P_index : P IndexError.
Hypothesis P_validation : P ValidationError.
Hypothesis P_chat : forall msg, replies (Failed msg) -> P (ChatError msg).

Lemma raises_ret {A : Type} (a : A) : raises_only P (ret a).
Proof. intros o e o' H. discriminate. Qed.

Lemma raises_modify (f : Orch -> Orch) : raises_only P (modify f).
Proof. intros o e o' H. discriminate. Qed.

Lemma raises_lift {A : Type} (x : result A) :
  (forall e, x = Raise e -> P e) -> raises_only P (lift x).
Proof. intros Hx o e o' H. inversion H. auto. Qed.

Lemma raises_bind {A B : Type} (m : M A) (k : A -> M B) :
  raises_only P m -> (forall a, raises_only P (k a)) -> raises_only P (mbind m k).
Proof.
  intros Hm Hk o e o' H. unfold mbind in H.
  destruct (m o) as [[a|e1] o1] eqn:Em.
  - exact (Hk a _ _ _ H).
  - inversion H; subst. exact (Hm _ _ _ Em).
Qed.

Lemma raises_finalize (run_id_ : list N) : raises_only P (_finalize run_id_).
Proof. intros o e o' H. rewrite (finalize_raises _ _ _ _ H). exact P_validation. Qed.

Lemma raises_resolve_index (len : nat) (i : Z) :
  raises_only P (lift (resolve_index len i)).
Proof.
  apply raises_lift. intros e H. rewrite (resolve_index_raises _ _ _ H). exact P_index.
Qed.

Lemma raises_py_index {A : Type} (l : list A) (i : Z) : raises_only P (lift (py_index l i)).
Proof.
  apply raises_lift. intros e H. rewrite (py_index_raises _ _ _ H). exact P_index.
Qed.

Lemma raises_tally_votes (outputs : list PhaseOutput) :
  raises_only P (lift (_tally_votes outputs)).
Proof.
  apply raises_lift. intros e H. rewrite (tally_votes_raises _ _ H). exact P_index.
Qed.

Lemma raises_moderator_summary (r : reply) :
  replies r -> raises_only P (lift (_moderator_summary r)).
Proof.
  intros Hr. apply raises_lift. intros e H.
  destruct (moderator_summary_raises _ _ H) as (msg & -> & ->). apply P_chat, Hr.
Qed.

Create HintDb raises.

#[local] Hint Resolve raises_finalize raises_resolve_index raises_py_index raises_tally_votes
  raises_moderator_summary raises_ret raises_modify : raises.

Ltac raise_tac :=
  repeat first
    [ solve [eauto with raises]
    | apply raises_bind
    | progress intros
    | match goal with
      | |- raises_only _ (if ?b then _ else _) => destruct b
      | |- raises_only _ (match ?x with _ => _ end) => destruct x
      end ].

Ltac by_raise H :=
  match type of H with
  | ?m _ = (_, _) =>
      let Hs := fresh "Hs" in
      assert (raises_only P m) as Hs by raise_tac;
      exact (Hs _ _ _ H)
  end.

Lemma raises_step_votes (run_id_ : list N) (round_idx : Z) (phase : PhaseSpec)
      (outputs : list PhaseOutput) :
  raises_only P (step_votes run_id_ round_idx phase outputs).
Proof.
  unfold step_votes. destruct (PhaseRole.eqb _ _); [|apply raises_ret].
  apply raises_bind; [apply raises_tally_votes|]. intros [votes outcome] o e o' H.
  destruct (store_runs o !! run_id_) as [run|]; [by_raise H|discriminate].
Qed.

Lemma raises_step_round (run_id_ : list N) (round_idx : Z) :
  raises_only P (step_round run_id_ round_idx).
Proof.
  intros o e o' H. unfold step_round in H.
  destruct (store_runs o !! run_id_) as [run|]; [by_raise H|discriminate].
Qed.

Lemma raises_step_summary (run_id_ : list N) (round_idx : Z) (r : reply) :
  replies r -> raises_only P (step_summary run_id_ round_idx r).
Proof.
  intros Hr. unfold step_summary. apply raises_bind; [apply raises_moderator_summary, Hr|].
  intros summary o e o' H.
  destruct (store_runs o !! run_id_) as [run|]; [by_raise H|discriminate].
Qed.

Lemma raises_step_finish (run_id_ : list N) (ctx : RunContext) (round_idx phase_idx : Z) :
  raises_only P (step_finish run_id_ ctx round_idx phase_idx).
Proof. unfold step_finish. raise_tac. Qed.

Lemma raises_respond (run_id_ : list N) (run : DebateRun) :
  raises_only P (respond run_id_ run).
Proof. intros o e o' H. discriminate. Qed.

Lemma raises_round_votes (run_id_ : list N) (pos : nat) (phase : PhaseSpec)
      (outputs : list PhaseOutput) :
  raises_only P (round_votes run_id_ pos phase outputs).
Proof. unfold round_votes. raise_tac. Qed.

Lemma raises_round_summary (run_id_ : list N) (pos : nat) (r : reply) :
  replies r -> raises_only P (round_summary run_id_ pos r).
Proof.
  intros Hr. unfold round_summary.
  apply raises_bind; [apply raises_moderator_summary, Hr|]. raise_tac.
Qed.

Lemma raises_execute_phase (env : PhaseEnv) (template_ : DebateTemplate) (phase : PhaseSpec)
      (run_id_ : list N) (run : DebateRun) (round_index : Z) (pos : nat) :
  raises_only P (_execute_phase env template_ phase run_id_ run round_index pos).
Proof. intros o e o' H. discriminate. Qed.

Lemma raises_round_prologue (run_id_ : list N) : raises_only P (round_prologue run_id_).
Proof.
  intros o e o' H. unfold round_prologue in H.
  destruct (_context o !! run_id_) as [ctx|]; [|discriminate].
  destruct (store_runs o !! run_id_) as [run|]; [|discriminate].
  cbv zeta in H. by_raise H.
Qed.

#[local] Hint Resolve raises_step_votes raises_step_round raises_step_summary
  raises_step_finish raises_respond raises_round_votes raises_round_summary
  raises_execute_phase raises_round_prologue : raises.

(** [_execute_phase_step]: the cursor is read first, and nothing else
    raises [KeyError]. *)
Lemma step_prologue_raises (run_id_ : list N) (o : Orch) (e : exn) (o' : Orch) :
  step_prologue run_id_ o = (Raise e, o') -> P e \/ (e = KeyError /\ cursor_missing run_id_ o).
Proof.
  unfold step_prologue. intros H.
  destruct (_context o !! run_id_) as [ctx|] eqn:Ec; [|discriminate].
  destruct (store_runs o !! run_id_) as [run|]; [|discriminate].
  destruct (_progress o !! run_id_) as [[round_idx phase_idx]|] eqn:Ep.
  - left. destruct (total_rounds ctx <=? round_idx)%Z; cbv zeta in H; by_raise H.
  - right. inversion H; subst. split; [reflexivity|]. split; [rewrite Ec; eauto|exact Ep].
Qed.

Lemma execute_phase_step_raises (env : PhaseEnv) (moderator_reply : reply)
      (run_id_ : list N) (o : Orch) (e : exn) (o' : Orch) :
  replies moderator_reply ->
  _execute_phase_step env moderator_reply run_id_ o = (Raise e, o') ->
  P e \/ (e = KeyError /\ cursor_missing run_id_ o).
Proof.
  intros Hr H. unfold _execute_phase_step in H.
  destruct (step_prologue run_id_ o) as [[pro|e1] o1] eqn:E.
  - rewrite (mbind_ok _ _ _ _ _ E) in H. left.
    destruct pro as [[[[[[ctx round_idx] phase_idx] phase] pos] run]|]; [|discriminate].
    by_raise H.
  - rewrite (mbind_raise _ _ _ _ _ E) in H. inversion H; subst.
    exact (step_prologue_raises _ _ _ _ E).
Qed.

Lemma raises_phases_loop (env : RoundEnv) (template_ : DebateTemplate) (run_id_ : list N)
      (run : DebateRun) (round_index : Z) (pos : nat) (phases : list PhaseSpec) :
  forall i, raises_only P (phases_loop env template_ run_id_ run round_index pos i phases).
Proof.
  induction phases as [|phase rest IH]; intros i; simpl; [apply raises_ret|].
  intros o e o' H. revert H.
  generalize (current run_id_ run o). intros run' H.
  assert (raises_only P
            (do outputs <- _execute_phase (re_phase env i) template_ phase run_id_ run'
                             round_index pos;
             do _ <- round_votes run_id_ pos phase outputs;
             phases_loop env template_ run_id_ run round_index pos (S i) rest)) as Hs
      by raise_tac.
  exact (Hs _ _ _ H).
Qed.

#[local] Hint Resolve raises_phases_loop : raises.

Lemma raises_execute_round (env : RoundEnv) (run_id_ : list N) :
  replies (re_moderator env) -> raises_only P (_execute_round env run_id_).
Proof.
  intros Hr. unfold _execute_round. apply raises_bind; [apply raises_round_prologue|].
  intros [[[[template_ round_index] pos] run]|]; raise_tac.
Qed.

Lemma raises_rounds_loop (envs : nat -> RoundEnv) (run_id_ : list N) (todo : nat) :
  (forall i, replies (re_moderator (envs i))) ->
  forall i, raises_only P (rounds_loop envs run_id_ i todo).
Proof.
  intros Hr. induction todo as [|todo IH]; intros i; simpl; [apply raises_ret|].
  apply raises_bind; [apply raises_execute_round, Hr|]. intros _. apply IH.
Qed.

End Raises.

Lemma step_failure_index (replies : reply -> Prop) : step_failure replies IndexError.
Proof. left. reflexivity. Qed.

Lemma step_failure_validation (replies : reply -> Prop) : step_failure replies ValidationError.
Proof. right. left. reflexivity. Qed.

Lemma step_failure_chat (replies : reply -> Prop) (msg : list N) :
  replies (Failed msg) -> step_failure replies (ChatError msg).
Proof. intros H. right. right. eauto. Qed.

(** X9: the exceptions of [advance_debate].  When the method raises, it is
    [debate not found] (no context or no run, nothing changed), [debate
    not in step mode] (an auto run, nothing changed), a [KeyError] (the
    run has a context and no cursor), an [IndexError], the validation
    error of a model, or the exception of the moderator's call. *)
Theorem advance_errors
        (env : PhaseEnv) (moderator_reply : reply) (run_id_ : list N)
        (o : Orch) (e : exn) (o' : Orch) :
  advance_debate env moderator_reply run_id_ o = (Raise e, o') ->
  (e = not_found /\ o' = o
   /\ (_context o !! run_id_ = None \/ store_runs o !! run_id_ = None))
  \/ (e = not_in_step_mode /\ o' = o
      /\ exists run, store_runs o !! run_id_ = Some run /\ run_mode run = RunMode.auto)
  \/ (e = KeyError /\ cursor_missing run_id_ o)
  \/ e = IndexError
  \/ e = ValidationError
  \/ exists msg, moderator_reply = Failed msg /\ e = ChatError msg.
Proof.
  unfold advance_debate. intros H.
  destruct (_context o !! run_id_) as [ctx|] eqn:Ec;
    [|inversion H; subst; left; auto].
  destruct (store_runs o !! run_id_) as [run|] eqn:Er;
    [|inversion H; subst; left; auto].
  destruct (RunMode.eqb (run_mode run) RunMode.step) eqn:Em; simpl in H.
  - destruct (RunStatus.terminal (run_status run)); [discriminate|].
    destruct (_execute_phase_step env moderator_reply run_id_ o) as [[[]|e1] o1] eqn:E.
    + rewrite (mbind_ok _ _ _ _ _ E) in H. discriminate.
    + rewrite (mbind_raise _ _ _ _ _ E) in H. inversion H; subst.
      destruct (execute_phase_step_raises (step_failure (eq moderator_reply))
                  (eq moderator_reply) (step_failure_index _) (step_failure_validation _)
                  (step_failure_chat _) env moderator_reply run_id_ o e o' eq_refl E)
        as [[Hi|[Hv|(msg & Hm & Hc)]]|Hk]; auto 10.
      right. right. right. right. right. eauto.
  - inversion H; subst. right. left. split; [reflexivity|]. split; [reflexivity|].
    exists run. split; [reflexivity|]. destruct (run_mode run); [reflexivity|discriminate].
Qed.

(** X10: [advance_debate] never raises [KeyError] on the engine at work.
    In every state the engine can reach, a run that has a context has a
    cursor, so the lookup of the cursor cannot fail. *)
Theorem advance_never_raises_key_error
        (c : Config) (env : PhaseEnv) (moderator_reply : reply) (run_id_ : list N) :
  reachable c ->
  (advance_debate env moderator_reply run_id_ (orch c)).1 <> Raise KeyError.
Proof.
  intros Hreach. pose proof (cursors_present _ (reachable_consistent _ Hreach)) as Hc.
  destruct (advance_debate env moderator_reply run_id_ (orch c)) as [[resp|e] o'] eqn:E;
    simpl; [discriminate|].
  intros He. inversion He; subst e.
  destruct (advance_errors _ _ _ _ _ _ E)
    as [(H & _)|[(H & _)|[(_ & Hctx & Hcur)|[H|[H|(msg & _ & H)]]]]]; try discriminate.
  destruct (Hc _ Hctx) as [cur Hcur']. congruence.
Qed.

(** X11: the exceptions of [_run_to_completion].  When the background
    loop of an auto run raises, it is [debate not found] (no context or no
    run, nothing changed), an [IndexError], the validation error of a
    model, or the exception of a moderator's call: never a [KeyError],
    the loop reads no cursor. *)
Theorem run_to_completion_errors
        (envs : nat -> RoundEnv) (run_id_ : list N) (o : Orch) (e : exn) (o' : Orch) :
  _run_to_completion envs run_id_ o = (Raise e, o') ->
  (e = not_found /\ o' = o
   /\ (_context o !! run_id_ = None \/ store_runs o !! run_id_ = None))
  \/ e = IndexError
  \/ e = ValidationError
  \/ exists i msg, re_moderator (envs i) = Failed msg /\ e = ChatError msg.
Proof.
  unfold _run_to_completion. intros H.
  destruct (_context o !! run_id_) as [ctx|] eqn:Ec;
    [|inversion H; subst; left; auto].
  destruct (store_runs o !! run_id_) as [run|] eqn:Er;
    [|inversion H; subst; left; auto].
  right.
  set (replies := fun r => exists i, re_moderator (envs i) = r).
  assert (step_failure replies e) as Hf.
  { revert H.
    match goal with
    | |- ?m _ = _ -> _ => assert (raises_only (step_failure replies) m) as Hs
    end.
    { apply raises_bind.
      - apply (raises_rounds_loop _ replies); auto using step_failure_index,
          step_failure_validation, step_failure_chat.
        intros i. exists i. reflexivity.
      - intros _. apply raises_bind.
        + apply raises_finalize, step_failure_validation.
        + intros _ o1 e1 o1' H1. discriminate. }
    apply Hs. }
  destruct Hf as [Hi|[Hv|(msg & (i & Hm) & Hc)]]; eauto 10.
Qed.

(** ** More facts: the runs do not look at the store's templates *)

Lemma blind_ret {A : Type} (a : A) : blind (ret a).
Proof. intros f o. reflexivity. Qed.

Lemma blind_raise {A : Type} (e : exn) : blind (@raise A e).
Proof. intros f o. reflexivity. Qed.

Lemma blind_lift {A : Type} (x : result A) : blind (lift x).
Proof. intros f o. reflexivity. Qed.

Lemma blind_modify (g : Orch -> Orch) :
  (forall f o, g (set_templates f o) = set_templates f (g o)) -> blind (modify g).
Proof. intros Hg f o. unfold modify, retemplated. simpl. rewrite Hg. reflexivity. Qed.

Lemma blind_bind {A B : Type} (m : M A) (k : A -> M B) :
  blind m -> (forall a, blind (k a)) -> blind (mbind m k).
Proof.
  intros Hm Hk f o. unfold mbind. rewrite Hm. unfold retemplated at 1.
  destruct (m o) as [[a|e] o1]; simpl; [apply Hk|reflexivity].
Qed.

Lemma blind_finalize (run_id_ : list N) : blind (_finalize run_id_).
Proof.
  intros f o. unfold _finalize. fields.
  destruct (store_runs o !! run_id_) as [run|]; [|reflexivity].
  destruct (_context o !! run_id_) as [ctx|]; [|reflexivity].
  destruct (make_FinalRecord _ _ _); reflexivity.
Qed.

Create HintDb blind.

#[local] Hint Resolve blind_finalize blind_ret blind_raise blind_lift : blind.

Ltac blind_tac :=
  repeat first
    [ solve [eauto with blind]
    | apply blind_bind
    | apply blind_modify; intros; reflexivity
    | progress intros
    | match goal with
      | |- blind (if ?b then _ else _) => destruct b
      | |- blind (match ?x with _ => _ end) => destruct x
      end ].

(** The branch of a method that read the state, run on. *)
Ltac by_blind f o' :=
  match goal with
  | |- ?m _ = retemplated _ (?m' _) =>
      let Hs := fresh "Hs" in
      assert (blind m') as Hs by blind_tac;
      exact (Hs f o')
  end.

Lemma blind_step_prologue (run_id_ : list N) : blind (step_prologue run_id_).
Proof.
  intros f o. unfold step_prologue. fields.
  destruct (_context o !! run_id_) as [ctx|]; [|reflexivity].
  destruct (store_runs o !! run_id_) as [run|]; [|reflexivity].
  destruct (_progress o !! run_id_) as [[round_idx phase_idx]|]; [|reflexivity].
  destruct (total_rounds ctx <=? round_idx)%Z; [by_blind f o|].
  cbv zeta.
  by_blind f (set_runs
                (insert run_id_
                   (if (Z.of_nat (length (run_rounds run)) <=? round_idx)%Z
                    then with_rounds (fun rs => rs ++ [new_round (round_idx + 1)%Z]) run
                    else run)) o).
Qed.

Lemma blind_round_prologue (run_id_ : list N) : blind (round_prologue run_id_).
Proof.
  intros f o. unfold round_prologue. fields.
  destruct (_context o !! run_id_) as [ctx|]; [|reflexivity].
  destruct (store_runs o !! run_id_) as [run|]; [|reflexivity].
  cbv zeta.
  by_blind f (set_runs
                (insert run_id_
                   (if (Z.of_nat (length (run_rounds run))
                        <? Z.of_nat (length (run_rounds run)) + 1)%Z
                    then with_rounds
                           (fun rs => rs ++ [new_round (Z.of_nat (length (run_rounds run)) + 1)%Z])
                           run
                    else run)) o).
Qed.

Lemma blind_step_votes (run_id_ : list N) (round_idx : Z) (phase : PhaseSpec)
      (outputs : list PhaseOutput) :
  blind (step_votes run_id_ round_idx phase outputs).
Proof.
  unfold step_votes. destruct (PhaseRole.eqb _ _); [|apply blind_ret].
  apply blind_bind; [apply blind_lift|]. intros [votes outcome] f o. fields.
  destruct (store_runs o !! run_id_) as [run|]; [by_blind f o|reflexivity].
Qed.

Lemma blind_step_summary (run_id_ : list N) (round_idx : Z) (r : reply) :
  blind (step_summary run_id_ round_idx r).
Proof.
  unfold step_summary. apply blind_bind; [apply blind_lift|]. intros summary f o. fields.
  destruct (store_runs o !! run_id_) as [run|]; [by_blind f o|reflexivity].
Qed.

Lemma blind_step_round (run_id_ : list N) (round_idx : Z) :
  blind (step_round run_id_ round_idx).
Proof.
  intros f o. unfold step_round. fields.
  destruct (store_runs o !! run_id_) as [run|]; [by_blind f o|reflexivity].
Qed.

Lemma blind_step_finish (run_id_ : list N) (ctx : RunContext) (round_idx phase_idx : Z) :
  blind (step_finish run_id_ ctx round_idx phase_idx).
Proof. unfold step_finish. blind_tac. Qed.

Lemma blind_respond (run_id_ : list N) (run : DebateRun) : blind (respond run_id_ run).
Proof. intros f o. reflexivity. Qed.

Lemma blind_round_votes (run_id_ : list N) (pos : nat) (phase : PhaseSpec)
      (outputs : list PhaseOutput) :
  blind (round_votes run_id_ pos phase outputs).
Proof. unfold round_votes. blind_tac. Qed.

Lemma blind_round_summary (run_id_ : list N) (pos : nat) (r : reply) :
  blind (round_summary run_id_ pos r).
Proof. unfold round_summary. blind_tac. Qed.

Lemma record_outputs_retemplated (run_id_ : list N) (pos : nat) (outputs : list PhaseOutput)
      (f : gmap (list N) DebateTemplate -> gmap (list N) DebateTemplate) :
  forall o,
    fold_left (fun o' po => record_output run_id_ pos po o') outputs (set_templates f o)
    = set_templates f (fold_left (fun o' po => record_output run_id_ pos po o') outputs o).
Proof.
  induction outputs as [|po outputs IH]; intros o; simpl; [reflexivity|].
  rewrite <- IH. reflexivity.
Qed.

Lemma blind_execute_phase (env : PhaseEnv) (template_ : DebateTemplate) (phase : PhaseSpec)
      (run_id_ : list N) (run : DebateRun) (round_index : Z) (pos : nat) :
  blind (_execute_phase env template_ phase run_id_ run round_index pos).
Proof.
  intros f o. unfold _execute_phase, retemplated. cbv zeta. simpl.
  rewrite record_outputs_retemplated. reflexivity.
Qed.

#[local] Hint Resolve blind_step_prologue blind_round_prologue blind_step_votes
  blind_step_round blind_step_summary blind_step_finish blind_respond blind_round_votes
  blind_round_summary blind_execute_phase : blind.

Lemma blind_execute_phase_step (env : PhaseEnv) (moderator_reply : reply) (run_id_ : list N) :
  blind (_execute_phase_step env moderator_reply run_id_).
Proof.
  unfold _execute_phase_step. apply blind_bind; [apply blind_step_prologue|].
  intros [[[[[[ctx round_idx] phase_idx] phase] pos] run]|]; blind_tac.
Qed.

#[local] Hint Resolve blind_execute_phase_step : blind.

Lemma blind_advance_debate (env : PhaseEnv) (moderator_reply : reply) (run_id_ : list N) :
  blind (advance_debate env moderator_reply run_id_).
Proof.
  intros f o. unfold advance_debate. fields.
  destruct (_context o !! run_id_) as [ctx|]; [|reflexivity].
  destruct (store_runs o !! run_id_) as [run|]; [|reflexivity].
  destruct (negb _); [reflexivity|].
  destruct (RunStatus.terminal _); [reflexivity|].
  by_blind f o.
Qed.

Lemma blind_phases_loop (env : RoundEnv) (template_ : DebateTemplate) (run_id_ : list N)
      (run : DebateRun) (round_index : Z) (pos : nat) (phases : list PhaseSpec) :
  forall i, blind (phases_loop env template_ run_id_ run round_index pos i phases).
Proof.
  induction phases as [|phase rest IH]; intros i; simpl; [apply blind_ret|].
  intros f o. unfold current. fields.
  generalize (default run (store_runs o !! run_id_)). intros run'.
  by_blind f o.
Qed.

#[local] Hint Resolve blind_phases_loop : blind.

Lemma blind_execute_round (env : RoundEnv) (run_id_ : list N) :
  blind (_execute_round env run_id_).
Proof.
  unfold _execute_round. apply blind_bind; [apply blind_round_prologue|].
  intros [[[[template_ round_index] pos] run]|]; blind_tac.
Qed.

#[local] Hint Resolve blind_execute_round : blind.

Lemma blind_rounds_loop (envs : nat -> RoundEnv) (run_id_ : list N) (todo : nat) :
  forall i, blind (rounds_loop envs run_id_ i todo).
Proof. induction todo as [|todo IH]; intros i; simpl; blind_tac. Qed.

#[local] Hint Resolve blind_rounds_loop : blind.

Lemma blind_run_to_completion (envs : nat -> RoundEnv) (run_id_ : list N) :
  blind (_run_to_completion envs run_id_).
Proof.
  intros f o. unfold _run_to_completion. fields.
  destruct (_context o !! run_id_) as [ctx|]; [|reflexivity].
  destruct (store_runs o !! run_id_) as [run|]; [|reflexivity].
  match goal with
  | |- ?m _ = retemplated _ (?m' _) => assert (blind m') as Hs
  end.
  { apply blind_bind; [apply blind_rounds_loop|]. intros _.
    apply blind_bind; [apply blind_finalize|]. intros _ f' o'. reflexivity. }
  exact (Hs f o).
Qed.

Lemma blind_cancel (run_id_ : list N) : blind (cancel run_id_).
Proof.
  intros f o. unfold cancel. fields.
  destruct (store_runs o !! run_id_) as [run|]; reflexivity.
Qed.

(** X12: a run does not look at the store's templates once it is started.
    Whatever is done to the templates of the store (a template posted,
    replaced or deleted, the run's own included), [advance_debate], the
    background loop of an auto run and [cancel] return the same and change
    the runs, the cursors, the contexts and the final records the same:
    a run works with the template it was started from. *)
Theorem started_runs_ignore_the_templates
        (f : gmap (list N) DebateTemplate -> gmap (list N) DebateTemplate)
        (run_id_ : list N) (o : Orch) :
  (forall env moderator_reply,
      advance_debate env moderator_reply run_id_ (set_templates f o)
      = retemplated f (advance_debate env moderator_reply run_id_ o))
  /\ (forall envs,
         _run_to_completion envs run_id_ (set_templates f o)
         = retemplated f (_run_to_completion envs run_id_ o))
  /\ cancel run_id_ (set_templates f o) = retemplated f (cancel run_id_ o).
Proof.
  split; [|split].
  - intros env moderator_reply. apply blind_advance_debate.
  - intros envs. apply blind_run_to_completion.
  - apply blind_cancel.
Qed.

(** ** More facts: cancel twice, no round to run, no phase to run *)

(** X13: [cancel] is idempotent, and it closes the run to [advance].  A
    second cancel of the same id returns what the first returned and
    leaves the state as the first left it; a cancel never touches the
    final records; and after a cancel, [advance_debate] on that id raises
    [debate not found]. *)
Theorem cancel_is_idempotent (run_id_ : list N) (o : Orch) :
  cancel run_id_ (cancel run_id_ o).2 = cancel run_id_ o
  /\ store_final_records (cancel run_id_ o).2 = store_final_records o
  /\ forall env moderator_reply,
      advance_debate env moderator_reply run_id_ (cancel run_id_ o).2
      = (Raise not_found, (cancel run_id_ o).2).
Proof.
  unfold cancel. destruct (store_runs o !! run_id_) as [run|] eqn:Er; simpl.
  - split; [|split; [reflexivity|]].
    + rewrite lookup_alter_eq, Er. simpl. f_equal.
      unfold set_context, set_progress, set_runs. simpl. f_equal.
      * apply map_eq. intros rid. destruct (decide (run_id_ = rid)) as [->|Hne].
        -- rewrite !lookup_alter_eq. destruct (store_runs o !! rid); reflexivity.
        -- rewrite !lookup_alter_ne by exact Hne. reflexivity.
      * apply map_eq. intros rid. destruct (decide (run_id_ = rid)) as [->|Hne].
        -- rewrite !lookup_delete_eq. reflexivity.
        -- rewrite !lookup_delete_ne by exact Hne. reflexivity.
      * apply map_eq. intros rid. destruct (decide (run_id_ = rid)) as [->|Hne].
        -- rewrite !lookup_delete_eq. reflexivity.
        -- rewrite !lookup_delete_ne by exact Hne. reflexivity.
    + intros env moderator_reply. apply advance_debate_not_found. simpl.
      apply lookup_delete_eq.
  - rewrite Er. split; [reflexivity|]. split; [reflexivity|].
    intros env moderator_reply. unfold advance_debate. rewrite Er.
    destruct (_context o !! run_id_); reflexivity.
Qed.

(** X14: a run started with a negative number of rounds has no round to
    run.  [start_debate] takes the number of rounds of the request as it
    is when it is not zero; when it is negative, the first [advance] of a
    step run finalizes at once: it returns [done=true], the run is
    completed with no round, and its final record has the outcome
    INVALID. *)
Theorem negative_rounds_finish_at_once
        (env : PhaseEnv) (moderator_reply : reply)
        (payload : StartDebateRequest) (new_id : list N) (o : Orch)
        (template_ : DebateTemplate) (rounds : Z) :
  store_templates o !! req_template_id payload = Some template_ ->
  req_rounds payload = Some rounds ->
  (rounds < 0)%Z ->
  req_mode payload = RunMode.step ->
  let o1 := (start_debate payload new_id o).2 in
  exists run o2,
    advance_debate env moderator_reply new_id o1 = (Ok {| debate := run; done := true |}, o2)
    /\ total_rounds <$> _context o1 !! new_id = Some rounds
    /\ store_runs o2 !! new_id = Some run
    /\ run_status run = RunStatus.completed
    /\ run_rounds run = []
    /\ store_final_records o2
       = store_final_records o
           ++ [ {| fr_debate_id := new_id; fr_title := t_name template_;
                   fr_final_outcome := RoundOutcome.invalid |} ]
    /\ _context o2 !! new_id = None.
Proof.
  intros Ht Hr Hneg Hmode. cbv zeta.
  unfold start_debate. rewrite Ht, Hr, Hmode.
  assert ((rounds =? 0)%Z = false) as -> by (apply Z.eqb_neq; lia).
  cbn [snd].
  set (run0 := {| run_id := new_id; run_template_id := t_id template_;
                  run_title := t_name template_; run_topic := _;
                  run_status := RunStatus.running; run_mode := RunMode.step;
                  run_rounds := [] |}).
  unfold advance_debate. fields. rewrite !lookup_insert_eq. cbn [run_mode run_status run0].
  cbn [RunMode.eqb negb RunStatus.terminal].
  unfold _execute_phase_step, mbind, step_prologue. fields. rewrite !lookup_insert_eq.
  cbn [total_rounds]. assert ((rounds <=? 0)%Z = true) as -> by (apply Z.leb_le; lia).
  unfold mbind, _finalize. fields. rewrite !lookup_insert_eq.
  cbn [run_rounds run0 List.map List.last make_FinalRecord run_id run_title].
  unfold ret, respond, current. fields.
  rewrite lookup_alter_eq, lookup_insert_eq. cbn [default fmap option_fmap option_map].
  eexists _, _. split; [reflexivity|]. fields.
  rewrite lookup_alter_eq, !lookup_insert_eq, lookup_delete_eq.
  repeat split; reflexivity.
Qed.

(** X15: a step run of a template without phases is stuck.  Every
    [advance] raises [IndexError] (there is no phase at the cursor), and
    leaves the run as it is: running, with its context and its cursor
    where it was, and stuck again; so the run never finishes. *)
Theorem step_run_without_phases_is_stuck
        (env : PhaseEnv) (moderator_reply : reply) (rid : list N) (o : Orch) :
  stuck rid o ->
  exists o',
    advance_debate env moderator_reply rid o = (Raise IndexError, o')
    /\ status_of rid o' = status_of rid o
    /\ _context o' !! rid = _context o !! rid
    /\ _progress o' !! rid = _progress o !! rid
    /\ store_final_records o' = store_final_records o
    /\ stuck rid o'.
Proof.
  intros [(run & Hrun & Hmode & Hterm) (ctx & round_idx & phase_idx & Hctx & Hph & Hcur & Hlt)].
  assert (status_of rid o = Some (run_status run)) as Hst
      by (unfold status_of; rewrite Hrun; reflexivity).
  rewrite Hst.
  unfold advance_debate. rewrite Hctx, Hrun, Hmode, Hterm, Hcur. cbn [RunMode.eqb negb].
  unfold _execute_phase_step, mbind, step_prologue. rewrite Hctx, Hrun, Hcur.
  assert ((total_rounds ctx <=? round_idx)%Z = false) as -> by (apply Z.leb_gt; exact Hlt).
  cbv zeta. unfold mbind, lift. rewrite Hph.
  assert (forall i : Z, @py_index PhaseSpec [] i = Raise IndexError) as Hidx.
  { intros i. unfold py_index, resolve_index, bind. cbv zeta.
    destruct ((_ <? 0)%Z || (_ <=? _)%Z) eqn:E; [reflexivity|]. exfalso.
    apply orb_false_iff in E. destruct E as [E1 E2].
    apply Z.ltb_ge in E1. apply Z.leb_gt in E2. simpl in E1, E2.
    destruct (i <? 0)%Z eqn:E3; [apply Z.ltb_lt in E3|apply Z.ltb_ge in E3]; lia. }
  rewrite Hidx. eexists. split; [reflexivity|].
  set (run1 := if (_ <=? _)%Z then _ else run).
  assert (run_mode run1 = RunMode.step /\ run_status run1 = run_status run) as [Hm1 Hs1]
      by (unfold run1; destruct (_ <=? _)%Z; simpl; auto).
  unfold status_of. fields. rewrite lookup_insert_eq. simpl. rewrite Hs1.
  split; [reflexivity|]. split; [solve [auto]|]. split; [solve [auto]|].
  split; [reflexivity|]. split.
  - exists run1. fields. rewrite lookup_insert_eq. rewrite Hs1. auto.
  - exists ctx, round_idx, phase_idx. fields. auto.
Qed.

(** ** More facts: an auto run from start to end *)

Lemma appended_refl (rid : list N) (pos : nat) (o : Orch) : appended rid pos [] o o.
Proof.
  split; try reflexivity. intros run H. exists (run_rounds run).
  split; [rewrite H; destruct run; reflexivity|]. split; [reflexivity|].
  split; [reflexivity|]. intros r Hr. exists r. rewrite app_nil_r. auto.
Qed.

Lemma appended_trans (rid : list N) (pos : nat) (outs1 outs2 : list PhaseOutput)
      (o o1 o2 : Orch) :
  appended rid pos outs1 o o1 -> appended rid pos outs2 o1 o2 ->
  appended rid pos (outs1 ++ outs2) o o2.
Proof.
  intros [A1 A2 A3 A4] [B1 B2 B3 B4]. split; try congruence.
  intros run H. destruct (A4 _ H) as (rounds1 & H1 & L1 & O1 & P1).
  destruct (B4 _ H1) as (rounds2 & H2 & L2 & O2 & P2). simpl in L2, O2, P2.
  exists rounds2. split; [exact H2|]. split; [congruence|]. split.
  - intros i Hi. rewrite O2, O1 by exact Hi. reflexivity.
  - intros r Hr. destruct (P1 _ Hr) as (r1 & Hr1 & I1 & E1).
    destruct (P2 _ Hr1) as (r2 & Hr2 & I2 & E2).
    exists r2. split; [exact Hr2|]. split; [congruence|].
    rewrite E2, E1, app_assoc. reflexivity.
Qed.

Lemma appended_update (rid : list N) (pos : nat) (outs : list PhaseOutput)
      (f : RoundResult -> RoundResult) (o : Orch) :
  (forall r, rr_round_index (f r) = rr_round_index r
             /\ rr_phase_outputs (f r) = rr_phase_outputs r ++ outs) ->
  appended rid pos outs o (alter_round rid pos f o).
Proof.
  intros Hf. split; try reflexivity. intros run H.
  exists (alter f pos (run_rounds run)). unfold alter_round. fields.
  rewrite lookup_alter_eq, H. split; [reflexivity|].
  split; [apply length_alter|]. split.
  - intros i Hi. apply list_lookup_alter_ne. congruence.
  - intros r Hr. exists (f r). rewrite list_lookup_alter, Hr, decide_True by reflexivity.
    split; [reflexivity|apply Hf].
Qed.

Lemma appended_record (rid : list N) (pos : nat) (outs : list PhaseOutput) :
  forall o, appended rid pos outs o
              (fold_left (fun o' po => record_output rid pos po o') outs o).
Proof.
  induction outs as [|po outs IH]; intros o; simpl; [apply appended_refl|].
  apply (appended_trans rid pos [po] outs _ (record_output rid pos po o)); [|apply IH].
  apply appended_update. intros r. split; reflexivity.
Qed.

Lemma map_constant {A B : Type} (f : A -> B) (b : B) (l : list A) :
  Forall (fun a => f a = b) l -> List.map f l = repeat b (length l).
Proof. induction 1 as [|a l Ha _ IH]; simpl; [reflexivity|]. rewrite Ha, IH. reflexivity. Qed.

Lemma execute_phase_appended (env : PhaseEnv) (template_ : DebateTemplate) (phase : PhaseSpec)
      (rid : list N) (run : DebateRun) (round_index : Z) (pos : nat) (o : Orch) :
  exists outs,
    _execute_phase env template_ phase rid run round_index pos o
    = (Ok outs, fold_left (fun o' po => record_output rid pos po o') outs o)
    /\ List.map po_phase_id outs = repeat (ph_id phase) (length (t_participants template_)).
Proof.
  rewrite execute_phase_eq. cbv zeta. eexists. split; [reflexivity|].
  set (contributions := imap _ (t_participants template_)).
  assert (as_completed (pe_order env) contributions (length (t_participants template_))
          ≡ₚ contributions) as Hperm
      by (apply as_completed_perm; unfold contributions; rewrite length_imap; lia).
  assert (length (as_completed (pe_order env) contributions
                    (length (t_participants template_)))
          = length (t_participants template_)) as Hlen
      by (rewrite (Permutation_length Hperm); apply length_imap).
  etrans; [apply map_constant|f_equal; exact Hlen].
  rewrite Hperm. unfold contributions.
  apply Forall_forall. intros po Hin.
  apply list_elem_of_lookup in Hin. destruct Hin as [i Hi].
  apply list_lookup_imap_Some in Hi. destruct Hi as (p & _ & ->). reflexivity.
Qed.

(** A phase records the outputs of the phase: one of every participant. *)
Lemma execute_phase_outputs (env : PhaseEnv) (template_ : DebateTemplate) (phase : PhaseSpec)
      (rid : list N) (run : DebateRun) (round_index : Z) (pos : nat) (o : Orch) :
  _execute_phase env template_ phase rid run round_index pos o
  = (Ok (outputs_of_phase env template_ phase run round_index),
     fold_left (fun o' po => record_output rid pos po o')
       (outputs_of_phase env template_ phase run round_index) o).
Proof. rewrite execute_phase_eq. reflexivity. Qed.

Lemma outputs_of_phase_perm (env : PhaseEnv) (template_ : DebateTemplate) (phase : PhaseSpec)
      (run : DebateRun) (round_index : Z) :
  outputs_of_phase env template_ phase run round_index
  ≡ₚ imap (contribution env template_ phase run round_index) (t_participants template_).
Proof. apply as_completed_perm. rewrite length_imap. lia. Qed.

Lemma map_imap_const {A B C : Type} (f : B -> C) (h : A -> C) (l : list A) :
  forall g : nat -> A -> B,
    (forall i a, f (g i a) = h a) -> List.map f (imap g l) = List.map h l.
Proof.
  induction l as [|a l IH]; intros g Hg; [reflexivity|].
  simpl. rewrite Hg. f_equal. apply IH. intros i b. apply Hg.
Qed.

Lemma outputs_of_phase_one_each (env : PhaseEnv) (template_ : DebateTemplate)
      (phase : PhaseSpec) (run : DebateRun) (round_index : Z) :
  one_each template_ phase (outputs_of_phase env template_ phase run round_index).
Proof.
  unfold one_each. rewrite (Permutation_map speaker (outputs_of_phase_perm _ _ _ _ _)).
  rewrite (map_imap_const speaker (fun p => (ph_id phase, p_id p))); [reflexivity|].
  intros i p. reflexivity.
Qed.

Lemma filled_nil (template_ : DebateTemplate) : filled template_ [] [].
Proof. exists []. split; [reflexivity|constructor]. Qed.

Lemma filled_cons (template_ : DebateTemplate) (phase : PhaseSpec) (rest : list PhaseSpec)
      (outs outputs : list PhaseOutput) :
  one_each template_ phase outs -> filled template_ rest outputs ->
  filled template_ (phase :: rest) (outs ++ outputs).
Proof.
  intros H (chunks & -> & Hc). exists (outs :: chunks). split; [reflexivity|].
  constructor; assumption.
Qed.

Lemma filled_snoc (template_ : DebateTemplate) (phase : PhaseSpec) (phases : list PhaseSpec)
      (outs outputs : list PhaseOutput) :
  filled template_ phases outputs -> one_each template_ phase outs ->
  filled template_ (phases ++ [phase]) (outputs ++ outs).
Proof.
  intros (chunks & -> & Hc) H. exists (chunks ++ [outs]). split.
  - rewrite concat_app. simpl. rewrite app_nil_r. reflexivity.
  - apply Forall2_app; [exact Hc|]. constructor; [exact H|constructor].
Qed.

Lemma round_votes_appended (rid : list N) (pos : nat) (phase : PhaseSpec)
      (outputs : list PhaseOutput) (o o' : Orch) :
  round_votes rid pos phase outputs o = (Ok tt, o') -> appended rid pos [] o o'.
Proof.
  unfold round_votes. destruct (PhaseRole.eqb _ _);
    [|intros H; inversion H; apply appended_refl].
  unfold mbind, lift, modify. destruct (_tally_votes outputs) as [[votes outcome]|e];
    [|discriminate].
  intros H. inversion H; subst. apply appended_update.
  intros r. rewrite app_nil_r. split; reflexivity.
Qed.

Lemma round_summary_appended (rid : list N) (pos : nat) (r : reply) (o o' : Orch) :
  round_summary rid pos r o = (Ok tt, o') -> appended rid pos [] o o'.
Proof.
  unfold round_summary, mbind, lift, modify. destruct (_moderator_summary r) as [summary|e];
    [|discriminate].
  intros H. inversion H; subst. apply appended_update.
  intros r0. rewrite app_nil_r. split; reflexivity.
Qed.

Lemma phases_loop_appended (env : RoundEnv) (template_ : DebateTemplate) (rid : list N)
      (run : DebateRun) (round_index : Z) (pos : nat) (phases : list PhaseSpec) :
  forall i o o',
    phases_loop env template_ rid run round_index pos i phases o = (Ok tt, o') ->
    exists outs,
      appended rid pos outs o o'
      /\ filled template_ phases outs.
Proof.
  induction phases as [|phase rest IH]; intros i o o' H.
  - inversion H; subst. exists []. split; [apply appended_refl|apply filled_nil].
  - cbn [phases_loop] in H.
    pose proof (execute_phase_outputs (re_phase env i) template_ phase rid
                  (current rid run o) round_index pos o) as E1.
    pose proof (outputs_of_phase_one_each (re_phase env i) template_ phase
                  (current rid run o) round_index) as Hone.
    set (outs1 := outputs_of_phase _ _ _ _ _) in *.
    rewrite (mbind_ok _ _ _ _ _ E1) in H.
    set (o1 := fold_left _ outs1 o) in *.
    destruct (round_votes rid pos phase outs1 o1) as [[[]|e] o2] eqn:E2;
      [rewrite (mbind_ok _ _ _ _ _ E2) in H|rewrite (mbind_raise _ _ _ _ _ E2) in H;
                                             discriminate].
    destruct (IH _ _ _ H) as (outs & Happ & Hrest).
    exists (outs1 ++ outs). split.
    + eapply appended_trans; [|exact Happ].
      rewrite <- (app_nil_r outs1).
      eapply appended_trans; [apply appended_record|].
      exact (round_votes_appended _ _ _ _ _ _ E2).
    + apply filled_cons; assumption.
Qed.

(** [_execute_round] always opens a round: the next one. *)
Lemma round_prologue_ok (rid : list N) (o : Orch) (ctx : RunContext) (run : DebateRun) :
  _context o !! rid = Some ctx ->
  store_runs o !! rid = Some run ->
  let len := length (run_rounds run) in
  let run1 := with_rounds (fun rs => rs ++ [new_round (Z.of_nat len + 1)]) run in
  round_prologue rid o
  = (Ok (Some (template ctx, (Z.of_nat len + 1)%Z, len, run1)),
     set_runs (insert rid run1) o).
Proof.
  intros Hctx Hrun. cbv zeta. unfold round_prologue. rewrite Hctx, Hrun. cbv zeta.
  assert ((Z.of_nat (length (run_rounds run)) <? Z.of_nat (length (run_rounds run)) + 1)%Z
          = true) as -> by (apply Z.ltb_lt; lia).
  unfold mbind, lift, ret. cbn [run_rounds with_rounds].
  rewrite resolve_index_in_range by (rewrite length_app; simpl; lia).
  replace (Z.to_nat (Z.of_nat (length (run_rounds run)) + 1 - 1))
    with (length (run_rounds run)) by lia.
  reflexivity.
Qed.

(** One turn of the loop of an auto run that returned. *)
Lemma execute_round_ok (env : RoundEnv) (rid : list N) (o o' : Orch)
      (ctx : RunContext) (run : DebateRun) :
  _context o !! rid = Some ctx ->
  store_runs o !! rid = Some run ->
  _execute_round env rid o = (Ok tt, o') ->
  exists r,
    _context o' = _context o /\ _progress o' = _progress o
    /\ store_final_records o' = store_final_records o
    /\ store_runs o' !! rid = Some (with_rounds (fun _ => run_rounds run ++ [r]) run)
    /\ rr_round_index r = (Z.of_nat (length (run_rounds run)) + 1)%Z
    /\ filled (template ctx) (t_phases (template ctx)) (rr_phase_outputs r).
Proof.
  intros Hctx Hrun H. unfold _execute_round in H.
  pose proof (round_prologue_ok rid o ctx run Hctx Hrun) as Hp. cbv zeta in Hp.
  rewrite (mbind_ok _ _ _ _ _ Hp) in H.
  set (len := length (run_rounds run)) in *.
  set (run1 := with_rounds (fun rs => rs ++ [new_round (Z.of_nat len + 1)]) run) in *.
  set (o1 := set_runs (insert rid run1) o) in *.
  destruct (phases_loop env (template ctx) rid run1 (Z.of_nat len + 1) len 0
              (t_phases (template ctx)) o1) as [[[]|e] o2] eqn:E2;
    [rewrite (mbind_ok _ _ _ _ _ E2) in H|rewrite (mbind_raise _ _ _ _ _ E2) in H;
                                           discriminate].
  destruct (phases_loop_appended _ _ _ _ _ _ _ _ _ _ E2) as (outs & Happ & Hids).
  assert (appended rid len outs o1 o') as Happ'.
  { destruct (t_moderator (template ctx)).
    - rewrite <- (app_nil_r outs). eapply appended_trans; [exact Happ|].
      exact (round_summary_appended _ _ _ _ _ H).
    - inversion H; subst. exact Happ. }
  destruct Happ' as [A1 A2 A3 A4].
  assert (store_runs o1 !! rid = Some run1) as Hrun1
      by (unfold o1; fields; apply lookup_insert_eq).
  destruct (A4 _ Hrun1) as (rounds' & Hrun' & Hlen & Hother & Hpos).
  cbn [run_rounds run1 with_rounds] in Hlen, Hother, Hpos.
  destruct (Hpos (new_round (Z.of_nat len + 1))) as (r & Hr & Hidx & Houts).
  { rewrite lookup_app_r by reflexivity. unfold len. rewrite Nat.sub_diag. reflexivity. }
  exists r. split; [exact A1|]. split; [exact A2|]. split; [exact A3|].
  split; [|split; [exact Hidx|rewrite Houts; exact Hids]].
  rewrite Hrun'. f_equal. unfold run1, with_rounds. cbn [run_id run_template_id run_title
    run_topic run_status run_mode run_rounds]. f_equal.
  apply list_eq. intros i. destruct (decide (i = len)) as [->|Hne].
  - rewrite Hr. rewrite lookup_app_r by reflexivity. unfold len. rewrite Nat.sub_diag.
    reflexivity.
  - rewrite (Hother _ Hne). destruct (decide (i < len)) as [Hlt|Hge].
    + rewrite !lookup_app_l by exact Hlt. reflexivity.
    + rewrite !lookup_ge_None_2 by (rewrite length_app; simpl; fold len; lia).
      reflexivity.
Qed.

(** The loop over the rounds, when it returns, has added its rounds. *)
Lemma rounds_loop_ok (envs : nat -> RoundEnv) (rid : list N) (ctx : RunContext) (todo : nat) :
  forall i o o' run,
    _context o !! rid = Some ctx ->
    store_runs o !! rid = Some run ->
    rounds_loop envs rid i todo o = (Ok tt, o') ->
    exists news,
      _context o' = _context o /\ _progress o' = _progress o
      /\ store_final_records o' = store_final_records o
      /\ store_runs o' !! rid = Some (with_rounds (fun _ => run_rounds run ++ news) run)
      /\ length news = todo
      /\ forall k r,
          news !! k = Some r ->
          rr_round_index r = Z.of_nat (length (run_rounds run) + k + 1)
          /\ filled (template ctx) (t_phases (template ctx)) (rr_phase_outputs r).
Proof.
  induction todo as [|todo IH]; intros i o o' run Hctx Hrun H.
  - inversion H; subst. exists []. rewrite app_nil_r.
    split; [reflexivity|]. split; [reflexivity|]. split; [reflexivity|].
    split; [rewrite Hrun; destruct run; reflexivity|]. split; [reflexivity|].
    intros k r Hk. discriminate.
  - cbn [rounds_loop] in H.
    destruct (_execute_round (envs i) rid o) as [[[]|e] o1] eqn:E1;
      [rewrite (mbind_ok _ _ _ _ _ E1) in H|rewrite (mbind_raise _ _ _ _ _ E1) in H;
                                             discriminate].
    destruct (execute_round_ok _ _ _ _ _ _ Hctx Hrun E1)
      as (r1 & C1 & P1 & F1 & R1 & I1 & O1).
    assert (_context o1 !! rid = Some ctx) as Hctx1 by (rewrite C1; exact Hctx).
    destruct (IH _ _ _ _ Hctx1 R1 H) as (news & C2 & P2 & F2 & R2 & L2 & N2).
    cbn [run_rounds with_rounds] in R2, N2.
    exists (r1 :: news). split; [congruence|]. split; [congruence|]. split; [congruence|].
    split; [|split; [simpl; congruence|]].
    + rewrite R2. f_equal. unfold with_rounds. cbn [run_id run_template_id run_title
        run_topic run_status run_mode run_rounds]. rewrite <- app_assoc. reflexivity.
    + intros [|k] r Hk; simpl in Hk.
      * inversion Hk; subst. split; [rewrite I1; lia|exact O1].
      * destruct (N2 _ _ Hk) as [N2a N2b]. split; [|exact N2b].
        rewrite N2a, length_app. simpl. lia.
Qed.

(** A finalization that returned, of a run that had a context. *)
Lemma finalize_ok (rid : list N) (o o' : Orch) (ctx : RunContext) (run : DebateRun) :
  _context o !! rid = Some ctx ->
  store_runs o !! rid = Some run ->
  _finalize rid o = (Ok tt, o') ->
  exists outcome,
    match last (run_rounds run) with
    | Some r => rr_outcome r = Some outcome
    | None => outcome = RoundOutcome.invalid
    end
    /\ store_runs o' !! rid = Some (with_status RunStatus.completed run)
    /\ store_final_records o'
       = store_final_records o
           ++ [ {| fr_debate_id := run_id run; fr_title := run_title run;
                   fr_final_outcome := outcome |} ]
    /\ _context o' !! rid = None
    /\ _progress o' !! rid = None.
Proof.
  intros Hctx Hrun. unfold _finalize. rewrite Hctx, Hrun, last_map_Some.
  destruct (last (run_rounds run)) as [r|].
  - destruct (rr_outcome r) as [outcome|]; cbn [make_FinalRecord]; [|discriminate].
    intros H. inversion H; subst. exists outcome. fields.
    rewrite lookup_alter_eq, Hrun, !lookup_delete_eq. auto.
  - cbn [make_FinalRecord]. intros H. inversion H; subst. exists RoundOutcome.invalid. fields.
    rewrite lookup_alter_eq, Hrun, !lookup_delete_eq. auto.
Qed.

(** X16: an auto run that runs to its end undisturbed.  Here
    [_run_to_completion] runs from its first statement to its last with
    nothing else done on the orchestrator in between: no [cancel], no
    other request, no other coroutine ([envs] gives the order and the
    replies of the calls of every round, and is the only input).  When it
    returns so, the run it returns is the run of the store: completed,
    with the rounds it had followed by as many new rounds as the context
    plans, numbered on from the last; the outputs of each new round are
    those of the phases of the template, phase after phase, and those of
    a phase carry its [phase_id] and the [participant_id] of every
    participant of the roster, once each, in some order; one final record
    is added, with the run's id and title and the outcome of its last
    round (INVALID when it has no round); the context and the cursor of
    the run are gone; and that is how the background task ends, when it
    is resumed on its own calls only. *)
Theorem auto_run_completes
        (envs : nat -> RoundEnv) (rid : list N) (o o' : Orch)
        (ctx : RunContext) (run final_copy : DebateRun) :
  _context o !! rid = Some ctx ->
  store_runs o !! rid = Some run ->
  _run_to_completion envs rid o = (Ok final_copy, o') ->
  exists news outcome,
    final_copy
    = with_status RunStatus.completed (with_rounds (fun _ => run_rounds run ++ news) run)
    /\ store_runs o' !! rid = Some final_copy
    /\ length news = Z.to_nat (total_rounds ctx)
    /\ (forall k r,
           news !! k = Some r ->
           rr_round_index r = Z.of_nat (length (run_rounds run) + k + 1)
           /\ filled (template ctx) (t_phases (template ctx)) (rr_phase_outputs r))
    /\ store_final_records o'
       = store_final_records o
           ++ [ {| fr_debate_id := run_id run; fr_title := run_title run;
                   fr_final_outcome := outcome |} ]
    /\ match last (run_rounds run ++ news) with
       | Some r => rr_outcome r = Some outcome
       | None => outcome = RoundOutcome.invalid
       end
    /\ _context o' !! rid = None
    /\ _progress o' !! rid = None
    /\ exists fuel,
        forall fuel', (fuel <= fuel')%nat ->
          drive_auto envs (Z.to_nat (total_rounds ctx)) fuel' (auto_begin rid o)
          = (Ok (AutoReturned final_copy), o').
Proof.
  intros Hctx Hrun H.
  pose proof (run_to_completion_coroutine_agrees envs rid o) as Halone.
  unfold rounds_planned in Halone. rewrite Hctx, H in Halone. cbn [auto_returned] in Halone.
  unfold _run_to_completion in H. rewrite Hctx, Hrun in H.
  destruct (rounds_loop envs rid 0 (Z.to_nat (total_rounds ctx)) o) as [[[]|e] o1] eqn:E1;
    [rewrite (mbind_ok _ _ _ _ _ E1) in H|rewrite (mbind_raise _ _ _ _ _ E1) in H;
                                           discriminate].
  destruct (rounds_loop_ok _ _ _ _ _ _ _ _ Hctx Hrun E1) as (news & C1 & P1 & F1 & R1 & L1 & N1).
  destruct (_finalize rid o1) as [[[]|e] o2] eqn:E2;
    [rewrite (mbind_ok _ _ _ _ _ E2) in H|rewrite (mbind_raise _ _ _ _ _ E2) in H;
                                           discriminate].
  assert (_context o1 !! rid = Some ctx) as Hctx1 by (rewrite C1; exact Hctx).
  destruct (finalize_ok _ _ _ _ _ Hctx1 R1 E2) as (outcome & Hout & R2 & F2 & C2 & P2).
  cbn [run_rounds with_rounds run_id run_title] in Hout, F2.
  inversion H; subst o' final_copy. unfold current. rewrite R2. cbn [default].
  exists news, outcome. split; [reflexivity|]. split; [reflexivity|]. split; [exact L1|].
  split; [exact N1|]. split; [rewrite F2, F1; reflexivity|].
  split; [exact Hout|]. split; [exact C2|]. split; [exact P2|].
  unfold current in Halone. rewrite R2 in Halone. exact Halone.
Qed.

(** ** More facts: the life of a template *)

(** X17: a template can be started from exactly while the store holds
    it.  A template that passes its validators (at least one round, a
    roster of 3, 5 or 7) is stored when posted, and a run started from its
    id gets it as the template of its context; a template that does not
    pass them leaves the store as it is; and once a template is deleted,
    [start_debate] on its id raises [template not found] and changes
    nothing. *)
Theorem template_lifecycle
        (c : Config) (template_ : DebateTemplate) (payload : StartDebateRequest)
        (new_id : list N) :
  req_template_id payload = t_id template_ ->
  (template_valid template_ = true ->
   exists c1 run o2,
     handle (AddTemplate template_) c = Some c1
     /\ start_debate payload new_id (orch c1) = (Ok run, o2)
     /\ template <$> _context o2 !! new_id = Some template_
     /\ store_runs o2 !! new_id = Some run
     /\ run_template_id run = t_id template_
     /\ run_title run = t_name template_
     /\ run_status run = RunStatus.running
     /\ run_rounds run = [])
  /\ (template_valid template_ = false ->
      handle (AddTemplate template_) c = Some c)
  /\ (exists c1,
         handle (DeleteTemplate (t_id template_)) c = Some c1
         /\ start_debate payload new_id (orch c1) = (Raise template_not_found, orch c1)).
Proof.
  intros Hid. split; [|split].
  - intros Hvalid.
    assert (Hstart : store_templates
              (set_templates (insert (t_id template_) template_) (orch c))
              !! req_template_id payload = Some template_).
    { rewrite Hid. destruct (orch c). apply lookup_insert_eq. }
    eexists _, _, _. split; [cbn [handle]; rewrite Hvalid; reflexivity|].
    cbn [orch]. unfold start_debate. rewrite Hstart.
    split; [reflexivity|]. destruct (orch c). cbn. rewrite !lookup_insert_eq. auto 10.
  - intros Hvalid. simpl. rewrite Hvalid. destruct c; reflexivity.
  - eexists. split; [reflexivity|]. cbn [orch]. unfold start_debate.
    replace (store_templates (set_templates (delete (t_id template_)) (orch c))
               !! req_template_id payload) with (@None DebateTemplate); [reflexivity|].
    rewrite Hid. destruct (orch c). symmetry. apply lookup_delete_eq.
Qed.

(** ** More facts: one step of a step run *)

Lemma with_round_at_length (round_idx : Z) (run : DebateRun) :
  (0 <= round_idx <= Z.of_nat (length (run_rounds run)))%Z ->
  length (run_rounds (with_round_at round_idx run))
  = Nat.max (length (run_rounds run)) (Z.to_nat round_idx + 1).
Proof.
  intros H. unfold with_round_at.
  destruct (Z.leb_spec (Z.of_nat (length (run_rounds run))) round_idx); cbn [run_rounds with_rounds].
  - rewrite length_app. simpl. lia.
  - lia.
Qed.

Lemma with_round_at_round (round_idx : Z) (run : DebateRun) :
  (0 <= round_idx <= Z.of_nat (length (run_rounds run)))%Z ->
  run_rounds (with_round_at round_idx run) !! Z.to_nat round_idx
  = Some (round_at run round_idx).
Proof.
  intros H. unfold with_round_at, round_at.
  destruct (Z.leb_spec (Z.of_nat (length (run_rounds run))) round_idx); cbn [run_rounds with_rounds].
  - rewrite lookup_app_r by lia.
    rewrite (lookup_ge_None_2 (run_rounds run)) by lia.
    replace (Z.to_nat round_idx - length (run_rounds run)) with 0 by lia. reflexivity.
  - destruct (run_rounds run !! Z.to_nat round_idx) eqn:E; [reflexivity|].
    apply lookup_ge_None in E. lia.
Qed.

Lemma with_round_at_others (round_idx : Z) (run : DebateRun) (i : nat) :
  i < length (run_rounds run) ->
  run_rounds (with_round_at round_idx run) !! i = run_rounds run !! i.
Proof.
  intros H. unfold with_round_at.
  destruct (_ <=? _)%Z; cbn [run_rounds with_rounds]; [|reflexivity].
  apply lookup_app_l. exact H.
Qed.

Lemma with_round_at_same (round_idx : Z) (run : DebateRun) :
  with_round_at round_idx run
  = with_rounds (fun _ => run_rounds (with_round_at round_idx run)) run.
Proof. unfold with_round_at. destruct (_ <=? _)%Z; destruct run; reflexivity. Qed.

(** What the round of the cursor got since the step began gives what the
    step made of the run. *)
Lemma appended_stepped (rid : list N) (round_idx : Z) (run : DebateRun)
      (outs : list PhaseOutput) (o o' : Orch) :
  (0 <= round_idx <= Z.of_nat (length (run_rounds run)))%Z ->
  appended rid (Z.to_nat round_idx) outs
    (set_runs (insert rid (with_round_at round_idx run)) o) o' ->
  exists run', store_runs o' !! rid = Some run' /\ stepped run round_idx outs run'.
Proof.
  intros Hri [_ _ _ Hrun].
  destruct (Hrun (with_round_at round_idx run)) as (rounds' & H' & Hlen & Hothers & Hround).
  { fields. apply lookup_insert_eq. }
  eexists. split; [exact H'|]. split; cbn [run_rounds with_rounds].
  - rewrite (with_round_at_same round_idx run) at 1. destruct run; reflexivity.
  - rewrite Hlen. apply with_round_at_length. exact Hri.
  - intros i Hi Hlt. rewrite Hothers by exact Hi. apply with_round_at_others. exact Hlt.
  - apply Hround. apply with_round_at_round. exact Hri.
Qed.

Lemma py_index_at {A : Type} (l : list A) (i : Z) (a : A) :
  (0 <= i)%Z -> l !! Z.to_nat i = Some a -> py_index l i = Ok a.
Proof.
  intros H0 H. pose proof (lookup_lt_Some _ _ _ H) as Hlt.
  unfold py_index. rewrite resolve_index_in_range by lia. simpl. rewrite H. reflexivity.
Qed.

Lemma at_cursor_prologue (rid : list N) (ctx : RunContext) (run : DebateRun)
      (round_idx phase_idx : Z) (phase : PhaseSpec) (o : Orch) :
  at_cursor rid ctx run round_idx phase_idx phase o ->
  step_prologue rid o
  = (Ok (Some (ctx, round_idx, phase_idx, phase, Z.to_nat round_idx,
               with_round_at round_idx run)),
     set_runs (insert rid (with_round_at round_idx run)) o).
Proof.
  intros [Hctx Hrun _ _ Hcur Hri Hlen Hpi Hphase].
  unfold step_prologue. rewrite Hctx, Hrun, Hcur.
  assert ((total_rounds ctx <=? round_idx)%Z = false) as -> by (apply Z.leb_gt; lia).
  cbv zeta. fold (with_round_at round_idx run).
  unfold mbind, lift, ret. rewrite (py_index_at _ _ _ Hpi Hphase).
  rewrite resolve_index_in_range; [reflexivity|].
  rewrite with_round_at_length by lia. lia.
Qed.

(** The votes of a step: recorded in the round of the cursor, unless the
    tally raises, which leaves everything as it is. *)
Lemma step_votes_cases (rid : list N) (round_idx : Z) (phase : PhaseSpec)
      (outs : list PhaseOutput) (run : DebateRun) (o : Orch) :
  store_runs o !! rid = Some run ->
  (0 <= round_idx < Z.of_nat (length (run_rounds run)))%Z ->
  (exists o', step_votes rid round_idx phase outs o = (Ok tt, o')
              /\ appended rid (Z.to_nat round_idx) [] o o')
  \/ (step_votes rid round_idx phase outs o = (Raise IndexError, o)
      /\ ph_role phase = PhaseRole.vote).
Proof.
  intros Hrun Hri. unfold step_votes.
  destruct (PhaseRole.eqb (ph_role phase) PhaseRole.vote) eqn:Hrole.
  - unfold mbind, lift, modify. destruct (_tally_votes outs) as [[votes outcome]|e] eqn:E.
    + left. rewrite Hrun, resolve_index_in_range by exact Hri.
      eexists. split; [reflexivity|]. apply appended_update.
      intros r. rewrite app_nil_r. split; reflexivity.
    + right. rewrite (tally_votes_raises _ _ E). split; [reflexivity|].
      destruct (ph_role phase); try discriminate; reflexivity.
  - left. eexists. split; [reflexivity|]. apply appended_refl.
Qed.

(** The moderator's summary of a step: recorded in the round of the
    cursor, unless the call fails, which leaves everything as it is. *)
Lemma step_summary_cases (rid : list N) (round_idx : Z) (r : reply)
      (run : DebateRun) (o : Orch) :
  store_runs o !! rid = Some run ->
  (0 <= round_idx < Z.of_nat (length (run_rounds run)))%Z ->
  (exists o', (do _ <- step_round rid round_idx; step_summary rid round_idx r) o = (Ok tt, o')
              /\ appended rid (Z.to_nat round_idx) [] o o')
  \/ (exists msg, (do _ <- step_round rid round_idx; step_summary rid round_idx r) o
                  = (Raise (ChatError msg), o)
                  /\ r = Failed msg).
Proof.
  intros Hrun Hri. unfold step_round, step_summary, mbind, lift, modify, ret.
  rewrite Hrun, resolve_index_in_range by exact Hri.
  destruct r as [summary|msg]; cbn [_moderator_summary].
  - left. rewrite Hrun, resolve_index_in_range by exact Hri.
    eexists. split; [reflexivity|]. apply appended_update.
    intros r. rewrite app_nil_r. split; reflexivity.
  - right. exists msg. split; reflexivity.
Qed.

Lemma appended_length (rid : list N) (pos : nat) (outs : list PhaseOutput) (o o' : Orch)
      (run : DebateRun) :
  appended rid pos outs o o' -> store_runs o !! rid = Some run ->
  exists run', store_runs o' !! rid = Some run'
               /\ length (run_rounds run') = length (run_rounds run).
Proof.
  intros [_ _ _ H] Hrun. destruct (H _ Hrun) as (rounds' & H' & Hlen & _).
  eexists. split; [exact H'|exact Hlen].
Qed.

(** One step, from a cursor inside the plan: the phase runs and its
    outputs are recorded; then either the tally or the moderator's call
    raises, with nothing else done, or the step goes on to move the
    cursor. *)
Lemma execute_phase_step_cases (env : PhaseEnv) (moderator_reply : reply) (rid : list N)
      (ctx : RunContext) (run : DebateRun) (round_idx phase_idx : Z) (phase : PhaseSpec)
      (o : Orch) :
  at_cursor rid ctx run round_idx phase_idx phase o ->
  exists outs o4,
    outs = outputs_of_phase env (template ctx) phase (with_round_at round_idx run)
             (round_idx + 1)%Z
    /\ appended rid (Z.to_nat round_idx) outs
         (set_runs (insert rid (with_round_at round_idx run)) o) o4
    /\ ((exists e,
            _execute_phase_step env moderator_reply rid o = (Raise e, o4)
            /\ (e = IndexError /\ ph_role phase = PhaseRole.vote
                \/ exists msg, moderator_reply = Failed msg /\ e = ChatError msg))
        \/ _execute_phase_step env moderator_reply rid o
           = step_finish rid ctx (next_cursor ctx round_idx phase_idx).1
               (next_cursor ctx round_idx phase_idx).2 o4).
Proof.
  intros Hs. pose proof Hs as [Hctx Hrun _ _ Hcur Hri Hlen Hpi Hphase].
  set (run1 := with_round_at round_idx run).
  set (o1 := set_runs (insert rid run1) o).
  assert (Hrun1 : store_runs o1 !! rid = Some run1) by (subst o1; fields; apply lookup_insert_eq).
  assert (Hlen1 : (0 <= round_idx < Z.of_nat (length (run_rounds run1)))%Z).
  { subst run1. rewrite with_round_at_length by lia. lia. }
  unfold _execute_phase_step.
  rewrite (mbind_ok _ _ _ _ _ (at_cursor_prologue _ _ _ _ _ _ _ Hs)).
  fold run1 o1.
  pose proof (execute_phase_outputs env (template ctx) phase rid run1 (round_idx + 1)%Z
                (Z.to_nat round_idx) o1) as Hphase_run.
  assert (Hids : outputs_of_phase env (template ctx) phase run1 (round_idx + 1)%Z
                 = outputs_of_phase env (template ctx) phase (with_round_at round_idx run)
                     (round_idx + 1)%Z) by reflexivity.
  set (outs := outputs_of_phase env (template ctx) phase run1 (round_idx + 1)%Z) in *.
  rewrite (mbind_ok _ _ _ _ _ Hphase_run).
  set (o2 := fold_left _ outs o1).
  assert (A2 : appended rid (Z.to_nat round_idx) outs o1 o2) by apply appended_record.
  destruct (appended_length _ _ _ _ _ _ A2 Hrun1) as (run2 & Hrun2 & Hlen2).
  destruct (step_votes_cases rid round_idx phase outs run2 o2 Hrun2)
    as [(o3 & Hvotes & A3)|[Hvotes Hrole]]; [lia| |].
  2:{ exists outs, o2. split; [exact Hids|]. split; [exact A2|]. left.
      exists IndexError. rewrite (mbind_raise _ _ _ _ _ Hvotes). auto. }
  rewrite (mbind_ok _ _ _ _ _ Hvotes).
  assert (A13 : appended rid (Z.to_nat round_idx) outs o1 o3).
  { rewrite <- (app_nil_r outs). exact (appended_trans _ _ _ _ _ _ _ A2 A3). }
  destruct (appended_length _ _ _ _ _ _ A3 Hrun2) as (run3 & Hrun3 & Hlen3).
  unfold next_cursor. destruct (last_phase ctx phase_idx); cbn [fst snd].
  - destruct (t_moderator (template ctx)) as [moderator|].
    + destruct (step_summary_cases rid round_idx moderator_reply run3 o3 Hrun3)
        as [(o4 & Hsum & A4)|(msg & Hsum & Hmsg)]; [lia| |].
      * exists outs, o4. split; [exact Hids|]. split.
        { rewrite <- (app_nil_r outs). exact (appended_trans _ _ _ _ _ _ _ A13 A4). }
        right. rewrite (mbind_ok _ _ _ _ _ Hsum). reflexivity.
      * exists outs, o3. split; [exact Hids|]. split; [exact A13|]. left.
        exists (ChatError msg). rewrite (mbind_raise _ _ _ _ _ Hsum). eauto.
    + exists outs, o3. split; [exact Hids|]. split; [exact A13|]. right. reflexivity.
  - exists outs, o3. split; [exact Hids|]. split; [exact A13|]. right. reflexivity.
Qed.

Lemma at_cursor_next (ctx : RunContext) (phase_idx : Z) (phase : PhaseSpec) :
  (0 <= phase_idx)%Z ->
  t_phases (template ctx) !! Z.to_nat phase_idx = Some phase ->
  forall round_idx,
    (0 <= (next_cursor ctx round_idx phase_idx).2)%Z
    /\ (round_idx <= (next_cursor ctx round_idx phase_idx).1 <= round_idx + 1)%Z
    /\ exists phase',
        t_phases (template ctx) !! Z.to_nat (next_cursor ctx round_idx phase_idx).2
        = Some phase'.
Proof.
  intros Hpi Hphase round_idx. pose proof (lookup_lt_Some _ _ _ Hphase) as Hlt.
  unfold next_cursor, last_phase.
  destruct (Z.eqb_spec phase_idx (Z.of_nat (length (t_phases (template ctx))) - 1));
    cbn [fst snd].
  - split; [lia|]. split; [lia|]. apply lookup_lt_is_Some. simpl. lia.
  - split; [lia|]. split; [lia|]. apply lookup_lt_is_Some. lia.
Qed.

(** X18: an advance that raises is not rolled back.  Here [advance] runs
    from its first statement to its last with nothing else done on the
    orchestrator in between: no [cancel], no other [advance], no other
    coroutine ([env] and [moderator_reply] are its only inputs).  When
    such a call, on a step run whose cursor is inside the plan, raises
    anything but the validation error of the final record, it is the
    tally of a vote phase that raised [IndexError], or the moderator's
    call that failed.  The round of the cursor has got the outputs of the
    phase all the same: the contribution of every participant of the
    roster, to the messages built for it from the run as the call found
    it, each once, in the order of completion.  And the cursor has not
    moved: the run stands at the same cursor, so that the next such
    advance runs the same phase again.  The coroutine of the call,
    resumed on its own calls only, ends in the same way. *)
Theorem raising_advance_keeps_its_outputs
        (env : PhaseEnv) (moderator_reply : reply) (rid : list N) (ctx : RunContext)
        (run : DebateRun) (round_idx phase_idx : Z) (phase : PhaseSpec)
        (o o' : Orch) (e : exn) :
  at_cursor rid ctx run round_idx phase_idx phase o ->
  advance_debate env moderator_reply rid o = (Raise e, o') ->
  e <> ValidationError ->
  drive_advance env moderator_reply rid o = (Raise e, o')
  /\ (e = IndexError /\ ph_role phase = PhaseRole.vote
      \/ exists msg, moderator_reply = Failed msg /\ e = ChatError msg)
  /\ exists run' outs,
      at_cursor rid ctx run' round_idx phase_idx phase o'
      /\ stepped run round_idx outs run'
      /\ outs = outputs_of_phase env (template ctx) phase (with_round_at round_idx run)
                  (round_idx + 1)%Z
      /\ outs ≡ₚ imap (contribution env (template ctx) phase (with_round_at round_idx run)
                         (round_idx + 1)%Z)
                    (t_participants (template ctx))
      /\ store_final_records o' = store_final_records o.
Proof.
  intros Hs H He. pose proof Hs as [Hctx Hrun Hmode Hstatus Hcur Hri Hlen Hpi Hphase].
  split; [rewrite advance_coroutine_agrees, H; reflexivity|].
  unfold advance_debate in H. rewrite Hctx, Hrun, Hmode, Hstatus in H.
  cbn [RunMode.eqb negb] in H.
  destruct (execute_phase_step_cases env moderator_reply rid ctx run round_idx phase_idx
              phase o Hs) as (outs & o4 & Hids & A & [(e' & Hraise & Hwhy)|Hmove]).
  - rewrite (mbind_raise _ _ _ _ _ Hraise) in H. inversion H; subst e' o4.
    split; [exact Hwhy|].
    destruct (appended_stepped rid round_idx run outs o o' ltac:(lia) A)
      as (run' & Hrun' & Hstepped).
    exists run', outs. destruct A as [Actx Acur Afin _]. fields.
    split; [|split; [exact Hstepped|]; split; [exact Hids|]; split; [|exact Afin];
             rewrite Hids; apply outputs_of_phase_perm].
    pose proof Hstepped as [Hsame Hlen' _ _].
    split; try congruence.
    + rewrite Hsame. exact Hmode.
    + rewrite Hsame. exact Hstatus.
    + lia.
  - exfalso.
    destruct (step_finish rid ctx (next_cursor ctx round_idx phase_idx).1
                (next_cursor ctx round_idx phase_idx).2 o4) as [[[]|e'] o5] eqn:Ef.
    + rewrite (mbind_ok _ _ _ _ _ Hmove) in H. unfold respond in H. discriminate.
    + rewrite (mbind_raise _ _ _ _ _ Hmove) in H. inversion H; subst e' o5.
      unfold step_finish, mbind, modify, ret in Ef.
      destruct (_ <=? _)%Z; [|discriminate].
      exact (He (finalize_raises _ _ _ _ Ef)).
Qed.

(** An advance that returns, from a cursor inside the plan: the outputs of
    the phase are in the round of the cursor, and the cursor has moved;
    past the last round, the run is finalized. *)
Lemma advance_returned
        (env : PhaseEnv) (moderator_reply : reply) (rid : list N) (ctx : RunContext)
        (run : DebateRun) (round_idx phase_idx : Z) (phase : PhaseSpec)
        (o o' : Orch) (response : AdvanceDebateResponse) :
  at_cursor rid ctx run round_idx phase_idx phase o ->
  advance_debate env moderator_reply rid o = (Ok response, o') ->
  exists run_mid outs,
    stepped run round_idx outs run_mid
    /\ outs = outputs_of_phase env (template ctx) phase (with_round_at round_idx run)
                (round_idx + 1)%Z
    /\ outs ≡ₚ imap (contribution env (template ctx) phase (with_round_at round_idx run)
                       (round_idx + 1)%Z)
                  (t_participants (template ctx))
    /\ store_runs o' !! rid = Some (debate response)
    /\ if (total_rounds ctx <=? (next_cursor ctx round_idx phase_idx).1)%Z
       then debate response = with_status RunStatus.completed run_mid
            /\ done response = true
            /\ _context o' !! rid = None
            /\ _progress o' !! rid = None
            /\ exists r outcome,
                last (run_rounds run_mid) = Some r
                /\ rr_outcome r = Some outcome
                /\ store_final_records o'
                   = store_final_records o
                       ++ [ {| fr_debate_id := run_id run; fr_title := run_title run;
                               fr_final_outcome := outcome |} ]
       else debate response = run_mid
            /\ done response = false
            /\ store_final_records o' = store_final_records o
            /\ exists phase',
                at_cursor rid ctx run_mid (next_cursor ctx round_idx phase_idx).1
                  (next_cursor ctx round_idx phase_idx).2 phase' o'.
Proof.
  intros Hs H. pose proof Hs as [Hctx Hrun Hmode Hstatus Hcur Hri Hlen Hpi Hphase].
  unfold advance_debate in H. rewrite Hctx, Hrun, Hmode, Hstatus in H.
  cbn [RunMode.eqb negb] in H.
  destruct (execute_phase_step_cases env moderator_reply rid ctx run round_idx phase_idx
              phase o Hs) as (outs & o4 & Hids & A & [(e' & Hraise & _)|Hmove]).
  { rewrite (mbind_raise _ _ _ _ _ Hraise) in H. discriminate. }
  destruct (appended_stepped rid round_idx run outs o o4 ltac:(lia) A)
    as (run_mid & Hmid & Hstepped).
  exists run_mid, outs. split; [exact Hstepped|]. split; [exact Hids|].
  split; [rewrite Hids; apply outputs_of_phase_perm|].
  destruct A as [Actx Acur Afin _]. fields.
  pose proof Hstepped as [Hsame Hlen' _ _].
  destruct (at_cursor_next ctx phase_idx phase Hpi Hphase round_idx)
    as (Hpi' & Hri' & phase' & Hphase').
  set (next := next_cursor ctx round_idx phase_idx) in *.
  set (o5 := set_progress (insert rid (next.1, next.2)) o4).
  assert (Hmove' : _execute_phase_step env moderator_reply rid o
                   = if (total_rounds ctx <=? next.1)%Z then _finalize rid o5
                     else (Ok tt, o5)).
  { rewrite Hmove. unfold step_finish, mbind, modify, ret. fold o5.
    destruct (_ <=? _)%Z; reflexivity. }
  clear Hmove. destruct (Z.leb_spec (total_rounds ctx) next.1) as [Hover|Hin].
  - destruct (_finalize rid o5) as [[[]|e'] o6] eqn:Ef.
    2:{ rewrite (mbind_raise _ _ _ _ _ Hmove') in H. discriminate. }
    rewrite (mbind_ok _ _ _ _ _ Hmove') in H. unfold respond, current in H.
    destruct (finalize_ok rid o5 o6 ctx run_mid) as (outcome & Hlast & Hrun6 & Hfin & Hc6 & Hp6);
      [subst o5; fields; congruence|exact Hmid|exact Ef|].
    rewrite Hrun6 in H. cbn [default] in H. inversion H; subst response o6.
    cbn [debate done]. split; [exact Hrun6|]. split; [reflexivity|].
    split; [reflexivity|]. split; [exact Hc6|]. split; [exact Hp6|].
    destruct (last (run_rounds run_mid)) as [r|] eqn:El.
    + exists r, outcome. split; [reflexivity|]. split; [exact Hlast|].
      rewrite Hfin. subst o5. fields. rewrite Afin, Hsame. reflexivity.
    + apply last_None in El. rewrite El in Hlen'. simpl in Hlen'. lia.
  - rewrite (mbind_ok _ _ _ _ _ Hmove') in H. unfold respond, current in H.
    assert (Hrun5 : store_runs o5 !! rid = Some run_mid) by exact Hmid.
    rewrite Hrun5 in H. cbn [default] in H. inversion H; subst response o'.
    cbn [debate done]. split; [exact Hrun5|]. split; [reflexivity|].
    split.
    { rewrite Hsame. cbn [run_status with_rounds]. exact Hstatus. }
    split; [exact Afin|]. exists phase'. subst o5. split; fields.
    + congruence.
    + exact Hmid.
    + rewrite Hsame. exact Hmode.
    + rewrite Hsame. exact Hstatus.
    + rewrite lookup_insert_eq. destruct next; reflexivity.
    + lia.
    + lia.
    + exact Hpi'.
    + exact Hphase'.
Qed.

(** X19: an advance that returns.  Here [advance] runs from its first
    statement to its last with nothing else done on the orchestrator in
    between: no [cancel], no other [advance], no other coroutine ([env]
    and [moderator_reply] are its only inputs).  When such a call, on a
    step run whose cursor is inside the plan, returns, the round of the
    cursor has got the outputs of the phase: the contribution of every
    participant of the roster, to the messages built for it from the run
    as the call found it, each once, in the order of completion; the
    other rounds are as they were; and the response holds the run of the
    store.  When the cursor moves past the last round, the run is
    completed, [done] is true, one final record is added, with the
    outcome of the last round, and the context and the cursor are gone;
    otherwise [done] is false, no final record is added, and the run
    stands at the next cursor, inside the plan.  The coroutine of the
    call, resumed on its own calls only, returns the same response and
    leaves the same state. *)
Theorem returning_advance_moves_the_cursor
        (env : PhaseEnv) (moderator_reply : reply) (rid : list N) (ctx : RunContext)
        (run : DebateRun) (round_idx phase_idx : Z) (phase : PhaseSpec)
        (o o' : Orch) (response : AdvanceDebateResponse) :
  at_cursor rid ctx run round_idx phase_idx phase o ->
  advance_debate env moderator_reply rid o = (Ok response, o') ->
  drive_advance env moderator_reply rid o = (Ok (AdvanceReturned response), o')
  /\ exists run_mid outs,
    stepped run round_idx outs run_mid
    /\ outs = outputs_of_phase env (template ctx) phase (with_round_at round_idx run)
                (round_idx + 1)%Z
    /\ outs ≡ₚ imap (contribution env (template ctx) phase (with_round_at round_idx run)
                       (round_idx + 1)%Z)
                  (t_participants (template ctx))
    /\ store_runs o' !! rid = Some (debate response)
    /\ if (total_rounds ctx <=? (next_cursor ctx round_idx phase_idx).1)%Z
       then debate response = with_status RunStatus.completed run_mid
            /\ done response = true
            /\ _context o' !! rid = None
            /\ _progress o' !! rid = None
            /\ exists r outcome,
                last (run_rounds run_mid) = Some r
                /\ rr_outcome r = Some outcome
                /\ store_final_records o'
                   = store_final_records o
                       ++ [ {| fr_debate_id := run_id run; fr_title := run_title run;
                               fr_final_outcome := outcome |} ]
       else debate response = run_mid
            /\ done response = false
            /\ store_final_records o' = store_final_records o
            /\ exists phase',
                at_cursor rid ctx run_mid (next_cursor ctx round_idx phase_idx).1
                  (next_cursor ctx round_idx phase_idx).2 phase' o'.
Proof.
  intros Hs H. split; [rewrite advance_coroutine_agrees, H; reflexivity|].
  exact (advance_returned env moderator_reply rid ctx run round_idx phase_idx phase o o'
           response Hs H).
Qed.

(** ** More facts: a step run advanced to its end *)

Lemma walked_next (ctx : RunContext) (round_idx phase_idx : Z) (phase : PhaseSpec)
      (run run_mid : DebateRun) (outs : list PhaseOutput) :
  (0 <= round_idx)%Z -> (0 <= phase_idx)%Z ->
  t_phases (template ctx) !! Z.to_nat phase_idx = Some phase ->
  walked ctx round_idx phase_idx run ->
  stepped run round_idx outs run_mid ->
  one_each (template ctx) phase outs ->
  walked ctx (next_cursor ctx round_idx phase_idx).1 (next_cursor ctx round_idx phase_idx).2
    run_mid.
Proof.
  intros Hri Hpi Hphase [Hlen Hrounds] [Hsame Hlen' Hothers (r' & Hr' & Hidx & Houts)] Hids.
  pose proof (lookup_lt_Some _ _ _ Hphase) as Hlt.
  assert (Hold : rr_round_index (round_at run round_idx) = (round_idx + 1)%Z
                 /\ filled (template ctx) (take (Z.to_nat phase_idx) (t_phases (template ctx)))
                      (rr_phase_outputs (round_at run round_idx))).
  { unfold round_at. destruct (run_rounds run !! Z.to_nat round_idx) as [r|] eqn:E.
    - destruct (Hrounds _ _ E) as [I O]. cbn [default from_option id].
      rewrite (proj2 (Z.ltb_ge _ _)) in O by lia. split; [lia|exact O].
    - apply lookup_ge_None in E. destruct (Z.eqb_spec phase_idx 0) as [->|]; [|lia].
      split; [reflexivity|apply filled_nil]. }
  destruct Hold as [Hidx0 Hids0].
  assert (Hnew : filled (template ctx) (take (S (Z.to_nat phase_idx)) (t_phases (template ctx)))
                   (rr_phase_outputs r')).
  { rewrite Houts, (take_S_r _ _ _ Hphase). apply filled_snoc; assumption. }
  assert (Hlen1 : length (run_rounds run_mid) = (Z.to_nat round_idx + 1)%nat).
  { rewrite Hlen'. destruct (phase_idx =? 0)%Z; lia. }
  assert (Hbefore : forall k r, (k < Z.to_nat round_idx)%nat ->
                                run_rounds run_mid !! k = Some r ->
                                rr_round_index r = (Z.of_nat k + 1)%Z
                                /\ filled (template ctx) (t_phases (template ctx))
                                     (rr_phase_outputs r)).
  { intros k r Hk Hr. rewrite Hothers in Hr by (destruct (phase_idx =? 0)%Z; lia).
    destruct (Hrounds _ _ Hr) as [I O]. rewrite (proj2 (Z.ltb_lt _ _)) in O by lia. auto. }
  unfold walked, next_cursor, last_phase.
  destruct (Z.eqb_spec phase_idx (Z.of_nat (length (t_phases (template ctx))) - 1)) as [El|El];
    cbn [fst snd].
  - split; [simpl; lia|]. intros k r Hr. pose proof (lookup_lt_Some _ _ _ Hr) as Hk.
    rewrite (proj2 (Z.ltb_lt _ _)) by lia.
    destruct (decide (k = Z.to_nat round_idx)) as [->|Hne].
    + rewrite Hr' in Hr. inversion Hr; subst r'. split; [lia|].
      rewrite take_ge in Hnew by lia. exact Hnew.
    + apply Hbefore; [lia|exact Hr].
  - rewrite (proj2 (Z.eqb_neq _ _)) by lia. split; [lia|].
    intros k r Hr. pose proof (lookup_lt_Some _ _ _ Hr) as Hk.
    destruct (decide (k = Z.to_nat round_idx)) as [->|Hne].
    + rewrite Hr' in Hr. inversion Hr; subst r'. split; [lia|].
      rewrite (proj2 (Z.ltb_ge _ _)) by lia.
      replace (Z.to_nat (phase_idx + 1)) with (S (Z.to_nat phase_idx)) by lia. exact Hnew.
    + rewrite (proj2 (Z.ltb_lt _ _)) by lia. apply Hbefore; [lia|exact Hr].
Qed.

Lemma advances_walk (rid : list N) (ctx : RunContext) :
  forall (envs : list (PhaseEnv * reply)) (o : Orch) (run : DebateRun)
         (round_idx phase_idx : Z) (phase : PhaseSpec),
    at_cursor rid ctx run round_idx phase_idx phase o ->
    walked ctx round_idx phase_idx run ->
    Z.of_nat (length envs)
    = ((total_rounds ctx - round_idx) * Z.of_nat (length (t_phases (template ctx)))
       - phase_idx)%Z ->
    Forall (fun r => is_ok r.2 = true) (advances envs rid o).1 ->
    List.map snd (advances envs rid o).1 = repeat (Ok false) (length envs - 1) ++ [Ok true]
    /\ exists final r outcome,
        store_runs (advances envs rid o).2 !! rid = Some final
        /\ final = with_status RunStatus.completed (with_rounds (fun _ => run_rounds final) run)
        /\ walked ctx (total_rounds ctx) 0 final
        /\ last (run_rounds final) = Some r
        /\ rr_outcome r = Some outcome
        /\ store_final_records (advances envs rid o).2
           = store_final_records o
               ++ [ {| fr_debate_id := run_id run; fr_title := run_title run;
                       fr_final_outcome := outcome |} ]
        /\ _context (advances envs rid o).2 !! rid = None
        /\ _progress (advances envs rid o).2 !! rid = None.
Proof.
  induction envs as [|[env moderator_reply] envs IH];
    intros o run round_idx phase_idx phase Hs Hwalked Hlen Hall;
    pose proof Hs as [_ _ _ _ _ Hri _ Hpi Hphase];
    pose proof (lookup_lt_Some _ _ _ Hphase) as Hlt.
  { simpl in Hlen. nia. }
  cbn [advances] in *.
  destruct (advance_debate env moderator_reply rid o) as [[response|e] o1] eqn:E;
    destruct (advances envs rid o1) as [rest o2] eqn:E2; cbn [fst snd] in *.
  2:{ inversion Hall as [|? ? Hhead _]. discriminate. }
  destruct (advance_returned env moderator_reply rid ctx run round_idx phase_idx phase
              o o1 response Hs E) as (run_mid & outs & Hstepped & Hids & _ & Hrun1 & Hcase).
  assert (Hone : one_each (template ctx) phase outs)
    by (rewrite Hids; apply outputs_of_phase_one_each).
  pose proof (walked_next ctx round_idx phase_idx phase run run_mid outs
                ltac:(lia) Hpi Hphase Hwalked Hstepped Hone) as Hwalked'.
  pose proof Hstepped as [Hsame _ _ _].
  destruct (at_cursor_next ctx phase_idx phase Hpi Hphase round_idx) as (_ & Hnext & _).
  assert (Hremaining :
            if (total_rounds ctx <=? (next_cursor ctx round_idx phase_idx).1)%Z
            then length envs = 0%nat
                 /\ next_cursor ctx round_idx phase_idx = (total_rounds ctx, 0%Z)
            else Z.of_nat (length envs)
                 = ((total_rounds ctx - (next_cursor ctx round_idx phase_idx).1)
                    * Z.of_nat (length (t_phases (template ctx)))
                    - (next_cursor ctx round_idx phase_idx).2)%Z).
  { simpl length in Hlen. revert Hnext. unfold next_cursor, last_phase.
    destruct (Z.eqb_spec phase_idx (Z.of_nat (length (t_phases (template ctx))) - 1));
      cbn [fst snd]; intros Hnext.
    - destruct (Z.leb_spec (total_rounds ctx) (round_idx + 1)).
      + split; [nia|]. f_equal. lia.
      + nia.
    - destruct (Z.leb_spec (total_rounds ctx) round_idx); [lia|nia]. }
  destruct (total_rounds ctx <=? (next_cursor ctx round_idx phase_idx).1)%Z.
  - destruct Hremaining as [Hnil Hcur]. destruct envs; [|discriminate].
    cbn [advances] in E2. inversion E2; subst rest o2.
    destruct Hcase as (Hresp & Hdone & Hc & Hp & r & outcome & Hlast & Hout & Hfin).
    cbn [List.map fst snd]. rewrite Hdone. split; [reflexivity|].
    exists (debate response), r, outcome. rewrite Hcur in Hwalked'. cbn [fst snd] in Hwalked'.
    split; [exact Hrun1|]. rewrite Hresp. cbn [run_rounds with_status].
    split; [rewrite Hsame at 1; destruct run; reflexivity|]. auto 10.
  - destruct Hcase as (Hresp & Hdone & Hfin & phase' & Hs').
    pose proof (Forall_inv_tail Hall) as Hrest.
    specialize (IH o1 run_mid _ _ phase' Hs' Hwalked' Hremaining).
    rewrite E2 in IH. cbn [fst snd] in IH.
    destruct (IH Hrest) as (Hflags & final & r & outcome & Hfinal & Hsame' & Hw & Hlast & Hout
                            & Hfin' & Hc & Hp).
    cbn [List.map fst snd]. rewrite Hdone, Hflags. split.
    + pose proof Hs' as [_ _ _ _ _ Hri' _ Hpi' Hphase'].
      pose proof (lookup_lt_Some _ _ _ Hphase') as Hlt'.
      assert (length envs <> 0%nat) as Hpos by nia.
      simpl length. replace (S (length envs) - 1)%nat with (S (length envs - 1)) by lia.
      reflexivity.
    + exists final, r, outcome. split; [exact Hfinal|]. split.
      { rewrite Hsame' at 1. rewrite Hsame. destruct run; reflexivity. }
      split; [exact Hw|]. split; [exact Hlast|]. split; [exact Hout|].
      split; [|auto]. rewrite Hfin', Hfin, Hsame. reflexivity.
Qed.

(** X20: a step run advanced to its end, one call after the other.  A
    step run at its start, with a template of at least one phase and at
    least one round to go, is advanced once per phase of every round;
    every call runs from its first statement to its last before the next
    begins, and nothing else is done on the orchestrator meanwhile: no
    [cancel], no overlapping [advance], no other coroutine ([envs] gives
    the order and the replies of the calls of every call of [advance],
    and is the only input).  If every call returns, all return
    [done=false] but the last, which returns [done=true]; the run is then
    completed, with as many rounds as the context plans, numbered from 1;
    the outputs of each round are those of the phases of the template,
    phase after phase, and those of a phase carry its [phase_id] and the
    [participant_id] of every participant of the roster, once each, in
    some order; one final record is added, with the outcome of the last
    round; and the context and the cursor of the run are gone. *)
Theorem step_run_completes
        (envs : list (PhaseEnv * reply)) (rid : list N) (ctx : RunContext)
        (run : DebateRun) (phase : PhaseSpec) (o : Orch) :
  at_cursor rid ctx run 0 0 phase o ->
  run_rounds run = [] ->
  length envs = (Z.to_nat (total_rounds ctx) * length (t_phases (template ctx)))%nat ->
  Forall (fun r => is_ok r.2 = true) (advances envs rid o).1 ->
  List.map snd (advances envs rid o).1 = repeat (Ok false) (length envs - 1) ++ [Ok true]
  /\ exists final r outcome,
      store_runs (advances envs rid o).2 !! rid = Some final
      /\ final = with_status RunStatus.completed (with_rounds (fun _ => run_rounds final) run)
      /\ length (run_rounds final) = Z.to_nat (total_rounds ctx)
      /\ (forall k r',
             run_rounds final !! k = Some r' ->
             rr_round_index r' = (Z.of_nat k + 1)%Z
             /\ filled (template ctx) (t_phases (template ctx)) (rr_phase_outputs r'))
      /\ last (run_rounds final) = Some r
      /\ rr_outcome r = Some outcome
      /\ store_final_records (advances envs rid o).2
         = store_final_records o
             ++ [ {| fr_debate_id := run_id run; fr_title := run_title run;
                     fr_final_outcome := outcome |} ]
      /\ _context (advances envs rid o).2 !! rid = None
      /\ _progress (advances envs rid o).2 !! rid = None.
Proof.
  intros Hs Hfresh Hlen Hall. pose proof Hs as [_ _ _ _ _ Hri _ _ _].
  destruct (advances_walk rid ctx envs o run 0 0 phase Hs) as (Hflags & final & r & outcome & H);
    [split; [rewrite Hfresh; reflexivity|rewrite Hfresh; intros k r' Hk; discriminate]
    |rewrite Hlen; lia|exact Hall|].
  split; [exact Hflags|]. exists final, r, outcome.
  destruct H as (Hfinal & Hsame & [Hlen' Hrounds] & Hrest).
  split; [exact Hfinal|]. split; [exact Hsame|]. split; [simpl in Hlen'; lia|].
  split; [|exact Hrest].
  intros k r' Hk. pose proof (lookup_lt_Some _ _ _ Hk) as Hlt.
  destruct (Hrounds _ _ Hk) as [I O]. split; [exact I|].
  rewrite (proj2 (Z.ltb_lt _ _)) in O by (simpl in Hlen'; lia). exact O.
Qed.

(** ** More facts: step mode against auto mode *)

Lemma twins_alter (rid : list N) (m : RunMode.t) (pos : nat) (f : RoundResult -> RoundResult)
      (s a : Orch) :
  twins rid m s a -> twins rid m (alter_round rid pos f s) (alter_round rid pos f a).
Proof.
  intros [Hc Hf (run & Hs & Ha)]. split; [exact Hc|exact Hf|].
  exists (with_rounds (alter f pos) run). unfold alter_round. fields.
  rewrite !lookup_alter_eq, Hs, Ha. split; reflexivity.
Qed.

Lemma twins_record (rid : list N) (m : RunMode.t) (pos : nat) (outs : list PhaseOutput) :
  forall s a,
    twins rid m s a ->
    twins rid m (fold_left (fun o' po => record_output rid pos po o') outs s)
      (fold_left (fun o' po => record_output rid pos po o') outs a).
Proof.
  induction outs as [|po outs IH]; intros s a H; simpl; [exact H|].
  apply IH. apply twins_alter. exact H.
Qed.

Lemma twins_progress (rid : list N) (m : RunMode.t)
      (f : gmap (list N) (Z * Z) -> gmap (list N) (Z * Z)) (s a : Orch) :
  twins rid m s a -> twins rid m (set_progress f s) a.
Proof. intros [Hc Hf Hr]. split; assumption. Qed.

(** The prompts of a phase do not look at the mode of the run. *)
Lemma execute_phase_mode (env : PhaseEnv) (template_ : DebateTemplate) (phase : PhaseSpec)
      (rid : list N) (run : DebateRun) (m : RunMode.t) (round_index : Z) (pos : nat)
      (s a : Orch) :
  exists outs,
    _execute_phase env template_ phase rid run round_index pos s
    = (Ok outs, fold_left (fun o' po => record_output rid pos po o') outs s)
    /\ _execute_phase env template_ phase rid (with_mode m run) round_index pos a
       = (Ok outs, fold_left (fun o' po => record_output rid pos po o') outs a).
Proof. rewrite !execute_phase_eq. cbv zeta. eexists. split; reflexivity. Qed.

(** What the tally and the summary do to the state is a mutation of the
    round, or nothing, whatever the state. *)
Lemma round_votes_shape (rid : list N) (pos : nat) (phase : PhaseSpec)
      (outs : list PhaseOutput) :
  exists r f, forall o,
      round_votes rid pos phase outs o
      = (r, match f with Some g => alter_round rid pos g o | None => o end).
Proof.
  unfold round_votes, mbind, lift, modify, ret.
  destruct (PhaseRole.eqb _ _).
  - destruct (_tally_votes outs) as [[votes outcome]|e].
    + exists (Ok tt), (Some (with_votes votes outcome)). intros o. reflexivity.
    + exists (Raise e), None. intros o. reflexivity.
  - exists (Ok tt), None. intros o. reflexivity.
Qed.

Lemma round_summary_shape (rid : list N) (pos : nat) (r : reply) :
  exists res f, forall o,
      round_summary rid pos r o
      = (res, match f with Some g => alter_round rid pos g o | None => o end).
Proof.
  unfold round_summary, mbind, lift, modify. destruct (_moderator_summary r) as [summary|e].
  - exists (Ok tt), (Some (with_summary summary)). intros o. reflexivity.
  - exists (Raise e), None. intros o. reflexivity.
Qed.

Lemma twins_shape (rid : list N) (m : RunMode.t) (pos : nat)
      (f : option (RoundResult -> RoundResult)) (s a : Orch) :
  twins rid m s a ->
  twins rid m (match f with Some g => alter_round rid pos g s | None => s end)
    (match f with Some g => alter_round rid pos g a | None => a end).
Proof. intros H. destruct f; [apply twins_alter|]; exact H. Qed.

(** In a state where the round of the cursor is there, the tally and the
    summary of a step are those of a round of an auto run. *)
Lemma step_votes_round_votes (rid : list N) (ri : nat) (phase : PhaseSpec)
      (outs : list PhaseOutput) (run : DebateRun) (s : Orch) :
  store_runs s !! rid = Some run ->
  length (run_rounds run) = S ri ->
  step_votes rid (Z.of_nat ri) phase outs s = round_votes rid ri phase outs s.
Proof.
  intros Hrun Hlen. unfold step_votes, round_votes.
  destruct (PhaseRole.eqb _ _); [|reflexivity].
  unfold mbind, lift, modify. destruct (_tally_votes outs) as [[votes outcome]|e]; [|reflexivity].
  rewrite Hrun, resolve_index_in_range by lia. rewrite Nat2Z.id. reflexivity.
Qed.

Lemma step_summary_round_summary (rid : list N) (ri : nat) (r : reply)
      (run : DebateRun) (s : Orch) :
  store_runs s !! rid = Some run ->
  length (run_rounds run) = S ri ->
  (do _ <- step_round rid (Z.of_nat ri); step_summary rid (Z.of_nat ri) r) s
  = round_summary rid ri r s.
Proof.
  intros Hrun Hlen. unfold step_round, step_summary, round_summary, mbind, lift, modify, ret.
  rewrite Hrun, resolve_index_in_range by lia.
  destruct (_moderator_summary r) as [summary|e]; [|reflexivity].
  rewrite Hrun, resolve_index_in_range by lia. rewrite Nat2Z.id. reflexivity.
Qed.

(** Finalization goes the same way in twins. *)
Lemma finalize_twins (rid : list N) (m : RunMode.t) (s a : Orch) :
  twins rid m s a ->
  exists r s' a',
    _finalize rid s = (r, s') /\ _finalize rid a = (r, a') /\ twins rid m s' a'
    /\ (r = Ok tt -> is_Some (_context s !! rid) ->
        _context s' !! rid = None /\ _progress s' !! rid = None).
Proof.
  intros [Hc Hf (run & Hs & Ha)]. unfold _finalize. rewrite Hs, Ha, Hc.
  destruct (_context s !! rid) as [ctx|] eqn:Es.
  2:{ eexists _, _, _. split; [reflexivity|]. split; [reflexivity|]. split.
      - split; [congruence|exact Hf|eauto].
      - intros _ [? ?]. discriminate. }
  cbn [run_rounds run_id run_title with_mode].
  destruct (make_FinalRecord _ _ _) as [final|e]; cbv zeta.
  - eexists _, _, _. split; [reflexivity|]. split; [reflexivity|]. split.
    + split; fields.
      * rewrite !lookup_delete_eq. reflexivity.
      * rewrite Hf. reflexivity.
      * exists (with_status RunStatus.completed run).
        rewrite !lookup_alter_eq, Hs, Ha. split; reflexivity.
    + intros _ _. fields. rewrite !lookup_delete_eq. auto.
  - eexists _, _, _. split; [reflexivity|]. split; [reflexivity|]. split.
    + split; fields; [congruence|exact Hf|].
      exists (with_status RunStatus.completed run).
      rewrite !lookup_alter_eq, Hs, Ha. split; reflexivity.
    + discriminate.
Qed.

(** One step from a cursor inside the plan, written with the tally and
    the summary of the auto loop. *)
Lemma execute_phase_step_exact (env : PhaseEnv) (moderator_reply : reply) (rid : list N)
      (ctx : RunContext) (run : DebateRun) (ri : nat) (phase_idx : Z) (phase : PhaseSpec)
      (s : Orch) :
  at_cursor rid ctx run (Z.of_nat ri) phase_idx phase s ->
  length (run_rounds (with_round_at (Z.of_nat ri) run)) = S ri ->
  _execute_phase_step env moderator_reply rid s
  = (do outs <- _execute_phase env (template ctx) phase rid
                  (with_round_at (Z.of_nat ri) run) (Z.of_nat ri + 1)%Z ri;
     do _ <- round_votes rid ri phase outs;
     do _ <- (if last_phase ctx phase_idx
              then match t_moderator (template ctx) with
                   | Some _ => round_summary rid ri moderator_reply
                   | None => ret tt
                   end
              else ret tt);
     step_finish rid ctx (next_cursor ctx (Z.of_nat ri) phase_idx).1
       (next_cursor ctx (Z.of_nat ri) phase_idx).2)
      (set_runs (insert rid (with_round_at (Z.of_nat ri) run)) s).
Proof.
  intros Hs Hlen1. unfold _execute_phase_step.
  rewrite (mbind_ok _ _ _ _ _ (at_cursor_prologue _ _ _ _ _ _ _ Hs)). rewrite Nat2Z.id.
  set (run1 := with_round_at (Z.of_nat ri) run) in *.
  set (s1 := set_runs (insert rid run1) s).
  assert (Hrun1 : store_runs s1 !! rid = Some run1) by (subst s1; fields; apply lookup_insert_eq).
  destruct (execute_phase_appended env (template ctx) phase rid run1 (Z.of_nat ri + 1)%Z ri s1)
    as (outs & He & _).
  rewrite !(mbind_ok _ _ _ _ _ He).
  set (s2 := fold_left _ outs s1).
  destruct (appended_length _ _ _ _ _ _ (appended_record rid ri outs s1) Hrun1)
    as (run2 & Hrun2 & Hlen2). fold s2 in Hrun2.
  pose proof (step_votes_round_votes rid ri phase outs run2 s2 Hrun2 ltac:(congruence)) as Hv.
  destruct (round_votes rid ri phase outs s2) as [[[]|e] s3] eqn:Ev.
  2:{ rewrite (mbind_raise _ _ _ _ _ Hv), (mbind_raise _ _ _ _ _ Ev). reflexivity. }
  rewrite (mbind_ok _ _ _ _ _ Hv), (mbind_ok _ _ _ _ _ Ev).
  destruct (appended_length _ _ _ _ _ _ (round_votes_appended _ _ _ _ _ _ Ev) Hrun2)
    as (run3 & Hrun3 & Hlen3).
  unfold next_cursor. destruct (last_phase ctx phase_idx); cbn [fst snd]; [|reflexivity].
  destruct (t_moderator (template ctx)); [|reflexivity].
  pose proof (step_summary_round_summary rid ri moderator_reply run3 s3 Hrun3
                ltac:(congruence)) as Hm.
  destruct (round_summary rid ri moderator_reply s3) as [[[]|e] s4] eqn:Em.
  - rewrite (mbind_ok _ _ _ _ _ Hm), (mbind_ok _ _ _ _ _ Em). reflexivity.
  - rewrite (mbind_raise _ _ _ _ _ Hm), (mbind_raise _ _ _ _ _ Em). reflexivity.
Qed.

(** What is left of the auto loop, phase by phase. *)
Lemma auto_from_cons (envs : nat -> RoundEnv) (rid : list N) (template_ : DebateTemplate)
      (run0 run_a : DebateRun) (ri pi : nat) (phase : PhaseSpec) (rest : list PhaseSpec)
      (todo : nat) (a a_fin : Orch) :
  store_runs a !! rid = Some run_a ->
  auto_from envs rid template_ run0 ri pi (phase :: rest) todo a = (Ok tt, a_fin) ->
  exists outs a2 a3,
    _execute_phase (re_phase (envs ri) pi) template_ phase rid run_a (Z.of_nat ri + 1)%Z ri a
    = (Ok outs, a2)
    /\ round_votes rid ri phase outs a2 = (Ok tt, a3)
    /\ auto_from envs rid template_ run0 ri (S pi) rest todo a3 = (Ok tt, a_fin).
Proof.
  intros Hrun H.
  assert (Hcur : current rid run0 a = run_a) by (unfold current; rewrite Hrun; reflexivity).
  unfold auto_from in H. cbn [phases_loop] in H. unfold mbind in H. cbv beta in H.
  rewrite Hcur in H.
  destruct (_execute_phase (re_phase (envs ri) pi) template_ phase rid run_a
              (Z.of_nat ri + 1)%Z ri a) as [[outs|e] a2] eqn:E1; [|discriminate].
  destruct (round_votes rid ri phase outs a2) as [[[]|e] a3] eqn:E2; [|discriminate].
  exists outs, a2, a3. split; [reflexivity|]. split; [exact E2|].
  unfold auto_from, mbind. exact H.
Qed.

Lemma auto_from_nil (envs : nat -> RoundEnv) (rid : list N) (template_ : DebateTemplate)
      (run0 : DebateRun) (ri pi todo : nat) (a a_fin : Orch) :
  auto_from envs rid template_ run0 ri pi [] todo a = (Ok tt, a_fin) ->
  exists a4,
    match t_moderator template_ with
    | Some _ => round_summary rid ri (re_moderator (envs ri)) a
    | None => (Ok tt, a)
    end = (Ok tt, a4)
    /\ (do _ <- rounds_loop envs rid (S ri) todo; _finalize rid) a4 = (Ok tt, a_fin).
Proof.
  intros H. unfold auto_from in H. cbn [phases_loop] in H. unfold mbind, ret in H.
  destruct (t_moderator template_).
  - destruct (round_summary rid ri (re_moderator (envs ri)) a) as [[[]|e] a4] eqn:E;
      [|discriminate].
    exists a4. split; [reflexivity|]. unfold mbind. exact H.
  - exists a. split; [reflexivity|]. unfold mbind. exact H.
Qed.

Lemma auto_round_start (envs : nat -> RoundEnv) (rid : list N) (ctx : RunContext)
      (run_a : DebateRun) (todo : nat) (a : Orch) :
  _context a !! rid = Some ctx ->
  store_runs a !! rid = Some run_a ->
  let ri := length (run_rounds run_a) in
  let run1 := with_rounds (fun rs => rs ++ [new_round (Z.of_nat ri + 1)]) run_a in
  (do _ <- rounds_loop envs rid ri (S todo); _finalize rid) a
  = auto_from envs rid (template ctx) run1 ri 0 (t_phases (template ctx)) todo
      (set_runs (insert rid run1) a).
Proof.
  intros Hctx Hrun. cbv zeta. cbn [rounds_loop]. unfold auto_from, _execute_round.
  pose proof (round_prologue_ok rid a ctx run_a Hctx Hrun) as Hp. cbv zeta in Hp.
  unfold mbind at 1 2 3. rewrite Hp. unfold mbind, ret.
  destruct (phases_loop _ _ _ _ _ _ _ _ _) as [[[]|e] a2]; [|reflexivity].
  destruct (t_moderator (template ctx)); [|reflexivity].
  destruct (round_summary _ _ _ _) as [[[]|e] a3]; reflexivity.
Qed.

Lemma twins_reinsert (rid : list N) (m : RunMode.t) (run : DebateRun) (s a : Orch) :
  twins rid m s a -> store_runs s !! rid = Some run ->
  twins rid m (set_runs (insert rid run) s) a.
Proof.
  intros [Hc Hf (run' & Hs & Ha)] Hrun. split; [exact Hc|exact Hf|].
  exists run. fields. rewrite lookup_insert_eq. split; [reflexivity|congruence].
Qed.

(** The run of a step once the work of its phase is done, at its next
    cursor. *)
Lemma after_work (rid : list N) (ctx : RunContext) (run : DebateRun) (ri : nat)
      (phase_idx : Z) (phase : PhaseSpec) (s s4 : Orch) (outs : list PhaseOutput) :
  at_cursor rid ctx run (Z.of_nat ri) phase_idx phase s ->
  length (run_rounds (with_round_at (Z.of_nat ri) run)) = S ri ->
  appended rid ri outs (set_runs (insert rid (with_round_at (Z.of_nat ri) run)) s) s4 ->
  exists run4,
    store_runs s4 !! rid = Some run4
    /\ length (run_rounds run4) = S ri
    /\ _context s4 !! rid = Some ctx
    /\ forall round_idx' phase_idx' phase',
        (0 <= round_idx' < total_rounds ctx)%Z ->
        (round_idx' <= Z.of_nat (S ri))%Z ->
        (0 <= phase_idx')%Z ->
        t_phases (template ctx) !! Z.to_nat phase_idx' = Some phase' ->
        at_cursor rid ctx run4 round_idx' phase_idx' phase'
          (set_progress (insert rid (round_idx', phase_idx')) s4).
Proof.
  intros [Hctx Hrun Hmode Hstatus Hcur Hri Hlen Hpi Hphase] Hlen1 [Ac Ap Af Ar].
  destruct (Ar (with_round_at (Z.of_nat ri) run)) as (rounds' & Hrun4 & Hlen4 & _).
  { fields. apply lookup_insert_eq. }
  fields. eexists. split; [exact Hrun4|]. split; [cbn; congruence|].
  split; [congruence|].
  intros round_idx' phase_idx' phase' Hri' Hle Hpi' Hphase'. split; fields.
  - congruence.
  - exact Hrun4.
  - unfold with_round_at. destruct (_ <=? _)%Z; exact Hmode.
  - unfold with_round_at. destruct (_ <=? _)%Z; exact Hstatus.
  - apply lookup_insert_eq.
  - exact Hri'.
  - cbn. lia.
  - exact Hpi'.
  - exact Hphase'.
Qed.

(** One advance of the step run against what is left of the auto loop:
    the advance returns, and the two runs are side by side again, one
    phase on, or both are finalized. *)
Lemma sim_step (envs : nat -> RoundEnv) (rid : list N) (ctx : RunContext) (m : RunMode.t)
      (a_fin : Orch) (ri pi : nat) (phase : PhaseSpec) (rest : list PhaseSpec) (todo : nat)
      (s a : Orch) :
  in_step envs rid ctx m a_fin ri pi phase rest todo s a ->
  exists response s',
    advance_debate (re_phase (envs ri) pi) (re_moderator (envs ri)) rid s = (Ok response, s')
    /\ match rest, todo with
       | [], O =>
           twins rid m s' a_fin /\ _context s' !! rid = None /\ _progress s' !! rid = None
       | [], S todo' =>
           exists phase0 rest0 a',
             in_step envs rid ctx m a_fin (S ri) 0 phase0 rest0 todo' s' a'
       | phase' :: rest', _ =>
           exists a', in_step envs rid ctx m a_fin ri (S pi) phase' rest' todo s' a'
       end.
Proof.
  intros [(run & Hs & Hlen1 & Htw) Hdrop Hrounds (run0 & Hauto)].
  pose proof Hs as [Hctx Hrun Hmode Hstatus Hcur Hri Hlen Hpi Hphase].
  set (run1 := with_round_at (Z.of_nat ri) run) in *.
  set (s1 := set_runs (insert rid run1) s) in *.
  assert (Hrun1 : store_runs s1 !! rid = Some run1) by (subst s1; fields; apply lookup_insert_eq).
  assert (Ha : store_runs a !! rid = Some (with_mode m run1)).
  { destruct Htw as [_ _ (run1' & Hs1 & Ha)]. congruence. }
  (* the phase, on both sides *)
  destruct (auto_from_cons _ _ _ _ _ _ _ _ _ _ _ _ Ha Hauto)
    as (outs_a & a2 & a3 & Ea1 & Ea2 & Harest).
  destruct (execute_phase_mode (re_phase (envs ri) pi) (template ctx) phase rid run1 m
              (Z.of_nat ri + 1)%Z ri s1 a) as (outs & Es1 & Ea1').
  rewrite Ea1' in Ea1. inversion Ea1; subst outs_a a2. clear Ea1.
  pose proof (twins_record rid m ri outs s1 a Htw) as Htw2.
  pose proof (appended_record rid ri outs s1) as A2.
  set (s2 := fold_left _ outs s1) in *.
  set (a2 := fold_left _ outs a) in *.
  (* the tally *)
  destruct (round_votes_shape rid ri phase outs) as (rv & fv & Hv).
  rewrite Hv in Ea2. inversion Ea2; subst rv a3. clear Ea2.
  pose proof (twins_shape rid m ri fv _ _ Htw2) as Htw3.
  pose proof (round_votes_appended _ _ _ _ _ _ (Hv s2)) as A3.
  set (s3 := match fv with Some g => alter_round rid ri g s2 | None => s2 end) in *.
  set (a3 := match fv with Some g => alter_round rid ri g a2 | None => a2 end) in *.
  assert (A13 : appended rid ri outs s1 s3).
  { rewrite <- (app_nil_r outs). exact (appended_trans _ _ _ _ _ _ _ A2 A3). }
  (* the step *)
  pose proof (execute_phase_step_exact (re_phase (envs ri) pi) (re_moderator (envs ri)) rid ctx
                run ri (Z.of_nat pi) phase s Hs Hlen1) as Hstep.
  fold run1 s1 in Hstep.
  rewrite (mbind_ok _ _ _ _ _ Es1), (mbind_ok _ _ _ _ _ (Hv s2)) in Hstep. fold s3 in Hstep.
  unfold advance_debate. rewrite Hctx, Hrun, Hmode, Hstatus. cbn [RunMode.eqb negb].
  rewrite Nat2Z.id in Hphase. pose proof (lookup_lt_Some _ _ _ Hphase) as Hlt.
  pose proof (f_equal length Hdrop) as HP. rewrite length_drop in HP. simpl in HP.
  destruct rest as [|phase' rest']; cbn [length] in HP.
  - (* the last phase of the round *)
    assert (last_phase ctx (Z.of_nat pi) = true) as Hlast
        by (unfold last_phase; apply Z.eqb_eq; lia).
    unfold next_cursor in Hstep. rewrite Hlast in Hstep. cbn [fst snd] in Hstep.
    destruct (auto_from_nil _ _ _ _ _ _ _ _ _ Harest) as (a4 & Esum & Hloop).
    assert (exists s4,
               match t_moderator (template ctx) with
               | Some _ => round_summary rid ri (re_moderator (envs ri))
               | None => ret tt
               end s3 = (Ok tt, s4)
               /\ twins rid m s4 a4 /\ appended rid ri outs s1 s4) as (s4 & Es4 & Htw4 & A14).
    { destruct (t_moderator (template ctx)).
      - destruct (round_summary_shape rid ri (re_moderator (envs ri))) as (rs & fs & Hsum).
        rewrite Hsum in Esum. inversion Esum; subst rs a4.
        eexists. split; [apply Hsum|]. split; [apply twins_shape; exact Htw3|].
        rewrite <- (app_nil_r outs). apply (appended_trans _ _ _ _ _ _ _ A13).
        exact (round_summary_appended _ _ _ _ _ (Hsum s3)).
      - inversion Esum; subst a4. exists s3. split; [reflexivity|]. split; assumption. }
    rewrite (mbind_ok _ _ _ _ _ Es4) in Hstep.
    destruct (after_work rid ctx run ri (Z.of_nat pi) phase s s4 outs Hs Hlen1 A14)
      as (run4 & Hrun4 & Hlen4 & Hctx4 & Hnext).
    unfold step_finish in Hstep.
    set (s5 := set_progress (insert rid ((Z.of_nat ri + 1)%Z, 0%Z)) s4) in *.
    rewrite (mbind_ok _ _ s4 s5 tt) in Hstep by reflexivity.
    pose proof (twins_progress rid m (insert rid ((Z.of_nat ri + 1)%Z, 0%Z)) s4 a4 Htw4)
      as Htw5. fold s5 in Htw5.
    destruct todo as [|todo'].
    + (* the last round: both finalize *)
      rewrite (proj2 (Z.leb_le _ _)) in Hstep by lia.
      cbn [rounds_loop] in Hloop. rewrite (mbind_ok _ _ a4 a4 tt) in Hloop by reflexivity.
      destruct (finalize_twins rid m s5 a4 Htw5) as (r & s6 & a6 & Ef_s & Ef_a & Htw6 & Hgone).
      rewrite Ef_a in Hloop. inversion Hloop; subst r a6.
      rewrite Ef_s in Hstep. rewrite (mbind_ok _ _ _ _ _ Hstep). unfold respond.
      eexists _, _. split; [reflexivity|]. split; [exact Htw6|].
      apply Hgone; [reflexivity|]. subst s5. fields. rewrite Hctx4. eauto.
    + (* another round: the auto run opens it *)
      rewrite (proj2 (Z.leb_gt _ _)) in Hstep by lia.
      rewrite (mbind_ok _ _ _ _ _ Hstep). unfold respond.
      eexists _, _. split; [reflexivity|].
      destruct (t_phases (template ctx)) as [|phase0 rest0] eqn:Eph; [discriminate|].
      assert (Ha4 : store_runs a4 !! rid = Some (with_mode m run4)).
      { destruct Htw4 as [_ _ (run4' & Hs4 & Ha4)]. congruence. }
      assert (Hca4 : _context a4 !! rid = Some ctx).
      { destruct Htw4 as [Hc4 _ _]. congruence. }
      pose proof (auto_round_start envs rid ctx (with_mode m run4) todo' a4 Hca4 Ha4) as Hstart.
      cbv zeta in Hstart. cbn [run_rounds with_mode] in Hstart. rewrite Hlen4 in Hstart.
      rewrite Hstart, Eph in Hloop.
      exists phase0, rest0,
        (set_runs
           (insert rid (with_rounds (fun rs => rs ++ [new_round (Z.of_nat (S ri) + 1)])
                          (with_mode m run4))) a4).
      split.
      * exists run4.
        split; [|split].
        { replace (Z.of_nat (S ri)) with (Z.of_nat ri + 1)%Z by lia.
          apply Hnext; [lia|lia|lia|]. reflexivity. }
        { rewrite with_round_at_length by lia. lia. }
        { destruct Htw5 as [Hc5 Hf5 _]. split; [exact Hc5|exact Hf5|].
          eexists. fields. rewrite !lookup_insert_eq. split; [reflexivity|].
          f_equal. unfold with_round_at. rewrite (proj2 (Z.leb_le _ _)) by lia.
          reflexivity. }
      * rewrite Eph. reflexivity.
      * lia.
      * eexists. exact Hloop.
  - (* another phase of the round *)
    assert (last_phase ctx (Z.of_nat pi) = false) as Hlast
        by (unfold last_phase; apply Z.eqb_neq; simpl in HP; lia).
    unfold next_cursor in Hstep. rewrite Hlast in Hstep. cbn [fst snd] in Hstep.
    rewrite (mbind_ok _ _ s3 s3 tt) in Hstep by reflexivity.
    destruct (after_work rid ctx run ri (Z.of_nat pi) phase s s3 outs Hs Hlen1 A13)
      as (run3 & Hrun3 & Hlen3 & Hctx3 & Hnext).
    unfold step_finish in Hstep.
    set (s5 := set_progress (insert rid (Z.of_nat ri, (Z.of_nat pi + 1)%Z)) s3) in *.
    rewrite (mbind_ok _ _ s3 s5 tt) in Hstep by reflexivity.
    rewrite (proj2 (Z.leb_gt _ _)) in Hstep by lia.
    rewrite (mbind_ok _ _ _ _ _ Hstep). unfold respond.
    eexists _, _. split; [reflexivity|].
    assert (Hdrop' : drop (S pi) (t_phases (template ctx)) = phase' :: rest').
    { replace (S pi) with (pi + 1)%nat by lia. rewrite <- drop_drop, Hdrop. reflexivity. }
    exists a3. split.
    + exists run3. split; [|split].
      * replace (Z.of_nat (S pi)) with (Z.of_nat pi + 1)%Z by lia.
        apply Hnext; [lia|lia|lia|].
        replace (Z.to_nat (Z.of_nat pi + 1)) with (S pi) by lia.
        rewrite <- (Nat.add_0_r (S pi)), <- lookup_drop, Hdrop'. reflexivity.
      * rewrite with_round_at_length by lia. lia.
      * assert (with_round_at (Z.of_nat ri) run3 = run3) as ->
            by (unfold with_round_at; rewrite (proj2 (Z.leb_gt _ _)) by lia; reflexivity).
        apply twins_reinsert; [|exact Hrun3].
        apply twins_progress. exact Htw3.
    + exact Hdrop'.
    + exact Hrounds.
    + exists run0. exact Harest.
Qed.

Lemma steps_of_round_cons (env : RoundEnv) (first count : nat) :
  steps_of_round env first (S count)
  = (re_phase env first, re_moderator env) :: steps_of_round env (S first) count.
Proof. reflexivity. Qed.

Lemma steps_of_cons (envs : nat -> RoundEnv) (first_round rounds phases : nat) :
  steps_of envs first_round (S rounds) phases
  = steps_of_round (envs first_round) 0 phases ++ steps_of envs (S first_round) rounds phases.
Proof. reflexivity. Qed.

Lemma advances_cons (env : PhaseEnv) (moderator_reply : reply)
      (envs : list (PhaseEnv * reply)) (rid : list N) (s s' : Orch)
      (response : AdvanceDebateResponse) :
  advance_debate env moderator_reply rid s = (Ok response, s') ->
  advances ((env, moderator_reply) :: envs) rid s
  = ((_progress s !! rid, Ok (done response)) :: (advances envs rid s').1,
     (advances envs rid s').2).
Proof.
  intros H. cbn [advances]. rewrite H. destruct (advances envs rid s'). reflexivity.
Qed.

(** The step run advanced through what is left of the auto loop: every
    advance returns, and the two runs end as twins, both finalized. *)
Lemma sim_all (envs : nat -> RoundEnv) (rid : list N) (ctx : RunContext) (m : RunMode.t)
      (a_fin : Orch) :
  forall (todo : nat) (rest : list PhaseSpec) (ri pi : nat) (phase : PhaseSpec) (s a : Orch),
    in_step envs rid ctx m a_fin ri pi phase rest todo s a ->
    let steps :=
      steps_of_round (envs ri) pi (S (length rest))
        ++ steps_of envs (S ri) todo (length (t_phases (template ctx))) in
    Forall (fun r => is_ok r.2 = true) (advances steps rid s).1
    /\ twins rid m (advances steps rid s).2 a_fin
    /\ _context (advances steps rid s).2 !! rid = None
    /\ _progress (advances steps rid s).2 !! rid = None.
Proof.
  induction todo as [|todo IHtodo]; induction rest as [|phase' rest' IHrest];
    intros ri pi phase s a H;
    destruct (sim_step _ _ _ _ _ _ _ _ _ _ _ _ H) as (response & s' & Eadv & Hnext);
    cbv zeta; cbn [length]; rewrite steps_of_round_cons; cbn [app];
    rewrite (advances_cons _ _ _ _ _ _ _ Eadv); cbn [fst snd].
  - split; [repeat constructor|exact Hnext].
  - destruct Hnext as (a' & H'). destruct (IHrest _ _ _ _ _ H') as (Hall & Hrest).
    split; [constructor; [reflexivity|exact Hall]|exact Hrest].
  - destruct Hnext as (phase0 & rest0 & a' & H').
    pose proof (f_equal length (in_step_phases _ _ _ _ _ _ _ _ _ _ _ _ H')) as HP.
    rewrite drop_0 in HP. cbn [length] in HP. rewrite steps_of_cons, HP.
    destruct (IHtodo _ _ _ _ _ _ H') as (Hall & Hrest). rewrite HP in Hall, Hrest.
    split; [constructor; [reflexivity|exact Hall]|exact Hrest].
  - destruct Hnext as (a' & H'). destruct (IHrest _ _ _ _ _ H') as (Hall & Hrest).
    split; [constructor; [reflexivity|exact Hall]|exact Hrest].
Qed.

(** X21: step mode and auto mode agree.  Take an auto run at its start
    and a step run that differs from it by its mode only, with the same
    context and the same final records around them, the template having
    at least one phase and the plan at least one round.  If the auto loop
    returns, in environments that give the replies of the participants of
    every phase (to the messages they are sent) and of the moderator of
    every round, then every advance of the step run through the same
    environments, phase after phase, returns, and the step run ends as the
    auto run does: the same run up to the mode, the one the auto loop
    returns; the same final records; and the context and the cursor
    gone. *)
Theorem step_mode_agrees_with_auto_mode
        (envs : nat -> RoundEnv) (rid : list N) (ctx : RunContext) (run : DebateRun)
        (phase : PhaseSpec) (s a a' : Orch) (final_copy : DebateRun) :
  at_cursor rid ctx run 0 0 phase s ->
  run_rounds run = [] ->
  _context a !! rid = Some ctx ->
  store_runs a !! rid = Some (with_mode RunMode.auto run) ->
  store_final_records a = store_final_records s ->
  _run_to_completion envs rid a = (Ok final_copy, a') ->
  let steps :=
    steps_of envs 0 (Z.to_nat (total_rounds ctx)) (length (t_phases (template ctx))) in
  Forall (fun r => is_ok r.2 = true) (advances steps rid s).1
  /\ (exists final,
         store_runs (advances steps rid s).2 !! rid = Some final
         /\ store_runs a' !! rid = Some final_copy
         /\ final_copy = with_mode RunMode.auto final)
  /\ store_final_records (advances steps rid s).2 = store_final_records a'
  /\ _context (advances steps rid s).2 !! rid = None
  /\ _progress (advances steps rid s).2 !! rid = None.
Proof.
  intros Hs Hfresh Hca Ha Hfa Hauto.
  pose proof Hs as [Hctx Hrun Hmode Hstatus Hcur Hri Hlen Hpi Hphase].
  destruct (Z.to_nat (total_rounds ctx)) as [|todo] eqn:Etotal; [lia|].
  (* the auto loop, from its first round on *)
  unfold _run_to_completion in Hauto. rewrite Hca, Ha in Hauto.
  destruct ((do _ <- rounds_loop envs rid 0 (Z.to_nat (total_rounds ctx)); _finalize rid) a)
    as [[[]|e] a_fin] eqn:Eloop.
  2:{ rewrite <- mbind_assoc, (mbind_raise _ _ _ _ _ Eloop) in Hauto. discriminate. }
  rewrite <- mbind_assoc, (mbind_ok _ _ _ _ _ Eloop) in Hauto.
  inversion Hauto; subst a'. clear Hauto.
  rewrite Etotal in Eloop.
  pose proof (auto_round_start envs rid ctx (with_mode RunMode.auto run) todo a Hca Ha)
    as Hstart.
  cbv zeta in Hstart. cbn [run_rounds with_mode] in Hstart. rewrite Hfresh in Hstart.
  cbn [length] in Hstart. rewrite Hstart in Eloop.
  destruct (t_phases (template ctx)) as [|phase0 rest0] eqn:Eph; [discriminate|].
  assert (phase0 = phase) as ->
      by (change (Some phase0 = Some phase) in Hphase; congruence).
  assert (Hin : in_step envs rid ctx RunMode.auto a_fin 0 0 phase rest0 todo s
                  (set_runs
                     (insert rid (with_rounds (fun rs => rs ++ [new_round (Z.of_nat 0 + 1)])
                                    (with_mode RunMode.auto run))) a)).
  { split.
    - exists run. split; [exact Hs|]. split.
      + rewrite with_round_at_length by (rewrite Hfresh; simpl; lia). rewrite Hfresh.
        reflexivity.
      + split; fields; [congruence|exact Hfa|].
        eexists. rewrite !lookup_insert_eq. split; [reflexivity|].
        f_equal. unfold with_round_at. rewrite Hfresh. reflexivity.
    - rewrite Eph. reflexivity.
    - lia.
    - eexists. exact Eloop. }
  destruct (sim_all envs rid ctx RunMode.auto a_fin todo rest0 0 0 phase s _ Hin)
    as (Hall & [_ Hf (final & Hfinal_s & Hfinal_a)] & Hc & Hp).
  rewrite Eph in Hall, Hf, Hfinal_s, Hc, Hp. cbn [length] in *.
  rewrite steps_of_cons.
  split; [exact Hall|]. split; [|split; [symmetry; exact Hf|split; [exact Hc|exact Hp]]].
  exists final. split; [exact Hfinal_s|]. unfold current. rewrite Hfinal_a. cbn [default from_option id].
  (* the copy that the loop returns is the run it completed *)
  destruct (rounds_loop envs rid 0 (S todo) a) as [[[]|e] a1] eqn:Erounds.
  2:{ rewrite <- Hstart, (mbind_raise _ _ _ _ _ Erounds) in Eloop. discriminate. }
  rewrite <- Hstart, (mbind_ok _ _ _ _ _ Erounds) in Eloop.
  destruct (rounds_loop_ok envs rid ctx (S todo) 0 a a1 _ Hca Ha Erounds)
    as (news & Hc1 & _ & _ & Hrun1 & _).
  destruct (finalize_ok rid a1 a_fin ctx _ ltac:(congruence) Hrun1 Eloop)
    as (outcome & _ & Hfin & _).
  rewrite Hfinal_a in Hfin.
  assert (with_mode RunMode.auto final
          = with_status RunStatus.completed
              (with_rounds (fun _ => run_rounds (with_mode RunMode.auto run) ++ news)
                 (with_mode RunMode.auto run))) as Heq by congruence.
  rewrite Heq. split; reflexivity.
Qed.

(** ** More facts: a bare prefix decides *)

Lemma dropwhile_snoc (p : N -> bool) (l : list N) (c : N) :
  p c = false -> dropwhile p (l ++ [c]) = dropwhile p l ++ [c].
Proof.
  intros Hc. induction l as [|d l IH]; simpl; [rewrite Hc; reflexivity|].
  destruct (p d); [exact IH|reflexivity].
Qed.

Lemma rstrip_cons (p : N -> bool) (c : N) (l : list N) :
  p c = false -> rstrip_with p (c :: l) = c :: rstrip_with p l.
Proof.
  intros Hc. unfold rstrip_with. simpl rev. rewrite (dropwhile_snoc p _ c Hc).
  rewrite rev_app_distr. reflexivity.
Qed.

Lemma plain_letter_facts (c : N) :
  plain_letter c = true ->
  isspace c = false /\ islinebreak c = false /\ mem c markers = false /\ isascii c = true.
Proof.
  unfold plain_letter. intros H.
  apply andb_true_iff in H as [H H4]. apply andb_true_iff in H as [H H3].
  apply andb_true_iff in H as [H1 H2].
  apply negb_true_iff in H1, H2, H3. auto.
Qed.

Lemma rstrip_word (w l : list N) :
  forallb plain_letter w = true ->
  rstrip_with isspace (w ++ l) = w ++ rstrip_with isspace l.
Proof.
  induction w as [|c w IH]; intros H; [reflexivity|].
  simpl in H. apply andb_true_iff in H as [Hc Hw].
  destruct (plain_letter_facts c Hc) as (Hs & _).
  simpl app. rewrite rstrip_cons by exact Hs. rewrite IH by exact Hw. reflexivity.
Qed.

Lemma strip_word (c : N) (w l : list N) :
  forallb plain_letter (c :: w) = true ->
  exists t, strip ((c :: w) ++ l) = (c :: w) ++ t.
Proof.
  intros H. unfold strip. rewrite rstrip_word by exact H.
  simpl in H. apply andb_true_iff in H as [Hc _].
  destruct (plain_letter_facts c Hc) as (Hs & _).
  unfold lstrip_with. simpl. rewrite Hs. eauto.
Qed.

Lemma splitlines_from_word (w l : list N) :
  forallb plain_letter w = true ->
  forall cur, splitlines_from cur (w ++ l) = splitlines_from (rev w ++ cur) l.
Proof.
  induction w as [|c w IH]; intros H cur; [reflexivity|].
  simpl in H. apply andb_true_iff in H as [Hc Hw].
  destruct (plain_letter_facts c Hc) as (_ & Hl & _).
  simpl. rewrite Hl, IH by exact Hw. rewrite <- app_assoc. reflexivity.
Qed.

Lemma splitlines_word (c : N) (w l : list N) :
  forallb plain_letter (c :: w) = true ->
  exists t rest, splitlines ((c :: w) ++ l) = ((c :: w) ++ t) :: rest.
Proof.
  intros H. unfold splitlines. rewrite splitlines_from_word by exact H.
  destruct (splitlines_from_head l (rev (c :: w) ++ [])) as (t & rest & E).
  { rewrite app_nil_r. simpl. destruct (rev w); discriminate. }
  rewrite E, app_nil_r, rev_involutive. eauto.
Qed.

Lemma lower_from_word (w l : list N) :
  forallb plain_letter w = true ->
  forall before,
    lower_from before (w ++ l) = List.map ascii_lower w ++ lower_from (rev w ++ before) l.
Proof.
  induction w as [|c w IH]; intros H before; [reflexivity|].
  simpl in H. apply andb_true_iff in H as [Hc Hw].
  destruct (plain_letter_facts c Hc) as (_ & _ & _ & Ha).
  simpl. rewrite Ha, IH by exact Hw. rewrite <- app_assoc. reflexivity.
Qed.

(** The cleaned, lower-cased line of a text that begins with a word of
    letters begins with the word, lower-cased. *)
Lemma parse_vote_word (c : N) (w l : list N) :
  forallb plain_letter (c :: w) = true ->
  exists u,
    _parse_vote ((c :: w) ++ l)
    = Ok (match scan (List.map ascii_lower (c :: w) ++ u) with
          | Some v => v
          | None => prefix_vote (List.map ascii_lower (c :: w) ++ u)
          end).
Proof.
  intros H.
  destruct (strip_word c w l H) as (t1 & E1).
  destruct (splitlines_word c w t1 H) as (t2 & rest & E2).
  destruct (strip_word c w t2 H) as (t3 & E3).
  exists (lower_from (rev (c :: w) ++ []) t3).
  rewrite (parse_vote_scan ((c :: w) ++ l) ((c :: w) ++ t2) rest);
    [|discriminate|rewrite E1; exact E2].
  assert (lstrip markers ((c :: w) ++ t2) = (c :: w) ++ t2) as ->.
  { simpl in H. apply andb_true_iff in H as [Hc _].
    destruct (plain_letter_facts c Hc) as (_ & _ & Hm & _).
    unfold lstrip, lstrip_with. change ((c :: w) ++ t2) with (c :: (w ++ t2)).
    cbn [dropwhile]. rewrite Hm. reflexivity. }
  rewrite E3. unfold lower. rewrite lower_from_word by exact H. reflexivity.
Qed.

Lemma scan_bare_no (u : list N) :
  match scan (py "no" ++ u) with
  | Some v => v
  | None => prefix_vote (py "no" ++ u)
  end = VoteValue.no.
Proof.
  unfold scan, scan_after.
  change (startswith (py "vote") (py "no" ++ u)) with false.
  change (startswith (py "my vote") (py "no" ++ u)) with false.
  change (startswith (py "i vote") (py "no" ++ u)) with false.
  cbv iota.
  change (scan_from (py "no" ++ u)) with (if word_ends u then Some VoteValue.no else None).
  change (prefix_vote (py "no" ++ u)) with VoteValue.no.
  destruct (word_ends u); reflexivity.
Qed.

Lemma scan_bare_yes (u : list N) :
  match scan (py "yes" ++ u) with
  | Some v => v
  | None => prefix_vote (py "yes" ++ u)
  end = VoteValue.yes.
Proof.
  unfold scan, scan_after.
  change (startswith (py "vote") (py "yes" ++ u)) with false.
  change (startswith (py "my vote") (py "yes" ++ u)) with false.
  change (startswith (py "i vote") (py "yes" ++ u)) with false.
  cbv iota.
  change (scan_from (py "yes" ++ u)) with (if word_ends u then Some VoteValue.yes else None).
  change (prefix_vote (py "yes" ++ u)) with VoteValue.yes.
  destruct (word_ends u); reflexivity.
Qed.

(** X22: a bare prefix decides, whatever follows.  A text that begins
    with the letters [no], in either case, is a vote against, and one
    that begins with [yes] is a vote for, whatever comes after the
    letters on the line or on the later lines: where the pattern finds no
    whole word, the bare prefix is taken. *)
Theorem bare_prefix_decides (text : list N) :
  (begins_with (py "no") text -> _parse_vote text = Ok VoteValue.no)
  /\ (begins_with (py "yes") text -> _parse_vote text = Ok VoteValue.yes).
Proof.
  assert (forall c l, ascii_lower c = l -> (l <? 128)%N = true -> (97 <=? l)%N = true ->
                      c = l \/ c = (l - 32)%N) as Hcase.
  { intros c l <- Hl Ha. unfold ascii_lower in *.
    destruct ((65 <=? c)%N && (c <=? 90)%N) eqn:E; [right; lia|left; reflexivity]. }
  split; intros (head & rest & -> & Hw).
  - destruct head as [|c1 [|c2 [|? ?]]]; try discriminate.
    injection Hw as H1 H2.
    apply Hcase in H1 as [->| ->]; [| |reflexivity|reflexivity];
      (apply Hcase in H2 as [->| ->]; [| |reflexivity|reflexivity]);
      match goal with
      | |- _parse_vote (?w ++ rest) = _ =>
          destruct (parse_vote_word _ _ rest (eq_refl : forallb plain_letter w = true))
            as (u & ->)
      end;
      exact (f_equal Ok (scan_bare_no u)).
  - destruct head as [|c1 [|c2 [|c3 [|? ?]]]]; try discriminate.
    injection Hw as H1 H2 H3.
    apply Hcase in H1 as [->| ->]; [| |reflexivity|reflexivity];
      (apply Hcase in H2 as [->| ->]; [| |reflexivity|reflexivity]);
      (apply Hcase in H3 as [->| ->]; [| |reflexivity|reflexivity]);
      match goal with
      | |- _parse_vote (?w ++ rest) = _ =>
          destruct (parse_vote_word _ _ rest (eq_refl : forallb plain_letter w = true))
            as (u & ->)
      end;
      exact (f_equal Ok (scan_bare_yes u)).
Qed.

(** ** More facts: two advances of a run in flight *)

Lemma outputs_at_appended (rid : list N) (pos : nat) (outs old : list PhaseOutput)
      (o o' : Orch) :
  appended rid pos outs o o' -> outputs_at rid pos o = Some old ->
  outputs_at rid pos o' = Some (old ++ outs).
Proof.
  intros [_ _ _ Hrun]. unfold outputs_at.
  destruct (store_runs o !! rid) as [run|] eqn:E; [|discriminate].
  destruct (run_rounds run !! pos) as [r|] eqn:Er; [|discriminate].
  intros H. inversion H; subst old.
  destruct (Hrun run eq_refl) as (rounds' & -> & _ & _ & Hpos).
  destruct (Hpos r Er) as (r' & Hr' & _ & Houts). cbn [run_rounds with_rounds].
  rewrite Hr', Houts. reflexivity.
Qed.

Lemma outputs_at_run (rid : list N) (pos : nat) (old : list PhaseOutput) (o : Orch) :
  outputs_at rid pos o = Some old ->
  exists run, store_runs o !! rid = Some run /\ (pos < length (run_rounds run))%nat.
Proof.
  unfold outputs_at. destruct (store_runs o !! rid) as [run|]; [|discriminate].
  destruct (run_rounds run !! pos) as [r|] eqn:Er; [|discriminate].
  intros _. exists run. split; [reflexivity|]. exact (lookup_lt_Some _ _ _ Er).
Qed.

(** Finalization leaves the rounds alone, and where the run is there, it
    leaves no context behind. *)
Lemma outputs_at_finalize (rid : list N) (pos : nat) (o o' : Orch) (r : result unit) :
  _finalize rid o = (r, o') -> outputs_at rid pos o' = outputs_at rid pos o.
Proof.
  unfold _finalize, outputs_at.
  destruct (store_runs o !! rid) as [run|] eqn:Er.
  2:{ intros H. inversion H; subst. rewrite Er. reflexivity. }
  destruct (_context o !! rid) as [ctx|].
  2:{ intros H. inversion H; subst. rewrite Er. reflexivity. }
  cbv zeta. destruct (make_FinalRecord _ _ _); intros H; inversion H; subst; fields;
    rewrite lookup_alter_eq, Er; reflexivity.
Qed.

Lemma finalize_no_context (rid : list N) (o o' : Orch) (run : DebateRun) :
  store_runs o !! rid = Some run -> _finalize rid o = (Ok tt, o') ->
  _context o' !! rid = None.
Proof.
  intros Hrun. unfold _finalize. rewrite Hrun.
  destruct (_context o !! rid) as [ctx|] eqn:Ec.
  - cbv zeta. destruct (make_FinalRecord _ _ _); [|discriminate].
    intros H. inversion H; subst. fields. apply lookup_delete_eq.
  - intros H. inversion H; subst. exact Ec.
Qed.

Lemma finalize_without_context (rid : list N) (o : Orch) :
  _context o !! rid = None -> _finalize rid o = (Ok tt, o).
Proof.
  intros Hc. unfold _finalize. rewrite Hc. destruct (store_runs o !! rid); reflexivity.
Qed.

(** The outputs of the calls in flight name those the calls are made
    to. *)
Lemma speakers_of_zip (phase : PhaseSpec) (pending : list (Participant * list Message)) :
  forall replies : list reply,
    length replies = length pending ->
    List.map (fun t => speaker (let '(p, _, r) := t in phase_output phase p r))
      (zip pending replies)
    = List.map (callee phase) pending.
Proof.
  induction pending as [|[p msgs] pending IH]; intros [|r replies] Hlen;
    try discriminate; [reflexivity|].
  simpl. f_equal. apply IH. simpl in Hlen. lia.
Qed.

Lemma outputs_in_speakers (env : PhaseEnv) (phase : PhaseSpec)
      (pending : list (Participant * list Message)) :
  List.map speaker (outputs_in env phase pending) ≡ₚ List.map (callee phase) pending.
Proof.
  unfold outputs_in. rewrite map_map.
  assert (Hlen : length (replies_of env pending) = length pending)
    by (unfold replies_of; apply length_imap).
  rewrite (Permutation_map _
             (as_completed_perm (length pending) (pe_order env)
                (zip pending (replies_of env pending))
                ltac:(rewrite length_zip; lia))).
  rewrite <- (speakers_of_zip phase pending (replies_of env pending) Hlen).
  reflexivity.
Qed.

(** The outputs of the calls to the whole roster are the outputs of the
    phase. *)
Lemma outputs_in_dispatch (env : PhaseEnv) (template_ : DebateTemplate) (phase : PhaseSpec)
      (run : DebateRun) (round_index : Z) (rid : list N) (o : Orch) :
  outputs_in env phase (dispatch template_ phase run round_index)
  = outputs_of_phase env template_ phase run round_index.
Proof.
  pose proof (execute_phase_outputs env template_ phase rid run round_index 0 o) as He.
  rewrite execute_phase_zip in He. cbv zeta in He. congruence.
Qed.

(** What follows the phase in [advance], when it returns: the outputs of
    the round are as the phase left them; past the last round no context
    is left; and where no context was there to finalize, the cursor is
    set and nothing else changes. *)
Lemma step_tail (moderator_reply : reply) (rid : list N) (run0 : DebateRun) (ctx : RunContext)
      (ri : nat) (phase_idx : Z) (phase : PhaseSpec) (outs old : list PhaseOutput)
      (o o' : Orch) (response : AdvanceDebateResponse) :
  outputs_at rid ri o = Some old ->
  (do _ <- step_votes rid (Z.of_nat ri) phase outs;
   do _ <- (if last_phase ctx phase_idx then
              do _ <- match t_moderator (template ctx) with
                      | Some _ =>
                          do _ <- step_round rid (Z.of_nat ri);
                          step_summary rid (Z.of_nat ri) moderator_reply
                      | None => ret tt
                      end;
              step_finish rid ctx (Z.of_nat ri + 1)%Z 0%Z
            else step_finish rid ctx (Z.of_nat ri) (phase_idx + 1)%Z);
   respond rid run0) o = (Ok response, o') ->
  let next := next_cursor ctx (Z.of_nat ri) phase_idx in
  outputs_at rid ri o' = Some old
  /\ ((total_rounds ctx <=? next.1)%Z = true -> _context o' !! rid = None)
  /\ (((total_rounds ctx <=? next.1)%Z = true -> _context o !! rid = None) ->
      _progress o' !! rid = Some next
      /\ store_final_records o' = store_final_records o
      /\ _context o' !! rid = _context o !! rid).
Proof.
  intros Hold H. cbv zeta.
  destruct (outputs_at_run _ _ _ _ Hold) as (run2 & Hrun2 & Hlt).
  destruct (step_votes_cases rid (Z.of_nat ri) phase outs run2 o Hrun2 ltac:(lia))
    as [(o3 & Hv & A3)|[Hv _]].
  2:{ rewrite (mbind_raise _ _ _ _ _ Hv) in H. discriminate. }
  rewrite (mbind_ok _ _ _ _ _ Hv) in H. rewrite Nat2Z.id in A3.
  destruct (appended_length _ _ _ _ _ _ A3 Hrun2) as (run3 & Hrun3 & Hlen3).
  assert (exists o4,
             appended rid ri [] o3 o4
             /\ (do _ <- step_finish rid ctx (next_cursor ctx (Z.of_nat ri) phase_idx).1
                           (next_cursor ctx (Z.of_nat ri) phase_idx).2;
                 respond rid run0) o4 = (Ok response, o')) as (o4 & A4 & Hfinish).
  { unfold next_cursor. destruct (last_phase ctx phase_idx); cbn [fst snd].
    - rewrite mbind_assoc in H. destruct (t_moderator (template ctx)).
      + destruct (step_summary_cases rid (Z.of_nat ri) moderator_reply run3 o3 Hrun3
                    ltac:(lia)) as [(o4 & Hs & A4)|(msg & Hs & _)].
        * rewrite (mbind_ok _ _ _ _ _ Hs) in H. rewrite Nat2Z.id in A4. eauto.
        * rewrite (mbind_raise _ _ _ _ _ Hs) in H. discriminate.
      + rewrite (mbind_ok _ _ o3 o3 tt) in H by reflexivity.
        exists o3. split; [apply appended_refl|exact H].
    - exists o3. split; [apply appended_refl|exact H]. }
  clear H.
  assert (A : appended rid ri [] o o4)
    by exact (appended_trans _ _ [] [] _ _ _ A3 A4).
  pose proof (outputs_at_appended _ _ _ _ _ _ A Hold) as Hold4. rewrite app_nil_r in Hold4.
  destruct (outputs_at_run _ _ _ _ Hold4) as (run4 & Hrun4 & _).
  destruct A as [Ac _ Af _].
  set (next := next_cursor ctx (Z.of_nat ri) phase_idx) in *.
  unfold step_finish in Hfinish. rewrite mbind_assoc in Hfinish.
  set (o5 := set_progress (insert rid (next.1, next.2)) o4) in *.
  rewrite (mbind_ok _ _ o4 o5 tt) in Hfinish by reflexivity.
  assert (Hcur5 : _progress o5 !! rid = Some next)
    by (subst o5; fields; rewrite lookup_insert_eq; destruct next; reflexivity).
  destruct (total_rounds ctx <=? next.1)%Z.
  - destruct (_finalize rid o5) as [[[]|e] o6] eqn:Ef.
    2:{ rewrite (mbind_raise _ _ _ _ _ Ef) in Hfinish. discriminate. }
    rewrite (mbind_ok _ _ _ _ _ Ef) in Hfinish. unfold respond in Hfinish.
    inversion Hfinish; subst o'. split; [|split].
    + rewrite (outputs_at_finalize _ _ _ _ _ Ef). exact Hold4.
    + intros _. exact (finalize_no_context rid o5 o6 run4 Hrun4 Ef).
    + intros Hnone. specialize (Hnone eq_refl).
      assert (_context o5 !! rid = None) as Hc5 by (subst o5; fields; congruence).
      rewrite (finalize_without_context rid o5 Hc5) in Ef. inversion Ef; subst o6.
      split; [exact Hcur5|]. split; [exact Af|]. subst o5. fields. congruence.
  - rewrite (mbind_ok _ _ o5 o5 tt) in Hfinish by reflexivity. unfold respond in Hfinish.
    inversion Hfinish; subst o'. split; [exact Hold4|]. split; [discriminate|].
    intros _. split; [exact Hcur5|]. split; [exact Af|]. subst o5. fields. congruence.
Qed.

(** A coroutine suspended in its phase, run to its end with no other in
    between. *)
Lemma run_frame (env : PhaseEnv) (moderator_reply : reply) (rid : list N) (run0 : DebateRun)
      (ctx : RunContext) (round_idx phase_idx : Z) (phase : PhaseSpec) (pos : nat)
      (pending : list (Participant * list Message)) (got : list PhaseOutput) (o : Orch) :
  pending <> [] ->
  moderate moderator_reply
    (collect_all env
       (Ok (Suspended (AdvancePhase rid run0 ctx round_idx phase_idx phase pos pending got)), o))
  = let outs := outputs_in env phase pending in
    moderate moderator_reply
      (advance_after_phase rid run0 ctx round_idx phase_idx phase (got ++ outs)
         (fold_left (fun o' po => record_output rid pos po o') outs o)).
Proof.
  intros Hne. cbv zeta. f_equal.
  assert ((Ok (Suspended (AdvancePhase rid run0 ctx round_idx phase_idx phase pos pending got)),
           o)
          = advance_collect rid run0 ctx round_idx phase_idx phase pos pending got o) as ->
      by (destruct pending; [contradiction|reflexivity]).
  rewrite collect_all_collect.
  rewrite (collect_phase rid run0 ctx round_idx phase_idx phase pos (length pending));
    [reflexivity|reflexivity|].
  unfold replies_of. apply length_imap.
Qed.

Lemma advance_begin_at_cursor (rid : list N) (ctx : RunContext) (run : DebateRun)
      (ri : nat) (phase_idx : Z) (phase : PhaseSpec) (o : Orch) :
  at_cursor rid ctx run (Z.of_nat ri) phase_idx phase o ->
  let run1 := with_round_at (Z.of_nat ri) run in
  advance_begin rid o
  = advance_collect rid run ctx (Z.of_nat ri) phase_idx phase ri
      (dispatch (template ctx) phase run1 (Z.of_nat ri + 1)%Z) []
      (set_runs (insert rid run1) o).
Proof.
  intros Hs. cbv zeta. pose proof Hs as [Hctx Hrun Hmode Hstatus _ _ _ _ _].
  unfold advance_begin. rewrite Hctx, Hrun, Hmode, Hstatus. cbn [negb RunMode.eqb].
  rewrite (mbind_ok _ _ _ _ _ (at_cursor_prologue _ _ _ _ _ _ _ Hs)). rewrite Nat2Z.id.
  reflexivity.
Qed.

(** Past its phase, an [advance] has no call in flight, and no completion
    to wait for. *)
Lemma after_phase_not_in_flight (rid : list N) (run0 : DebateRun) (ctx : RunContext)
      (round_idx phase_idx : Z) (phase : PhaseSpec) (outputs : list PhaseOutput)
      (o o' : Orch) (f : frame) :
  advance_after_phase rid run0 ctx round_idx phase_idx phase outputs o
  = (Ok (Suspended f), o') ->
  calls_in_flight f = None.
Proof.
  unfold advance_after_phase, advance_end, mbind. cbv beta.
  destruct (step_votes rid round_idx phase outputs o) as [[[]|e] o1]; [|discriminate].
  cbv beta iota.
  destruct (last_phase ctx phase_idx); [destruct (t_moderator (template ctx)) as [moderator|]|].
  - destruct (step_round rid round_idx o1) as [[[]|e] o2]; [|discriminate].
    cbn [ret]. intros H. inversion H; subst. reflexivity.
  - destruct (step_finish rid ctx (round_idx + 1)%Z 0%Z o1) as [[[]|e] o4]; [|discriminate].
    cbv beta iota. unfold respond, ret.
    intros H. inversion H.
  - destruct (step_finish rid ctx round_idx (phase_idx + 1)%Z o1) as [[[]|e] o4];
      [|discriminate].
    cbv beta iota. unfold respond, ret.
    intros H. inversion H.
Qed.

Lemma completions_not_in_flight (ks : list (nat * reply)) (res : result outcome * Orch)
      (f1 : frame) (o1 : Orch) :
  (forall f o, res = (Ok (Suspended f), o) -> calls_in_flight f = None) ->
  completions ks res = Some (Ok (Suspended f1), o1) ->
  calls_in_flight f1 = None.
Proof.
  intros Hres. destruct ks as [|[k r] ks]; cbn [completions].
  - intros H. inversion H; subst. apply (Hres f1 o1). reflexivity.
  - destruct res as [[[f| |]|e] o]; try discriminate.
    pose proof (Hres f o eq_refl) as Hf.
    destruct f; try discriminate; cbn [resume]; discriminate.
Qed.

(** The run stands at the cursor whatever the round of the cursor gets. *)
Lemma appended_at_cursor (rid : list N) (pos : nat) (outs : list PhaseOutput) (o o' : Orch)
      (ctx : RunContext) (run : DebateRun) (round_idx phase_idx : Z) (phase : PhaseSpec) :
  appended rid pos outs o o' ->
  at_cursor rid ctx run round_idx phase_idx phase o ->
  exists run', at_cursor rid ctx run' round_idx phase_idx phase o'.
Proof.
  intros [Ac Ap Af Ar] [Hctx Hrun Hmode Hstatus Hcur Hri Hlen Hpi Hphase].
  destruct (Ar run Hrun) as (rounds' & Hrun' & Hlen' & _).
  exists (with_rounds (fun _ => rounds') run). split; try assumption; try congruence.
  cbn [run_rounds with_rounds]. lia.
Qed.

(** An [advance] that begins at a cursor is suspended in its phase, when
    the roster is not empty. *)
Lemma in_phase_begin (rid : list N) (ctx : RunContext) (run : DebateRun)
      (ri : nat) (phase_idx : Z) (phase : PhaseSpec) (o : Orch) :
  at_cursor rid ctx run (Z.of_nat ri) phase_idx phase o ->
  t_participants (template ctx) <> [] ->
  let run1 := with_round_at (Z.of_nat ri) run in
  in_phase rid ctx run1 ri phase_idx phase (rr_phase_outputs (round_at run (Z.of_nat ri)))
    (dispatch (template ctx) phase run1 (Z.of_nat ri + 1)%Z) []
    (set_runs (insert rid run1) o).
Proof.
  intros Hs Hne. cbv zeta. pose proof Hs as [Hctx Hrun Hmode Hstatus Hcur Hri Hlen Hpi Hphase].
  set (run1 := with_round_at (Z.of_nat ri) run).
  assert (Hlen1 : length (run_rounds run1) = Nat.max (length (run_rounds run)) (ri + 1)).
  { subst run1. rewrite with_round_at_length by lia. rewrite Nat2Z.id. reflexivity. }
  split.
  - split; fields; try assumption.
    + apply lookup_insert_eq.
    + subst run1. unfold with_round_at. destruct (_ <=? _)%Z; exact Hmode.
    + subst run1. unfold with_round_at. destruct (_ <=? _)%Z; exact Hstatus.
    + lia.
  - unfold dispatch. destruct (t_participants (template ctx)); [contradiction|discriminate].
  - unfold outputs_at. fields. rewrite lookup_insert_eq. subst run1.
    rewrite <- (Nat2Z.id ri) at 1. rewrite with_round_at_round by lia.
    rewrite app_nil_r. reflexivity.
  - cbn [List.map app]. unfold dispatch. rewrite map_map. reflexivity.
Qed.

(** A call completes and others are still in flight: the [advance] is
    still suspended in its phase. *)
Lemma in_phase_completion (rid : list N) (ctx : RunContext) (run : DebateRun)
      (ri : nat) (phase_idx : Z) (phase : PhaseSpec) (before : list PhaseOutput)
      (pending : list (Participant * list Message)) (got : list PhaseOutput) (o : Orch)
      (k : nat) (p : Participant) (msgs : list Message) (r : reply) :
  in_phase rid ctx run ri phase_idx phase before pending got o ->
  pending !! k = Some (p, msgs) ->
  delete k pending <> [] ->
  exists run',
    in_phase rid ctx run' ri phase_idx phase before (delete k pending)
      (got ++ [phase_output phase p r]) (record_output rid ri (phase_output phase p r) o).
Proof.
  intros [Hs Hne Hround Hroster] Hk Hrest.
  pose proof (appended_record rid ri [phase_output phase p r] o) as A. cbn [fold_left] in A.
  destruct (appended_at_cursor _ _ _ _ _ _ _ _ _ _ A Hs) as (run' & Hs').
  exists run'. split; [exact Hs'|exact Hrest| |].
  - rewrite (outputs_at_appended _ _ _ _ _ _ A Hround), app_assoc. reflexivity.
  - rewrite <- Hroster, map_app, <- app_assoc. apply Permutation_app_head.
    rewrite (Permutation_map (callee phase) (delete_Permutation pending k (p, msgs) Hk)).
    reflexivity.
Qed.

(** An [advance] suspended in its phase, after some of its calls have
    completed: when it is still waiting for calls, it is suspended in the
    same phase, with one more output for each call that completed. *)
Lemma completions_in_phase (rid : list N) (ctx : RunContext) (run0 : DebateRun) (ri : nat)
      (phase_idx : Z) (phase : PhaseSpec) (before : list PhaseOutput)
      (f1 : frame) (o1 : Orch) (pending1 : list (Participant * list Message)) :
  forall (ks : list (nat * reply)) (run : DebateRun)
         (pending : list (Participant * list Message)) (got : list PhaseOutput) (o : Orch),
    in_phase rid ctx run ri phase_idx phase before pending got o ->
    completions ks
      (Ok (Suspended (AdvancePhase rid run0 ctx (Z.of_nat ri) phase_idx phase ri pending got)), o)
    = Some (Ok (Suspended f1), o1) ->
    calls_in_flight f1 = Some pending1 ->
    exists run1 got1,
      f1 = AdvancePhase rid run0 ctx (Z.of_nat ri) phase_idx phase ri pending1 got1
      /\ in_phase rid ctx run1 ri phase_idx phase before pending1 got1 o1
      /\ length got1 = (length got + length ks)%nat.
Proof.
  induction ks as [|[k r] ks IH]; intros run pending got o Hin Hc Hf.
  - cbn [completions] in Hc. inversion Hc; subst f1 o1. cbn [calls_in_flight] in Hf.
    injection Hf as <-. exists run, got. split; [reflexivity|].
    split; [exact Hin|]. simpl. lia.
  - cbn [completions resume] in Hc.
    destruct (pending !! k) as [[p msgs]|] eqn:Hk; [|discriminate].
    cbv zeta in Hc. unfold mbind at 1, modify in Hc. cbv beta iota in Hc.
    set (po := phase_output phase p r) in *.
    destruct (delete k pending) as [|c rest] eqn:Hd.
    + cbn [advance_collect] in Hc. exfalso.
      assert (calls_in_flight f1 = None) as Hnone; [|congruence].
      apply (completions_not_in_flight ks _ f1 o1) in Hc; [exact Hc|].
      intros f o' Hres. exact (after_phase_not_in_flight _ _ _ _ _ _ _ _ _ _ Hres).
    + destruct (in_phase_completion rid ctx run ri phase_idx phase before pending got o k p msgs r
                  Hin Hk ltac:(rewrite Hd; discriminate)) as (run' & Hin').
      fold po in Hin'. rewrite Hd in Hin'. cbn [advance_collect ret] in Hc.
      destruct (IH run' (c :: rest) (got ++ [po]) _ Hin' Hc Hf) as (run1 & got1 & Hf1 & Hin1 & Hl).
      exists run1, got1. split; [exact Hf1|]. split; [exact Hin1|].
      rewrite Hl, length_app. simpl. lia.
Qed.


(** ** More facts: the statuses in use *)

Lemma statuses_alter (rid : list N) (f : DebateRun -> DebateRun) (o : Orch) :
  (forall run, in_use (run_status run) -> in_use (run_status (f run))) ->
  keeps_statuses o (set_runs (alter f rid) o).
Proof.
  intros Hf Ho rid' run' H. fields.
  destruct (decide (rid = rid')) as [->|Hne].
  - rewrite lookup_alter_eq in H. destruct (store_runs o !! rid') as [run|] eqn:E;
      [|discriminate].
    inversion H; subst. apply Hf. exact (Ho _ _ E).
  - rewrite lookup_alter_ne in H by exact Hne. exact (Ho _ _ H).
Qed.

Lemma statuses_insert (rid : list N) (run : DebateRun) (o : Orch) :
  in_use (run_status run) -> keeps_statuses o (set_runs (insert rid run) o).
Proof.
  intros Hrun Ho rid' run' H. fields.
  destruct (decide (rid = rid')) as [->|Hne].
  - rewrite lookup_insert_eq in H. inversion H; subst. exact Hrun.
  - rewrite lookup_insert_ne in H by exact Hne. exact (Ho _ _ H).
Qed.

Lemma statuses_admitted (rid : list N) : admits rid keeps_statuses.
Proof.
  split; unfold keeps_statuses.
  - auto.
  - auto.
  - intros o r o' H Ho. unfold _finalize in H.
    destruct (store_runs o !! rid) as [run|]; [|inversion H; subst; exact Ho].
    destruct (_context o !! rid) as [ctx|]; [|inversion H; subst; exact Ho].
    cbv zeta in H.
    assert (statuses_in_use (set_runs (alter (with_status RunStatus.completed) rid) o)) as H1.
    { apply statuses_alter; [|exact Ho]. intros run0 _. right. left. reflexivity. }
    destruct (make_FinalRecord _ _ _); inversion H; subst; exact H1.
  - intros pos f o Hf. apply statuses_alter. intros run H. exact H.
  - intros run n o Hrun Ho. apply statuses_insert; [|exact Ho]. exact (Ho _ _ Hrun).
  - intros run o Hrun Ho. apply statuses_insert; [|exact Ho]. exact (Ho _ _ Hrun).
  - intros cur o Ho. exact Ho.
Qed.

Lemma statuses_start (payload : StartDebateRequest) (new_id : list N) (o : Orch) :
  store_runs o !! new_id = None ->
  keeps_statuses o (start_debate payload new_id o).2.
Proof.
  intros _ Ho. unfold start_debate.
  destruct (store_templates o !! req_template_id payload) as [template_|]; [|exact Ho].
  cbn [snd]. intros rid run H. fields.
  destruct (decide (new_id = rid)) as [->|Hne].
  - rewrite lookup_insert_eq in H. inversion H; subst. left. reflexivity.
  - rewrite lookup_insert_ne in H by exact Hne. exact (Ho _ _ H).
Qed.

Lemma statuses_cancel (rid : list N) (o : Orch) : keeps_statuses o (cancel rid o).2.
Proof.
  intros Ho. unfold cancel. destruct (store_runs o !! rid) as [run|]; [|exact Ho].
  cbn [snd].
  assert (statuses_in_use (set_runs (alter (with_status RunStatus.canceled) rid) o)) as H1.
  { apply statuses_alter; [|exact Ho]. intros run0 _. right. right. reflexivity. }
  exact H1.
Qed.

Lemma statuses_templates (f : gmap (list N) DebateTemplate -> gmap (list N) DebateTemplate)
      (o : Orch) :
  keeps_statuses o (set_templates f o).
Proof. intros Ho. exact Ho. Qed.

(** X24: the statuses in use.  In every state the engine can reach, every
    run of the store is running, completed or canceled: no request and no
    coroutine ever sets the status [failed], whatever a chat call, a tally
    or the final record raises, nor the status [pending]. *)
Theorem failed_is_never_set (c : Config) (rid : list N) (run : DebateRun) :
  reachable c ->
  store_runs (orch c) !! rid = Some run ->
  run_status run = RunStatus.running
  \/ run_status run = RunStatus.completed
  \/ run_status run = RunStatus.canceled.
Proof.
  intros (templates & evs & H) Hrun.
  assert (statuses_in_use (orch c)) as Hc.
  { apply (related_handle_all keeps_statuses statuses_admitted statuses_start
             statuses_cancel statuses_templates _ _ _ H).
    intros rid' run' H'. simpl in H'. rewrite lookup_empty in H'. discriminate. }
  exact (Hc _ _ Hrun).
Qed.

(** ** More facts: the verdict of a round *)

Lemma round_in_alter (rid : list N) (pos : nat) (f : RoundResult -> RoundResult) (o : Orch) :
  round_in rid pos (alter_round rid pos f o) = f <$> round_in rid pos o.
Proof.
  unfold round_in, alter_round. fields. rewrite lookup_alter_eq.
  destruct (store_runs o !! rid) as [run|]; [|reflexivity].
  cbn. rewrite list_lookup_alter, decide_True by reflexivity. reflexivity.
Qed.

Lemma round_in_record (rid : list N) (pos : nat) (outs : list PhaseOutput) :
  forall o r,
    round_in rid pos o = Some r ->
    exists r',
      round_in rid pos (fold_left (fun o' po => record_output rid pos po o') outs o) = Some r'
      /\ rr_phase_outputs r' = rr_phase_outputs r ++ outs
      /\ rr_votes r' = rr_votes r /\ rr_outcome r' = rr_outcome r.
Proof.
  induction outs as [|po outs IH]; intros o r Hr; simpl.
  - exists r. rewrite app_nil_r. auto.
  - destruct (IH (record_output rid pos po o) (append_output po r)) as (r' & Hr' & Ho & Hv & Hc).
    { unfold record_output. rewrite round_in_alter, Hr. reflexivity. }
    exists r'. split; [exact Hr'|]. cbn in Ho. rewrite Ho, <- app_assoc. auto.
Qed.

(** The loop over the phases of a round leaves in the round the tally of
    the last vote among them. *)
Lemma phases_loop_verdict (env : RoundEnv) (template_ : DebateTemplate) (rid : list N)
      (run : DebateRun) (round_index : Z) (pos : nat) (phases : list PhaseSpec) :
  forall i o o' r acc,
    phases_loop env template_ rid run round_index pos i phases o = (Ok tt, o') ->
    round_in rid pos o = Some r ->
    records_tally acc r ->
    exists r' news,
      round_in rid pos o' = Some r'
      /\ rr_phase_outputs r' = rr_phase_outputs r ++ news
      /\ records_tally (ballots (length (t_participants template_)) phases news acc) r'.
Proof.
  induction phases as [|phase rest IH]; intros i o o' r acc H Hr Hacc.
  - inversion H; subst. exists r, []. rewrite app_nil_r. auto.
  - cbn [phases_loop] in H.
    destruct (execute_phase_appended (re_phase env i) template_ phase rid
                (current rid run o) round_index pos o) as (outs & He & Hids).
    rewrite (mbind_ok _ _ _ _ _ He) in H.
    assert (Hn : length outs = length (t_participants template_)).
    { rewrite <- (length_map po_phase_id), Hids. apply repeat_length. }
    destruct (round_in_record rid pos outs o r Hr) as (r1 & Hr1 & Ho1 & Hv1 & Hc1).
    set (o1 := fold_left _ outs o) in *.
    destruct (round_votes rid pos phase outs o1) as [[[]|e] o2] eqn:Ev.
    2:{ rewrite (mbind_raise _ _ _ _ _ Ev) in H. discriminate. }
    rewrite (mbind_ok _ _ _ _ _ Ev) in H.
    assert (exists r2,
               round_in rid pos o2 = Some r2
               /\ rr_phase_outputs r2 = rr_phase_outputs r1
               /\ records_tally (if is_vote phase then Some outs else acc) r2)
      as (r2 & Hr2 & Ho2 & Hacc2).
    { unfold round_votes in Ev. unfold is_vote.
      destruct (PhaseRole.eqb (ph_role phase) PhaseRole.vote).
      - unfold mbind, lift, modify in Ev.
        destruct (_tally_votes outs) as [[votes outcome]|e] eqn:Et; [|discriminate].
        inversion Ev; subst o2. exists (with_votes votes outcome r1).
        rewrite round_in_alter, Hr1. split; [reflexivity|]. split; [reflexivity|].
        exists votes, outcome. auto.
      - inversion Ev; subst o2. exists r1. split; [exact Hr1|]. split; [reflexivity|].
        destruct acc as [cast|].
        + destruct Hacc as (votes & outcome & Ht & Hv & Hc). exists votes, outcome.
          split; [exact Ht|]. split; congruence.
        + destruct Hacc as [Hv Hc]. split; congruence. }
    destruct (IH _ _ _ _ _ H Hr2 Hacc2) as (r' & news & Hr' & Ho' & Hacc').
    exists r', (outs ++ news). split; [exact Hr'|]. split.
    + rewrite Ho', Ho2, Ho1, <- app_assoc. reflexivity.
    + cbn [ballots].
      replace (drop (length (t_participants template_)) (outs ++ news)) with news
        by (rewrite <- Hn, drop_app_length; reflexivity).
      replace (take (length (t_participants template_)) (outs ++ news)) with outs
        by (rewrite <- Hn, take_app_length; reflexivity).
      exact Hacc'.
Qed.

(** A round of the auto loop, when it returns, has added a round that
    records the tally of its own ballots. *)
Lemma execute_round_verdict (env : RoundEnv) (rid : list N) (o o' : Orch)
      (ctx : RunContext) (run : DebateRun) (r : RoundResult) :
  _context o !! rid = Some ctx ->
  store_runs o !! rid = Some run ->
  _execute_round env rid o = (Ok tt, o') ->
  store_runs o' !! rid = Some (with_rounds (fun _ => run_rounds run ++ [r]) run) ->
  verdict_recorded (template ctx) r.
Proof.
  intros Hctx Hrun H Hrun'. unfold _execute_round in H.
  pose proof (round_prologue_ok rid o ctx run Hctx Hrun) as Hp. cbv zeta in Hp.
  rewrite (mbind_ok _ _ _ _ _ Hp) in H.
  set (len := length (run_rounds run)) in *.
  set (run1 := with_rounds (fun rs => rs ++ [new_round (Z.of_nat len + 1)]) run) in *.
  set (o1 := set_runs (insert rid run1) o) in *.
  destruct (phases_loop env (template ctx) rid run1 (Z.of_nat len + 1) len 0
              (t_phases (template ctx)) o1) as [[[]|e] o2] eqn:E2;
    [rewrite (mbind_ok _ _ _ _ _ E2) in H|rewrite (mbind_raise _ _ _ _ _ E2) in H;
                                           discriminate].
  destruct (phases_loop_verdict _ _ _ _ _ _ _ _ _ _ (new_round (Z.of_nat len + 1)) None E2)
    as (r2 & news & Hr2 & Ho2 & Hacc2).
  { unfold round_in, o1. fields. rewrite lookup_insert_eq. unfold run1.
    cbn [run_rounds with_rounds]. rewrite lookup_app_r by reflexivity.
    unfold len. rewrite Nat.sub_diag. reflexivity. }
  { split; reflexivity. }
  cbn [rr_phase_outputs new_round app] in Ho2.
  assert (exists r3,
             round_in rid len o' = Some r3
             /\ rr_phase_outputs r3 = news
             /\ rr_votes r3 = rr_votes r2 /\ rr_outcome r3 = rr_outcome r2)
    as (r3 & Hr3 & Ho3 & Hv3 & Hc3).
  { destruct (t_moderator (template ctx)).
    - unfold round_summary, mbind, lift, modify in H.
      destruct (_moderator_summary (re_moderator env)) as [summary|e]; [|discriminate].
      inversion H; subst o'. exists (with_summary summary r2).
      rewrite round_in_alter, Hr2. auto.
    - inversion H; subst o'. exists r2. auto. }
  assert (r3 = r) as ->.
  { unfold round_in in Hr3. rewrite Hrun' in Hr3. cbn [run_rounds with_rounds] in Hr3.
    rewrite lookup_app_r in Hr3 by reflexivity. fold len in Hr3.
    rewrite Nat.sub_diag in Hr3. cbn in Hr3. congruence. }
  unfold verdict_recorded. rewrite Ho3.
  destruct (ballots _ _ news None) as [cast|].
  - destruct Hacc2 as (votes & outcome & Ht & Hv & Hc). exists votes, outcome.
    split; [exact Ht|]. split; congruence.
  - destruct Hacc2 as [Hv Hc]. split; congruence.
Qed.

Lemma rounds_loop_verdict (envs : nat -> RoundEnv) (rid : list N) (ctx : RunContext)
      (todo : nat) :
  forall i o o' run news,
    _context o !! rid = Some ctx ->
    store_runs o !! rid = Some run ->
    rounds_loop envs rid i todo o = (Ok tt, o') ->
    store_runs o' !! rid = Some (with_rounds (fun _ => run_rounds run ++ news) run) ->
    Forall (verdict_recorded (template ctx)) news.
Proof.
  induction todo as [|todo IH]; intros i o o' run news Hctx Hrun H Hrun'.
  - inversion H; subst. rewrite Hrun in Hrun'. inversion Hrun' as [Heq].
    assert (news = []) as ->.
    { apply (f_equal run_rounds) in Heq. cbn in Heq.
      apply (f_equal length) in Heq. rewrite length_app in Heq.
      destruct news; [reflexivity|simpl in Heq; lia]. }
    constructor.
  - cbn [rounds_loop] in H.
    destruct (_execute_round (envs i) rid o) as [[[]|e] o1] eqn:E1;
      [rewrite (mbind_ok _ _ _ _ _ E1) in H|rewrite (mbind_raise _ _ _ _ _ E1) in H;
                                             discriminate].
    destruct (execute_round_ok _ _ _ _ _ _ Hctx Hrun E1)
      as (r1 & C1 & _ & _ & R1 & _ & _).
    pose proof (execute_round_verdict _ _ _ _ _ _ _ Hctx Hrun E1 R1) as V1.
    assert (_context o1 !! rid = Some ctx) as Hctx1 by (rewrite C1; exact Hctx).
    destruct (rounds_loop_ok envs rid ctx todo _ _ _ _ Hctx1 R1 H)
      as (news1 & _ & _ & _ & R2 & _ & _).
    pose proof (IH _ _ _ _ news1 Hctx1 R1 H R2) as V2.
    cbn [run_rounds with_rounds] in R2.
    rewrite R2 in Hrun'. inversion Hrun' as [Heq].
    rewrite <- app_assoc in Heq. apply app_inv_head in Heq. subst news.
    constructor; assumption.
Qed.

(** X25: the outcome of a round is the tally of its last vote.  In every
    round that an auto run that runs to its end has added, the votes and
    the outcome recorded are those of the tally of the outputs of the last
    vote phase of the template, these outputs being found among the
    outputs of the round, one per participant for each phase; a round of
    a template without a vote phase records no votes and no outcome. *)
Theorem round_outcome_is_the_last_tally
        (envs : nat -> RoundEnv) (rid : list N) (o o' : Orch)
        (ctx : RunContext) (run final_copy : DebateRun) (k : nat) (r : RoundResult) :
  _context o !! rid = Some ctx ->
  store_runs o !! rid = Some run ->
  _run_to_completion envs rid o = (Ok final_copy, o') ->
  (length (run_rounds run) <= k)%nat ->
  run_rounds final_copy !! k = Some r ->
  verdict_recorded (template ctx) r.
Proof.
  intros Hctx Hrun H Hk Hr. unfold _run_to_completion in H. rewrite Hctx, Hrun in H.
  destruct (rounds_loop envs rid 0 (Z.to_nat (total_rounds ctx)) o) as [[[]|e] o1] eqn:E1;
    [rewrite (mbind_ok _ _ _ _ _ E1) in H|rewrite (mbind_raise _ _ _ _ _ E1) in H;
                                           discriminate].
  destruct (rounds_loop_ok _ _ _ _ _ _ _ _ Hctx Hrun E1)
    as (news & C1 & _ & _ & R1 & _ & _).
  pose proof (rounds_loop_verdict _ _ _ _ _ _ _ _ news Hctx Hrun E1 R1) as V.
  destruct (_finalize rid o1) as [[[]|e] o2] eqn:E2;
    [rewrite (mbind_ok _ _ _ _ _ E2) in H|rewrite (mbind_raise _ _ _ _ _ E2) in H;
                                           discriminate].
  destruct (finalize_ok rid o1 o2 ctx _ ltac:(congruence) R1 E2) as (outcome & _ & R2 & _).
  inversion H; subst final_copy o'. unfold current in Hr. rewrite R2 in Hr.
  cbn in Hr. rewrite lookup_app_r in Hr by exact Hk.
  rewrite Forall_forall in V. apply V. exact (list_elem_of_lookup_2 _ _ _ Hr).
Qed.

End Engine.

(** * The examples, on the ASCII runtime *)

Import PyStr.

Local Abbreviation advance_ := (advance_debate lower_ascii_only alnum_ascii_only outcome_value).
Local Abbreviation advances_ := (advances lower_ascii_only alnum_ascii_only outcome_value).
Local Abbreviation after_ := (after lower_ascii_only alnum_ascii_only outcome_value).
Local Abbreviation handle_ := (handle lower_ascii_only alnum_ascii_only outcome_value).
Local Abbreviation handle_all_ := (handle_all lower_ascii_only alnum_ascii_only outcome_value).
Local Abbreviation reachable_ := (reachable lower_ascii_only alnum_ascii_only outcome_value).

(** The store of the examples is what the engine, started empty, holds
    once the four templates are posted. *)
Example templates_posted :
  handle_all_ [AddTemplate two_phases; AddTemplate no_vote; AddTemplate one_vote;
               AddTemplate two_by_three] (initial ∅)
  = Some (initial templates).
Proof. reflexivity. Qed.

(** A step run of one round of one vote: the first [advance] finalizes the
    run and returns [done=true]; the second raises "debate not found". *)
Lemma advance_after_done_witness :
  let first := advance_ (all_say "yes") (Text []) (py "r") (started "one_vote" RunMode.step) in
  (exists response, first.1 = Ok response /\ done response = true)
  /\ status_of (py "r") first.2 = Some RunStatus.completed
  /\ advance_ (all_say "yes") (Text []) (py "r") first.2 = (Raise not_found, first.2).
Proof.
  cbv zeta.
  destruct (advance_ (all_say "yes") (Text []) (py "r") (started "one_vote" RunMode.step))
    as [[response|e] o'] eqn:E; simpl.
  - pose proof E as E'. vm_compute in E'. injection E' as Hr Ho.
    split; [exists response; split; [reflexivity|rewrite <- Hr; reflexivity]|].
    split; [rewrite <- Ho; vm_compute; reflexivity|].
    apply (advance_after_done_is_not_found lower_ascii_only alnum_ascii_only outcome_value
             (all_say "yes") (Text []) (py "r") (started "one_vote" RunMode.step) o' response
             RunStatus.running E).
    + vm_compute; reflexivity.
    + reflexivity.
    + rewrite <- Hr. reflexivity.
  - exfalso. vm_compute in E. discriminate.
Defined.

(** An auto run of two phases, at the start of its first round: the
    history of the prompts is the header of round 1, not the placeholder. *)
Lemma round_history_witness :
  match (round_prologue (py "r") (started "two_phases" RunMode.auto)).1 with
  | Ok (Some (_, round_index, _, run1)) =>
      round_index = 1%Z
      /\ _prior_round_transcript outcome_value run1 = py "Round 1 transcript:"
      /\ _prior_round_transcript outcome_value run1 <> placeholder
  | _ => False
  end.
Proof.
  destruct (round_prologue (py "r") (started "two_phases" RunMode.auto))
    as [[[[[[template_ round_index] pos] run1]|]|e] o1] eqn:E; simpl;
    try (vm_compute in E; discriminate).
  destruct (round_history_is_current_round outcome_value _ _ _ _ _ _ _ E)
    as (_ & _ & _ & Ht & Hp & _).
  assert (round_index = 1%Z) as Hri by (vm_compute in E; congruence).
  split; [exact Hri|]. split; [|exact Hp].
  rewrite Ht, Hri. reflexivity.
Defined.

(** The same run in step mode: the first prompt of round 1. *)
Example first_prompt_of_a_step_run :
  match (step_prologue (py "r") (started "two_phases" RunMode.step)).1 with
  | Ok (Some (ctx, round_idx, _, phase, _, run1)) =>
      List.map (fun '(p, messages) => List.map content messages)
        (dispatch outcome_value (template ctx) phase run1 (round_idx + 1)%Z)
      = List.map (fun p =>
                    [ py "You are a debater.";
                      py "[Round 1 - opening]" ++ [10%N] ++ py "Debate topic: Tabs or spaces"
                        ++ [10%N] ++ py "History:" ++ [10%N] ++ py "Round 1 transcript:"
                        ++ [10%N] ++ py "Phase prompt: Speak." ])
          roster
  | _ => False
  end.
Proof. vm_compute. reflexivity. Qed.

(** A step run of one round of one phase that is no vote: the only
    [advance] raises, the run is completed, and no final record is
    written. *)
Example finalize_without_vote_raises :
  let res := advance_ (all_say "I agree.") (Text []) (py "r") (started "no_vote" RunMode.step) in
  res.1 = Raise ValidationError
  /\ status_of (py "r") res.2 = Some RunStatus.completed
  /\ store_final_records res.2 = [].
Proof. vm_compute. repeat split. Qed.

(** A run of [two_by_three] after its first [advance]: the last round has
    no outcome, and finalization raises. *)
Lemma finalize_outcome_witness :
  let o := (advances_ [(all_say "I agree.", Text [])] (py "r")
              (started "two_by_three" RunMode.step)).2 in
  is_Some (store_runs o !! py "r")
  /\ is_Some (_context o !! py "r")
  /\ (_finalize (py "r") o).1 = Raise ValidationError
  /\ store_final_records (_finalize (py "r") o).2 = store_final_records o
  /\ status_of (py "r") (_finalize (py "r") o).2 = Some RunStatus.completed.
Proof.
  cbv zeta.
  set (o := (advances_ [(all_say "I agree.", Text [])] (py "r")
               (started "two_by_three" RunMode.step)).2).
  destruct (store_runs o !! py "r") as [run|] eqn:Er;
    [|exfalso; vm_compute in Er; discriminate].
  destruct (_context o !! py "r") as [ctx|] eqn:Ec;
    [|exfalso; vm_compute in Ec; discriminate].
  split; [eauto|]. split; [eauto|].
  pose proof (finalize_outcome (py "r") o run ctx Er Ec) as H. cbv zeta in H.
  assert (exists r, last (run_rounds run) = Some r /\ rr_outcome r = None) as (r & Hl & Hr).
  { vm_compute in Er. injection Er as <-. eexists. split; reflexivity. }
  rewrite Hl, Hr in H. destruct H as (Hs & Hraise & Hrec & _). auto.
Defined.

(** The auto run of two phases: cancel while the calls of [opening] are in
    flight, then let everything run.  The status stays canceled and no
    round is added. *)
Lemma cancel_stops_rounds_witness :
  let c := after_ opening_in_flight (initial templates) in
  let c1 := after_ [Cancel (py "r")] c in
  let c2 := after_ (three_replies "yes" ++ three_replies "no") c1 in
  is_Some (store_runs (orch c) !! py "r")
  /\ status_of (py "r") (orch c2) = Some RunStatus.canceled
  /\ round_count (py "r") (orch c2) = Some 1%nat.
Proof.
  cbv zeta.
  set (c := after_ opening_in_flight (initial templates)).
  set (c1 := after_ [Cancel (py "r")] c).
  set (c2 := after_ (three_replies "yes" ++ three_replies "no") c1).
  assert (is_Some (store_runs (orch c) !! py "r")) as Hrun by (vm_compute; eauto).
  assert (handle_ (Cancel (py "r")) c = Some c1) as H1 by (vm_compute; reflexivity).
  assert (handle_all_ (three_replies "yes" ++ three_replies "no") c1 = Some c2) as H2
      by (vm_compute; reflexivity).
  destruct (cancel_stops_rounds lower_ascii_only alnum_ascii_only outcome_value
              c c1 c2 (py "r") _ Hrun H1 H2) as (_ & Hs & Hn & _).
  split; [exact Hrun|]. split; [exact Hs|]. rewrite Hn. vm_compute. reflexivity.
Defined.

(** C3 fails as stated: in that trace, the three calls of [opening] are in
    flight when the run is canceled; once they are over the task goes on
    with [closing], whose three outputs land in the transcript of the
    canceled run. *)
Lemma cancel_does_not_stop_the_round :
  ~ stops_at_phase_boundary lower_ascii_only alnum_ascii_only outcome_value.
Proof.
  intros H.
  specialize (H templates opening_in_flight (py "r")
                (after_ opening_in_flight (initial templates))
                (after_ (opening_in_flight ++ [Cancel (py "r")]) (initial templates))
                (three_replies "yes" ++ three_replies "no")
                (after_ (opening_in_flight ++ [Cancel (py "r")]
                           ++ three_replies "yes" ++ three_replies "no")
                   (initial templates))).
  specialize (H ltac:(vm_compute; reflexivity) ltac:(vm_compute; reflexivity)
                ltac:(vm_compute; reflexivity)
                {| po_phase_id := py "closing"; po_participant_id := py "alice";
                   po_output := py "no" |}).
  vm_compute in H.
  destruct H as [[]|[H|[]]]; [tauto|discriminate H].
Qed.

(** The step run of one vote, finalized, then canceled. *)
Lemma terminal_status_witness :
  let c := after_ voted (initial templates) in
  let c' := after_ [Cancel (py "r")] c in
  reachable_ c
  /\ status_of (py "r") (orch c) = Some RunStatus.completed
  /\ status_of (py "r") (orch c') = Some RunStatus.canceled.
Proof.
  cbv zeta.
  set (c := after_ voted (initial templates)).
  set (c' := after_ [Cancel (py "r")] c).
  assert (reachable_ c) as Hreach by (exists templates, voted; vm_compute; reflexivity).
  assert (status_of (py "r") (orch c) = Some RunStatus.completed) as Hs
      by (vm_compute; reflexivity).
  split; [exact Hreach|]. split; [exact Hs|].
  apply (terminal_status_changed_by_cancel_only lower_ascii_only alnum_ascii_only outcome_value
           c c' (Cancel (py "r")) (py "r") RunStatus.completed Hreach).
  - vm_compute; reflexivity.
  - exact Hs.
  - reflexivity.
Defined.

(** C5 fails as stated: cancel on that completed run makes it canceled. *)
Lemma cancel_overwrites_completed :
  ~ terminal_status_is_final lower_ascii_only alnum_ascii_only outcome_value.
Proof.
  intros H.
  specialize (H (after_ voted (initial templates)) (Cancel (py "r"))
                (after_ (voted ++ [Cancel (py "r")]) (initial templates))
                (py "r") RunStatus.completed).
  specialize (H ltac:(exists templates, voted; vm_compute; reflexivity)
                ltac:(vm_compute; reflexivity) ltac:(vm_compute; reflexivity) eq_refl).
  vm_compute in H. discriminate H.
Qed.

(** The step run of [two_by_three], its three participants answering the
    same text at each of seven calls. *)
Lemma sixth_advance_witness :
  let o := started "two_by_three" RunMode.step in
  let envs := repeat (all_say "I agree.", Text []) 7 in
  stepping (py "r") {| template := two_by_three; total_rounds := 2 |} 0 0 o
  /\ (advances_ envs (py "r") o).1
     = [ (Some (0, 0)%Z, Ok false); (Some (0, 1)%Z, Ok false); (Some (0, 2)%Z, Ok false);
         (Some (1, 0)%Z, Ok false); (Some (1, 1)%Z, Ok false);
         (Some (1, 2)%Z, Raise ValidationError); (Some (2, 0)%Z, Ok true) ]
  /\ store_final_records (advances_ envs (py "r") o).2 = [].
Proof.
  cbv zeta.
  assert (stepping (py "r") {| template := two_by_three; total_rounds := 2 |} 0 0
            (started "two_by_three" RunMode.step)) as Hstep.
  { apply (start_debate_stepping (request "two_by_three" RunMode.step) (py "r")
             (orch (initial templates)) two_by_three); vm_compute; reflexivity. }
  split; [exact Hstep|].
  destruct (sixth_advance_raises lower_ascii_only alnum_ascii_only outcome_value
              (repeat (all_say "I agree.", Text []) 7) (py "r")
              {| template := two_by_three; total_rounds := 2 |}
              (started "two_by_three" RunMode.step) Hstep) as (H1 & _ & H3).
  - split; [reflexivity|]. repeat constructor; discriminate.
  - reflexivity.
  - reflexivity.
  - reflexivity.
  - split; [exact H1|]. rewrite H3. vm_compute. reflexivity.
Defined.

(** * More examples *)

(** Three ballots, two for and one against. *)
Lemma odd_valid_votes_witness :
  exists votes outcome,
    _tally_votes lower_ascii_only alnum_ascii_only
      [output_of "alice" "yes"; output_of "bob" "no"; output_of "carol" "Yes."]
    = Ok (votes, outcome)
    /\ length votes = 3%nat
    /\ (outcome = RoundOutcome.yes \/ outcome = RoundOutcome.no).
Proof.
  apply (odd_valid_votes_decide lower_ascii_only alnum_ascii_only
           [output_of "alice" "yes"; output_of "bob" "no"; output_of "carol" "Yes."]).
  - repeat (constructor; [vm_compute; auto|]). constructor.
  - reflexivity.
Defined.

(** The auto run of two phases, from the moment the calls of [opening]
    are in flight to the moment its task is over. *)
Lemma run_identity_witness :
  let c := after_ opening_in_flight (initial templates) in
  let c' := after_ (three_replies "yes" ++ three_replies "no") c in
  exists run run',
    store_runs (orch c) !! py "r" = Some run
    /\ store_runs (orch c') !! py "r" = Some run'
    /\ run_id run' = run_id run
    /\ run_template_id run' = run_template_id run
    /\ run_title run' = run_title run
    /\ run_topic run' = run_topic run
    /\ run_mode run' = run_mode run.
Proof.
  cbv zeta.
  set (c := after_ opening_in_flight (initial templates)).
  set (c' := after_ (three_replies "yes" ++ three_replies "no") c).
  assert (handle_all_ (three_replies "yes" ++ three_replies "no") c = Some c') as H
      by (vm_compute; reflexivity).
  destruct (store_runs (orch c) !! py "r") as [run|] eqn:E;
    [|exfalso; vm_compute in E; discriminate].
  destruct (run_identity_is_immutable lower_ascii_only alnum_ascii_only outcome_value
              _ _ _ _ _ H E) as (run' & Hrun' & Hid).
  exists run, run'. auto.
Defined.

(** The same run: the round it had when [opening] was in flight is there
    at the end, with the outputs of both phases. *)
Lemma transcript_witness :
  let c := after_ (opening_in_flight ++ three_replies "yes") (initial templates) in
  let c' := after_ (three_replies "no") c in
  exists run run',
    store_runs (orch c) !! py "r" = Some run
    /\ store_runs (orch c') !! py "r" = Some run'
    /\ (length (run_rounds run) <= length (run_rounds run'))%nat
    /\ forall i r,
        run_rounds run !! i = Some r ->
        exists r',
          run_rounds run' !! i = Some r'
          /\ rr_round_index r' = rr_round_index r
          /\ rr_phase_outputs r `prefix_of` rr_phase_outputs r'.
Proof.
  cbv zeta.
  set (c := after_ (opening_in_flight ++ three_replies "yes") (initial templates)).
  set (c' := after_ (three_replies "no") c).
  assert (handle_all_ (three_replies "no") c = Some c') as H by (vm_compute; reflexivity).
  destruct (store_runs (orch c) !! py "r") as [run|] eqn:E;
    [|exfalso; vm_compute in E; discriminate].
  destruct (transcript_is_append_only lower_ascii_only alnum_ascii_only outcome_value
              _ _ _ _ _ H E) as (run' & Hrun' & Hrest).
  exists run, run'. auto.
Defined.

(** The step run of one vote, once finalized: its final record. *)
Lemma final_records_witness :
  let c := after_ voted (initial templates) in
  store_final_records (orch c)
  = [ {| fr_debate_id := py "r"; fr_title := py "one_vote";
         fr_final_outcome := RoundOutcome.yes |} ]
  /\ NoDup (fr_debate_id <$> store_final_records (orch c))
  /\ forall f,
      f ∈ store_final_records (orch c) ->
      exists run,
        store_runs (orch c) !! fr_debate_id f = Some run
        /\ run_id run = fr_debate_id f
        /\ fr_title f = run_title run
        /\ _context (orch c) !! fr_debate_id f = None
        /\ (run_status run = RunStatus.completed \/ run_status run = RunStatus.canceled).
Proof.
  cbv zeta.
  set (c := after_ voted (initial templates)).
  assert (reachable_ c) as Hreach by (exists templates, voted; vm_compute; reflexivity).
  split; [vm_compute; reflexivity|].
  exact (final_records_are_of_finished_runs lower_ascii_only alnum_ascii_only outcome_value
           c Hreach).
Defined.

(** The same state: the run is returned, and an unknown id is not found. *)
Lemma get_debate_witness :
  let c := after_ voted (initial templates) in
  (exists run, get_debate (py "r") (orch c) = inl run)
  /\ get_debate (py "s") (orch c) = inr (py "debate not found").
Proof.
  cbv zeta.
  set (c := after_ voted (initial templates)).
  assert (reachable_ c) as Hreach by (exists templates, voted; vm_compute; reflexivity).
  split.
  - rewrite (get_debate_never_answers_closed lower_ascii_only alnum_ascii_only outcome_value
               c (py "r") Hreach).
    destruct (store_runs (orch c) !! py "r") as [run|] eqn:E; [eauto|].
    exfalso. vm_compute in E. discriminate.
  - rewrite (get_debate_never_answers_closed lower_ascii_only alnum_ascii_only outcome_value
               c (py "s") Hreach).
    destruct (store_runs (orch c) !! py "s") as [run|] eqn:E; [|reflexivity].
    exfalso. vm_compute in E. discriminate.
Defined.

(** A second run is started, and its task runs, beside the finished run
    [r]: the run [r] is as it was. *)
Lemma events_touch_their_run_witness :
  let c := after_ (voted ++ [Start (request "two_phases" RunMode.auto) (py "s")])
             (initial templates) in
  let c' := after_ [Resume 0 Scheduled] c in
  suspended c = [AutoCreated (py "s")]
  /\ store_runs (orch c') !! py "r" = store_runs (orch c) !! py "r"
  /\ _context (orch c') !! py "r" = _context (orch c) !! py "r"
  /\ _progress (orch c') !! py "r" = _progress (orch c) !! py "r".
Proof.
  cbv zeta.
  set (c := after_ (voted ++ [Start (request "two_phases" RunMode.auto) (py "s")])
              (initial templates)).
  set (c' := after_ [Resume 0 Scheduled] c).
  split; [vm_compute; reflexivity|].
  apply (events_touch_their_run_only lower_ascii_only alnum_ascii_only outcome_value
           (Resume 0 Scheduled) c c' (py "r")).
  - vm_compute; reflexivity.
  - intros H. vm_compute in H. discriminate.
Defined.

Local Abbreviation run_to_completion_ :=
  (_run_to_completion lower_ascii_only alnum_ascii_only outcome_value).

(** The step run of one phase that is no vote: its first [advance] raises
    the validation error of the final record. *)
Lemma advance_errors_witness :
  let o := started "no_vote" RunMode.step in
  let res := advance_ (all_say "I agree.") (Text []) (py "r") o in
  res.1 = Raise ValidationError
  /\ ((ValidationError = not_found /\ res.2 = o
       /\ (_context o !! py "r" = None \/ store_runs o !! py "r" = None))
      \/ (ValidationError = not_in_step_mode /\ res.2 = o
          /\ exists run, store_runs o !! py "r" = Some run /\ run_mode run = RunMode.auto)
      \/ (ValidationError = KeyError /\ cursor_missing (py "r") o)
      \/ ValidationError = IndexError
      \/ ValidationError = ValidationError
      \/ exists msg, Text [] = Failed msg /\ ValidationError = ChatError msg).
Proof.
  cbv zeta.
  destruct (advance_ (all_say "I agree.") (Text []) (py "r") (started "no_vote" RunMode.step))
    as [[response|e] o'] eqn:E.
  - exfalso. vm_compute in E. discriminate.
  - assert (e = ValidationError) as -> by (vm_compute in E; congruence).
    split; [reflexivity|].
    exact (advance_errors lower_ascii_only alnum_ascii_only outcome_value _ _ _ _ _ _ E).
Defined.

(** The finished step run of one vote: an [advance] on it raises, and not
    a [KeyError]. *)
Lemma advance_never_raises_key_error_witness :
  let c := after_ voted (initial templates) in
  reachable_ c
  /\ (advance_ (all_say "yes") (Text []) (py "r") (orch c)).1 <> Raise KeyError.
Proof.
  cbv zeta.
  set (c := after_ voted (initial templates)).
  assert (reachable_ c) as Hreach by (exists templates, voted; vm_compute; reflexivity).
  split; [exact Hreach|].
  exact (advance_never_raises_key_error lower_ascii_only alnum_ascii_only outcome_value
           c (all_say "yes") (Text []) (py "r") Hreach).
Defined.

(** The auto run of one phase that is no vote: its loop raises the
    validation error of the final record. *)
Lemma run_to_completion_errors_witness :
  let o := started "no_vote" RunMode.auto in
  let res := run_to_completion_ (always "I agree.") (py "r") o in
  res.1 = Raise ValidationError
  /\ ((ValidationError = not_found /\ res.2 = o
       /\ (_context o !! py "r" = None \/ store_runs o !! py "r" = None))
      \/ ValidationError = IndexError
      \/ ValidationError = ValidationError
      \/ exists i msg,
          re_moderator (always "I agree." i) = Failed msg /\ ValidationError = ChatError msg).
Proof.
  cbv zeta.
  destruct (run_to_completion_ (always "I agree.") (py "r") (started "no_vote" RunMode.auto))
    as [[final_copy|e] o'] eqn:E.
  - exfalso. vm_compute in E. discriminate.
  - assert (e = ValidationError) as -> by (vm_compute in E; congruence).
    split; [reflexivity|].
    exact (run_to_completion_errors lower_ascii_only alnum_ascii_only outcome_value
             _ _ _ _ _ E).
Defined.

(** A step run of [one_vote] requested with -1 rounds. *)
Lemma negative_rounds_witness :
  let o := orch (initial templates) in
  let o1 := (start_debate (request_rounds (-1)) (py "r") o).2 in
  exists run o2,
    advance_ (all_say "yes") (Text []) (py "r") o1 = (Ok {| debate := run; done := true |}, o2)
    /\ total_rounds <$> _context o1 !! py "r" = Some (-1)%Z
    /\ store_runs o2 !! py "r" = Some run
    /\ run_status run = RunStatus.completed
    /\ run_rounds run = []
    /\ store_final_records o2
       = store_final_records o
           ++ [ {| fr_debate_id := py "r"; fr_title := t_name one_vote;
                   fr_final_outcome := RoundOutcome.invalid |} ]
    /\ _context o2 !! py "r" = None.
Proof.
  apply (negative_rounds_finish_at_once lower_ascii_only alnum_ascii_only outcome_value
           (all_say "yes") (Text []) (request_rounds (-1)) (py "r") (orch (initial templates))
           one_vote (-1)%Z).
  - vm_compute; reflexivity.
  - reflexivity.
  - lia.
  - reflexivity.
Defined.

(** The topic of the request, when it has one, is the topic of the run. *)
Example topic_of_the_request :
  run_topic <$> store_runs (start_debate (request_rounds 2) (py "r") (orch (initial templates))).2
                  !! py "r"
  = Some (py "Vim or Emacs").
Proof. vm_compute. reflexivity. Qed.

(** The transcript of a round with its votes. *)
Example transcript_with_votes :
  _prior_round_transcript outcome_value
    {| run_id := py "r"; run_template_id := py "one_vote"; run_title := py "one_vote";
       run_topic := py "Tabs or spaces"; run_status := RunStatus.running;
       run_mode := RunMode.step;
       run_rounds :=
         [ {| rr_round_index := 1;
              rr_phase_outputs := [output_of "alice" "yes"; output_of "bob" "no"];
              rr_votes := Some [ vote_result lower_ascii_only alnum_ascii_only
                                   (output_of "alice" "yes");
                                 vote_result lower_ascii_only alnum_ascii_only
                                   (output_of "bob" "no") ];
              rr_outcome := Some RoundOutcome.tie;
              rr_moderator_summary := None |} ] |}
  = py "Round 1 transcript:" ++ [10]
      ++ py "- alice (ballot): yes" ++ [10]
      ++ py "- bob (ballot): no" ++ [10]
      ++ py "- Votes: YES 1 / NO 1 | Outcome: TIE".
Proof. vm_compute. reflexivity. Qed.

(** The step run of a template without phases: stuck from the start. *)
Lemma step_run_without_phases_witness :
  stuck (py "r") started_without_phases
  /\ exists o',
      advance_ (all_say "yes") (Text []) (py "r") started_without_phases
      = (Raise IndexError, o')
      /\ status_of (py "r") o' = status_of (py "r") started_without_phases
      /\ _context o' !! py "r" = _context started_without_phases !! py "r"
      /\ _progress o' !! py "r" = _progress started_without_phases !! py "r"
      /\ store_final_records o' = store_final_records started_without_phases
      /\ stuck (py "r") o'.
Proof.
  assert (stuck (py "r") started_without_phases) as H.
  { split.
    - eexists. split; [vm_compute; reflexivity|]. split; reflexivity.
    - eexists _, _, _. split; [vm_compute; reflexivity|].
      split; [reflexivity|]. split; [vm_compute; reflexivity|]. simpl. lia. }
  split; [exact H|].
  exact (step_run_without_phases_is_stuck lower_ascii_only alnum_ascii_only outcome_value
           (all_say "yes") (Text []) (py "r") started_without_phases H).
Defined.

(** The auto run of one round of one vote, every participant for. *)
Lemma auto_run_witness :
  let o := started "one_vote" RunMode.auto in
  exists ctx run final_copy o' news,
    _context o !! py "r" = Some ctx
    /\ store_runs o !! py "r" = Some run
    /\ run_to_completion_ (always "yes") (py "r") o = (Ok final_copy, o')
    /\ final_copy
       = with_status RunStatus.completed (with_rounds (fun _ => run_rounds run ++ news) run)
    /\ store_runs o' !! py "r" = Some final_copy
    /\ length news = Z.to_nat (total_rounds ctx)
    /\ (forall k r,
           news !! k = Some r ->
           rr_round_index r = Z.of_nat (length (run_rounds run) + k + 1)
           /\ filled (template ctx) (t_phases (template ctx)) (rr_phase_outputs r))
    /\ store_final_records o'
       = store_final_records o
           ++ [ {| fr_debate_id := run_id run; fr_title := run_title run;
                   fr_final_outcome := RoundOutcome.yes |} ]
    /\ _context o' !! py "r" = None
    /\ _progress o' !! py "r" = None.
Proof.
  cbv zeta.
  destruct (_context (started "one_vote" RunMode.auto) !! py "r") as [ctx|] eqn:Ec;
    [|exfalso; vm_compute in Ec; discriminate].
  destruct (store_runs (started "one_vote" RunMode.auto) !! py "r") as [run|] eqn:Er;
    [|exfalso; vm_compute in Er; discriminate].
  destruct (run_to_completion_ (always "yes") (py "r") (started "one_vote" RunMode.auto))
    as [[final_copy|e] o'] eqn:E; [|exfalso; vm_compute in E; discriminate].
  destruct (auto_run_completes lower_ascii_only alnum_ascii_only outcome_value
              _ _ _ _ _ _ _ Ec Er E)
    as (news & outcome & H1 & H2 & H3 & H4 & H5 & H6 & H7 & H8 & _).
  assert (store_final_records o'
          = [ {| fr_debate_id := py "r"; fr_title := py "one_vote";
                 fr_final_outcome := RoundOutcome.yes |} ]) as Hf.
  { pose proof E as E'. vm_compute in E'. injection E' as _ Ho. rewrite <- Ho.
    reflexivity. }
  assert (outcome = RoundOutcome.yes) as ->.
  { rewrite H5 in Hf. apply (f_equal (fun l => last l)) in Hf.
    rewrite last_snoc in Hf. simpl in Hf. congruence. }
  exists ctx, run, final_copy, o', news. auto 12.
Defined.

(** The template without phases is posted to the engine of the examples
    and a step run is started from it; a roster of two is refused. *)
Lemma template_lifecycle_witness :
  let c := initial templates in
  let payload := request "no_phases" RunMode.step in
  (exists c1 run o2,
      handle_ (AddTemplate no_phases) c = Some c1
      /\ start_debate payload (py "r") (orch c1) = (Ok run, o2)
      /\ template <$> _context o2 !! py "r" = Some no_phases
      /\ store_runs o2 !! py "r" = Some run
      /\ run_template_id run = t_id no_phases
      /\ run_title run = t_name no_phases
      /\ run_status run = RunStatus.running
      /\ run_rounds run = [])
  /\ template_valid
       {| t_id := py "pair"; t_name := py "pair"; t_topic := py "Tabs or spaces";
          t_rounds := 1; t_phases := [opening];
          t_participants := [participant "alice"; participant "bob"];
          t_moderator := None |} = false.
Proof.
  cbv zeta. split; [|reflexivity].
  apply (template_lifecycle lower_ascii_only alnum_ascii_only outcome_value
           (initial templates) no_phases (request "no_phases" RunMode.step) (py "r"));
    reflexivity.
Defined.

(** The step run of one round of one vote, at its start. *)
Lemma one_vote_at_start :
  at_cursor (py "r") {| template := one_vote; total_rounds := 1 |}
    {| run_id := py "r"; run_template_id := py "one_vote"; run_title := py "one_vote";
       run_topic := py "Tabs or spaces"; run_status := RunStatus.running;
       run_mode := RunMode.step; run_rounds := [] |}
    0 0 ballot (started "one_vote" RunMode.step).
Proof. split; try reflexivity; simpl; lia. Qed.

(** Every participant of the vote answers a blank: the tally raises, the
    outputs of the three participants stay and the run is still at the
    cursor (0, 0). *)
Lemma raising_advance_witness :
  let o := started "one_vote" RunMode.step in
  let r := advance_ (all_say " ") (Text (py "fine")) (py "r") o in
  r.1 = Raise IndexError
  /\ exists run' outs,
      at_cursor (py "r") {| template := one_vote; total_rounds := 1 |} run' 0 0 ballot r.2
      /\ (exists r', run_rounds run' !! 0%nat = Some r' /\ rr_phase_outputs r' = outs)
      /\ List.map speaker outs
         = [(py "ballot", py "alice"); (py "ballot", py "bob"); (py "ballot", py "carol")].
Proof.
  cbv zeta.
  destruct (advance_ (all_say " ") (Text (py "fine")) (py "r") (started "one_vote" RunMode.step))
    as [[response|e] o'] eqn:E; [exfalso; vm_compute in E; discriminate|].
  assert (e = IndexError) as -> by (vm_compute in E; congruence).
  destruct (raising_advance_keeps_its_outputs lower_ascii_only alnum_ascii_only outcome_value
              _ _ _ _ _ _ _ _ _ _ _ one_vote_at_start E ltac:(discriminate))
    as (_ & _ & run' & outs & Hs & [_ _ _ (r' & Hr' & _ & Houts)] & Hpin & _).
  split; [reflexivity|]. exists run', outs. split; [exact Hs|].
  split; [|rewrite Hpin; vm_compute; reflexivity].
  exists r'. split; [exact Hr'|]. rewrite Houts. reflexivity.
Defined.

(** Every participant of the vote votes for: the advance returns, the run
    is completed and its final record says YES. *)
Lemma returning_advance_witness :
  let o := started "one_vote" RunMode.step in
  let r := advance_ (all_say "yes") (Text (py "fine")) (py "r") o in
  exists response,
    r.1 = Ok response
    /\ done response = true
    /\ store_runs r.2 !! py "r" = Some (debate response)
    /\ run_status (debate response) = RunStatus.completed
    /\ _context r.2 !! py "r" = None
    /\ exists outcome,
        store_final_records r.2
        = [ {| fr_debate_id := py "r"; fr_title := py "one_vote";
               fr_final_outcome := outcome |} ].
Proof.
  cbv zeta.
  destruct (advance_ (all_say "yes") (Text (py "fine")) (py "r") (started "one_vote" RunMode.step))
    as [[response|e] o'] eqn:E; [|exfalso; vm_compute in E; discriminate].
  destruct (returning_advance_moves_the_cursor lower_ascii_only alnum_ascii_only outcome_value
              _ _ _ _ _ _ _ _ _ _ _ one_vote_at_start E)
    as (_ & run_mid & outs & _ & _ & _ & Hrun & Hcase).
  change (total_rounds {| template := one_vote; total_rounds := 1 |}
          <=? (next_cursor {| template := one_vote; total_rounds := 1 |} 0 0).1)%Z
    with true in Hcase.
  destruct Hcase as (Hresp & Hdone & Hc & _ & r & outcome & _ & _ & Hfin).
  exists response. split; [reflexivity|]. split; [exact Hdone|]. split; [exact Hrun|].
  split; [rewrite Hresp; reflexivity|]. split; [exact Hc|]. exists outcome. exact Hfin.
Defined.

(** The step run of two rounds of a phase of reactions and a vote,
    advanced four times, every participant voting for. *)
Lemma step_run_witness :
  let o := started_react_and_vote RunMode.step in
  let envs := repeat (all_say "yes", Text (py "fine")) 4 in
  List.map snd (advances_ envs (py "r") o).1 = [Ok false; Ok false; Ok false; Ok true]
  /\ exists final,
      store_runs (advances_ envs (py "r") o).2 !! py "r" = Some final
      /\ length (run_rounds final) = 2%nat.
Proof.
  cbv zeta.
  assert (at_cursor (py "r") {| template := react_and_vote; total_rounds := 2 |}
            {| run_id := py "r"; run_template_id := py "react_and_vote";
               run_title := py "react_and_vote"; run_topic := py "Tabs or spaces";
               run_status := RunStatus.running; run_mode := RunMode.step; run_rounds := [] |}
            0 0 opening (started_react_and_vote RunMode.step)) as Hs
      by (split; try reflexivity; simpl; lia).
  destruct (step_run_completes lower_ascii_only alnum_ascii_only outcome_value
              (repeat (all_say "yes", Text (py "fine")) 4)
              _ _ _ _ _ Hs eq_refl eq_refl)
    as (Hflags & final & r & outcome & Hfinal & _ & Hlen & _).
  { vm_compute. repeat constructor. }
  split; [exact Hflags|]. exists final. split; [exact Hfinal|exact Hlen].
Defined.

(** A step run and an auto run of two rounds of a phase of reactions and
    a vote, every participant voting for: four advances against the
    loop. *)
Lemma step_mode_agrees_witness :
  let s := started_react_and_vote RunMode.step in
  let a := started_react_and_vote RunMode.auto in
  let steps := steps_of (always "yes") 0 2 2 in
  exists final_copy a',
    run_to_completion_ (always "yes") (py "r") a = (Ok final_copy, a')
    /\ Forall (fun r => is_ok r.2 = true) (advances_ steps (py "r") s).1
    /\ (exists final,
           store_runs (advances_ steps (py "r") s).2 !! py "r" = Some final
           /\ store_runs a' !! py "r" = Some final_copy
           /\ final_copy = with_mode RunMode.auto final)
    /\ store_final_records (advances_ steps (py "r") s).2 = store_final_records a'.
Proof.
  cbv zeta.
  destruct (run_to_completion_ (always "yes") (py "r") (started_react_and_vote RunMode.auto))
    as [[final_copy|e] a'] eqn:E; [|exfalso; vm_compute in E; discriminate].
  exists final_copy, a'. split; [reflexivity|].
  assert (at_cursor (py "r") {| template := react_and_vote; total_rounds := 2 |}
            {| run_id := py "r"; run_template_id := py "react_and_vote";
               run_title := py "react_and_vote"; run_topic := py "Tabs or spaces";
               run_status := RunStatus.running; run_mode := RunMode.step; run_rounds := [] |}
            0 0 opening (started_react_and_vote RunMode.step)) as Hs
      by (split; try reflexivity; simpl; lia).
  destruct (step_mode_agrees_with_auto_mode lower_ascii_only alnum_ascii_only outcome_value
              (always "yes") (py "r") _ _ _ (started_react_and_vote RunMode.step)
              (started_react_and_vote RunMode.auto) a' final_copy
              Hs eq_refl eq_refl eq_refl eq_refl E)
    as (Hall & Hfinal & Hfin & _).
  split; [exact Hall|]. split; [exact Hfinal|exact Hfin].
Defined.

(** An answer that begins with the letters of a vote without being one. *)
Lemma bare_prefix_witness :
  _parse_vote lower_ascii_only alnum_ascii_only (py "Not sure, it depends") = Ok VoteValue.no
  /\ _parse_vote lower_ascii_only alnum_ascii_only (py "Yesterday I would have agreed")
     = Ok VoteValue.yes.
Proof.
  split.
  - apply (proj1 (bare_prefix_decides lower_ascii_only alnum_ascii_only
                    (py "Not sure, it depends"))).
    exists (py "No"), (py "t sure, it depends"). split; reflexivity.
  - apply (proj2 (bare_prefix_decides lower_ascii_only alnum_ascii_only
                    (py "Yesterday I would have agreed"))).
    exists (py "Yes"), (py "terday I would have agreed"). split; reflexivity.
Defined.


(** An auto run of one vote whose participants all answer a blank: the
    tally raises in the background task, the task is over, and the run is
    still running. *)
Lemma failed_is_never_set_witness :
  let evs := [Start (request "one_vote" RunMode.auto) (py "r"); Resume 0 Scheduled]
               ++ three_replies " " in
  let c := after_ evs (initial templates) in
  suspended c = []
  /\ exists run,
      store_runs (orch c) !! py "r" = Some run
      /\ run_status run = RunStatus.running
      /\ (run_status run = RunStatus.running
          \/ run_status run = RunStatus.completed
          \/ run_status run = RunStatus.canceled).
Proof.
  cbv zeta.
  set (evs := [Start (request "one_vote" RunMode.auto) (py "r"); Resume 0 Scheduled]
                ++ three_replies " ").
  set (c := after_ evs (initial templates)).
  assert (reachable_ c) as Hreach by (exists templates, evs; vm_compute; reflexivity).
  split; [vm_compute; reflexivity|].
  destruct (store_runs (orch c) !! py "r") as [run|] eqn:E;
    [|exfalso; vm_compute in E; discriminate].
  exists run. split; [reflexivity|]. split.
  - vm_compute in E. injection E as <-. reflexivity.
  - exact (failed_is_never_set lower_ascii_only alnum_ascii_only outcome_value
             c (py "r") run Hreach E).
Defined.

(** The auto run of two rounds of a phase of reactions and a vote, every
    participant answering yes: the second round records the tally of its
    three ballots, YES. *)
Lemma round_outcome_witness :
  let o := started_react_and_vote RunMode.auto in
  exists final_copy o' r,
    run_to_completion_ (always "yes") (py "r") o = (Ok final_copy, o')
    /\ run_rounds final_copy !! 1%nat = Some r
    /\ rr_outcome r = Some RoundOutcome.yes
    /\ verdict_recorded lower_ascii_only alnum_ascii_only react_and_vote r.
Proof.
  cbv zeta.
  destruct (run_to_completion_ (always "yes") (py "r") (started_react_and_vote RunMode.auto))
    as [[final_copy|e] o'] eqn:E; [|exfalso; vm_compute in E; discriminate].
  destruct (run_rounds final_copy !! 1%nat) as [r|] eqn:Er.
  2:{ exfalso. vm_compute in E. injection E as <- _. vm_compute in Er. discriminate. }
  exists final_copy, o', r. split; [reflexivity|]. split; [exact Er|]. split.
  - pose proof E as E'. pose proof Er as Er'.
    vm_compute in E'. injection E' as <- _. vm_compute in Er'. injection Er' as <-.
    reflexivity.
  - exact (round_outcome_is_the_last_tally lower_ascii_only alnum_ascii_only outcome_value
             (always "yes") (py "r") (started_react_and_vote RunMode.auto) o'
             {| template := react_and_vote; total_rounds := 2 |}
             {| run_id := py "r"; run_template_id := py "react_and_vote";
                run_title := py "react_and_vote"; run_topic := py "Tabs or spaces";
                run_status := RunStatus.running; run_mode := RunMode.auto; run_rounds := [] |}
             final_copy 1 r eq_refl eq_refl E ltac:(simpl; lia) Er).
Defined.

